(* ===== verification/_CoqProject ===== *)
-Q . S2P
Prelude.v
BitVec.v
RaftTypes.v
Persist.v
Logs.v
LogsSpec.v
Snapshots.v
Applied.v
ReplCounter.v
Roles.v
Gate.v
Votes.v
Election.v
Activation.v
Replicator.v
Cluster.v
RaftLogTheorems.v
RaftProtocolTheorems.v
PeerLog.v
PeerTurn.v
PeerStore.v
PeerVotes.v
LogMatching.v
RaftNet.v
RaftNetTheorems.v
ElectionSafety.v
KvSrv.v
KvRaft.v
MrCoordinator.v
MrWorker.v
MrThreads.v
MrThreadsProof.v
MrThreadsSim.v
MrThreadsTheorems.v
MrJob.v
Utf8.v
Digits.v
MrApps.v
MrTiming.v
Bitset.v
Checker.v
CheckerSpec.v
CheckerProof.v
CheckerOps.v
KvModel.v
CheckerTheorems.v
CheckerEvents.v
LinkedList.v
LinkedListProof.v
LinkedListSim.v
Visualize.v
VisualizeProof.v
Network.v
NetworkTheorems.v
LabGob.v
Tester.v
Agreement.v
Links.v
RaftConfig.v
KvConfig.v
KvSrvConfig.v
ShardConfig.v
TestRun.v
ShardKv.v
KvNet.v
KvNetCalls.v
KvLinear.v
KvNetProof.v
KvNetTheorems.v
Ticker.v
RaftTimer.v
HeartBeatTimer.v
