(* ===== verification/Prelude.v ===== *)
(** * A verification of the 6.5840 labs: Raft, key/value services, MapReduce

    The program (src/src/) is a Go implementation of the labs of MIT 6.5840.  A
    MapReduce coordinator (mr/) hands tasks to workers that run the plugins of
    mrapps/; a Raft peer (raft/) replicates a log; a single key/value server
    (kvsrv/) answers clerks exactly once over a lossy network; a key/value
    service on Raft (kvraft/) is under construction, and of a sharded one
    (shardctrler/, shardkv/) the clerks are there.  All of them talk over a
    simulated network (labrpc/) that encodes with labgob/, and are started, cut
    off and crashed by their packages' config.go; the tests check histories of
    operations for linearizability (porcupine/, models/).

    ** Style of the model

    Code is translated into functions of the state monad [M S A]: a run ends with
    a value ([Done]), aborts the process ([Panicked]: a failed assertion,
    log.Fatal, a run-time panic with its cause), or waits for a lock or channel
    for ever ([Blocked]).  Structs are records, enums are inductive types, slices
    and buffered channels are lists with Go's bounds and capacities, sync.RWMutex
    is its state, maps are [gmap]s.  int is Z; int32, uint8, uint16, uint32 and
    uint64 values are truncated where the code converts.  Goroutines are step
    relations over these functions, so theorems about runs hold for every
    interleaving.  Random names and numbers, times and what the scheduler picks
    are arguments.  Logging is left out.

    ** Files

    - Prelude: the monad with its rules for total correctness ([wp]), partial
      correctness ([post]) and relations that every run respects ([keeps], with
      a hint database), locks, slices, lemmas on lists.
    - BitVec (raft/bitvec.go).
    - RaftTypes: the data of package raft (common.go, ev.go, rpc.go, raft.go,
      log.go, persist.go).  Persist: persist.go, persister.go; gob's encoding is
      a class, [Gob], with the round trip it documents; [GobRegistered] says that
      the stored commands have registered types, and there is an instance of both.
    - Logs, Snapshots (raft/log.go): one definition per method of Logs and for
      newLogs.  LogsSpec: the abstract log, the list of all entries since index
      0, and [logs_rep], the relation to the compacted log in memory; every
      method is shown to implement an operation on the list.  Applied: the
      applier goroutine and the runs of a peer's log.
    - ReplCounter (raft/repl.go): the counter of confirmations.
    - Roles (follower.go, candidate.go, leader.go, raft.go): the handlers of the
      roles, the event loop, Make.  Gate: the steps of a peer, that is of its
      event loop, clients, timers and RPC goroutines, and the lock and queue that
      protect a change of role.  Votes, Election, Activation: lemmas on granting
      votes, counting them and starting a role.  Replicator (repl.go): the call
      to a peer, the binary search for the match index, a replication round.
      Cluster: several peers that exchange messages, executable.
    - RaftLogTheorems, RaftProtocolTheorems: the theorems about one peer or two.
    - PeerLog, PeerTurn: what a turn of an event loop does to the peer's log, to
      its queue and to its term.  PeerStore: what it leaves of the saved ballot, that is
      term and vote, and how Make recovers it.  PeerVotes: the votes a turn gives,
      counts and wins with.  LogMatching: peers over a network that delivers
      requests as it likes, with the invariant behind log matching.  RaftNet: a
      cluster with all its goroutines, the replicators and the tries of their
      requests included, and with peers that crash and start again from their
      persisters, executable.  RaftNetTheorems: RaftNet simulated by
      LogMatching, and log matching of clusters.  ElectionSafety: the invariant of the
      votes of a cluster, and one leader per term.
    - Ticker (time.Ticker), RaftTimer (raft/timer.go), HeartBeatTimer (the timer of
      mr/worker.go): timers that call a function again and again.
    - KvSrv (kvsrv/), KvRaft (kvraft/): data, handlers, clerk, theorems.
    - KvNet, KvNetCalls: the clerks of kvsrv, the network of Network and the server,
      composed.  KvLinear: the abstract store and linearization points.  KvNetProof,
      KvNetTheorems: the invariant and the theorems.
    - MrCoordinator, MrWorker (mr/, main/mrsequential.go): the coordinator and
      the work of a worker.  MrJob: workers that run against the coordinator and
      one directory (mr/worker.go: start, Worker), step by step.  MrThreads: the
      coordinator's handlers, timers and Done as goroutines that interleave at every
      lock; MrThreadsProof, MrThreadsSim, MrThreadsTheorems: who holds which lock,
      and the simulation by the one-step handlers of MrCoordinator.  MrApps,
      MrTiming (mrapps/): the plugins, on Utf8 (strings as Go reads them) and Digits
      (names with numbers in them).
    - Bitset, Checker, CheckerOps (porcupine/), KvModel (models/kv.go): the
      checker.  CheckerSpec: linearizability and its greedy form.  CheckerProof:
      the invariant of the search.  CheckerTheorems: the theorems on histories
      of operations.  CheckerEvents: histories of events, and the entry points
      (porcupine/porcupine.go).  LinkedList: the search on the list of nodes with
      pointers that checker.go has; LinkedListProof, LinkedListSim: what is linked in
      memory, and the simulation by Checker.  Visualize, VisualizeProof (the partial
      linearizations of checker.go, porcupine/visualization.go).
    - Network (labrpc/labrpc.go): the tables of the network and the life of a call
      from Call through processReq and the handler back, one definition per piece
      of code between two communications; [exec] composes them.  NetworkTheorems.
      LabGob (labgob/labgob.go): the checks before encoding and decoding.
    - Tester, Agreement (raft/config.go): what the Raft tester accepts, asks and
      waits for.  Links: wires between servers, that is client ends by name.
      RaftConfig (raft/config.go), KvConfig (kvraft/config.go and
      shardctrler/config.go, which has the same text), KvSrvConfig
      (kvsrv/config.go), ShardConfig (shardkv/config.go): starting, connecting,
      partitioning, crashing and restarting servers, with their persisters on a
      disk that old instances may still write to.  TestRun: the frame of begin,
      end and cleanup that these files repeat, over the class [TestBed].
    - ShardKv (shardctrler/, shardkv/): the clerks and the skeleton servers.

    ** What the theorems show

    - Log: the service gets the committed commands in order, once, without gaps
      (C1); committed entries of a peer never change (C2); AppendEntries and recovery
      refine their abstract operations (C3, C19); C34 is about the width of indices.
    - Cluster: as long as no term has two leaders, logs that have an entry of
      one term at one index agree up to it, whatever the network does and whichever
      peers crash and restart (C4); no term has two leaders as long as no peer gives
      its vote in a term in which it stands itself (C7), which the code does not
      prevent (C37).
    - Protocol: one grant per term (C5); a leader has a
      majority and commits with one (C6, C21); the gate of role changes and their
      completion (C18, C23); termination and result of the match search and of a
      round (C20, C22).
    - Services: the key/value server with its clerks over the network is
      linearizable (C8), because updates are carried out exactly once under every
      interleaving (C9); the applier of kvraft answers its handlers in order (C27);
      the sharded clerk asks the right servers (C30).
    - MapReduce: the coordinator loses and repeats no task (C10); its goroutines
      refine handlers that are one step each and never deadlock (C15, C16); the
      heartbeats go on (C32); a job of any workers in any interleaving writes what
      the sequential program writes, and for the word count plugin that is
      the number of occurrences of each word (C11, C26).
    - Checker: checkSingle terminates and decides linearizability; with the
      partition by key it decides it for the whole store (C12, C13); the search
      on pointers is that search (C14); a history of events is checked as the
      operations it records (C35); the visualization of any result has its data (C31).
    - Network: a call runs its handler at most once and its answer is the
      handler's (C17), it comes back whatever happens (C24), on a reliable
      network it succeeds (C25), and the tables stay well formed (C33).  LabGob
      checks every type a type is made of, once (C36).
    - Tests: one reports only real agreements (C28); a crash isolates a server and
      keeps what it saved (C29).
    - C37 to C40 state behaviour that is not what the code is meant to do: two leaders
      in a term; a committed command that is replaced by another, with one leader
      per term, after a request arrived late; a deadlock of the snapshot path;
      double counting after an expiry.  Theorems without a number in their files show
      more of it: [stale_append_truncates], [recovery_skips_entries],
      [append_rpc_first_reply], [retried_append_stale_value],
      [clerk_get_crashes_server], [rpc_ids_stay_one], [empty_job_never_done],
      [empty_history_never_checked], [Leader_crashes_on_shut_server],
      [disconnect_checks_wrong_server], [labgob_decode_limits],
      [sharded_skeleton_hangs], [sharded_test_needs_three], [raft_timer_reset_lost], [unlockWorker_deadlocks].
    - More theorems without a number: the bit vector as a set ([bitvec_is_set]), the
      numbering of commands ([leader_append_numbers]), a vote that is not forgotten by a restart
      ([no_second_vote_after_restart]), the count of workers that run at the same time
      ([nparallel_counts]), a clerk's operation over a lossy
      network ([clerk_op_once]), handlers that never panic ([kvsrv_never_panics]), what
      the tester accepts ([tester_accepts]), wires, partitions and restarts of test
      servers ([test_wires], [partition_separates], [group_restarts]), the linked
      list ([unlift_undoes_lift]), raft's timer ([raft_timer_runs]).

    ** Fuel and bounds

    Loops that are not structural take fuel.  [matchIndex] needs the number of
    indices searched plus two, [reduce_loop] the length of its list, the search
    of the checker [cost (2 n) (2 n)] for n operations (CheckerProof: every turn
    decreases the measure [turns_left]), [checkType] one more than the number of
    types, [checkDefault] four levels; the theorems say that this is enough.  The
    endless loops of the sharded clerks and the tester's loops over time have fuel
    as an argument, with theorems about when they return
    ([sharded_get_returns], [one_ends]).  Log theorems assume fewer than 2^31
    entries, the width of the indices, and C34 shows what happens beyond it;
    cluster theorems also terms below 2^31 - 1 ([small]); coordinator theorems assume
    task and worker numbers below 2^16.

    ** Not modelled

    Sockets, files other than the worker's, durations other than the tester's, the
    text of the HTML page, the drivers of main/ other than mrsequential and
    mrcoordinator, what is printed and logged, and the handlers of the sharded
    service, which are empty; raft.go's readPersist and ticker, which nothing calls: comments and a loop that sleeps, of the
    lab's skeleton.  That no committed entry is lost when a leader is elected is not claimed: C37 and
    C38 show that it fails.  In RaftNet a replicator looks whether its
    leader is active and acts on an answer in one step, the goroutines of a peer that crashed do
    nothing more (what they sent may still arrive), and the network between peers is that of Cluster,
    not that of Network.

    ** Plan

    kvraft's service against Raft's delivery guarantee (C1); leader completeness for runs
    without the late retries of C38; when the replicators of a stable leader bring a
    command to every peer. *)

From stdpp Require Export strings numbers gmap list list_numbers.

#[global] Open Scope Z_scope.

(** * Machine integers *)

(** Two's-complement truncation: what [int32(x)] does to a 64-bit [int]. *)
Definition to_int32 (z : Z) : Z := (z + 2^31) mod 2^32 - 2^31.
Definition to_uint8 (z : Z) : Z := z mod 2^8.
Definition to_uint16 (z : Z) : Z := z mod 2^16.
Definition to_uint32 (z : Z) : Z := z mod 2^32.
Definition to_uint64 (z : Z) : Z := z mod 2^64.

Definition is_int32 (z : Z) : Prop := - 2^31 <= z < 2^31.

Lemma to_int32_small z : is_int32 z -> to_int32 z = z.
Proof. unfold is_int32, to_int32. intros. rewrite Z.mod_small; lia. Qed.

Lemma to_int32_range z : is_int32 (to_int32 z).
Proof.
  unfold is_int32, to_int32.
  pose proof (Z.mod_pos_bound (z + 2^31) (2^32)). lia.
Qed.

Lemma to_uint16_small z : 0 <= z < 2^16 -> to_uint16 z = z.
Proof. apply Z.mod_small. Qed.

Lemma to_uint64_small z : 0 <= z < 2^64 -> to_uint64 z = z.
Proof. apply Z.mod_small. Qed.
Lemma to_uint32_small z : 0 <= z < 2^32 -> to_uint32 z = z.
Proof. apply Z.mod_small. Qed.

(** * Outcomes of Go code

    A piece of code run on a state either finishes with a value, aborts the
    process (a failed [assert], [log.Fatal], a run-time panic) or waits for a
    lock or channel that no step of its own goroutine can make available. *)

Inductive panic : Type :=
  | AssertFailed
  | IndexOutOfRange
  | SliceOutOfRange
  | NilDereference
  | TypeAssertion
  | UnlockOfUnlocked
  | NegativeShift
  | MakeSliceLen
  | DivideByZero
  | LogFatal
  | ExplicitPanic.

Inductive outcome (S A : Type) : Type :=
  | Done (a : A) (s : S)
  | Panicked (p : panic) (s : S)
  | Blocked (s : S).
Arguments Done {S A} a s.
Arguments Panicked {S A} p s.
Arguments Blocked {S A} s.

Definition M (S A : Type) : Type := S -> outcome S A.

#[export] Instance M_ret {S} : MRet (M S) := fun A a s => Done a s.
#[export] Instance M_bind {S} : MBind (M S) := fun A B k m s =>
  match m s with
  | Done a s' => k a s'
  | Panicked p s' => Panicked p s'
  | Blocked s' => Blocked s'
  end.

Definition gets {S A} (f : S -> A) : M S A := fun s => Done (f s) s.
Definition modify {S} (f : S -> S) : M S unit := fun s => Done tt (f s).
Definition throw {S A} (p : panic) : M S A := fun s => Panicked p s.
Definition block {S A} : M S A := fun s => Blocked s.
Definition assert {S} (b : bool) : M S unit := if b then mret tt else throw AssertFailed.
Definition when {S} (b : bool) (m : M S unit) : M S unit := if b then m else mret tt.

(** A [for _, x := range l] loop. *)
Fixpoint for_each {S A} (l : list A) (body : A -> M S unit) : M S unit :=
  match l with
  | [] => mret tt
  | x :: l' => body x ;; for_each l' body
  end.

(** Total correctness: [m] run on [s] finishes, and [Q] holds of the result. *)
Definition wp {S A} (m : M S A) (s : S) (Q : A -> S -> Prop) : Prop :=
  match m s with
  | Done a s' => Q a s'
  | _ => False
  end.

(** Partial correctness: [Q] holds if [m] run on [s] finishes. *)
Definition post {S A} (m : M S A) (s : S) (Q : A -> S -> Prop) : Prop :=
  forall a s', m s = Done a s' -> Q a s'.

Section wp_rules.
Context {S : Type}.
Implicit Types s : S.

Lemma wp_done {A} (m : M S A) s Q :
  wp m s Q <-> exists a s', m s = Done a s' /\ Q a s'.
Proof.
  unfold wp. split.
  - destruct (m s); naive_solver.
  - intros (a & s' & -> & ?); done.
Qed.

Lemma wp_ret {A} (a : A) s Q : Q a s -> wp (mret a) s Q.
Proof. done. Qed.

Lemma wp_bind {A B} (m : M S A) (k : A -> M S B) s Q :
  wp m s (fun a s' => wp (k a) s' Q) -> wp (m ≫= k) s Q.
Proof. unfold wp, mbind, M_bind. by destruct (m s). Qed.

Lemma wp_gets {A} (f : S -> A) s Q : Q (f s) s -> wp (gets f) s Q.
Proof. done. Qed.

Lemma wp_modify (f : S -> S) s Q : Q tt (f s) -> wp (modify f) s Q.
Proof. done. Qed.

Lemma wp_assert b s Q : b = true -> Q tt s -> wp (assert b) s Q.
Proof. by intros -> ?. Qed.

Lemma wp_mono {A} (m : M S A) s (Q Q' : A -> S -> Prop) :
  wp m s Q -> (forall a s', Q a s' -> Q' a s') -> wp m s Q'.
Proof. unfold wp. destruct (m s); naive_solver. Qed.

Lemma post_bind {A B} (m : M S A) (k : A -> M S B) s Q :
  post m s (fun a s' => post (k a) s' Q) -> post (m ≫= k) s Q.
Proof.
  unfold post, mbind, M_bind. intros H a s' Hk.
  destruct (m s) eqn:E; try done. eauto.
Qed.

Lemma post_mono {A} (m : M S A) s (Q Q' : A -> S -> Prop) :
  post m s Q -> (forall a s', Q a s' -> Q' a s') -> post m s Q'.
Proof. unfold post. eauto. Qed.

Lemma post_ret {A} (a : A) s (Q : A -> S -> Prop) : Q a s -> post (mret a) s Q.
Proof. unfold post, mret, M_ret. naive_solver. Qed.

Lemma post_gets {A} (f : S -> A) s (Q : A -> S -> Prop) : Q (f s) s -> post (gets f) s Q.
Proof. unfold post, gets. naive_solver. Qed.

Lemma post_modify (f : S -> S) s (Q : unit -> S -> Prop) : Q tt (f s) -> post (modify f) s Q.
Proof. unfold post, modify. naive_solver. Qed.

Lemma post_throw {A} p s (Q : A -> S -> Prop) : post (throw p) s Q.
Proof. unfold post, throw. done. Qed.

Lemma post_assert b s (Q : unit -> S -> Prop) : (b = true -> Q tt s) -> post (assert b) s Q.
Proof.
  destruct b; intros H; [by apply post_ret, H|apply post_throw].
Qed.

Lemma bind_gets {A B} (f : S -> A) (k : A -> M S B) s : (gets f ≫= k) s = k (f s) s.
Proof. done. Qed.

Lemma bind_modify {B} (f : S -> S) (k : unit -> M S B) s : (modify f ≫= k) s = k tt (f s).
Proof. done. Qed.

Lemma bind_ret {A B} (a : A) (k : A -> M S B) s : (mret a ≫= k) s = k a s.
Proof. done. Qed.

Lemma bind_assert {B} (k : unit -> M S B) s : (assert true ≫= k) s = k tt s.
Proof. done. Qed.

Lemma bind_done {A B} (m : M S A) (k : A -> M S B) s a s' :
  m s = Done a s' -> (m ≫= k) s = k a s'.
Proof. unfold mbind, M_bind. by intros ->. Qed.

Lemma bind_blocked {A B} (m : M S A) (k : A -> M S B) s s' :
  m s = Blocked s' -> (m ≫= k) s = Blocked s'.
Proof. unfold mbind, M_bind. by intros ->. Qed.

Lemma bind_panicked {A B} (m : M S A) (k : A -> M S B) s p s' :
  m s = Panicked p s' -> (m ≫= k) s = Panicked p s'.
Proof. unfold mbind, M_bind. by intros ->. Qed.

Lemma bind_inv {A B} (m : M S A) (k : A -> M S B) s b s' :
  (m ≫= k) s = Done b s' -> exists a s1, m s = Done a s1 /\ k a s1 = Done b s'.
Proof. unfold mbind, M_bind. destruct (m s) as [a s1| |]; [|done..]. by exists a, s1. Qed.
End wp_rules.

(** [m] run on [s] does not panic. *)
Definition calm {S A} (m : M S A) (s : S) : Prop := forall p s', m s <> Panicked p s'.

Section calm_rules.
Context {S : Type}.

Lemma calm_ret {A} (a : A) (s : S) : calm (mret a) s.
Proof. done. Qed.
Lemma calm_gets {A} (f : S -> A) (s : S) : calm (gets f) s.
Proof. done. Qed.
Lemma calm_modify (f : S -> S) (s : S) : calm (modify f) s.
Proof. done. Qed.
Lemma calm_block {A} (s : S) : calm (block : M S A) s.
Proof. done. Qed.
Lemma calm_done {A} (m : M S A) s a s' : m s = Done a s' -> calm m s.
Proof. unfold calm. congruence. Qed.
Lemma calm_bind {A B} (m : M S A) (k : A -> M S B) s :
  calm m s -> (forall a s', m s = Done a s' -> calm (k a) s') -> calm (m ≫= k) s.
Proof. intros Hm Hk p s'. unfold mbind, M_bind. destruct (m s) eqn:E; [by apply Hk|by destruct (Hm p0 s0)|done]. Qed.
End calm_rules.
#[export] Hint Resolve calm_ret calm_gets calm_modify calm_block : core.

(** * Relations every run respects

    [keeps R m]: whatever state [m] starts in, if it finishes, the states
    before and after are related by [R].  For a preorder [R] the rules below
    and the hints of the database [keeps] prove such facts from the shape of
    the code. *)
Definition keeps {S A} (R : S -> S -> Prop) (m : M S A) : Prop :=
  forall s, post m s (fun _ s' => R s s').

Section keeps_rules.
Context {S : Type} (R : S -> S -> Prop) `{!PreOrder R}.

Lemma keeps_ret {A} (a : A) : keeps R (mret a).
Proof. intros s. apply post_ret. reflexivity. Qed.

Lemma keeps_gets {A} (f : S -> A) : keeps R (gets f).
Proof. intros s. apply post_gets. reflexivity. Qed.

Lemma keeps_throw {A} p : keeps R (throw p : M S A).
Proof. intros s. apply post_throw. Qed.

Lemma keeps_block {A} : keeps R (block : M S A).
Proof. intros s a s'. done. Qed.

Lemma keeps_assert b : keeps R (assert b).
Proof. destruct b; [apply keeps_ret|apply keeps_throw]. Qed.

Lemma keeps_modify (f : S -> S) : (forall s, R s (f s)) -> keeps R (modify f).
Proof. intros H s. by apply post_modify. Qed.

Lemma keeps_bind {A B} (m : M S A) (k : A -> M S B) :
  keeps R m -> (forall a, keeps R (k a)) -> keeps R (m ≫= k).
Proof.
  intros Hm Hk s. apply post_bind. eapply post_mono; [apply Hm|]. intros a s1 H1.
  eapply post_mono; [apply Hk|]. intros b s2 H2. by transitivity s1.
Qed.

Lemma keeps_when b (m : M S unit) : keeps R m -> keeps R (when b m).
Proof. intros H. destruct b; [done|apply keeps_ret]. Qed.

Lemma keeps_for_each {A} (l : list A) (body : A -> M S unit) :
  (forall x, keeps R (body x)) -> keeps R (for_each l body).
Proof.
  intros H. induction l as [|x l IH]; [apply keeps_ret|]. simpl. by apply keeps_bind.
Qed.
End keeps_rules.

Create HintDb keeps discriminated.

(** Two preorders the proofs use: a projection of the state is unchanged; a
    property of the state is not lost. *)
Definition same {S B} (f : S -> B) (s s' : S) : Prop := f s' = f s.
Definition stable {S} (P : S -> Prop) (s s' : S) : Prop := P s -> P s'.

#[export] Instance same_preorder {S B} (f : S -> B) : PreOrder (same f).
Proof. unfold same. split; congruence. Qed.
#[export] Instance stable_preorder {S} (P : S -> Prop) : PreOrder (stable P).
Proof. unfold stable. split; [intros s; tauto|intros s1 s2 s3; tauto]. Qed.

Lemma keeps_mono {S A} (R R' : S -> S -> Prop) (m : M S A) :
  (forall s s', R s s' -> R' s s') -> keeps R m -> keeps R' m.
Proof. intros H Hm s. eapply post_mono; [apply Hm|]. eauto. Qed.

(** * Go slices and channels *)

Abbreviation lenZ l := (Z.of_nat (length l)).

(** [l[i]], with the run-time bounds check. *)
Definition nthZ {A} (l : list A) (i : Z) : option A :=
  if decide (0 <= i) then l !! Z.to_nat i else None.

Definition go_index {S A} (l : list A) (i : Z) : M S A :=
  match nthZ l i with
  | Some x => mret x
  | None => throw IndexOutOfRange
  end.

(** [l[i] = x], with the run-time bounds check. *)
Definition go_update {S A} (l : list A) (i : Z) (x : A) : M S (list A) :=
  match nthZ l i with
  | Some _ => mret (<[Z.to_nat i := x]> l)
  | None => throw IndexOutOfRange
  end.

(** [l[a:b]].  Go allows [b] up to the capacity; the model asks for [b] to be
    within the length, and every slicing below is proved to stay there. *)
Definition go_slice {S A} (l : list A) (a b : Z) : M S (list A) :=
  if decide (0 <= a <= b /\ b <= lenZ l)
  then mret (take (Z.to_nat (b - a)) (drop (Z.to_nat a) l))
  else throw SliceOutOfRange.

(** A buffered channel is the list of its elements; a send to a full channel
    waits. *)
Definition chan_send {S A} (cap : nat) (ch : S -> list A) (upd : list A -> S -> S)
    (x : A) : M S unit := fun s =>
  if decide (length (ch s) < cap)%nat then Done tt (upd (ch s ++ [x]) s) else Blocked s.

(** * sync.RWMutex

    Not re-entrant: the goroutine that holds the write lock waits for ever on
    [RLock].  (Nested [RLock]s succeed when no writer waits.)  [RLocked n] is
    held by [n + 1] readers. *)
Inductive rwmutex : Type := Unlocked | RLocked (more : nat) | WLocked.

#[export] Instance rwmutex_eq_dec : EqDecision rwmutex.
Proof. solve_decision. Defined.

Section rwmutex_ops.
Context {S : Type} (mu : S -> rwmutex) (upd : rwmutex -> S -> S).

Definition Lock : M S unit := fun s =>
  match mu s with
  | Unlocked => Done tt (upd WLocked s)
  | _ => Blocked s
  end.
Definition Unlock : M S unit := fun s =>
  match mu s with
  | WLocked => Done tt (upd Unlocked s)
  | _ => Panicked UnlockOfUnlocked s
  end.
Definition RLock : M S unit := fun s =>
  match mu s with
  | Unlocked => Done tt (upd (RLocked 0) s)
  | RLocked n => Done tt (upd (RLocked (Datatypes.S n)) s)
  | WLocked => Blocked s
  end.
Definition RUnlock : M S unit := fun s =>
  match mu s with
  | RLocked (Datatypes.S n) => Done tt (upd (RLocked n) s)
  | RLocked 0 => Done tt (upd Unlocked s)
  | _ => Panicked UnlockOfUnlocked s
  end.
End rwmutex_ops.

(** * Counting and indexing *)

(** How many elements of a list satisfy a boolean test. *)
Definition count_if {A} (f : A -> bool) (l : list A) : Z :=
  foldr (fun x n => (if f x then 1 else 0) + n) 0 l.

Lemma count_if_app {A} (f : A -> bool) l1 l2 :
  count_if f (l1 ++ l2) = count_if f l1 + count_if f l2.
Proof. induction l1 as [|x l1 IH]; simpl; [done|]. unfold count_if in *. simpl. lia. Qed.

Lemma count_if_nil {A} (f : A -> bool) : count_if f [] = 0.
Proof. done. Qed.

Lemma count_if_cons {A} (f : A -> bool) x l :
  count_if f (x :: l) = (if f x then 1 else 0) + count_if f l.
Proof. done. Qed.

Arguments count_if : simpl never.

Lemma count_if_bounds {A} (f : A -> bool) l : 0 <= count_if f l <= lenZ l.
Proof.
  induction l as [|x l IH]; [done|].
  rewrite count_if_cons, length_cons. destruct (f x); lia.
Qed.

Lemma count_if_ext {A} (f g : A -> bool) l :
  (forall x, x ∈ l -> f x = g x) -> count_if f l = count_if g l.
Proof.
  induction l as [|x l IH]; [done|]. intros Hfg.
  rewrite !count_if_cons, (Hfg x), IH; set_solver.
Qed.

Lemma count_if_fmap {A B} (f : B -> bool) (g : A -> B) l : count_if f (g <$> l) = count_if (fun x => f (g x)) l.
Proof. induction l as [|x l IH]; [done|]. rewrite fmap_cons, !count_if_cons. by rewrite IH. Qed.

Lemma count_if_Permutation {A} (f : A -> bool) l l' : l ≡ₚ l' -> count_if f l = count_if f l'.
Proof.
  induction 1 as [|x l l' _ IH|x y l|l1 l2 l3 _ IH1 _ IH2]; rewrite ?count_if_cons; [done|lia..].
Qed.

Lemma count_if_take_drop {A} (f : A -> bool) n l :
  count_if f (take n l) + count_if f (drop n l) = count_if f l.
Proof. by rewrite <- count_if_app, take_drop. Qed.

Lemma filter_none {A} (P : A -> Prop) `{!forall x, Decision (P x)} l :
  Forall (fun x => ~ P x) l -> filter P l = [].
Proof. induction 1 as [|x l Hx _ IH]; [done|]. by rewrite filter_cons_False. Qed.

Lemma filter_every {A} (P : A -> Prop) `{!forall x, Decision (P x)} l :
  Forall P l -> filter P l = l.
Proof. induction 1 as [|x l Hx _ IH]; [done|]. rewrite filter_cons_True by done. by f_equal. Qed.

Lemma filter_split {A} (P : A -> Prop) `{!forall x, Decision (P x)} l l1 x l2 :
  filter P l = l1 ++ x :: l2 ->
  exists k1 k2, l = k1 ++ x :: k2 /\ filter P k1 = l1 /\ filter P k2 = l2.
Proof.
  revert l1. induction l as [|y l IH]; intros l1; [by destruct l1|].
  rewrite filter_cons. case_decide as Hy.
  - destruct l1 as [|z l1]; simpl; intros [= -> E].
    + exists [], l. by rewrite filter_nil.
    + destruct (IH _ E) as (k1 & k2 & -> & <- & <-). exists (z :: k1), k2.
      by rewrite filter_cons_True.
  - intros E. destruct (IH _ E) as (k1 & k2 & -> & <- & <-). exists (y :: k1), k2.
    by rewrite filter_cons_False.
Qed.

Lemma split_unique {A} (x : A) b a c d :
  b ++ x :: a = c ++ x :: d -> x ∉ b -> x ∉ c -> b = c.
Proof.
  revert c. induction b as [|y b IH]; intros [|z c]; simpl; intros E Hb Hc; [done|..].
  - injection E as -> _. by destruct Hc; left.
  - injection E as -> _. by destruct Hb; left.
  - injection E as -> E. f_equal. apply not_elem_of_cons in Hb as [_ Hb], Hc as [_ Hc]. auto.
Qed.

Lemma fmap_filter_iff {A B} (f : A -> B) (P : A -> Prop) (Q : B -> Prop)
    `{!forall x, Decision (P x), !forall x, Decision (Q x)} (l : list A) :
  (forall x, x ∈ l -> Q (f x) <-> P x) -> filter Q (f <$> l) = f <$> filter P l.
Proof.
  induction l as [|x l IH]; intros Hl; [done|]. rewrite fmap_cons, !filter_cons.
  rewrite IH by (intros; apply Hl; by right). specialize (Hl x (list_elem_of_here _ _)).
  repeat case_decide; tauto.
Qed.

Lemma pair_permutation {A} (x y : A) (l : list A) : l ≡ₚ [x; y] -> l = [x; y] \/ l = [y; x].
Proof. intros H. symmetry in H. apply Permutation_length_2_inv in H. tauto. Qed.

(** Turning the test on at one element of a duplicate-free list adds one. *)
Lemma count_if_flip {A} (f g : A -> bool) l x :
  NoDup l -> x ∈ l -> f x = false -> g x = true ->
  (forall y, y <> x -> f y = g y) -> count_if g l = count_if f l + 1.
Proof.
  induction l as [|y l IH]; [set_solver|].
  rewrite !count_if_cons.
  intros [Hy Hnd]%NoDup_cons [->|Hx]%elem_of_cons Hf Hg Hfg.
  - rewrite Hf, Hg, (count_if_ext g f); [lia|].
    intros z Hz. symmetry. apply Hfg. by intros ->.
  - rewrite IH; try done. rewrite Hfg by (by intros ->). lia.
Qed.

Lemma nthZ_Some {A} (l : list A) i x : nthZ l i = Some x -> 0 <= i < lenZ l.
Proof.
  unfold nthZ. case_decide; [|done]. intros H'%lookup_lt_Some. lia.
Qed.

Lemma nthZ_in_range {A} (l : list A) i : 0 <= i < lenZ l -> is_Some (nthZ l i).
Proof.
  intros. unfold nthZ. rewrite decide_True by lia. apply lookup_lt_is_Some. lia.
Qed.

Lemma nthZ_None {A} (l : list A) i : ~ 0 <= i < lenZ l -> nthZ l i = None.
Proof.
  intros. unfold nthZ. case_decide; [|done]. apply lookup_ge_None. lia.
Qed.

Lemma nthZ_nat {A} (l : list A) i : 0 <= i -> nthZ l i = l !! Z.to_nat i.
Proof. intros. unfold nthZ. by rewrite decide_True by lia. Qed.

Lemma nthZ_insert {A} (l : list A) i j x :
  0 <= i < lenZ l ->
  nthZ (<[Z.to_nat i := x]> l) j = if decide (i = j) then Some x else nthZ l j.
Proof.
  intros Hi. case_decide as E; [subst j|].
  - rewrite nthZ_nat by lia. apply list_lookup_insert_eq. lia.
  - destruct (decide (0 <= j)); [|by rewrite !nthZ_None by lia].
    rewrite !nthZ_nat by lia. apply list_lookup_insert_ne. lia.
Qed.

Lemma nthZ_app_l {A} (l1 l2 : list A) i : i < lenZ l1 -> nthZ (l1 ++ l2) i = nthZ l1 i.
Proof.
  intros. unfold nthZ. case_decide; [|done]. apply lookup_app_l. lia.
Qed.

Lemma nthZ_app_r {A} (l1 l2 : list A) i :
  lenZ l1 <= i -> nthZ (l1 ++ l2) i = nthZ l2 (i - lenZ l1).
Proof.
  intros. unfold nthZ. rewrite !decide_True by lia.
  rewrite lookup_app_r by lia. f_equal. lia.
Qed.

Lemma nthZ_take {A} (l : list A) n i : i < n -> nthZ (take (Z.to_nat n) l) i = nthZ l i.
Proof.
  intros. unfold nthZ. case_decide; [|done]. apply lookup_take_lt. lia.
Qed.

Lemma nthZ_drop {A} (l : list A) n i :
  0 <= n -> 0 <= i -> nthZ (drop (Z.to_nat n) l) i = nthZ l (n + i).
Proof.
  intros. unfold nthZ. rewrite !decide_True by lia. rewrite lookup_drop. f_equal. lia.
Qed.

Lemma nthZ_last {A} (l : list A) x : nthZ (l ++ [x]) (lenZ l) = Some x.
Proof. rewrite nthZ_app_r by lia. by rewrite Z.sub_diag. Qed.

(** What the bounds-checked operations do, on both branches. *)
Lemma go_index_ok {S A} (l : list A) i x (s : S) :
  nthZ l i = Some x -> go_index l i s = Done x s.
Proof. unfold go_index. by intros ->. Qed.

Lemma go_index_panic {S A} (l : list A) i (s : S) :
  ~ 0 <= i < lenZ l -> go_index l i s = Panicked IndexOutOfRange s.
Proof. unfold go_index. intros. by rewrite nthZ_None. Qed.

Lemma go_update_ok {S A} (l : list A) i x (s : S) :
  0 <= i < lenZ l -> go_update l i x s = Done (<[Z.to_nat i := x]> l) s.
Proof. unfold go_update. by intros [y ->]%nthZ_in_range. Qed.

Lemma go_slice_ok {S A} (l : list A) a b (s : S) :
  0 <= a <= b -> b <= lenZ l ->
  go_slice l a b s = Done (take (Z.to_nat (b - a)) (drop (Z.to_nat a) l)) s.
Proof. intros. unfold go_slice. by rewrite decide_True. Qed.

Lemma go_slice_from {S A} (l : list A) a (s : S) :
  0 <= a <= lenZ l -> go_slice l a (lenZ l) s = Done (drop (Z.to_nat a) l) s.
Proof.
  intros. rewrite go_slice_ok by lia. f_equal. apply take_ge. rewrite length_drop. lia.
Qed.

Lemma go_slice_to {S A} (l : list A) b (s : S) :
  0 <= b <= lenZ l -> go_slice l 0 b s = Done (take (Z.to_nat b) l) s.
Proof. intros. rewrite go_slice_ok by lia. by rewrite drop_0, Z.sub_0_r. Qed.

Section keeps_go.
Context {S : Type} (R : S -> S -> Prop) `{!PreOrder R}.

Lemma keeps_go_index {A} (l : list A) i : keeps R (go_index l i).
Proof. unfold go_index. destruct (nthZ l i); [by apply keeps_ret|apply keeps_throw]. Qed.

Lemma keeps_go_update {A} (l : list A) i x : keeps R (go_update l i x).
Proof. unfold go_update. destruct (nthZ l i); [by apply keeps_ret|apply keeps_throw]. Qed.

Lemma keeps_go_slice {A} (l : list A) a b : keeps R (go_slice l a b).
Proof. unfold go_slice. case_decide; [by apply keeps_ret|apply keeps_throw]. Qed.

Lemma keeps_chan_send {A} n (ch : S -> list A) upd x :
  (forall q s, R s (upd q s)) -> keeps R (chan_send n ch upd x).
Proof. intros H s a s'. unfold chan_send. case_decide; [|done]. intros [= _ <-]. done. Qed.

Lemma keeps_chan_send_spec {A} n (ch : S -> list A) upd x :
  (forall s, R s (upd (ch s ++ [x]) s)) -> keeps R (chan_send n ch upd x).
Proof. intros H s a s'. unfold chan_send. case_decide; [|done]. intros [= _ <-]. done. Qed.

Section keeps_mutex.
Context (mu : S -> rwmutex) (upd : rwmutex -> S -> S) (Hupd : forall v s, R s (upd v s)).

Lemma keeps_Lock : keeps R (Lock mu upd).
Proof. intros s a s'. unfold Lock. destruct (mu s); naive_solver. Qed.
Lemma keeps_Unlock : keeps R (Unlock mu upd).
Proof. intros s a s'. unfold Unlock. destruct (mu s); naive_solver. Qed.
Lemma keeps_RLock : keeps R (RLock mu upd).
Proof. intros s a s'. unfold RLock. destruct (mu s); naive_solver. Qed.
Lemma keeps_RUnlock : keeps R (RUnlock mu upd).
Proof. intros s a s'. unfold RUnlock. destruct (mu s) as [|[|n]|]; naive_solver. Qed.
End keeps_mutex.
End keeps_go.

(** * Automation *)

(** One step of a [keeps] proof, driven by the code. *)
Ltac keeps_step :=
  lazymatch goal with
  | |- keeps _ (mret _) => apply keeps_ret
  | |- keeps _ (gets _) => apply keeps_gets
  | |- keeps _ (throw _) => apply keeps_throw
  | |- keeps _ block => apply keeps_block
  | |- keeps _ (assert _) => apply keeps_assert
  | |- keeps _ (when _ _) => apply keeps_when; [exact _|]
  | |- keeps _ (for_each _ _) => apply keeps_for_each; [exact _|intros ?]
  | |- keeps _ (go_index _ _) => apply keeps_go_index
  | |- keeps _ (go_update _ _ _) => apply keeps_go_update
  | |- keeps _ (go_slice _ _ _) => apply keeps_go_slice
  | |- keeps _ (_ ≫= _) => apply keeps_bind; [exact _| |intros ?]
  | |- keeps _ (match ?x with _ => _ end) => destruct x
  | |- keeps _ (let _ := _ in _) => cbv zeta
  end; try exact _.
Ltac keeps_auto := repeat (keeps_step || solve [eauto with keeps] || (progress cbv beta zeta)).

Create HintDb golab discriminated.
#[export] Hint Resolve to_int32_range count_if_bounds : golab.
Create Rewrite HintDb golab.
#[export] Hint Rewrite @count_if_app @count_if_nil @count_if_cons
  @length_app @length_cons @length_nil @length_take @length_drop @length_fmap
  @length_insert @length_replicate : golab.

(** Normalise lengths and counts, then arithmetic. *)
Ltac len := autorewrite with golab in *; simpl length in *; try lia.

(** Symbolic execution of monadic code under [wp] and [post]. *)
Ltac wp_step :=
  lazymatch goal with
  | |- wp (mret _) _ _ => apply wp_ret
  | |- wp (_ ≫= _) _ _ => apply wp_bind
  | |- wp (gets _) _ _ => apply wp_gets
  | |- wp (modify _) _ _ => apply wp_modify
  | |- wp (assert _) _ _ => apply wp_assert
  | |- post (mret _) _ _ => apply post_ret
  | |- post (_ ≫= _) _ _ => apply post_bind
  | |- post (gets _) _ _ => apply post_gets
  | |- post (modify _) _ _ => apply post_modify
  | |- post (throw _) _ _ => apply post_throw
  | |- post (assert _) _ _ => apply post_assert
  end; cbv beta.
Ltac wp_steps := repeat (wp_step; try done).

(** Decide the conditions of the goal's [if]s by case analysis. *)
Ltac case_bool :=
  match goal with
  | |- context [if ?b then _ else _] =>
      lazymatch type of b with
      | bool => let E := fresh "E" in destruct b eqn:E
      end
  end.
