(* ===== verification/BitVec.v ===== *)
(** The bit vector of raft/bitvec.go, which the leader's replication counter
    uses to remember which peers hold an entry.

    [bits] is the byte slice, [count] the number of set bits that the code
    maintains incrementally.  Every method takes the vector's own mutex on
    entry and releases it on return without calling out, so a method is one
    atomic step here.  Go's [/] and [%] truncate toward zero ([Z.quot],
    [Z.rem]); a negative shift count panics. *)

From S2P Require Import Prelude.

Record BitVec := mkBitVec { cap : Z; count : Z; bits : list Z }.

Definition newBitVec {S} (c : Z) : M S BitVec :=
  let off := if Z.rem c 8 =? 0 then 0 else 1 in
  let vecSize := Z.quot c 8 + off in
  if vecSize <? 0 then throw MakeSliceLen
  else mret (mkBitVec c 0 (replicate (Z.to_nat vecSize) 0)).

(** [uint8(1) << off] *)
Definition shl1_uint8 {S} (off : Z) : M S Z :=
  if off <? 0 then throw NegativeShift else mret (to_uint8 (Z.shiftl 1 off)).

Definition Set_ (idx : Z) : M BitVec bool :=
  let numIdx := Z.quot idx 8 in
  let off := Z.rem idx 8 in
  bv ← gets (fun bv => bv);
  num ← go_index (bits bv) numIdx;
  offNum ← shl1_uint8 off;
  if negb (Z.land num offNum =? 0) then mret false else
  bits' ← go_update (bits bv) numIdx (Z.lor num offNum);
  modify (fun bv => mkBitVec (cap bv) (count bv + 1) bits');;
  mret true.

Definition Unset (idx : Z) : M BitVec bool :=
  let numIdx := Z.quot idx 8 in
  let off := Z.rem idx 8 in
  bv ← gets (fun bv => bv);
  num ← go_index (bits bv) numIdx;
  offNum ← shl1_uint8 off;
  if Z.land num offNum =? 0 then mret false else
  bits' ← go_update (bits bv) numIdx (Z.lxor num offNum);
  modify (fun bv => mkBitVec (cap bv) (count bv - 1) bits');;
  mret true.

Definition At (idx : Z) : M BitVec bool :=
  bv ← gets (fun bv => bv);
  num ← go_index (bits bv) (Z.quot idx 8);
  mask ← shl1_uint8 (Z.rem idx 8);
  mret (negb (Z.land num mask =? 0)).

Definition Count : M BitVec Z := gets count.

(** * Specification: a vector is a finite set of positions *)

(** The number of positions the vector can hold. *)
Definition room (bv : BitVec) : Z := 8 * lenZ (bits bv).

Definition member (bv : BitVec) (i : Z) : bool :=
  match nthZ (bits bv) (i / 8) with
  | Some b => Z.testbit b (i mod 8)
  | None => false
  end.

(** Every byte is a byte and [count] is the cardinality of the set. *)
Record bitvec_ok (bv : BitVec) : Prop := {
  bytes_ok : Forall (fun b => 0 <= b < 256) (bits bv);
  count_ok : count bv = count_if (member bv) (seqZ 0 (room bv))
}.

Lemma byte_below b : (0 <= b < 256) <-> 0 <= b /\ forall k, 8 <= k -> Z.testbit b k = false.
Proof.
  split.
  - intros Hb. split; [lia|]. intros k Hk.
    rewrite <- (Z.mod_small b (2^8)) by lia. by apply Z.mod_pow2_bits_high.
  - intros [H0 H]. split; [done|].
    destruct (decide (b = 0)); [lia|].
    destruct (decide (b < 256)) as [|Hb]; [done|].
    exfalso. pose proof (Z.bit_log2 b). rewrite H in *; [|].
    + naive_solver lia.
    + change 8 with (Z.log2 256). apply Z.log2_le_mono. lia.
Qed.

Lemma shl1_spec {S} off (s : S) :
  0 <= off < 8 -> shl1_uint8 off s = Done (2 ^ off) s.
Proof.
  intros. unfold shl1_uint8. rewrite (proj2 (Z.ltb_ge _ _)) by lia.
  rewrite Z.shiftl_1_l. unfold to_uint8, mret, M_ret. f_equal. apply Z.mod_small.
  split; [lia|]. apply Z.pow_lt_mono_r; lia.
Qed.

Lemma land_pow2 b off : 0 <= off -> (Z.land b (2^off) =? 0) = negb (Z.testbit b off).
Proof.
  intros. rewrite <- (negb_involutive (_ =? _)). f_equal.
  destruct (Z.testbit b off) eqn:E.
  - rewrite negb_true_iff, Z.eqb_neq. intros H0.
    assert (Z.testbit (Z.land b (2^off)) off = false) as HF by (rewrite H0; apply Z.bits_0).
    rewrite Z.land_spec, E, Z.pow2_bits_true in HF by lia. done.
  - rewrite negb_false_iff, Z.eqb_eq. apply Z.bits_inj'. intros k Hk.
    rewrite Z.land_spec, Z.bits_0. destruct (decide (k = off)) as [->|].
    + by rewrite E.
    + rewrite Z.pow2_bits_false by lia. apply andb_false_r.
Qed.

Lemma quot_rem_nonneg i : 0 <= i -> Z.quot i 8 = i / 8 /\ Z.rem i 8 = i mod 8.
Proof. intros. split; [apply Z.quot_div_nonneg|apply Z.rem_mod_nonneg]; lia. Qed.

Lemma index_bounds bv i : 0 <= i < room bv -> 0 <= i / 8 < lenZ (bits bv).
Proof. unfold room. intros. split; [apply Z.div_pos|apply Z.div_lt_upper_bound]; lia. Qed.

Lemma mod8_bounds i : 0 <= i mod 8 < 8.
Proof. apply Z.mod_pos_bound. lia. Qed.
#[local] Hint Resolve mod8_bounds : golab.

(** Reading the byte that holds a position, and the bit's mask. *)
Lemma byte_at bv i :
  bitvec_ok bv -> 0 <= i < room bv ->
  exists b, nthZ (bits bv) (i / 8) = Some b /\ 0 <= b < 256 /\ member bv i = Z.testbit b (i mod 8).
Proof.
  intros [Hb _] Hi. destruct (nthZ_in_range (bits bv) (i/8)) as [b Eb].
  { by apply index_bounds. }
  exists b. split; [done|]. split; [|unfold member; by rewrite Eb].
  rewrite nthZ_nat in Eb by (apply index_bounds in Hi; lia).
  by eapply (Forall_lookup_1 _ _ _ _ Hb).
Qed.

(** Membership after one byte was rewritten so that only bit [i] changes. *)
Lemma member_update bv i b b' v c j :
  0 <= i < room bv -> nthZ (bits bv) (i / 8) = Some b ->
  Z.testbit b' (i mod 8) = v ->
  (forall k, 0 <= k < 8 -> k <> i mod 8 -> Z.testbit b' k = Z.testbit b k) ->
  member (mkBitVec (cap bv) c (<[Z.to_nat (i / 8) := b']> (bits bv))) j
  = if decide (j = i) then v else member bv j.
Proof.
  intros Hi Eb Hv Hother. unfold member. simpl.
  rewrite nthZ_insert by (by apply index_bounds).
  destruct (decide (j = i)) as [->|Hji]; [by rewrite decide_True by done|].
  case_decide as E; [|done]. rewrite <- E, Eb.
  apply Hother; [apply mod8_bounds|].
  intros E'. apply Hji. rewrite (Z.div_mod j 8), (Z.div_mod i 8) by lia. lia.
Qed.

Lemma room_update bv c n b' : room (mkBitVec (cap bv) c (<[n := b']> (bits bv))) = room bv.
Proof. unfold room. simpl. by rewrite length_insert. Qed.

Lemma bytes_update bv c n b' :
  bitvec_ok bv -> 0 <= b' < 256 ->
  Forall (fun b => 0 <= b < 256) (bits (mkBitVec (cap bv) c (<[n := b']> (bits bv)))).
Proof. intros [Hb _] ?. by apply Forall_insert. Qed.

Lemma in_positions bv i : 0 <= i < room bv -> i ∈ seqZ 0 (room bv).
Proof. intros. apply elem_of_seqZ. lia. Qed.

Lemma lor_byte b off : 0 <= b < 256 -> 0 <= off < 8 -> 0 <= Z.lor b (2^off) < 256.
Proof.
  intros Hb Ho. apply byte_below. apply byte_below in Hb as [H0 Hb]. split.
  - apply Z.lor_nonneg. split; [done|]. apply Z.pow_nonneg. lia.
  - intros k Hk. by rewrite Z.lor_spec, Hb, Z.pow2_bits_false by lia.
Qed.

Lemma lxor_byte b off : 0 <= b < 256 -> 0 <= off < 8 -> 0 <= Z.lxor b (2^off) < 256.
Proof.
  intros Hb Ho. apply byte_below. apply byte_below in Hb as [H0 Hb]. split.
  - apply Z.lxor_nonneg. pose proof (Z.pow_nonneg 2 off). lia.
  - intros k Hk. by rewrite Z.lxor_spec, Hb, Z.pow2_bits_false by lia.
Qed.

(** * The operations implement the set *)

(** Executing the common prefix of [Set_], [Unset] and [At]. *)
Lemma fetch_bit bv i :
  bitvec_ok bv -> 0 <= i < room bv ->
  exists b, nthZ (bits bv) (i / 8) = Some b /\ 0 <= b < 256 /\
    member bv i = Z.testbit b (i mod 8) /\
    forall A (k : Z -> Z -> M BitVec A),
      (num ← go_index (bits bv) (Z.quot i 8); m ← shl1_uint8 (Z.rem i 8); k num m) bv
      = k b (2 ^ (i mod 8)) bv.
Proof.
  intros Hok Hi. destruct (byte_at bv i Hok Hi) as (b & Eb & Hb & Hm).
  exists b. do 3 (split; [done|]). intros A k.
  destruct (quot_rem_nonneg i) as [-> ->]; [lia|].
  rewrite (bind_done _ _ _ _ _ (go_index_ok _ _ _ _ Eb)).
  by rewrite (bind_done _ _ _ _ _ (shl1_spec _ _ (mod8_bounds i))).
Qed.

Definition inserted (bv : BitVec) (i : Z) (bv' : BitVec) : Prop :=
  bitvec_ok bv' /\ room bv' = room bv /\ cap bv' = cap bv /\
  count bv' = count bv + (if member bv i then 0 else 1) /\
  forall j, member bv' j = bool_decide (j = i) || member bv j.

Definition removed (bv : BitVec) (i : Z) (bv' : BitVec) : Prop :=
  bitvec_ok bv' /\ room bv' = room bv /\ cap bv' = cap bv /\
  count bv' = count bv - (if member bv i then 1 else 0) /\
  forall j, member bv' j = negb (bool_decide (j = i)) && member bv j.

Lemma Set_inserted bv i :
  bitvec_ok bv -> 0 <= i < room bv ->
  exists bv', Set_ i bv = Done (negb (member bv i)) bv' /\ inserted bv i bv'.
Proof.
  intros Hok Hi. unfold Set_. rewrite bind_gets.
  destruct (fetch_bit bv i Hok Hi) as (b & Eb & Hb & Hm & Hk). rewrite Hk. clear Hk.
  rewrite land_pow2 by apply mod8_bounds. rewrite negb_involutive, <- Hm.
  destruct (member bv i) eqn:E; simpl.
  - exists bv. split; [done|]. unfold inserted. rewrite E. split_and!; try done; [lia|].
    intros j. case_bool_decide; [by subst|done].
  - destruct (quot_rem_nonneg i) as [-> _]; [lia|].
    rewrite (bind_done _ _ _ _ _ (go_update_ok _ _ _ _ (index_bounds bv i Hi))).
    eexists. split; [done|]. set (bv' := mkBitVec _ _ _).
    assert (forall j, member bv' j = bool_decide (j = i) || member bv j) as Hmem.
    { intros j. unfold bv'. erewrite (member_update bv i b _ true); try done.
      - case_decide; [by rewrite bool_decide_true|by rewrite bool_decide_false].
      - by rewrite Z.lor_spec, Z.pow2_bits_true, orb_true_r by apply mod8_bounds.
      - intros k Hk Hne. by rewrite Z.lor_spec, Z.pow2_bits_false, orb_false_r by lia. }
    unfold inserted. rewrite E.
    split_and!; [split|apply room_update|done|done|done].
    + apply bytes_update; [done|]. apply lor_byte; [done|apply mod8_bounds].
    + assert (room bv' = room bv) as -> by apply room_update.
      destruct Hok as [_ Hc]. change (count bv') with (count bv + 1). rewrite Hc.
      symmetry. apply count_if_flip with (x := i); try done.
      * apply NoDup_seqZ.
      * by apply in_positions.
      * by rewrite Hmem, bool_decide_true.
      * intros y Hy. by rewrite Hmem, bool_decide_false.
Qed.

Lemma Unset_removed bv i :
  bitvec_ok bv -> 0 <= i < room bv ->
  exists bv', Unset i bv = Done (member bv i) bv' /\ removed bv i bv'.
Proof.
  intros Hok Hi. unfold Unset. rewrite bind_gets.
  destruct (fetch_bit bv i Hok Hi) as (b & Eb & Hb & Hm & Hk). rewrite Hk. clear Hk.
  rewrite land_pow2 by apply mod8_bounds. rewrite <- Hm.
  destruct (member bv i) eqn:E; simpl.
  - destruct (quot_rem_nonneg i) as [-> _]; [lia|].
    rewrite (bind_done _ _ _ _ _ (go_update_ok _ _ _ _ (index_bounds bv i Hi))).
    eexists. split; [done|]. set (bv' := mkBitVec _ _ _).
    assert (forall j, member bv' j = negb (bool_decide (j = i)) && member bv j) as Hmem.
    { intros j. unfold bv'. erewrite (member_update bv i b _ false); try done.
      - case_decide; [by rewrite bool_decide_true|by rewrite bool_decide_false].
      - by rewrite Z.lxor_spec, Z.pow2_bits_true, <- Hm by apply mod8_bounds.
      - intros k Hk Hne. by rewrite Z.lxor_spec, Z.pow2_bits_false, xorb_false_r by lia. }
    unfold removed. rewrite E.
    split_and!; [split|apply room_update|done|done|done].
    + apply bytes_update; [done|]. apply lxor_byte; [done|apply mod8_bounds].
    + assert (room bv' = room bv) as -> by apply room_update.
      destruct Hok as [_ Hc]. change (count bv') with (count bv - 1). rewrite Hc.
      rewrite (count_if_flip (member bv') (member bv) _ i); try done; [lia|..].
      * apply NoDup_seqZ.
      * by apply in_positions.
      * by rewrite Hmem, bool_decide_true.
      * intros y Hy. by rewrite Hmem, bool_decide_false.
  - exists bv. split; [done|]. unfold removed. rewrite E. split_and!; try done; [lia|].
    intros j. case_bool_decide; [by subst|done].
Qed.

Lemma At_member bv i :
  bitvec_ok bv -> 0 <= i < room bv -> At i bv = Done (member bv i) bv.
Proof.
  intros Hok Hi. unfold At. rewrite bind_gets.
  destruct (fetch_bit bv i Hok Hi) as (b & Eb & Hb & Hm & Hk). rewrite Hk. clear Hk.
  rewrite land_pow2 by apply mod8_bounds. rewrite Hm. by destruct (Z.testbit _ _).
Qed.

Lemma member_zero n c k i : member (mkBitVec c k (replicate n 0)) i = false.
Proof.
  unfold member. simpl. destruct (nthZ _ _) as [b|] eqn:E; [|done].
  pose proof (nthZ_Some _ _ _ E). rewrite nthZ_nat in E by lia.
  apply lookup_replicate in E as [-> _]. apply Z.bits_0.
Qed.

(** A fresh vector for [c >= 0] peers is empty and has room for all of them. *)
Lemma newBitVec_empty {S} c (s : S) :
  0 <= c ->
  exists bv, newBitVec c s = Done bv s /\ bitvec_ok bv /\ cap bv = c /\ count bv = 0 /\
    c <= room bv /\ forall i, member bv i = false.
Proof.
  intros Hc. unfold newBitVec. destruct (quot_rem_nonneg c) as [-> ->]; [done|].
  pose proof (mod8_bounds c) as Hm. pose proof (Z.div_mod c 8 ltac:(lia)) as Hd.
  pose proof (Z.div_pos c 8 ltac:(lia) ltac:(lia)).
  rewrite (proj2 (Z.ltb_ge _ _)) by (case_bool; lia).
  eexists. split; [done|]. split_and!; try done.
  - split; simpl.
    + apply Forall_replicate. lia.
    + rewrite (count_if_ext _ (fun _ => false)) by (intros; apply member_zero).
      by induction (seqZ _ _).
  - unfold room. simpl. rewrite length_replicate.
    case_bool; [apply Z.eqb_eq in E|apply Z.eqb_neq in E]; lia.
  - apply member_zero.
Qed.

(** Out of range, every access panics and leaves the vector alone. *)
Lemma Set_out_of_range bv i :
  room bv <= i -> Set_ i bv = Panicked IndexOutOfRange bv.
Proof.
  intros Hi. unfold Set_. rewrite bind_gets.
  apply bind_panicked. apply go_index_panic. unfold room in Hi.
  destruct (quot_rem_nonneg i) as [-> _]; [lia|].
  pose proof (Z.div_le_lower_bound i 8 (lenZ (bits bv))). lia.
Qed.
