(* ===== verification/RaftTypes.v ===== *)
(** The data of the raft package: log entries, snapshots, RPC messages
    (rpc.go), events (ev.go), the roles' fields (follower.go, candidate.go,
    leader.go, repl.go), the persistent image (persist.go, persister.go) and
    the peer itself (raft.go), with the field updates the operations use.

    A command, Go's [interface{}], is a value of the type [Cmd] of the section,
    [None] for [nil].  A Go [int] is a [Z]; the [atomic.Int32] fields hold
    [int32] values and are stored through [to_int32].  A pointer that may be
    [nil] is an [option].  A channel that an event carries for its answer is
    named by a number, and the answers a peer has sent on such channels, with
    the reply object the receiver reads, are collected in [outbox]. *)

From S2P Require Import Prelude BitVec.

(** * common.go *)

Definition HEARTBEAT_SEND : Z := 50.
Definition RPC_FAIL_WAITING : Z := 100.
Definition RPC_CALL_TRY_TIMES : nat := 5.
Definition HEARTBEAT_TIMEOUT : list Z := [300; 400].
Definition ELECTION_TIMEOUT : list Z := [900; 1100].

Inductive EntryStatus : Type :=
  | ENTRY_DEFAULT | ENTRY_HOLD | ENTRY_STALE | ENTRY_MATCH | ENTRY_UNMATCH.
#[export] Instance EntryStatus_eq_dec : EqDecision EntryStatus.
Proof. solve_decision. Defined.

Inductive EntryType : Type := ENTRY_T_DEFAULT | ENTRY_T_QUERY | ENTRY_T_LOG.
#[export] Instance EntryType_eq_dec : EqDecision EntryType.
Proof. solve_decision. Defined.

Inductive VoteStatus : Type := VOTE_DEFAULT | VOTE_OTHER | VOTE_GRANTED | VOTE_DENIAL.
#[export] Instance VoteStatus_eq_dec : EqDecision VoteStatus.
Proof. solve_decision. Defined.

Inductive RoleEnum : Type := FOLLOWER | CANDIDATE | LEADER.
#[export] Instance RoleEnum_eq_dec : EqDecision RoleEnum.
Proof. solve_decision. Defined.

Definition minInt (x y : Z) : Z := if x <=? y then x else y.
Definition maxInt (x y : Z) : Z := if x >=? y then x else y.

(** In milliseconds; [Intn] is rand.Intn, which panics on a bound below 1. *)
Definition genRandomDuration {S} (Intn : Z -> Z) (t : list Z) : M S Z :=
  match t with
  | [a] => if a <=? 0 then throw ExplicitPanic else mret (Intn a)
  | [a; b] => if b - a <=? 0 then throw ExplicitPanic else mret (a + Intn (b - a))
  | _ => throw LogFatal
  end.

Lemma minInt_min x y : minInt x y = Z.min x y.
Proof. unfold minInt. case_bool; lia. Qed.
Lemma maxInt_max x y : maxInt x y = Z.max x y.
Proof. unfold maxInt. rewrite Z.geb_leb. case_bool; lia. Qed.

(** * log.go and raft.go: entries, snapshots, what is applied *)

Definition NOOP_INDEX : Z := -1.
Abbreviation bytes := (list Z).

Record LogInfo := mkLogInfo { li_Index : Z; li_Term : Z }.
#[export] Instance LogInfo_eq_dec : EqDecision LogInfo.
Proof. solve_decision. Defined.

Record Snapshot := mkSnapshot {
  sn_Snapshot : bytes;
  LastIncludeIndex : Z;
  LastIncludeTerm : Z;
  LastIncludeCmdIndex : Z;
  sn_NoopCount : Z }.
#[export] Instance Snapshot_eq_dec : EqDecision Snapshot.
Proof. solve_decision. Defined.

(** time.Timer with the re-arming idiom of tickHeartBeatTimer and
    setElecTimer: [tm_cur] is the timer object the role points to ([None] for
    nil, [Some armed]); a [Reset] of a fired timer re-arms it and returns
    false, upon which the code creates a second one, and the first is left
    running: [tm_orphans] counts those. *)
Record Timer := mkTimer { tm_cur : option bool; tm_orphans : nat }.

(** * persister.go *)
Record Persister := mkPersister { raftstate : bytes; snapshot_bytes : bytes }.

Section types.
Context {Cmd : Type}.

Record LogEntry := mkEntry {
  CommandIndex : Z;        (* -1 represents a Noop entry *)
  et_Term : Z;
  Content : option Cmd }.

Inductive ApplyEntry : Type :=
  | ApplyLogEntry (applyEntries : list LogEntry) (ap_lai : Z)
  | ApplySnapshotEntry (ap_snapshot : Snapshot).

Record ApplyMsg := mkApplyMsg {
  CommandValid : bool;
  Command : option Cmd;
  am_CommandIndex : Z;
  SnapshotValid : bool;
  am_Snapshot : bytes;
  SnapshotTerm : Z;
  SnapshotIndex : Z }.

Record Logs := mkLogs {
  entries : list LogEntry;
  lci : Z;
  lli : Z;
  lai : Z;
  noopCount : Z;
  offset : Z;
  applier : list ApplyEntry;
  snapshot : option Snapshot;
  rw : rwmutex }.

(** * persist.go *)
Record PersistentLogs := mkPersistentLogs {
  p_Entries : list LogEntry;
  p_Lci : Z;
  p_Lli : Z;
  p_Lai : Z;
  p_NoopCount : Z;
  p_Offset : Z;
  p_Snapshot : option Snapshot }.

Record PersistentState := mkPersistentState {
  p_VoteFor : Z;
  p_Term : Z;
  p_Logs : PersistentLogs }.

(** * rpc.go *)
Record SendEntries := mkSendEntries {
  Entries : list LogEntry;
  PrevLogInfo : LogInfo }.

Record AppendEntriesArgs := mkAppendEntriesArgs {
  ae_Id : Z;
  ae_Term : Z;
  LeaderCommit : Z;
  ae_EntryType : EntryType;
  ae_Snapshot : option Snapshot;
  ae_SendEntries : option SendEntries }.
End types.
Arguments LogEntry : clear implicits.
Arguments ApplyEntry : clear implicits.
Arguments ApplyMsg : clear implicits.
Arguments Logs : clear implicits.
Arguments PersistentLogs : clear implicits.
Arguments PersistentState : clear implicits.
Arguments SendEntries : clear implicits.
Arguments AppendEntriesArgs : clear implicits.

Record AppendEntriesReply := mkAppendEntriesReply {
  EntryStatus_ : EntryStatus;
  aer_Term : Z;
  aer_Responsed : bool }.

Record RequestVoteArgs := mkRequestVoteArgs {
  rv_Term : Z;
  CandidateID : Z;
  LastLogInfo : LogInfo }.

Record RequestVoteReply := mkRequestVoteReply {
  rvr_Term : Z;
  VoterID : Z;
  VoteStatus_ : VoteStatus;
  rvr_Responsed : bool }.

(** The zero values labrpc hands to a handler. *)
Definition emptyAppendReply : AppendEntriesReply := mkAppendEntriesReply ENTRY_DEFAULT 0 false.
Definition emptyVoteReply : RequestVoteReply := mkRequestVoteReply 0 0 VOTE_DEFAULT false.

(** * ev.go *)

(** The functions the code passes to transRole. *)
Inductive TransFunc : Type :=
  | followerFromCandidate | followerFromLeader | candidateFromFollower | leaderFromCandidate.
#[export] Instance TransFunc_eq_dec : EqDecision TransFunc.
Proof. solve_decision. Defined.

Record StartCommandReply := mkStartCommandReply { scr_ok : bool; scr_term : Z; scr_index : Z }.
Record NodeState := mkNodeState { ns_term : Z; ns_isLeader : bool }.

Section events.
Context {Cmd : Type}.

Inductive Event : Type :=
  | TransEvent (transFunc : option TransFunc)
  | RequestVoteEvent (args : RequestVoteArgs) (reply : RequestVoteReply) (ch : nat)
  | AppendEntriesEvent (args : AppendEntriesArgs Cmd) (reply : AppendEntriesReply) (ch : nat)
  | StartCommandEvent (command : option Cmd) (ch : nat)
  | GetStateEvent (ch : nat)
  | SnapshotEvent (index : Z) (data : bytes) (ch : nat)
  | InstallSnapshotEvent (sn : Snapshot)
  | KillEvent (ch : nat)
  | HeartBeatTimeoutEvent
  | ElectionTimeoutEvent
  | VoteGrantEvent (vg_term : Z) (voter : Z)
  | SendHeartBeatEvent
  | StaleCandidateEvent (newTerm : Z)
  | StaleLeaderEvent (newTerm : Z)
  | ReplConfirmEvent (id startIndex endIndex : Z).

(** What a peer sends out: answers on the channels of events, with the reply
    object as the receiver finds it, and the RPCs of a started election. *)
Inductive Output : Type :=
  | OutVote (ch : nat) (reply : RequestVoteReply) (ok : bool)
  | OutAppend (ch : nat) (reply : AppendEntriesReply) (ok : bool)
  | OutStart (ch : nat) (reply : option StartCommandReply)
  | OutState (ch : nat) (reply : option NodeState)
  | OutSnapshot (ch : nat) (ok : bool)
  | OutKilled (ch : nat)
  | CallRequestVote (peer : Z) (args : RequestVoteArgs)
  | StartReplicator (peer : Z).
End events.
Arguments Event : clear implicits.

(** * The roles (follower.go, candidate.go, leader.go, repl.go) *)

Record ReplEntry := mkReplEntry { bitVec : BitVec; index : Z }.

(** A role object: its [active] flag and its fields. *)
Inductive RoleData : Type :=
  | Follower (hbTimer : Timer)
  | Candidate (votes : Z) (voters : list bool) (elecTimer : Timer)
  | Leader (rc : list ReplEntry).
Record Role := mkRole { active : bool; data : RoleData }.

Definition role_enum (r : Role) : RoleEnum :=
  match data r with
  | Follower _ => FOLLOWER
  | Candidate _ _ _ => CANDIDATE
  | Leader _ => LEADER
  end.

Definition closed (r : Role) : bool := negb (active r).

(** * The peer (raft.go) *)

(** [peers] is the number of peers.  The queue [evCh] holds up to 1000
    events. *)
Record Raft {Cmd : Type} := mkRaft {
  peers : Z;
  persister : Persister;
  me : Z;
  dead : bool;
  majorN : Z;
  term : Z;
  voteFor : Z;
  role : Role;
  logs : Logs Cmd;
  evCh : list (Event Cmd);
  chLock : rwmutex;
  saveLock : rwmutex;
  outbox : list (Output) }.
Arguments Raft : clear implicits.
Arguments mkRaft {Cmd}.

Definition EVCH_CAP : nat := 1000.
Definition APPLIER_CAP : nat := 10.

(** Field updates. *)
Section updates.
Context {Cmd : Type}.

Definition set_entries (v : list (LogEntry Cmd)) (s : Logs Cmd) : Logs Cmd :=
  mkLogs v (lci s) (lli s) (lai s) (noopCount s) (offset s) (applier s) (snapshot s) (rw s).
Definition set_lci (v : Z) (s : Logs Cmd) : Logs Cmd :=
  mkLogs (entries s) v (lli s) (lai s) (noopCount s) (offset s) (applier s) (snapshot s) (rw s).
Definition set_lli (v : Z) (s : Logs Cmd) : Logs Cmd :=
  mkLogs (entries s) (lci s) v (lai s) (noopCount s) (offset s) (applier s) (snapshot s) (rw s).
Definition set_lai (v : Z) (s : Logs Cmd) : Logs Cmd :=
  mkLogs (entries s) (lci s) (lli s) v (noopCount s) (offset s) (applier s) (snapshot s) (rw s).
Definition set_noopCount (v : Z) (s : Logs Cmd) : Logs Cmd :=
  mkLogs (entries s) (lci s) (lli s) (lai s) v (offset s) (applier s) (snapshot s) (rw s).
Definition set_offset (v : Z) (s : Logs Cmd) : Logs Cmd :=
  mkLogs (entries s) (lci s) (lli s) (lai s) (noopCount s) v (applier s) (snapshot s) (rw s).
Definition set_applier (v : list (ApplyEntry Cmd)) (s : Logs Cmd) : Logs Cmd :=
  mkLogs (entries s) (lci s) (lli s) (lai s) (noopCount s) (offset s) v (snapshot s) (rw s).
Definition set_snapshot (v : option Snapshot) (s : Logs Cmd) : Logs Cmd :=
  mkLogs (entries s) (lci s) (lli s) (lai s) (noopCount s) (offset s) (applier s) v (rw s).
Definition set_rw (v : rwmutex) (s : Logs Cmd) : Logs Cmd :=
  mkLogs (entries s) (lci s) (lli s) (lai s) (noopCount s) (offset s) (applier s) (snapshot s) v.
Definition set_persister (v : Persister) (s : Raft Cmd) : Raft Cmd :=
  mkRaft (peers s) v (me s) (dead s) (majorN s) (term s) (voteFor s) (role s) (logs s) (evCh s) (chLock s) (saveLock s) (outbox s).
Definition set_dead (v : bool) (s : Raft Cmd) : Raft Cmd :=
  mkRaft (peers s) (persister s) (me s) v (majorN s) (term s) (voteFor s) (role s) (logs s) (evCh s) (chLock s) (saveLock s) (outbox s).
Definition set_term (v : Z) (s : Raft Cmd) : Raft Cmd :=
  mkRaft (peers s) (persister s) (me s) (dead s) (majorN s) v (voteFor s) (role s) (logs s) (evCh s) (chLock s) (saveLock s) (outbox s).
Definition set_voteFor (v : Z) (s : Raft Cmd) : Raft Cmd :=
  mkRaft (peers s) (persister s) (me s) (dead s) (majorN s) (term s) v (role s) (logs s) (evCh s) (chLock s) (saveLock s) (outbox s).
Definition set_role (v : Role) (s : Raft Cmd) : Raft Cmd :=
  mkRaft (peers s) (persister s) (me s) (dead s) (majorN s) (term s) (voteFor s) v (logs s) (evCh s) (chLock s) (saveLock s) (outbox s).
Definition set_logs (v : Logs Cmd) (s : Raft Cmd) : Raft Cmd :=
  mkRaft (peers s) (persister s) (me s) (dead s) (majorN s) (term s) (voteFor s) (role s) v (evCh s) (chLock s) (saveLock s) (outbox s).
Definition set_evCh (v : list (Event Cmd)) (s : Raft Cmd) : Raft Cmd :=
  mkRaft (peers s) (persister s) (me s) (dead s) (majorN s) (term s) (voteFor s) (role s) (logs s) v (chLock s) (saveLock s) (outbox s).
Definition set_chLock (v : rwmutex) (s : Raft Cmd) : Raft Cmd :=
  mkRaft (peers s) (persister s) (me s) (dead s) (majorN s) (term s) (voteFor s) (role s) (logs s) (evCh s) v (saveLock s) (outbox s).
Definition set_saveLock (v : rwmutex) (s : Raft Cmd) : Raft Cmd :=
  mkRaft (peers s) (persister s) (me s) (dead s) (majorN s) (term s) (voteFor s) (role s) (logs s) (evCh s) (chLock s) v (outbox s).
Definition set_outbox (v : list (Output)) (s : Raft Cmd) : Raft Cmd :=
  mkRaft (peers s) (persister s) (me s) (dead s) (majorN s) (term s) (voteFor s) (role s) (logs s) (evCh s) (chLock s) (saveLock s) v.

Definition on_logs (f : Logs Cmd -> Logs Cmd) (s : Raft Cmd) : Raft Cmd := set_logs (f (logs s)) s.
End updates.
