(* ===== verification/Persist.v ===== *)
(** raft/persister.go and raft/persist.go: the store a peer's state survives
    in, and how the state is written to it.

    encoding/gob enters through the class [Gob]: encoding may fail (a type that
    was not registered), what was encoded decodes to the same value, and
    decoding an empty input reports io.EOF.  [countable_gob] is an executable
    instance.

    The peer's mutexes are part of the state: [encodeState] takes the read lock
    of the logs, so it waits for ever when its caller holds the write lock. *)

From S2P Require Import Prelude RaftTypes.

(** * persister.go *)

Definition MakePersister : Persister := mkPersister [] [].
Definition clone (orig : bytes) : bytes := take (length orig) orig.
Definition Copy (ps : Persister) : Persister := mkPersister (raftstate ps) (snapshot_bytes ps).
Definition ReadRaftState (ps : Persister) : bytes := clone (raftstate ps).
Definition RaftStateSize (ps : Persister) : Z := lenZ (raftstate ps).
Definition Save (state sn : bytes) (ps : Persister) : Persister :=
  mkPersister (clone state) (clone sn).
Definition SaveState (state : bytes) (ps : Persister) : Persister :=
  mkPersister state (snapshot_bytes ps).
Definition SaveSnapshot (sn : bytes) (ps : Persister) : Persister :=
  mkPersister (raftstate ps) sn.
Definition ReadSnapshot (ps : Persister) : bytes := clone (snapshot_bytes ps).
Definition SnapshotSize (ps : Persister) : Z := lenZ (snapshot_bytes ps).

Lemma clone_id b : clone b = b.
Proof. by apply take_ge. Qed.
#[export] Hint Rewrite clone_id : golab.

(** * encoding/gob *)

Inductive decoded (A : Type) : Type := DecOk (a : A) | DecEOF | DecError.
Arguments DecOk {A} a.
Arguments DecEOF {A}.
Arguments DecError {A}.

Class Gob (Cmd : Type) := {
  gob_encode : PersistentState Cmd -> option bytes;
  gob_decode : bytes -> decoded (PersistentState Cmd);
  gob_roundtrip : forall st b, gob_encode st = Some b -> gob_decode b = DecOk st;
  gob_empty : gob_decode [] = DecEOF }.

(** Every command that is stored has a registered type. *)
Class GobRegistered (Cmd : Type) `{!Gob Cmd} : Prop :=
  gob_total : forall st, is_Some (gob_encode st).

(** * persist.go *)

Section persist.
Context {Cmd : Type} `{!Gob Cmd}.
Implicit Types s : Raft Cmd.

Definition logs_rw s : rwmutex := rw (logs s).
Definition set_logs_rw (v : rwmutex) : Raft Cmd -> Raft Cmd := on_logs (set_rw v).
Definition logs_Lock : M (Raft Cmd) unit := Lock logs_rw set_logs_rw.
Definition logs_Unlock : M (Raft Cmd) unit := Unlock logs_rw set_logs_rw.
Definition logs_RLock : M (Raft Cmd) unit := RLock logs_rw set_logs_rw.
Definition logs_RUnlock : M (Raft Cmd) unit := RUnlock logs_rw set_logs_rw.

(** The value [encodeState] builds: the snapshot's data is left out, it is
    saved beside the state. *)
Definition persistent_state s : PersistentState Cmd :=
  let lg := logs s in
  mkPersistentState (voteFor s) (term s)
    (mkPersistentLogs (entries lg) (lci lg) (lli lg) (lai lg) (noopCount lg) (offset lg)
      (match snapshot lg with
       | Some sn => Some (mkSnapshot [] (LastIncludeIndex sn) (LastIncludeTerm sn)
                            (LastIncludeCmdIndex sn) (sn_NoopCount sn))
       | None => None
       end)).

Definition encodeState : M (Raft Cmd) bytes :=
  logs_RLock;;
  state ← gets persistent_state;
  logs_RUnlock;;
  match gob_encode state with
  | Some b => mret b
  | None => throw LogFatal
  end.

Definition persistState : M (Raft Cmd) unit :=
  Lock saveLock set_saveLock;;
  b ← encodeState;
  modify (fun s => set_persister (SaveState b (persister s)) s);;
  Unlock saveLock set_saveLock.

Definition persist : M (Raft Cmd) unit :=
  Lock saveLock set_saveLock;;
  lg ← gets logs;
  match snapshot lg with
  | Some sn =>
      b ← encodeState;
      modify (fun s => set_persister (Save b (sn_Snapshot sn) (persister s)) s)
  | None =>
      b ← encodeState;
      modify (fun s => set_persister (Save b [] (persister s)) s)
  end;;
  Unlock saveLock set_saveLock.

(** * What they do *)

(** No goroutine holds the logs' lock or the save lock. *)
Definition unlocked s : Prop := rw (logs s) = Unlocked /\ saveLock s = Unlocked.

Lemma encodeState_done s b :
  rw (logs s) = Unlocked -> gob_encode (persistent_state s) = Some b ->
  encodeState s = Done b s.
Proof.
  destruct s as [??????????? sl ?]; destruct logs as [????????? ]; simpl.
  intros -> E. unfold encodeState, mbind, M_bind, logs_RLock, RLock, logs_rw. simpl.
  unfold gets, logs_RUnlock, RUnlock. simpl.
  unfold persistent_state in E |- *. simpl in E |- *. by rewrite E.
Qed.

(** The write lock and [RLock] of the same goroutine: a deadlock. *)
Lemma encodeState_blocked s : rw (logs s) = WLocked -> encodeState s = Blocked s.
Proof.
  intros E. apply bind_blocked. unfold logs_RLock, RLock, logs_rw. by rewrite E.
Qed.

Lemma persistState_done s b :
  unlocked s -> gob_encode (persistent_state s) = Some b ->
  persistState s = Done tt (set_persister (SaveState b (persister s)) s).
Proof.
  intros [Hrw Hsl] E. unfold persistState, mbind at 1, M_bind at 1, Lock. rewrite Hsl.
  erewrite bind_done by (by apply encodeState_done; [|apply E]).
  rewrite bind_modify. unfold Unlock. simpl. by destruct s; simpl in *; subst.
Qed.

(** The bytes saved beside the state. *)
Definition snapshot_data s : bytes :=
  match snapshot (logs s) with Some sn => sn_Snapshot sn | None => [] end.

Lemma persist_done s b :
  unlocked s -> gob_encode (persistent_state s) = Some b ->
  persist s = Done tt (set_persister (mkPersister b (snapshot_data s)) s).
Proof.
  intros [Hrw Hsl] E. unfold persist, mbind at 1, M_bind at 1, Lock. rewrite Hsl, bind_gets.
  unfold snapshot_data. simpl. unfold mbind at 1, M_bind at 1.
  destruct (snapshot (logs s)) as [sn|].
  all: erewrite bind_done by (by apply encodeState_done; [|apply E]).
  all: unfold modify, Unlock, Save; simpl; rewrite !clone_id.
  all: by destruct s; simpl in *; subst.
Qed.

(** Under the logs' write lock both wait for ever, holding the save lock, with
    nothing saved. *)
Lemma persistState_blocked s :
  rw (logs s) = WLocked -> saveLock s = Unlocked ->
  persistState s = Blocked (set_saveLock WLocked s).
Proof.
  intros Hrw Hsl. unfold persistState, mbind at 1, M_bind at 1, Lock. rewrite Hsl.
  by apply bind_blocked, encodeState_blocked.
Qed.

Lemma persist_blocked s :
  rw (logs s) = WLocked -> saveLock s = Unlocked ->
  persist s = Blocked (set_saveLock WLocked s).
Proof.
  intros Hrw Hsl. unfold persist, mbind at 1, M_bind at 1, Lock. rewrite Hsl, bind_gets.
  apply bind_blocked. destruct (snapshot _); by apply bind_blocked, encodeState_blocked.
Qed.
End persist.

(** * An executable instance of gob *)

Section countable_gob.
Context {Cmd : Type} `{Countable Cmd}.

Definition snapshot_tuple (sn : Snapshot) :=
  (sn_Snapshot sn, LastIncludeIndex sn, LastIncludeTerm sn, LastIncludeCmdIndex sn, sn_NoopCount sn).
Definition tuple_snapshot (t : bytes * Z * Z * Z * Z) : Snapshot :=
  let '(a, b, c, d, e) := t in mkSnapshot a b c d e.

Definition entry_tuple (e : LogEntry Cmd) := (CommandIndex e, et_Term e, Content e).
Definition tuple_entry (t : Z * Z * option Cmd) : LogEntry Cmd :=
  let '(a, b, c) := t in mkEntry a b c.

Definition state_tuple (st : PersistentState Cmd) :=
  let lg := p_Logs st in
  (p_VoteFor st, p_Term st, entry_tuple <$> p_Entries lg, p_Lci lg, p_Lli lg, p_Lai lg,
    p_NoopCount lg, p_Offset lg, snapshot_tuple <$> p_Snapshot lg).
Definition tuple_state
    (t : Z * Z * list (Z * Z * option Cmd) * Z * Z * Z * Z * Z * option (bytes * Z * Z * Z * Z))
    : PersistentState Cmd :=
  let '(v, t, es, a, b, c, d, o, sn) := t in
  mkPersistentState v t (mkPersistentLogs (tuple_entry <$> es) a b c d o (tuple_snapshot <$> sn)).

Lemma tuple_state_tuple st : tuple_state (state_tuple st) = st.
Proof.
  destruct st as [v t [es a b c d o sn]]. unfold tuple_state, state_tuple. simpl.
  do 2 f_equal.
  - rewrite <- list_fmap_compose. rewrite <- (list_fmap_id es) at 2.
    apply list_fmap_ext. by intros i [].
  - by destruct sn as [[]|].
Qed.

Fixpoint pos_bytes (p : positive) : bytes :=
  match p with
  | xH => [2]
  | xO p => 0 :: pos_bytes p
  | xI p => 1 :: pos_bytes p
  end.

Fixpoint bytes_pos (b : bytes) : option positive :=
  match b with
  | [2] => Some xH
  | 0 :: b => xO <$> bytes_pos b
  | 1 :: b => xI <$> bytes_pos b
  | _ => None
  end.

Lemma bytes_pos_bytes p : bytes_pos (pos_bytes p) = Some p.
Proof. induction p as [p IH|p IH|]; simpl; [| |done]; by rewrite IH. Qed.

Definition decode_state (b : bytes) : decoded (PersistentState Cmd) :=
  match b with
  | [] => DecEOF
  | _ => match p ← bytes_pos b; decode p with
         | Some t => DecOk (tuple_state t)
         | None => DecError
         end
  end.

Lemma decode_encode_state st b :
  Some (pos_bytes (encode (state_tuple st))) = Some b -> decode_state b = DecOk st.
Proof.
  intros [= <-]. unfold decode_state.
  destruct (pos_bytes _) as [|x l] eqn:E; [by destruct (encode _) in E|].
  rewrite <- E, bytes_pos_bytes. simpl. by rewrite decode_encode, tuple_state_tuple.
Qed.

#[export] Instance countable_gob : Gob Cmd := {|
  gob_encode := fun st => Some (pos_bytes (encode (state_tuple st)));
  gob_decode := decode_state;
  gob_roundtrip := decode_encode_state;
  gob_empty := eq_refl |}.

#[export] Instance countable_gob_registered : GobRegistered Cmd.
Proof. intros st. by eexists. Qed.
End countable_gob.
