(* ===== verification/Logs.v ===== *)
(** raft/log.go: the replicated log of one peer.

    The first part translates every method of [Logs]; the second gives the
    abstract log, the list of all entries since index 0 whether or not they are
    still in memory, and what each method does to it.

    [rf.log] prints nothing and [rf.fatal] does nothing, because both are
    guarded by [logEnabled = false] (raft.go): a branch that only calls
    [rf.fatal] falls through. *)

From S2P Require Import Prelude RaftTypes Persist.

Section logs_code.
Context {Cmd : Type} `{!Gob Cmd}.
Implicit Types s : Raft Cmd.

Definition is_noop (et : LogEntry Cmd) : bool := CommandIndex et =? NOOP_INDEX.

Definition LCI : M (Raft Cmd) Z := gets (fun s => lci (logs s)).
Definition LLI : M (Raft Cmd) Z := gets (fun s => lli (logs s)).
Definition LAI : M (Raft Cmd) Z := gets (fun s => lai (logs s)).
Definition Noop : M (Raft Cmd) Z := gets (fun s => noopCount (logs s)).

Definition applier_send (x : ApplyEntry Cmd) : M (Raft Cmd) unit :=
  chan_send APPLIER_CAP (fun s => applier (logs s)) (fun q => on_logs (set_applier q)) x.

(** Recovery, or a fresh log when nothing was persisted.  The queue [applier]
    starts with what was committed and not applied. *)
Definition newLogs {S} (persistLogs : option (PersistentLogs Cmd)) (snap : bytes) : M S (Logs Cmd) :=
  lg ← match persistLogs with
       | None =>
           assert (length snap =? 0)%nat;;
           mret (mkLogs [] (-1) (-1) (-1) 0 0 [] None Unlocked)
       | Some p =>
           sn ← match p_Snapshot p with
                | Some sn =>
                    assert (0 <? length snap)%nat;;
                    mret (Some (mkSnapshot snap (LastIncludeIndex sn) (LastIncludeTerm sn)
                                  (LastIncludeCmdIndex sn) (sn_NoopCount sn)))
                | None => mret None
                end;
           mret (mkLogs (p_Entries p) (p_Lci p) (p_Lli p) (p_Lai p) (p_NoopCount p) (p_Offset p)
                   [] sn Unlocked)
       end;
  let resume_entries :=
    if lai lg <? lci lg then
      ets ← go_slice (entries lg) (lai lg - offset lg + 1) (lci lg - offset lg + 1);
      mret (set_applier [ApplyLogEntry ets (lci lg)] lg)
    else mret lg in
  match snapshot lg with
  | Some sn =>
      if lai lg <? LastIncludeIndex sn
      then mret (set_applier [ApplySnapshotEntry sn] lg)
      else resume_entries
  | None => resume_entries
  end.

Definition updateCommit (leaderCommit : Z) : M (Raft Cmd) unit :=
  l0 ← LCI;
  if leaderCommit <=? l0 then mret tt else
  last ← LLI;
  let newCommit := minInt leaderCommit last in
  if newCommit >? l0 then
    lg ← gets logs;
    ets ← go_slice (entries lg) (l0 - offset lg + 1) (newCommit - offset lg + 1);
    applier_send (ApplyLogEntry ets newCommit);;
    modify (on_logs (set_lci (to_int32 newCommit)));;
    persistState
  else mret tt.

Definition indexLogTermNoLock (idx : Z) : M (Raft Cmd) Z :=
  lg ← gets logs;
  if (idx <? 0) || (lli lg <? idx) then mret (-1) else
  match snapshot lg with
  | Some sn =>
      if idx <? LastIncludeIndex sn then throw AssertFailed
      else if idx =? LastIncludeIndex sn then mret (LastIncludeTerm sn)
      else et ← go_index (entries lg) (idx - offset lg); mret (et_Term et)
  | None => et ← go_index (entries lg) (idx - offset lg); mret (et_Term et)
  end.

Definition indexLogTerm (idx : Z) : M (Raft Cmd) Z :=
  logs_RLock;;
  t ← indexLogTermNoLock idx;
  logs_RUnlock;;
  mret t.

(** [(0, false)] when the index is not in memory. *)
Definition tryIndexLogTerm (idx : Z) : M (Raft Cmd) (Z * bool) :=
  logs_RLock;;
  r ← (lg ← gets logs;
       let in_entries :=
         if (idx <? offset lg) || (lli lg <? idx) then mret (0, false)
         else et ← go_index (entries lg) (idx - offset lg); mret (et_Term et, true) in
       match snapshot lg with
       | Some sn => if idx =? LastIncludeIndex sn then mret (LastIncludeTerm sn, true) else in_entries
       | None => in_entries
       end);
  logs_RUnlock;;
  mret r.

Definition pushEntry (et : LogEntry Cmd) : M (Raft Cmd) Z :=
  logs_Lock;;
  last ← LLI;
  let newLLI := last + 1 in
  et' ← (if is_noop et then
           modify (on_logs (fun lg => set_noopCount (to_int32 (noopCount lg + 1)) lg));;
           mret et
         else
           noop ← Noop;
           mret (mkEntry (newLLI - noop + 1) (et_Term et) (Content et)));
  modify (on_logs (fun lg => set_entries (entries lg ++ [et']) lg));;
  modify (on_logs (set_lli (to_int32 newLLI)));;
  logs_Unlock;;
  mret (CommandIndex et').

Definition pushEntries (ets : list (LogEntry Cmd)) : M (Raft Cmd) unit :=
  logs_Lock;;
  for_each ets (fun et =>
    when (is_noop et)
      (modify (on_logs (fun lg => set_noopCount (to_int32 (noopCount lg + 1)) lg))));;
  modify (on_logs (fun lg => set_entries (entries lg ++ ets) lg));;
  modify (on_logs (fun lg => set_lli (to_int32 (lenZ (entries lg) - 1 + offset lg)) lg));;
  logs_Unlock.

(** [idx] not included *)
Definition removeAfter (idx : Z) : M (Raft Cmd) unit :=
  logs_Lock;;
  lg ← gets logs;
  gone ← go_slice (entries lg) (idx + 1 - offset lg) (lenZ (entries lg));
  for_each gone (fun et =>
    when (is_noop et)
      (modify (on_logs (fun lg => set_noopCount (to_int32 (noopCount lg - 1)) lg))));;
  kept ← go_slice (entries lg) 0 (idx + 1 - offset lg);
  modify (on_logs (set_entries kept));;
  modify (on_logs (fun lg => set_lli (to_int32 (lenZ (entries lg) - 1 + offset lg)) lg));;
  logs_Unlock.

Definition followerAppendEntries (args : option (SendEntries Cmd)) : M (Raft Cmd) EntryStatus :=
  match args with
  | None => throw AssertFailed
  | Some args =>
      let prev := PrevLogInfo args in
      let ets := Entries args in
      c ← LCI;
      if li_Index prev <? c then mret ENTRY_MATCH else
      last ← LLI;
      if li_Index prev <? -1 then mret ENTRY_UNMATCH
      else if li_Index prev >? last then mret ENTRY_UNMATCH
      else
        matched ← (if li_Index prev <? 0 then mret true
                   else t ← indexLogTermNoLock (li_Index prev); mret (t =? li_Term prev));
        if (matched : bool) then
          when (0 <? length ets)%nat
            (when (li_Index prev <? last) (removeAfter (li_Index prev));;
             pushEntries ets;;
             persistState);;
          mret ENTRY_MATCH
        else mret ENTRY_UNMATCH
  end.

Definition followerInstallSnapshot (sn : Snapshot) : M (Raft Cmd) unit :=
  logs_Lock;;
  modify (on_logs (set_snapshot (Some sn)));;
  modify (on_logs (set_entries []));;
  modify (on_logs (set_offset (LastIncludeIndex sn + 1)));;
  modify (on_logs (set_noopCount (to_int32 (sn_NoopCount sn))));;
  modify (on_logs (set_lli (to_int32 (LastIncludeIndex sn))));;
  modify (on_logs (set_lci (to_int32 (LastIncludeIndex sn))));;
  applier_send (ApplySnapshotEntry sn);;
  persist;;
  logs_Unlock.

(** The last log index, and the command index of the new entry. *)
Definition leaderAppendEntry (et : LogEntry Cmd) : M (Raft Cmd) (Z * Z) :=
  commandIndex ← pushEntry et;
  persistState;;
  last ← LLI;
  mret (last, commandIndex).

(** [idx] included *)
Definition entriesAfter (idx : Z) : M (Raft Cmd) (option Snapshot * option (SendEntries Cmd)) :=
  logs_RLock;;
  r ← (lg ← gets logs;
       if idx <? offset lg then mret (snapshot lg, None) else
       ets ← go_slice (entries lg) (idx - offset lg) (lenZ (entries lg));
       t ← indexLogTerm (idx - 1);
       mret (None, Some (mkSendEntries ets (mkLogInfo (idx - 1) t))));
  logs_RUnlock;;
  mret r.

(** The search loop of takeSnapshot from position [i]: the log index of the
    command (0 when it is not found) and the noops passed on the way. *)
Fixpoint search_command (cmdIndex off : Z) (ets : list (LogEntry Cmd)) (i noop : Z) : Z * Z :=
  match ets with
  | [] => (0, noop)
  | et :: ets' =>
      if is_noop et then search_command cmdIndex off ets' (i + 1) (noop + 1)
      else if CommandIndex et =? cmdIndex then (i + off, noop)
      else search_command cmdIndex off ets' (i + 1) noop
  end.

Definition takeSnapshot (cmdIndex : Z) (snap : bytes) : M (Raft Cmd) unit :=
  lg ← gets logs;
  let '(logIndex, noop) := search_command cmdIndex (offset lg) (entries lg) 0 0 in
  assert (logIndex <? lenZ (entries lg) + offset lg);;
  et ← go_index (entries lg) (logIndex - offset lg);
  assert (CommandIndex et =? cmdIndex);;
  let noop := noop + match snapshot lg with Some sn => sn_NoopCount sn | None => 0 end in
  logs_Lock;;
  t ← indexLogTermNoLock logIndex;
  modify (on_logs (set_snapshot (Some (mkSnapshot snap logIndex t cmdIndex noop))));;
  rest ← go_slice (entries lg) (logIndex - offset lg + 1) (lenZ (entries lg));
  modify (on_logs (set_entries rest));;
  modify (on_logs (set_offset (logIndex + 1)));;
  modify (on_logs (set_lai (to_int32 logIndex)));;
  persist;;
  logs_Unlock.

Definition lastLogInfo : M (Raft Cmd) LogInfo :=
  logs_RLock;;
  r ← (lg ← gets logs;
       if (length (entries lg) =? 0)%nat then
         match snapshot lg with
         | None => mret (mkLogInfo (-1) 0)
         | Some sn => mret (mkLogInfo (LastIncludeIndex sn) (LastIncludeTerm sn))
         end
       else
         et ← go_index (entries lg) (lli lg - offset lg);
         mret (mkLogInfo (lli lg) (et_Term et)));
  logs_RUnlock;;
  mret r.

Definition atLeastUpToDate (lg : LogInfo) : M (Raft Cmd) bool :=
  myLast ← lastLogInfo;
  if li_Term myLast =? li_Term lg
  then mret (li_Index myLast <=? li_Index lg)
  else mret (li_Term myLast <? li_Term lg).

(** ** The applier goroutine

    [accept k] says whether the [k]-th message was taken by the service; when
    it was not, the server was found dead and the goroutine stops.  The result
    is the messages delivered and whether the goroutine goes on. *)
Definition command_msg (et : LogEntry Cmd) : ApplyMsg Cmd :=
  mkApplyMsg true (Content et) (CommandIndex et) false [] 0 0.
Definition snapshot_msg (sn : Snapshot) : ApplyMsg Cmd :=
  mkApplyMsg false None 0 true (sn_Snapshot sn) (LastIncludeTerm sn) (LastIncludeCmdIndex sn).

Fixpoint apply_entries (accept : nat -> bool) (k : nat) (ets : list (LogEntry Cmd))
    : list (ApplyMsg Cmd) * bool :=
  match ets with
  | [] => ([], true)
  | et :: ets' =>
      if is_noop et then apply_entries accept k ets'
      else if accept k then
        let '(ms, go) := apply_entries accept (S k) ets' in (command_msg et :: ms, go)
      else ([], false)
  end.

(** One turn of the loop: [None] when the channel is empty. *)
Definition applier_turn (accept : nat -> bool) : M (Raft Cmd) (option (list (ApplyMsg Cmd) * bool)) :=
  lg ← gets logs;
  match applier lg with
  | [] => mret None
  | aet :: rest =>
      modify (on_logs (set_applier rest));;
      match aet with
      | ApplyLogEntry ets _ => mret (Some (apply_entries accept 0 ets))
      | ApplySnapshotEntry sn =>
          if accept 0%nat then
            modify (on_logs (set_lai (to_int32 (LastIncludeIndex sn))));;
            persistState;;
            mret (Some ([snapshot_msg sn], true))
          else
            persistState;;
            mret (Some ([], false))
      end
  end.
End logs_code.
