(* ===== verification/LogsSpec.v ===== *)
(** What raft/log.go promises: the abstract log and the refinement.

    [logs_rep full lg] relates the fields of [Logs] to [full], the list of all
    entries since index 0.  Each method of Logs.v is shown to implement the
    corresponding operation on [full], with every branch of it. *)

From S2P Require Import Prelude RaftTypes Persist Logs.

Section logs_spec.
Context {Cmd : Type}.
Implicit Types full ets : list (LogEntry Cmd).
Implicit Types lg : Logs Cmd.

(** * The abstract log *)

(** The term at an index, -1 outside of the log. *)
Definition term_at full (i : Z) : Z :=
  match nthZ full i with Some et => et_Term et | None => -1 end.

(** The index and term of the last entry; [(-1, 0)] for the empty log. *)
Definition last_info full : LogInfo :=
  match last full with
  | Some et => mkLogInfo (lenZ full - 1) (et_Term et)
  | None => mkLogInfo (-1) 0
  end.

(** The number the next command gets: one more than the commands so far. *)
Definition next_command full : Z := lenZ full - count_if is_noop full + 1.

(** Commands are numbered 1, 2, 3, ... in log order. *)
Definition numbered full : Prop :=
  forall i et, nthZ full i = Some et -> is_noop et = false ->
    CommandIndex et = next_command (take (Z.to_nat i) full).

(** What a leader appends for [et]. *)
Definition stamped full (et : LogEntry Cmd) : LogEntry Cmd :=
  if is_noop et then et else mkEntry (next_command full) (et_Term et) (Content et).

(** AppendEntries on the abstract log with commit index [c]. *)
Definition append_spec (c : Z) full (prev : LogInfo) ets : list (LogEntry Cmd) * EntryStatus :=
  if li_Index prev <? c then (full, ENTRY_MATCH)
  else if lenZ full - 1 <? li_Index prev then (full, ENTRY_UNMATCH)
  else if (li_Index prev <? 0) || (term_at full (li_Index prev) =? li_Term prev) then
    (if (length ets =? 0)%nat then full else take (Z.to_nat (li_Index prev + 1)) full ++ ets,
     ENTRY_MATCH)
  else (full, ENTRY_UNMATCH).

(** * Representation *)

Record logs_rep full lg : Prop := {
  rep_offset : 0 <= offset lg <= lenZ full;
  rep_entries : entries lg = drop (Z.to_nat (offset lg)) full;
  rep_lli : lli lg = lenZ full - 1;
  rep_lci : offset lg - 1 <= lci lg <= lli lg;
  rep_noop : noopCount lg = count_if is_noop full;
  rep_fits : lenZ full < 2^31;
  rep_snapshot :
    match snapshot lg with
    | None => offset lg = 0
    | Some sn =>
        offset lg = LastIncludeIndex sn + 1 /\
        (exists et, nthZ full (LastIncludeIndex sn) = Some et /\
                    LastIncludeTerm sn = et_Term et /\
                    LastIncludeCmdIndex sn = CommandIndex et) /\
        sn_NoopCount sn = count_if is_noop (take (Z.to_nat (offset lg)) full)
    end }.

(** Representation facts that the proofs below use all the time. *)
Lemma rep_len full lg : logs_rep full lg -> lenZ (entries lg) = lenZ full - offset lg.
Proof. intros H. rewrite (rep_entries _ _ H), length_drop. pose proof (rep_offset _ _ H). lia. Qed.

Lemma rep_nth full lg i :
  logs_rep full lg -> offset lg <= i -> nthZ (entries lg) (i - offset lg) = nthZ full i.
Proof.
  intros H Hi. pose proof (rep_offset _ _ H).
  rewrite (rep_entries _ _ H), nthZ_drop by lia. f_equal. lia.
Qed.

Lemma rep_lii full lg sn :
  logs_rep full lg -> snapshot lg = Some sn ->
  0 <= LastIncludeIndex sn < lenZ full /\ offset lg = LastIncludeIndex sn + 1 /\
  LastIncludeTerm sn = term_at full (LastIncludeIndex sn).
Proof.
  intros H E. pose proof (rep_snapshot _ _ H) as Hs. rewrite E in Hs.
  destruct Hs as (Ho & (et & Het & Ht & _) & _).
  pose proof (nthZ_Some _ _ _ Het). unfold term_at. rewrite Het. auto.
Qed.

Lemma noop_bounds full lg : logs_rep full lg -> 0 <= noopCount lg <= lenZ full.
Proof. intros H. rewrite (rep_noop _ _ H). apply count_if_bounds. Qed.

(** The entries from index [a] up to, not including, [b]. *)
Definition segment full (a b : Z) : list (LogEntry Cmd) :=
  take (Z.to_nat (b - a)) (drop (Z.to_nat a) full).

(** The slice of the in-memory entries that lies after [a] up to [b]. *)
Lemma rep_slice full lg a b :
  logs_rep full lg -> offset lg - 1 <= a ->
  take (Z.to_nat (b - offset lg + 1 - (a - offset lg + 1)))
    (drop (Z.to_nat (a - offset lg + 1)) (entries lg)) = segment full (a + 1) (b + 1).
Proof.
  intros H Ha. pose proof (rep_offset _ _ H). unfold segment.
  rewrite (rep_entries _ _ H), drop_drop. f_equal; [lia|]. f_equal. lia.
Qed.

(** The representation does not depend on the lock, the applier queue, the
    last applied index, nor on where the commit index is between its bounds. *)
Lemma rep_frame full lg lg' :
  logs_rep full lg -> entries lg' = entries lg -> lli lg' = lli lg ->
  offset lg - 1 <= lci lg' <= lli lg ->
  noopCount lg' = noopCount lg -> offset lg' = offset lg -> snapshot lg' = snapshot lg ->
  logs_rep full lg'.
Proof.
  intros [H1 H2 H3 H4 H5 H6 H7] E1 E2 E3 E4 E5 E6.
  split; rewrite ?E1, ?E2, ?E4, ?E5, ?E6; done.
Qed.

(** Appending keeps the representation. *)
Lemma rep_append full lg ets lg' :
  logs_rep full lg -> lenZ full + lenZ ets < 2^31 ->
  entries lg' = entries lg ++ ets -> lli lg' = lli lg + lenZ ets ->
  noopCount lg' = noopCount lg + count_if is_noop ets ->
  lci lg' = lci lg -> offset lg' = offset lg -> snapshot lg' = snapshot lg ->
  logs_rep (full ++ ets) lg'.
Proof.
  intros [H1 H2 H3 H4 H5 H6 H7] Hlen E1 E2 E3 E4 E5 E6.
  split; rewrite ?E1, ?E2, ?E3, ?E4, ?E5, ?E6; try (len; fail).
  - rewrite H2, drop_app_le; [done|lia].
  - destruct (snapshot lg) as [sn|]; [|done].
    destruct H7 as (Ho & (et & Het & Ht & Hc) & Hn). split_and!; [done| |].
    + exists et. split; [|done]. rewrite nthZ_app_l; [done|lia].
    + by rewrite take_app_le by lia.
Qed.

(** Dropping a suffix that starts after the commit index keeps it. *)
Lemma rep_truncate full lg i lg' :
  logs_rep full lg -> lci lg <= i <= lli lg ->
  entries lg' = take (Z.to_nat (i + 1 - offset lg)) (entries lg) -> lli lg' = i ->
  noopCount lg' = noopCount lg - count_if is_noop (drop (Z.to_nat (i + 1 - offset lg)) (entries lg)) ->
  lci lg' = lci lg -> offset lg' = offset lg -> snapshot lg' = snapshot lg ->
  logs_rep (take (Z.to_nat (i + 1)) full) lg'.
Proof.
  intros [H1 H2 H3 H4 H5 H6 H7] Hi E1 E2 E3 E4 E5 E6.
  split; rewrite ?E1, ?E2, ?E3, ?E4, ?E5, ?E6; try (len; fail).
  - rewrite H2, skipn_firstn_comm. f_equal. lia.
  - rewrite H2, drop_drop, H5.
    rewrite <- (count_if_take_drop _ (Z.to_nat (i + 1)) full).
    replace (Z.to_nat (offset lg) + Z.to_nat (i + 1 - offset lg))%nat with (Z.to_nat (i + 1)) by lia.
    lia.
  - destruct (snapshot lg) as [sn|]; [|done].
    destruct H7 as (Ho & (et & Het & Ht & Hc) & Hn). split_and!; [done| |].
    + exists et. split; [|done]. by rewrite nthZ_take by lia.
    + rewrite take_take, Nat.min_l by lia. done.
Qed.
End logs_spec.

Section logs_methods.
Context {Cmd : Type} `{!Gob Cmd, !GobRegistered Cmd}.
Implicit Types full ets : list (LogEntry Cmd).
Implicit Types s : Raft Cmd.

(** * Observers *)

Lemma indexLogTermNoLock_rep full s i :
  logs_rep full (logs s) -> ~ (0 <= i < offset (logs s) - 1) ->
  indexLogTermNoLock i s = Done (term_at full i) s.
Proof.
  intros H Hi. unfold indexLogTermNoLock. rewrite bind_gets.
  pose proof (rep_lli _ _ H) as Hlli. pose proof (rep_offset _ _ H) as Hoff.
  destruct ((i <? 0) || (lli (logs s) <? i)) eqn:E.
  { unfold term_at. rewrite nthZ_None; [done|]. apply orb_true_iff in E. lia. }
  apply orb_false_iff in E as [E1 E2].
  assert (offset (logs s) <= i -> (et ← go_index (entries (logs s)) (i - offset (logs s)); mret (et_Term et)) s
    = Done (term_at full i) s) as Hin.
  { intros Hle. destruct (nthZ_in_range full i) as [et Het]; [lia|].
    rewrite (bind_done _ _ _ et s); [unfold term_at; by rewrite Het|].
    apply go_index_ok. by rewrite (rep_nth full). }
  pose proof (rep_snapshot _ _ H) as Hs.
  destruct (snapshot (logs s)) as [sn|] eqn:Esn; [|apply Hin; lia].
  destruct (rep_lii _ _ _ H Esn) as (Hr & Ho & Ht).
  rewrite (proj2 (Z.ltb_ge _ _)) by lia.
  destruct (i =? LastIncludeIndex sn) eqn:Ei; [|apply Hin; lia].
  apply Z.eqb_eq in Ei as ->. by rewrite Ht.
Qed.

(** A read lock that is taken and released leaves the state as it was. *)
Lemma with_RLock {A} (body : M (Raft Cmd) A) s a :
  rw (logs s) <> WLocked ->
  (forall s', logs s' = set_rw (rw (logs s')) (logs s) -> rw (logs s') <> WLocked ->
    body s' = Done a s') ->
  (logs_RLock;; x ← body; logs_RUnlock;; mret x) s = Done a s.
Proof.
  intros Hrw Hbody. unfold logs_RLock, logs_RUnlock, RLock, RUnlock, logs_rw, set_logs_rw.
  unfold mbind, M_bind, mret, M_ret, on_logs.
  destruct (rw (logs s)) as [|n|] eqn:E; [| |done];
    (rewrite Hbody; [simpl|done..]);
    destruct s as [???????? lg ????]; destruct lg; simpl in *; by subst.
Qed.

(** Observers read the same through a changed lock. *)
Lemma rep_set_rw full lg v : logs_rep full lg -> logs_rep full (set_rw v lg).
Proof. intros H. apply (rep_frame full lg); try done. apply H. Qed.

Lemma indexLogTerm_rep full s i :
  logs_rep full (logs s) -> rw (logs s) <> WLocked -> ~ (0 <= i < offset (logs s) - 1) ->
  indexLogTerm i s = Done (term_at full i) s.
Proof.
  intros H Hrw Hi. apply with_RLock; [done|]. intros s' E Hrw'.
  apply indexLogTermNoLock_rep; rewrite E; [by apply rep_set_rw|done].
Qed.

(** tryIndexLogTerm answers exactly for the indices that are in memory or that
    the snapshot ends at. *)
Lemma tryIndexLogTerm_rep full s i :
  logs_rep full (logs s) -> rw (logs s) <> WLocked ->
  tryIndexLogTerm i s
  = Done (if bool_decide (0 <= i /\ offset (logs s) - 1 <= i < lenZ full)
          then (term_at full i, true) else (0, false)) s.
Proof.
  intros H Hrw. apply with_RLock; [done|]. intros s' E Hrw'. rewrite bind_gets, E.
  cbn [set_rw offset lli entries snapshot].
  pose proof (rep_lli _ _ H) as Hlli. pose proof (rep_offset _ _ H) as Hoff.
  set (inm := if (_ || _) then _ else _).
  assert (i <> offset (logs s) - 1 \/ i < 0 ->
    inm s' = Done (if bool_decide (0 <= i /\ offset (logs s) - 1 <= i < lenZ full)
          then (term_at full i, true) else (0, false)) s') as Hin.
  { intros Hne. unfold inm. destruct (_ || _) eqn:E1.
    - rewrite bool_decide_false; [done|]. apply orb_true_iff in E1. lia.
    - apply orb_false_iff in E1. rewrite bool_decide_true by lia.
      destruct (nthZ_in_range full i) as [et Het]; [lia|].
      rewrite (bind_done _ _ _ et s'); [unfold term_at; by rewrite Het|].
      apply go_index_ok. rewrite (rep_nth full); [done..|lia]. }
  pose proof (rep_snapshot _ _ H) as Hs.
  destruct (snapshot (logs s)) as [sn|] eqn:Esn; [|apply Hin; lia].
  destruct (rep_lii _ _ _ H Esn) as (Hr & Ho & Ht).
  destruct (i =? LastIncludeIndex sn) eqn:Ei; [|apply Hin; lia].
  apply Z.eqb_eq in Ei as ->. rewrite bool_decide_true by lia. by rewrite Ht.
Qed.

Lemma last_nthZ full et : last full = Some et <-> nthZ full (lenZ full - 1) = Some et.
Proof.
  rewrite last_lookup. destruct full as [|e full]; [done|].
  rewrite nthZ_nat by len. by replace (Z.to_nat _) with (pred (length (e :: full))) by len.
Qed.

Lemma lastLogInfo_rep full s :
  logs_rep full (logs s) -> rw (logs s) <> WLocked -> lastLogInfo s = Done (last_info full) s.
Proof.
  intros H Hrw. apply with_RLock; [done|]. intros s' E Hrw'. rewrite bind_gets, E.
  cbn [set_rw offset lli entries snapshot]. unfold last_info.
  pose proof (rep_lli _ _ H) as Hlli. pose proof (rep_offset _ _ H) as Hoff.
  pose proof (rep_len _ _ H) as Hlen.
  destruct (length (entries (logs s)) =? 0)%nat eqn:E0.
  - apply Nat.eqb_eq in E0. pose proof (rep_snapshot _ _ H) as Hs.
    destruct (snapshot (logs s)) as [sn|] eqn:Esn.
    + destruct Hs as (Ho & (et & Het & Ht & _) & _).
      assert (last full = Some et) as ->.
      { apply last_nthZ. rewrite <- Het. f_equal. lia. }
      rewrite Ht. do 2 f_equal. lia.
    + destruct full; [done|]. len.
  - apply Nat.eqb_neq in E0.
    destruct (nthZ_in_range full (lenZ full - 1)) as [et Het]; [lia|].
    rewrite (proj2 (last_nthZ full et)) by done.
    rewrite (bind_done _ _ _ et s'); [by rewrite Hlli|].
    apply go_index_ok. rewrite (rep_nth full) by (done || lia). by rewrite Hlli.
Qed.

(** The Raft paper's order on the ends of logs. *)
Definition up_to_date (mine other : LogInfo) : bool :=
  if li_Term mine =? li_Term other
  then li_Index mine <=? li_Index other else li_Term mine <? li_Term other.

Lemma atLeastUpToDate_rep full s other :
  logs_rep full (logs s) -> rw (logs s) <> WLocked ->
  atLeastUpToDate other s = Done (up_to_date (last_info full) other) s.
Proof.
  intros H Hrw. unfold atLeastUpToDate, up_to_date.
  rewrite (bind_done _ _ _ _ _ (lastLogInfo_rep _ _ H Hrw)). by case_bool.
Qed.

Lemma entriesAfter_rep full s i :
  logs_rep full (logs s) -> rw (logs s) = Unlocked -> 0 <= i <= lenZ full ->
  entriesAfter i s
  = Done (if i <? offset (logs s) then (snapshot (logs s), None)
          else (None, Some (mkSendEntries (drop (Z.to_nat i) full)
                              (mkLogInfo (i - 1) (term_at full (i - 1)))))) s.
Proof.
  intros H Hrw Hi. apply with_RLock; [congruence|]. intros s' E Hrw'. rewrite bind_gets.
  pose proof (rep_set_rw full (logs s) (rw (logs s')) H) as H'. rewrite <- E in H'.
  rewrite E. cbn [set_rw offset entries snapshot].
  destruct (i <? offset (logs s)) eqn:Ei; [done|]. apply Z.ltb_ge in Ei.
  pose proof (rep_len _ _ H) as Hlen. pose proof (rep_offset _ _ H) as Hoff.
  erewrite bind_done by (apply go_slice_from; lia).
  rewrite (bind_done _ _ s' (term_at full (i - 1)) s').
  - rewrite (rep_entries _ _ H), drop_drop.
    by replace (Z.to_nat (offset (logs s)) + Z.to_nat (i - offset (logs s)))%nat with (Z.to_nat i) by lia.
  - apply indexLogTerm_rep; [done..|]. rewrite E. cbn. lia.
Qed.
(** * Mutators *)

(** What the methods that change the entries leave alone. *)
Definition same_progress (lg lg' : Logs Cmd) : Prop :=
  rw lg' = rw lg /\ lci lg' = lci lg /\ applier lg' = applier lg /\ lai lg' = lai lg /\
  offset lg' = offset lg /\ snapshot lg' = snapshot lg.

Lemma same_progress_trans lg1 lg2 lg3 :
  same_progress lg1 lg2 -> same_progress lg2 lg3 -> same_progress lg1 lg3.
Proof. unfold same_progress. intros (?&?&?&?&?&?) (?&?&?&?&?&?). split_and!; congruence. Qed.

(** The methods change the logs and, through persistState, the persister:
    [s'] is [s] with logs [lg'] and nothing else changed but the persister. *)
Definition with_logs s (lg' : Logs Cmd) s' : Prop :=
  s' = set_persister (persister s') (set_logs lg' s).

Lemma pushEntry_run s et :
  rw (logs s) = Unlocked ->
  let et' := if is_noop et then et
             else mkEntry (lli (logs s) + 1 - noopCount (logs s) + 1) (et_Term et) (Content et) in
  pushEntry et s = Done (CommandIndex et')
    (on_logs (fun lg => mkLogs (entries lg ++ [et']) (lci lg) (to_int32 (lli lg + 1)) (lai lg)
       (if is_noop et then to_int32 (noopCount lg + 1) else noopCount lg)
       (offset lg) (applier lg) (snapshot lg) Unlocked) s).
Proof.
  intros E. unfold pushEntry, mbind, M_bind, logs_Lock, Lock, logs_rw. rewrite E.
  unfold LLI, Noop, gets, modify, mret, M_ret, logs_Unlock, Unlock, logs_rw, set_logs_rw, on_logs.
  by destruct (is_noop et).
Qed.

(** A leader's append extends the abstract log with the stamped entry. *)
Lemma pushEntry_rep full s et :
  logs_rep full (logs s) -> rw (logs s) = Unlocked -> lenZ full + 1 < 2^31 ->
  exists lg', pushEntry et s = Done (CommandIndex (stamped full et)) (set_logs lg' s) /\
    logs_rep (full ++ [stamped full et]) lg' /\ same_progress (logs s) lg'.
Proof.
  intros H Hrw Hfit. pose proof (noop_bounds _ _ H) as Hnb.
  pose proof (rep_lli _ _ H) as Hlli. pose proof (rep_noop _ _ H) as Hnoop.
  rewrite (pushEntry_run s et Hrw).
  assert ((if is_noop et then et
           else mkEntry (lli (logs s) + 1 - noopCount (logs s) + 1) (et_Term et) (Content et))
          = stamped full et) as ->.
  { unfold stamped, next_command. destruct (is_noop et); [done|]. f_equal. lia. }
  eexists. split; [done|]. split; [|unfold same_progress; by rewrite Hrw].
  eapply rep_append; try done.
  - simpl. rewrite to_int32_small; [done|]. unfold is_int32. lia.
  - cbn [noopCount]. unfold stamped.
    destruct (is_noop et) eqn:En; rewrite count_if_cons, count_if_nil.
    + rewrite En, to_int32_small; [lia|]. unfold is_int32. lia.
    + replace (is_noop _) with false; [lia|]. symmetry. apply Z.eqb_neq.
      unfold next_command, NOOP_INDEX. simpl. pose proof (count_if_bounds is_noop full). lia.
Qed.

(** The loops that count noops up or down. *)
Lemma noop_loop_run (d : Z) ets s :
  (forall k, 0 <= k <= count_if is_noop ets -> is_int32 (noopCount (logs s) + d * k)) ->
  for_each ets (fun et => when (is_noop et)
    (modify (on_logs (fun lg => set_noopCount (to_int32 (noopCount lg + d)) lg)))) s
  = Done tt (on_logs (set_noopCount (noopCount (logs s) + d * count_if is_noop ets)) s).
Proof.
  revert s. induction ets as [|et ets IH]; intros s Hk.
  - rewrite count_if_nil, Z.mul_0_r, Z.add_0_r. destruct s as [???????? [] ????]. done.
  - cbn [for_each]. pose proof (count_if_bounds is_noop ets). rewrite count_if_cons in Hk |- *.
    destruct (is_noop et); cbn [when].
    + rewrite bind_modify. rewrite IH.
      * unfold on_logs. simpl. rewrite to_int32_small.
        -- by replace (noopCount (logs s) + d + d * count_if is_noop ets)
             with (noopCount (logs s) + d * (1 + count_if is_noop ets)) by lia.
        -- specialize (Hk 1). rewrite Z.mul_1_r in Hk. apply Hk. lia.
      * intros k Hk'. unfold on_logs. simpl. rewrite to_int32_small.
        -- specialize (Hk (k + 1)). rewrite Z.mul_add_distr_l, Z.mul_1_r in Hk.
           replace (_ + d + d * k) with (noopCount (logs s) + (d * k + d)) by lia. apply Hk. lia.
        -- specialize (Hk 1). rewrite Z.mul_1_r in Hk. apply Hk. lia.
    + rewrite bind_ret. apply IH. intros k Hk'. apply Hk. lia.
Qed.

Lemma pushEntries_rep full s ets :
  logs_rep full (logs s) -> rw (logs s) = Unlocked -> lenZ full + lenZ ets < 2^31 ->
  exists lg', pushEntries ets s = Done tt (set_logs lg' s) /\
    logs_rep (full ++ ets) lg' /\ same_progress (logs s) lg'.
Proof.
  intros H Hrw Hfit. pose proof (noop_bounds _ _ H) as Hnb.
  pose proof (rep_len _ _ H) as Hlen. pose proof (rep_lli _ _ H) as Hlli.
  pose proof (rep_offset _ _ H) as Hoff.
  unfold pushEntries, mbind at 1, M_bind at 1, logs_Lock, Lock, logs_rw. rewrite Hrw.
  erewrite bind_done.
  2:{ apply (noop_loop_run 1). unfold on_logs. simpl. intros k Hk.
      pose proof (count_if_bounds is_noop ets). unfold is_int32. lia. }
  rewrite !bind_modify. unfold logs_Unlock, Unlock, logs_rw, set_logs_rw, on_logs.
  eexists. split; [done|]. split; [|unfold same_progress; by rewrite Hrw].
  eapply rep_append; try done; simpl; [|lia].
  rewrite length_app, to_int32_small; [lia|]. unfold is_int32. lia.
Qed.

Lemma removeAfter_rep full s i :
  logs_rep full (logs s) -> rw (logs s) = Unlocked -> lci (logs s) <= i <= lli (logs s) ->
  exists lg', removeAfter i s = Done tt (set_logs lg' s) /\
    logs_rep (take (Z.to_nat (i + 1)) full) lg' /\ same_progress (logs s) lg'.
Proof.
  intros H Hrw Hi. pose proof (noop_bounds _ _ H) as Hnb.
  pose proof (rep_len _ _ H) as Hlen. pose proof (rep_lli _ _ H) as Hlli.
  pose proof (rep_offset _ _ H) as Hoff. pose proof (rep_lci _ _ H) as Hlci.
  pose proof (rep_fits _ _ H) as Hfits.
  unfold removeAfter, mbind at 1, M_bind at 1, logs_Lock, Lock, logs_rw. rewrite Hrw, bind_gets.
  set (s1 := set_logs_rw WLocked s).
  change (logs s1) with (set_rw WLocked (logs s)). cbn [set_rw entries offset].
  erewrite bind_done by (apply go_slice_from; lia).
  set (gone := drop _ _).
  assert (count_if is_noop gone <= noopCount (logs s)) as Hgone.
  { rewrite (rep_noop _ _ H). unfold gone. rewrite (rep_entries _ _ H), drop_drop.
    rewrite <- (count_if_take_drop is_noop (Z.to_nat (offset (logs s)) +
      Z.to_nat (i + 1 - offset (logs s))) full).
    pose proof (count_if_bounds is_noop (take (Z.to_nat (offset (logs s)) +
      Z.to_nat (i + 1 - offset (logs s))) full)). lia. }
  erewrite bind_done.
  2:{ apply (noop_loop_run (-1)). intros k Hk. unfold is_int32. simpl. lia. }
  erewrite bind_done by (apply go_slice_to; lia).
  rewrite !bind_modify. unfold logs_Unlock, Unlock, logs_rw, set_logs_rw, on_logs.
  eexists. split; [done|]. split; [|unfold same_progress; by rewrite Hrw].
  apply (rep_truncate full (logs s)); try done; cbn -[Z.mul].
  rewrite length_take, to_int32_small; [lia|]. unfold is_int32. lia.
Qed.

Lemma persistState_run s :
  unlocked s -> exists ps, persistState s = Done tt (set_persister ps s) /\
    gob_encode (persistent_state s) = Some (raftstate ps) /\
    snapshot_bytes ps = snapshot_bytes (persister s).
Proof.
  intros Hu. destruct (gob_total (persistent_state s)) as [b Eb].
  eexists. split; [by apply persistState_done|done].
Qed.

Lemma set_logs_logs s : set_logs (logs s) s = s.
Proof. by destruct s. Qed.
Lemma set_persister_persister s : set_persister (persister s) s = s.
Proof. by destruct s. Qed.

(** The persisted image is that of the state. *)
Definition saved s : Prop := gob_encode (persistent_state s) = Some (raftstate (persister s)).

(** Replace-and-push: the branch of AppendEntries that changes the log. *)
Lemma replace_suffix_run full s i ets :
  logs_rep full (logs s) -> unlocked s -> lci (logs s) <= i <= lli (logs s) ->
  lenZ full + lenZ ets < 2^31 ->
  exists s' lg',
    (when (i <? lli (logs s)) (removeAfter i);; pushEntries ets;; persistState) s = Done tt s' /\
    with_logs s lg' s' /\ logs s' = lg' /\ saved s' /\
    logs_rep (take (Z.to_nat (i + 1)) full ++ ets) lg' /\ same_progress (logs s) lg'.
Proof.
  intros H Hu Hi Hfit. pose proof (rep_lli _ _ H) as Hlli.
  assert (exists lg1, (when (i <? lli (logs s)) (removeAfter i)) s = Done tt (set_logs lg1 s) /\
    logs_rep (take (Z.to_nat (i + 1)) full) lg1 /\ same_progress (logs s) lg1)
    as (lg1 & E1 & H1 & P1).
  { destruct (i <? lli (logs s)) eqn:E; simpl.
    - by apply removeAfter_rep; [|apply Hu|].
    - apply Z.ltb_ge in E. exists (logs s). rewrite set_logs_logs. split; [done|].
      rewrite take_ge by lia. done. }
  rewrite (bind_done _ _ _ _ _ E1).
  destruct (pushEntries_rep (take (Z.to_nat (i + 1)) full) (set_logs lg1 s) ets)
    as (lg2 & E2 & H2 & P2).
  { done. }
  { simpl. destruct P1 as [-> _]. apply Hu. }
  { rewrite length_take. lia. }
  rewrite (bind_done _ _ _ _ _ E2).
  destruct (persistState_run (set_logs lg2 (set_logs lg1 s))) as (ps & E3 & Hps & _).
  { split; [|apply Hu]. destruct P1 as [P1 _], P2 as [P2 _], Hu as [Hu _]. simpl in *. congruence. }
  rewrite E3. eexists _, lg2. split; [done|]. do 4 (split; [done|]).
  by eapply same_progress_trans.
Qed.

(** followerAppendEntries implements [append_spec]. *)
Lemma followerAppendEntries_rep full s prev ets :
  logs_rep full (logs s) -> unlocked s -> lenZ full + lenZ ets < 2^31 ->
  exists s', followerAppendEntries (Some (mkSendEntries ets prev)) s
      = Done (snd (append_spec (lci (logs s)) full prev ets)) s' /\
    with_logs s (logs s') s' /\
    logs_rep (fst (append_spec (lci (logs s)) full prev ets)) (logs s') /\
    same_progress (logs s) (logs s').
Proof.
  intros H Hu Hfit. pose proof (rep_lli _ _ H) as Hlli. pose proof (rep_lci _ _ H) as Hlci.
  pose proof (rep_offset _ _ H) as Hoff.
  assert (with_logs s (logs s) s) as Hsame.
  { unfold with_logs. by rewrite set_logs_logs, set_persister_persister. }
  unfold followerAppendEntries, append_spec, LCI, LLI. cbn [PrevLogInfo Entries].
  rewrite !bind_gets.
  destruct (li_Index prev <? lci (logs s)) eqn:E1; [by exists s|].
  rewrite bind_gets. apply Z.ltb_ge in E1.
  rewrite (proj2 (Z.ltb_ge _ _)) by lia.
  rewrite Z.gtb_ltb, Hlli. destruct (lenZ full - 1 <? li_Index prev) eqn:E2; [by exists s|].
  apply Z.ltb_ge in E2.
  rewrite (bind_done _ _ s ((li_Index prev <? 0) || (term_at full (li_Index prev) =? li_Term prev)) s).
  2:{ destruct (li_Index prev <? 0) eqn:E3; [done|].
      rewrite (bind_done _ _ _ _ _ (indexLogTermNoLock_rep full s (li_Index prev) H ltac:(lia))).
      done. }
  destruct (_ || _) eqn:E4; [|by exists s].
  destruct (length ets) as [|n] eqn:El; cbn [Nat.eqb Nat.ltb Nat.leb when fst snd].
  - rewrite bind_ret. exists s. done.
  - rewrite <- Hlli.
    destruct (replace_suffix_run full s (li_Index prev) ets) as (s' & lg' & E & W & L & _ & R & P);
      [done|done|lia|lia|].
    rewrite (bind_done _ _ _ _ _ E). exists s'. subst lg'. done.
Qed.

(** leaderAppendEntry appends the stamped entry, persists, and returns the last
    index and the command's number. *)
Lemma leaderAppendEntry_rep full s et :
  logs_rep full (logs s) -> unlocked s -> lenZ full + 1 < 2^31 ->
  exists s', leaderAppendEntry et s = Done (lenZ full, CommandIndex (stamped full et)) s' /\
    with_logs s (logs s') s' /\ saved s' /\
    logs_rep (full ++ [stamped full et]) (logs s') /\ same_progress (logs s) (logs s').
Proof.
  intros H Hu Hfit. unfold leaderAppendEntry.
  destruct (pushEntry_rep full s et H (proj1 Hu) Hfit) as (lg & E & R & P).
  rewrite (bind_done _ _ _ _ _ E).
  destruct (persistState_run (set_logs lg s)) as (ps & E2 & Hps & _).
  { split; [|apply Hu]. destruct P as [P _], Hu as [Hu _]. simpl. congruence. }
  rewrite (bind_done _ _ _ _ _ E2). unfold LLI. rewrite bind_gets.
  exists (set_persister ps (set_logs lg s)). split; [|done].
  simpl. rewrite (rep_lli _ _ R), length_app. simpl. unfold mret, M_ret. repeat f_equal. lia.
Qed.

(** updateCommit moves the commit index up to the leader's, never past the log,
    and queues exactly the newly committed entries. *)
Definition commit_spec full (c leaderCommit : Z) : Z := Z.max c (Z.min leaderCommit (lenZ full - 1)).

Lemma updateCommit_rep full s lc :
  logs_rep full (logs s) -> unlocked s -> (length (applier (logs s)) < APPLIER_CAP)%nat ->
  exists s', updateCommit lc s = Done tt s' /\ with_logs s (logs s') s' /\
    logs_rep full (logs s') /\ rw (logs s') = Unlocked /\ lai (logs s') = lai (logs s) /\
    snapshot (logs s') = snapshot (logs s) /\
    lci (logs s') = commit_spec full (lci (logs s)) lc /\
    applier (logs s') = applier (logs s) ++
      (if lci (logs s) <? lci (logs s')
       then [ApplyLogEntry (segment full (lci (logs s) + 1) (lci (logs s') + 1)) (lci (logs s'))]
       else []).
Proof.
  intros H Hu Hcap. pose proof (rep_lli _ _ H) as Hlli. pose proof (rep_lci _ _ H) as Hlci.
  pose proof (rep_offset _ _ H) as Hoff. pose proof (rep_len _ _ H) as Hlen.
  pose proof (rep_fits _ _ H) as Hfits.
  assert (with_logs s (logs s) s) as Hsame.
  { unfold with_logs. by rewrite set_logs_logs, set_persister_persister. }
  unfold updateCommit, LCI, LLI. rewrite bind_gets. unfold commit_spec.
  destruct (lc <=? lci (logs s)) eqn:E1.
  { apply Z.leb_le in E1. exists s. split_and!; try done; [apply Hu|lia|].
    by rewrite Z.ltb_irrefl, app_nil_r. }
  apply Z.leb_gt in E1. rewrite bind_gets, minInt_min, Z.gtb_ltb, Hlli.
  destruct (lci (logs s) <? Z.min lc (lenZ full - 1)) eqn:E2.
  2:{ apply Z.ltb_ge in E2. exists s. split_and!; try done; [apply Hu|lia|].
      by rewrite Z.ltb_irrefl, app_nil_r. }
  apply Z.ltb_lt in E2. set (nc := Z.min lc (lenZ full - 1)) in *.
  rewrite bind_gets. erewrite bind_done by (apply go_slice_ok; lia).
  erewrite bind_done.
  2:{ unfold applier_send, chan_send. rewrite decide_True by done. done. }
  rewrite bind_modify, to_int32_small by (unfold is_int32; lia).
  set (s1 := on_logs (set_lci nc) _).
  destruct (persistState_run s1) as (ps & E3 & Hps & _); [apply Hu|].
  rewrite E3. eexists. split; [done|]. cbn [set_persister set_logs logs s1 on_logs].
  split; [done|]. split_and!; try done.
  - apply (rep_frame full (logs s)); try done. simpl. lia.
  - apply Hu.
  - simpl. lia.
  - simpl. rewrite (proj2 (Z.ltb_lt _ _)) by done. do 3 f_equal.
    apply rep_slice; [done|lia].
Qed.

End logs_methods.
