(* ===== verification/Snapshots.v ===== *)
(** Log compaction and recovery (raft/log.go: takeSnapshot,
    followerInstallSnapshot, newLogs).

    takeSnapshot and followerInstallSnapshot call [persist] while they hold the
    write lock of the logs, and [persist] takes the read lock of the same
    mutex: both are shown to update the fields in memory and then to wait for
    ever with nothing saved.  Recovery is shown to rebuild the abstract log
    that was saved. *)

From S2P Require Import Prelude RaftTypes Persist Logs LogsSpec.

Section numbering.
Context {Cmd : Type}.
Implicit Types full ets : list (LogEntry Cmd).

Lemma next_command_app full ets :
  next_command (full ++ ets) = next_command full + lenZ ets - count_if is_noop ets.
Proof. unfold next_command. len. Qed.

Lemma numbered_nil : numbered (@nil (LogEntry Cmd)).
Proof. intros i et H. pose proof (nthZ_Some _ _ _ H). simpl in *. lia. Qed.

Lemma numbered_take full n : numbered full -> numbered (take (Z.to_nat n) full).
Proof.
  intros H i et Hi En. pose proof (nthZ_Some _ _ _ Hi) as Hr. rewrite length_take in Hr.
  rewrite nthZ_take in Hi by lia. rewrite take_take, Nat.min_l by lia. eauto.
Qed.

(** A leader's stamped entry continues the numbering. *)
Lemma numbered_stamped full et : numbered full -> numbered (full ++ [stamped full et]).
Proof.
  intros H i et' Hi En. pose proof (nthZ_Some _ _ _ Hi) as Hr. rewrite length_app in Hr. simpl in Hr.
  destruct (decide (i < lenZ full)) as [Hlt|Hge].
  - rewrite nthZ_app_l in Hi by done. rewrite take_app_le by lia. eauto.
  - replace i with (lenZ full) in * by lia. rewrite nthZ_last in Hi. injection Hi as <-.
    rewrite take_app_length' by lia. unfold stamped in *. destruct (is_noop et) eqn:E; [congruence|done].
Qed.

(** No two commands have the same number. *)
Lemma numbered_lt full i j et et' :
  numbered full -> nthZ full i = Some et -> nthZ full j = Some et' ->
  is_noop et = false -> is_noop et' = false -> i < j -> CommandIndex et < CommandIndex et'.
Proof.
  intros H Hi Hj Ei Ej Hlt. rewrite (H _ _ Hi Ei), (H _ _ Hj Ej).
  pose proof (nthZ_Some _ _ _ Hi). pose proof (nthZ_Some _ _ _ Hj).
  rewrite <- (take_drop (Z.to_nat i) (take (Z.to_nat j) full)).
  rewrite take_take, Nat.min_l by lia. rewrite next_command_app.
  destruct (drop (Z.to_nat i) (take (Z.to_nat j) full)) as [|e l] eqn:Ed.
  { apply (f_equal length) in Ed. rewrite length_drop, length_take in Ed. simpl in Ed. lia. }
  assert (e = et) as ->.
  { assert (nthZ (e :: l) 0 = Some et) as E0.
    { rewrite <- Ed, nthZ_drop, nthZ_take by lia. rewrite <- Hi. f_equal. lia. }
    by injection E0. }
  rewrite count_if_cons, Ei, length_cons. pose proof (count_if_bounds is_noop l). lia.
Qed.

(** The search loop finds the first command with the number asked for, and the
    noops before it. *)
Lemma search_command_found c off ets et (k : nat) i n :
  ets !! k = Some et -> is_noop et = false -> CommandIndex et = c ->
  (forall j e, (j < k)%nat -> ets !! j = Some e -> is_noop e = false -> CommandIndex e <> c) ->
  search_command c off ets i n = (i + Z.of_nat k + off, n + count_if is_noop (take k ets)).
Proof.
  revert k i n. induction ets as [|e ets IH]; intros k i n Hk En Hc Hfirst; [done|].
  destruct k as [|k]; simpl.
  - injection Hk as ->. rewrite En, Hc, Z.eqb_refl. rewrite count_if_nil. f_equal; lia.
  - simpl in Hk.
    assert (forall j e, (j < k)%nat -> ets !! j = Some e -> is_noop e = false -> CommandIndex e <> c)
      as Hf by (intros j e' ??; apply (Hfirst (S j)); [lia|done]).
    rewrite count_if_cons. destruct (is_noop e) eqn:Ee.
    + rewrite (IH k) by done. f_equal; lia.
    + rewrite (proj2 (Z.eqb_neq _ _)) by (apply (Hfirst 0%nat); [lia|done|done]).
      rewrite (IH k) by done. f_equal; lia.
Qed.

Lemma search_command_rep full lg i et :
  logs_rep full lg -> numbered full -> offset lg <= i -> nthZ full i = Some et ->
  is_noop et = false ->
  search_command (CommandIndex et) (offset lg) (entries lg) 0 0
  = (i, count_if is_noop (take (Z.to_nat i) full) - count_if is_noop (take (Z.to_nat (offset lg)) full)).
Proof.
  intros H Hnum Hi Het En. pose proof (rep_offset _ _ H) as Hoff.
  pose proof (nthZ_Some _ _ _ Het) as Hr. rewrite (rep_entries _ _ H).
  erewrite (search_command_found _ _ _ et (Z.to_nat (i - offset lg))); try done.
  - f_equal; [lia|]. rewrite Z.add_0_l, take_drop_commute.
    replace (Z.to_nat (offset lg) + Z.to_nat (i - offset lg))%nat with (Z.to_nat i) by lia.
    rewrite <- (count_if_take_drop is_noop (Z.to_nat (offset lg)) (take (Z.to_nat i) full)).
    rewrite take_take, Nat.min_l by lia. lia.
  - rewrite lookup_drop, <- Het, nthZ_nat by lia. f_equal. lia.
  - intros j e Hj He Ene Hc. rewrite lookup_drop in He.
    assert (CommandIndex e < CommandIndex et); [|lia].
    apply (numbered_lt full (offset lg + Z.of_nat j) i); try done; [|lia].
    rewrite nthZ_nat by lia. rewrite <- He. f_equal. lia.
Qed.
End numbering.

Section snapshots.
Context {Cmd : Type} `{!Gob Cmd}.
Implicit Types full : list (LogEntry Cmd).
Implicit Types s : Raft Cmd.

(** The logs as takeSnapshot leaves them in memory at log index [i]. *)
Definition compacted full (i : Z) (et : LogEntry Cmd) (snap : bytes) (lg : Logs Cmd) : Logs Cmd :=
  mkLogs (drop (Z.to_nat (i + 1)) full) (lci lg) (lli lg) i (noopCount lg) (i + 1) (applier lg)
    (Some (mkSnapshot snap i (et_Term et) (CommandIndex et)
             (count_if is_noop (take (Z.to_nat (i + 1)) full)))) WLocked.

Lemma take_succ full i et :
  nthZ full i = Some et -> take (Z.to_nat (i + 1)) full = take (Z.to_nat i) full ++ [et].
Proof.
  intros H. pose proof (nthZ_Some _ _ _ H). rewrite nthZ_nat in H by lia.
  rewrite <- (take_S_r _ _ _ H). f_equal. lia.
Qed.

(** Compaction does not change the abstract log. *)
Lemma compacted_rep full i et snap lg :
  logs_rep full lg -> nthZ full i = Some et -> i <= lci lg -> logs_rep full (compacted full i et snap lg).
Proof.
  intros H Het Hi. pose proof (nthZ_Some _ _ _ Het). pose proof (rep_lli _ _ H).
  pose proof (rep_lci _ _ H). split; simpl; try apply H; try lia; [done|].
  split; [done|]. split; [|done]. by exists et.
Qed.

Lemma takeSnapshot_run full s i et snap :
  logs_rep full (logs s) -> numbered full -> unlocked s ->
  offset (logs s) <= i -> nthZ full i = Some et -> is_noop et = false ->
  takeSnapshot (CommandIndex et) snap s
  = Blocked (set_saveLock WLocked (set_logs (compacted full i et snap (logs s)) s)).
Proof.
  intros H Hnum [Hrw Hsl] Hi Het En. unfold takeSnapshot. rewrite bind_gets.
  rewrite (search_command_rep full _ i et) by done.
  pose proof (rep_len _ _ H) as Hlen. pose proof (nthZ_Some _ _ _ Het) as Hr.
  pose proof (rep_offset _ _ H) as Hoff. pose proof (rep_fits _ _ H) as Hfits.
  rewrite (proj2 (Z.ltb_lt _ _)) by lia. rewrite bind_assert.
  erewrite bind_done by (apply go_index_ok; by rewrite (rep_nth full)).
  rewrite Z.eqb_refl, bind_assert.
  unfold mbind at 1, M_bind at 1, logs_Lock, Lock, logs_rw. rewrite Hrw.
  erewrite bind_done.
  2:{ apply (indexLogTermNoLock_rep full); [by apply rep_set_rw|]. simpl. lia. }
  rewrite bind_modify. erewrite bind_done by (apply go_slice_from; lia).
  rewrite !bind_modify. apply bind_blocked. rewrite persist_blocked by done. f_equal.
  rewrite to_int32_small by (unfold is_int32; lia).
  unfold compacted, set_logs_rw, on_logs. unfold set_saveLock, set_logs. simpl. f_equal. unfold set_lai. simpl.
  rewrite (rep_entries _ _ H), drop_drop. f_equal.
  - f_equal. lia.
  - unfold term_at. rewrite Het. do 2 f_equal.
    rewrite (take_succ _ _ _ Het), count_if_app, count_if_cons, En, count_if_nil.
    pose proof (rep_snapshot _ _ H) as Hs. destruct (snapshot (logs s)) as [sn|].
    + destruct Hs as (Ho & _ & ->). lia.
    + rewrite Hs. simpl. rewrite take_0, count_if_nil. lia.
Qed.

(** The logs as followerInstallSnapshot leaves them in memory. *)
Definition installed (sn : Snapshot) (lg : Logs Cmd) : Logs Cmd :=
  mkLogs [] (to_int32 (LastIncludeIndex sn)) (to_int32 (LastIncludeIndex sn)) (lai lg)
    (to_int32 (sn_NoopCount sn)) (LastIncludeIndex sn + 1)
    (applier lg ++ [ApplySnapshotEntry sn]) (Some sn) WLocked.

Lemma followerInstallSnapshot_run s sn :
  unlocked s -> (length (applier (logs s)) < APPLIER_CAP)%nat ->
  followerInstallSnapshot sn s
  = Blocked (set_saveLock WLocked (set_logs (installed sn (logs s)) s)).
Proof.
  intros [Hrw Hsl] Hcap. unfold followerInstallSnapshot.
  unfold mbind at 1, M_bind at 1, logs_Lock, Lock, logs_rw. rewrite Hrw.
  rewrite !bind_modify. erewrite bind_done.
  2:{ unfold applier_send, chan_send. simpl. rewrite decide_True by done. done. }
  apply bind_blocked. by rewrite persist_blocked.
Qed.

(** * Recovery *)

(** What is queued for the service when a peer comes back. *)
Definition resume_queue full (lg : Logs Cmd) : list (ApplyEntry Cmd) :=
  let rest := if lai lg <? lci lg
              then [ApplyLogEntry (segment full (lai lg + 1) (lci lg + 1)) (lci lg)] else [] in
  match snapshot lg with
  | Some sn => if lai lg <? LastIncludeIndex sn then [ApplySnapshotEntry sn] else rest
  | None => rest
  end.

Lemma newLogs_run {S} (st : S) full s :
  logs_rep full (logs s) -> -1 <= lai (logs s) ->
  (snapshot (logs s) <> None -> snapshot_data s <> []) ->
  newLogs (Some (p_Logs (persistent_state s))) (snapshot_data s) st
  = Done (set_rw Unlocked (set_applier (resume_queue full (logs s)) (logs s))) st.
Proof.
  intros H Hlai Hdata. unfold newLogs.
  erewrite (bind_done _ _ _ (set_rw Unlocked (set_applier [] (logs s)))).
  2:{ unfold snapshot_data in *. simpl. destruct (snapshot (logs s)) as [sn|] eqn:E; simpl.
      - destruct (sn_Snapshot sn) as [|b bs] eqn:Eb; [exfalso; by apply Hdata|].
        unfold set_rw, set_applier. simpl. rewrite E, <- Eb. by destruct sn.
      - unfold set_rw, set_applier. simpl. by rewrite E. }
  pose proof (rep_len _ _ H) as Hlen. pose proof (rep_lci _ _ H) as Hlci.
  pose proof (rep_lli _ _ H) as Hlli. pose proof (rep_offset _ _ H) as Hoff.
  unfold resume_queue. cbn [set_rw set_applier lai lci snapshot offset entries].
  set (resume := if lai (logs s) <? lci (logs s) then _ else mret _).
  set (q := if lai (logs s) <? lci (logs s) then _ else []).
  assert (offset (logs s) - 1 <= lai (logs s) ->
    resume st = Done (set_rw Unlocked (set_applier q (logs s))) st) as Hres.
  { intros Hle. unfold resume, q. destruct (lai (logs s) <? lci (logs s)) eqn:E; [|done].
    apply Z.ltb_lt in E. erewrite bind_done by (apply go_slice_ok; lia).
    by rewrite (rep_slice full) by (done || lia). }
  pose proof (rep_snapshot _ _ H) as Hs. destruct (snapshot (logs s)) as [sn|] eqn:Esn.
  - destruct (lai (logs s) <? LastIncludeIndex sn) eqn:El.
    + done.
    + apply Hres. apply Z.ltb_ge in El. lia.
  - apply Hres. lia.
Qed.
End snapshots.
