(* ===== verification/Applied.v ===== *)
(** What the service sees of the log (raft/log.go): the methods interleaved
    with the applier goroutine.

    [log_step] lets any of the log's methods run, in any order, with any
    arguments the peer may receive, and the applier goroutine take any queued
    element.  The invariant says that what the service has been given, followed
    by what is queued for it, is exactly the committed part of the log. *)

From S2P Require Import Prelude RaftTypes Persist Logs LogsSpec.

Section applied.
Context {Cmd : Type} `{!Gob Cmd, !GobRegistered Cmd}.
Implicit Types full ets : list (LogEntry Cmd).
Implicit Types s : Raft Cmd.

(** The messages for a run of entries: noops are skipped. *)
Definition commands ets : list (ApplyMsg Cmd) :=
  command_msg <$> filter (fun et => is_noop et = false) ets.

Definition queued (q : list (ApplyEntry Cmd)) : list (ApplyMsg Cmd) :=
  q ≫= (fun a => match a with
                 | ApplyLogEntry ets _ => commands ets
                 | ApplySnapshotEntry sn => [snapshot_msg sn]
                 end).

(** A peer's log, what was delivered to the service, and whether the applier
    goroutine still runs. *)
Record log_world := LW { lw_raft : Raft Cmd; delivered : list (ApplyMsg Cmd); running : bool }.

Inductive log_step : log_world -> log_world -> Prop :=
  | step_leader et r s s' d b :
      lli (logs s) + 2 < 2^31 ->
      leaderAppendEntry et s = Done r s' -> log_step (LW s d b) (LW s' d b)
  | step_follower se r s s' d b :
      lli (logs s) + 1 + lenZ (Entries se) < 2^31 ->
      followerAppendEntries (Some se) s = Done r s' -> log_step (LW s d b) (LW s' d b)
  | step_commit lc s s' d b :
      updateCommit lc s = Done tt s' -> log_step (LW s d b) (LW s' d b)
  | step_apply accept ms go s s' d :
      applier_turn accept s = Done (Some (ms, go)) s' ->
      log_step (LW s d true) (LW s' (d ++ ms) go).

Record log_inv full (w : log_world) : Prop := {
  inv_rep : logs_rep full (logs (lw_raft w));
  inv_unlocked : unlocked (lw_raft w);
  inv_no_snapshot : snapshot (logs (lw_raft w)) = None;
  inv_queue : Forall (fun a => exists ets i, a = ApplyLogEntry ets i) (applier (logs (lw_raft w)));
  inv_stream :
    let committed := commands (take (Z.to_nat (lci (logs (lw_raft w)) + 1)) full) in
    if running w then delivered w ++ queued (applier (logs (lw_raft w))) = committed
    else delivered w `prefix_of` committed }.

Lemma commands_app ets1 ets2 : commands (ets1 ++ ets2) = commands ets1 ++ commands ets2.
Proof. unfold commands. by rewrite filter_app, fmap_app. Qed.

Lemma queued_app q1 q2 : queued (q1 ++ q2) = queued q1 ++ queued q2.
Proof. apply bind_app. Qed.

(** The goroutine delivers a prefix of an element's messages, all of them when
    it goes on. *)
Lemma apply_entries_spec accept k ets :
  let '(ms, go) := apply_entries accept k ets in
  if go then ms = commands ets else ms `prefix_of` commands ets.
Proof.
  revert k. induction ets as [|et ets IH]; intros k; simpl; [done|].
  unfold commands. rewrite filter_cons. destruct (is_noop et) eqn:E.
  - rewrite decide_False by done. apply IH.
  - rewrite decide_True by done. destruct (accept k); [|apply prefix_nil].
    specialize (IH (S k)). destruct (apply_entries accept (S k) ets) as [ms go].
    destruct go; simpl; [by rewrite IH|by apply prefix_cons].
Qed.

Lemma segment_extend full a b :
  0 <= a <= b -> take (Z.to_nat b) full = take (Z.to_nat a) full ++ segment full a b.
Proof.
  intros. unfold segment. rewrite take_take_drop. f_equal. lia.
Qed.

Lemma append_spec_committed full c prev ets :
  -1 <= c -> c <= lenZ full - 1 ->
  take (Z.to_nat (c + 1)) (fst (append_spec c full prev ets)) = take (Z.to_nat (c + 1)) full.
Proof.
  intros H1 H2. unfold append_spec.
  destruct (li_Index prev <? c) eqn:E1; [done|].
  destruct (lenZ full - 1 <? li_Index prev) eqn:E2; [done|].
  destruct (_ || _); [|done]. destruct (_ =? _)%nat; [done|]. simpl.
  rewrite take_app_le by (rewrite length_take; lia). rewrite take_take. f_equal. lia.
Qed.

Lemma unlocked_with_logs s lg' s' :
  unlocked s -> with_logs s lg' s' -> rw lg' = rw (logs s) -> unlocked s'.
Proof. intros [H1 H2] -> E. split; simpl; [by rewrite E|done]. Qed.

Lemma same_progress_inv full full' s s' d b :
  log_inv full (LW s d b) -> logs_rep full' (logs s') -> with_logs s (logs s') s' ->
  same_progress (logs s) (logs s') ->
  take (Z.to_nat (lci (logs s) + 1)) full' = take (Z.to_nat (lci (logs s) + 1)) full ->
  log_inv full' (LW s' d b).
Proof.
  intros [H1 H2 H3 H4 H5] R W (P1 & P2 & P3 & P4 & P5 & P6) Ht. simpl in *.
  split; simpl; rewrite ?P2, ?P3, ?P6, ?Ht; try done. by eapply unlocked_with_logs.
Qed.

(** With the queue full, updateCommit only returns when there is nothing to do. *)
Lemma updateCommit_full lc s s' :
  updateCommit lc s = Done tt s' -> ~ (length (applier (logs s)) < APPLIER_CAP)%nat -> s' = s.
Proof.
  intros E Hcap. revert E. unfold updateCommit, LCI, LLI. rewrite bind_gets.
  case_bool; [by intros [= ->]|]. rewrite bind_gets. case_bool; [|by intros [= ->]].
  rewrite bind_gets. unfold mbind at 1, M_bind at 1.
  destruct (go_slice _ _ _ _) as [ets s2|p s2|s2] eqn:Es; [|done..].
  assert (s2 = s) as ->.
  { unfold go_slice in Es. case_decide; [|done]. by injection Es. }
  unfold applier_send, chan_send, mbind, M_bind. by rewrite decide_False.
Qed.

Lemma commit_step_inv full lc s s' d b :
  log_inv full (LW s d b) -> updateCommit lc s = Done tt s' ->
  log_inv full (LW s' d b) /\ lci (logs s) <= lci (logs s').
Proof.
  intros [R U Hns Hqs Hst] E. simpl in *. pose proof (rep_lci _ _ R) as Hlci.
  pose proof (rep_offset _ _ R) as Hoff.
  destruct (decide (length (applier (logs s)) < APPLIER_CAP)%nat) as [Hcap|Hcap];
    [|apply updateCommit_full in E as ->; [split; [done|lia]|done]].
  destruct (updateCommit_rep full s lc R U Hcap) as (s2 & E2 & W & R2 & Hrw & Hlai & Hsn & Hc & Hq).
  rewrite E2 in E. simplify_eq. unfold commit_spec in Hc. split; [|lia]. split; simpl; try done.
  - eapply unlocked_with_logs; [done..|]. rewrite Hrw. symmetry. apply U.
  - by rewrite Hsn.
  - rewrite Hq. apply Forall_app. split; [done|]. case_bool; [|done].
    apply Forall_singleton. eauto.
  - rewrite Hq, queued_app, app_assoc.
    rewrite (segment_extend full (lci (logs s) + 1) (lci (logs s') + 1)) by lia.
    rewrite commands_app. destruct b; [|by apply prefix_app_r].
    rewrite Hst. f_equal. destruct (lci (logs s) <? lci (logs s')) eqn:El.
    + simpl. by rewrite app_nil_r.
    + apply Z.ltb_ge in El. replace (lci (logs s')) with (lci (logs s)) by lia.
      unfold segment. by rewrite Z.sub_diag.
Qed.

Lemma apply_step_inv full accept ms go s s' d :
  log_inv full (LW s d true) -> applier_turn accept s = Done (Some (ms, go)) s' ->
  log_inv full (LW s' (d ++ ms) go) /\ lci (logs s') = lci (logs s).
Proof.
  intros [R U Hns Hqs Hst] E. unfold applier_turn in E. rewrite bind_gets in E.
  cbn [lw_raft delivered running] in *. simpl in E.
  destruct (applier (logs s)) as [|a rest] eqn:Ea; [done|].
  apply Forall_cons in Hqs as [(ets & i & ->) Hqs].
  rewrite bind_modify in E. injection E as E <-.
  pose proof (apply_entries_spec accept 0 ets) as Happ. rewrite E in Happ. simpl.
  split; [|done]. split; simpl; try done.
  - apply (rep_frame full (logs s)); try done. apply (rep_lci _ _ R).
  - simpl in Hst. destruct go.
    + rewrite Happ, <- app_assoc. done.
    + rewrite <- Hst. apply prefix_app. by apply prefix_app_r.
Qed.

(** Every step keeps the invariant, and what is committed stays committed. *)
Lemma log_step_inv full w w' :
  log_inv full w -> log_step w w' ->
  exists full', log_inv full' w' /\
    lci (logs (lw_raft w)) <= lci (logs (lw_raft w')) /\
    take (Z.to_nat (lci (logs (lw_raft w)) + 1)) full'
    = take (Z.to_nat (lci (logs (lw_raft w)) + 1)) full.
Proof.
  intros Hinv Hstep. pose proof (inv_rep _ _ Hinv) as R. pose proof (inv_unlocked _ _ Hinv) as U.
  pose proof (rep_lli _ _ R) as Hlli. pose proof (rep_lci _ _ R) as Hlci.
  pose proof (rep_offset _ _ R) as Hoff.
  destruct Hstep as [et r s s' d b Hfit E|[ets prev] r s s' d b Hfit E|lc s s' d b E|accept ms go s s' d E];
    cbn [lw_raft delivered running Entries] in *.
  - destruct (leaderAppendEntry_rep full s et R U) as (s2 & E2 & W & _ & R2 & P); [lia|].
    rewrite E2 in E. simplify_eq.
    assert (take (Z.to_nat (lci (logs s) + 1)) (full ++ [stamped full et])
      = take (Z.to_nat (lci (logs s) + 1)) full) as Ht by (apply take_app_le; lia).
    eexists. split; [by eapply same_progress_inv|].
    destruct P as (_ & -> & _). split; [lia|done].
  - destruct (followerAppendEntries_rep full s prev ets R U) as (s2 & E2 & W & R2 & P); [lia|].
    rewrite E2 in E. simplify_eq.
    pose proof (append_spec_committed full (lci (logs s)) prev ets ltac:(lia) ltac:(lia)) as Ht.
    eexists. split; [by eapply same_progress_inv|].
    destruct P as (_ & -> & _). split; [lia|done].
  - destruct (commit_step_inv _ _ _ _ _ _ Hinv E). by exists full.
  - destruct (apply_step_inv _ _ _ _ _ _ _ Hinv E) as [Hi ->]. exists full. split; [done|]. split; [lia|done].
Qed.

(** The invariant along a run. *)
Lemma log_steps_inv full w w' :
  log_inv full w -> rtc log_step w w' -> exists full', log_inv full' w'.
Proof.
  intros H Hs. revert full H. induction Hs as [w|w w1 w2 Hstep _ IH]; intros full H; [eauto|].
  destruct (log_step_inv _ _ _ H Hstep) as (full' & H' & _). eauto.
Qed.

(** A peer with the log that newLogs makes when nothing was saved. *)
Lemma fresh_log_inv s :
  newLogs None [] tt = Done (logs s) tt -> unlocked s -> log_inv [] (LW s [] true).
Proof.
  intros E U. cbv -[logs] in E. injection E as E.
  split; simpl; rewrite <- ?E; try done.
Qed.
End applied.
