(* ===== verification/ReplCounter.v ===== *)
(** The leader's replication counter (raft/repl.go, ReplCounter): for every
    entry of the leader's term that is not committed yet, which peers confirmed
    it.  An entry is committed when a majority did. *)

From S2P Require Import Prelude BitVec RaftTypes Persist Logs LogsSpec.

(** Run a bit vector's method on a vector that is part of a larger state. *)
Definition on_bitvec {S A} (m : M BitVec A) (bv : BitVec) : M S (A * BitVec) := fun s =>
  match m bv with
  | Done a bv' => Done (a, bv') s
  | Panicked p _ => Panicked p s
  | Blocked _ => Blocked s
  end.

Definition newReplCounter : list ReplEntry := [].

Section repl_counter.
Context {Cmd : Type} `{!Gob Cmd}.
Implicit Types rc : list ReplEntry.

Definition watchIndex rc (idx : Z) : M (Raft Cmd) (list ReplEntry) :=
  assert (match last rc with None => true | Some e => idx =? index e + 1 end);;
  s ← gets (fun s => s);
  bv ← newBitVec (peers s);
  r ← on_bitvec (Set_ (me s)) bv;
  mret (rc ++ [mkReplEntry (snd r) idx]).

(** The loop that sets the peer's bit at the offsets [off], [off + 1], ... *)
Fixpoint confirm_loop (peerId : Z) (n : nat) (off : Z) rc : M (Raft Cmd) (list ReplEntry) :=
  match n with
  | O => mret rc
  | S n =>
      e ← go_index rc off;
      r ← on_bitvec (Set_ peerId) (bitVec e);
      rc' ← go_update rc off (mkReplEntry (snd r) (index e));
      confirm_loop peerId n (off + 1) rc'
  end.

(** How many leading entries a majority holds. *)
Fixpoint majority_prefix (major : Z) rc : nat :=
  match rc with
  | [] => O
  | e :: rc' => if count (bitVec e) >=? major then S (majority_prefix major rc') else O
  end.

Definition confirm rc (peerId startIdx endIdx : Z) : M (Raft Cmd) (list ReplEntry) :=
  if (length rc =? 0)%nat then mret rc else
  e0 ← go_index rc 0;
  let baseIndex := index e0 in
  let endOffset := endIdx - baseIndex in
  assert (endOffset <=? lenZ rc);;
  let off := maxInt (startIdx - baseIndex) 0 in
  rc1 ← confirm_loop peerId (Z.to_nat (endOffset - off)) off rc;
  major ← gets majorN;
  let i := majority_prefix major rc1 in
  if (0 <? i)%nat then
    e ← go_index rc1 (Z.of_nat i - 1);
    updateCommit (index e);;
    go_slice rc1 (Z.of_nat i) (lenZ rc1)
  else mret rc1.
End repl_counter.

(** * What it keeps and what it does *)

Section repl_spec.
Implicit Types rc : list ReplEntry.

(** The entries watch consecutive log indices, each with a vector for [n]
    peers that already counts the leader [self]. *)
Record counter_ok (n self : Z) rc : Prop := {
  watched : forall k j ek ej, rc !! k = Some ek -> rc !! j = Some ej ->
    index ek - index ej = Z.of_nat k - Z.of_nat j;
  vectors : Forall (fun e => bitvec_ok (bitVec e) /\ n <= room (bitVec e) /\
                             member (bitVec e) self = true) rc }.

(** The counter after peer [p] confirmed the indices in [a, b). *)
Definition confirmed (p a b : Z) rc rc' : Prop :=
  Forall2 (fun e e' => index e' = index e /\
    forall j, member (bitVec e') j
      = (bool_decide (j = p /\ a <= index e < b) || member (bitVec e) j)) rc rc'.

Lemma on_bitvec_done {S A} (m : M BitVec A) bv a bv' (s : S) :
  m bv = Done a bv' -> on_bitvec m bv s = Done (a, bv') s.
Proof. unfold on_bitvec. by intros ->. Qed.

Lemma counter_ok_nil n self : counter_ok n self [].
Proof. split; [done|constructor]. Qed.

Lemma counter_ok_drop n self rc k : counter_ok n self rc -> counter_ok n self (drop k rc).
Proof.
  intros [H1 H2]. split; [|by apply Forall_drop].
  intros i j ei ej Hi Hj. rewrite lookup_drop in Hi, Hj.
  rewrite (H1 _ _ _ _ Hi Hj). lia.
Qed.

(** A majority prefix really is one, and it is the longest. *)
Lemma majority_prefix_spec major rc :
  let i := majority_prefix major rc in
  (i <= length rc)%nat /\
  (forall k e, (k < i)%nat -> rc !! k = Some e -> major <= count (bitVec e)) /\
  (forall e, rc !! i = Some e -> count (bitVec e) < major).
Proof.
  induction rc as [|e rc IH]; simpl; [split_and!; [lia|done|done]|].
  rewrite Z.geb_leb. destruct (major <=? count (bitVec e)) eqn:E.
  - apply Z.leb_le in E. destruct IH as (H1 & H2 & H3). split_and!; [lia| |done].
    intros [|k] e' Hk He; simpl in *; [by injection He as <-|]. apply (H2 k); [lia|done].
  - apply Z.leb_gt in E. split_and!; [lia|lia|]. intros e' [= <-]. done.
Qed.

(** Setting one peer's bit at one offset. *)
Lemma counter_ok_insert n self rc k e bv :
  counter_ok n self rc -> rc !! k = Some e -> 0 <= n ->
  bitvec_ok bv -> n <= room bv -> member bv self = true ->
  counter_ok n self (<[k := mkReplEntry bv (index e)]> rc).
Proof.
  intros [H1 H2] Hk Hn Hbv Hroom Hself. pose proof (lookup_lt_Some _ _ _ Hk) as Hlt. split.
  - assert (forall i ei, <[k:=mkReplEntry bv (index e)]> rc !! i = Some ei ->
      exists ei0, rc !! i = Some ei0 /\ index ei0 = index ei) as Hold.
    { intros i ei Hi. destruct (decide (i = k)) as [->|].
      - rewrite list_lookup_insert_eq in Hi by done. injection Hi as <-. eauto.
      - rewrite list_lookup_insert_ne in Hi by done. eauto. }
    intros i j ei ej (ei0 & Hi & <-)%Hold (ej0 & Hj & <-)%Hold. eauto.
  - apply Forall_insert; [done|]. done.
Qed.

Context {Cmd : Type}.

Lemma confirm_loop_run (s : Raft Cmd) n self p m off rc :
  counter_ok n self rc -> 0 <= p < n -> 0 <= off -> m = O \/ off + Z.of_nat m <= lenZ rc ->
  exists rc', confirm_loop p m off rc s = Done rc' s /\ counter_ok n self rc' /\
    Forall2 (fun ke e' => index e' = index (snd ke) /\ forall j, member (bitVec e') j =
      (bool_decide (j = p /\ off <= Z.of_nat (fst ke) < off + Z.of_nat m) || member (bitVec (snd ke)) j))
      (imap pair rc) rc'.
Proof.
  revert off rc. induction m as [|m IH]; intros off rc Hok Hp Hoff Hlen.
  - exists rc. split; [done|]. split; [done|]. apply Forall2_lookup. intros i.
    rewrite list_lookup_imap. destruct (rc !! i) as [e|] eqn:Ei; simpl; constructor.
    split; [done|]. intros j. rewrite bool_decide_false; [done|]. simpl. lia.
  - destruct (nthZ_in_range rc off) as [e He]; [lia|].
    pose proof He as He'. rewrite nthZ_nat in He' by done.
    destruct (Forall_lookup_1 _ _ _ _ (vectors _ _ _ Hok) He') as (Hbv & Hroom & Hself).
    destruct (Set_inserted (bitVec e) p Hbv) as (bv' & ES & Hbv' & Hroom' & _ & _ & Hmem); [lia|].
    cbn [confirm_loop]. rewrite (bind_done _ _ _ _ _ (go_index_ok _ _ _ _ He)).
    rewrite (bind_done _ _ _ _ _ (on_bitvec_done _ _ _ _ _ ES)).
    erewrite bind_done by (apply go_update_ok; lia). cbn [snd].
    destruct (IH (off + 1) (<[Z.to_nat off := mkReplEntry bv' (index e)]> rc)) as (rc' & E & Hok' & F).
    + apply counter_ok_insert; try done; [lia|lia|]. rewrite Hmem, Hself. apply orb_true_r.
    + done.
    + lia.
    + rewrite length_insert. lia.
    + exists rc'. split; [done|]. split; [done|].
      apply Forall2_lookup. intros i. rewrite Forall2_lookup in F. specialize (F i).
      rewrite list_lookup_imap in F |- *.
      destruct (decide (i = Z.to_nat off)) as [->|Hne].
      * rewrite list_lookup_insert_eq in F by lia. rewrite He'. simpl in *.
        destruct (rc' !! Z.to_nat off) as [e'|]; inversion F as [?? [F1 F2]|]; simplify_eq.
        constructor. simpl in *. split; [done|]. intros j. rewrite F2, Hmem.
        rewrite orb_assoc. f_equal. rewrite <- bool_decide_or. apply bool_decide_ext. lia.
      * rewrite list_lookup_insert_ne in F by done.
        destruct (rc !! i) as [ei|], (rc' !! i) as [e'|]; inversion F as [?? [F1 F2]|]; simplify_eq;
          constructor. simpl in *. split; [done|]. intros j. rewrite F2. f_equal.
        apply bool_decide_ext. lia.
Qed.

(** confirm marks the peer on the indices it confirmed, then commits the
    longest prefix that a majority holds and stops watching it. *)
Lemma confirm_run `{!Gob Cmd} (s : Raft Cmd) n self p a b rc e0 rest :
  rc = e0 :: rest -> counter_ok n self rc -> 0 <= p < n -> b <= index e0 + lenZ rc ->
  exists rc1, confirmed p a b rc rc1 /\ counter_ok n self rc1 /\
    let i := majority_prefix (majorN s) rc1 in
    confirm rc p a b s
    = match rc1 !! pred i with
      | Some e => if (0 <? i)%nat then (updateCommit (index e);; mret (drop i rc1)) s else Done rc1 s
      | None => Done rc1 s
      end.
Proof.
  intros Hrc Hok Hp Hb. unfold confirm.
  replace (length rc =? 0)%nat with false by (by subst).
  assert (rc !! 0%nat = Some e0) as H0 by (by subst). clear Hrc.
  erewrite bind_done by (apply go_index_ok; rewrite nthZ_nat by lia; apply H0).
  rewrite (proj2 (Z.leb_le _ _)) by lia. rewrite bind_assert, maxInt_max.
  destruct (confirm_loop_run s n self p
    (Z.to_nat (b - index e0 - Z.max (a - index e0) 0)) (Z.max (a - index e0) 0) rc)
    as (rc1 & E & Hok1 & F); try done; try lia.
  rewrite (bind_done _ _ _ _ _ E), bind_gets.
  exists rc1. split; [|split; [done|]].
  - apply Forall2_lookup. intros i. rewrite Forall2_lookup in F. specialize (F i).
    rewrite list_lookup_imap in F.
    destruct (rc !! i) as [e|] eqn:Ei, (rc1 !! i) as [e'|]; inversion F as [?? [F1 F2]|];
      simplify_eq; constructor. simpl in *. split; [done|]. intros j. rewrite F2. f_equal.
    apply bool_decide_ext. pose proof (watched _ _ _ Hok _ _ _ _ Ei H0). lia.
  - pose proof (majority_prefix_spec (majorN s) rc1) as (Hi & _ & _).
    destruct (majority_prefix (majorN s) rc1) as [|i]; cbn [Nat.ltb Nat.leb pred].
    + by destruct (rc1 !! 0%nat).
    + destruct (lookup_lt_is_Some_2 rc1 i) as [e He]; [lia|]. rewrite He.
      erewrite bind_done by (apply go_index_ok; rewrite nthZ_nat by lia;
        replace (Z.to_nat _) with i by lia; apply He).
      unfold mbind, M_bind. destruct (updateCommit (index e) s) as [[] s'| |]; [|done..].
      rewrite go_slice_from by lia. by rewrite Nat2Z.id.
Qed.

(** A new entry is watched with only the leader's own bit set. *)
Lemma watchIndex_run (s : Raft Cmd) rc idx :
  counter_ok (peers s) (me s) rc -> 0 <= me s < peers s ->
  (forall e, last rc = Some e -> idx = index e + 1) ->
  exists bv, watchIndex rc idx s = Done (rc ++ [mkReplEntry bv idx]) s /\
    counter_ok (peers s) (me s) (rc ++ [mkReplEntry bv idx]) /\
    forall j, member bv j = bool_decide (j = me s).
Proof.
  intros Hok Hme Hlast. unfold watchIndex.
  replace (match last rc with None => true | Some e => idx =? index e + 1 end) with true.
  2:{ destruct (last rc) as [e|]; [|done]. symmetry. apply Z.eqb_eq. by apply Hlast. }
  rewrite bind_assert, bind_gets.
  destruct (newBitVec_empty (peers s) s) as (bv & E & Hbv & _ & _ & Hroom & Hempty); [lia|].
  rewrite (bind_done _ _ _ _ _ E).
  destruct (Set_inserted bv (me s) Hbv) as (bv' & ES & Hbv' & Hroom' & _ & _ & Hmem); [lia|].
  rewrite (bind_done _ _ _ _ _ (on_bitvec_done _ _ _ _ _ ES)). exists bv'.
  assert (forall j, member bv' j = bool_decide (j = me s)) as Hm.
  { intros j. by rewrite Hmem, Hempty, orb_false_r. }
  split; [done|]. split; [|done]. destruct Hok as [H1 H2]. split.
  - assert (forall k e, rc !! k = Some e -> index e - idx = Z.of_nat k - lenZ rc) as Hrel.
    { intros k e He. destruct (last rc) as [el|] eqn:El.
      - rewrite (Hlast el eq_refl). rewrite last_lookup in El.
        pose proof (H1 _ _ _ _ He El). pose proof (lookup_lt_Some _ _ _ He). lia.
      - apply last_None in El as ->. done. }
    intros k j ek ej Hk Hj. apply lookup_snoc_Some in Hk, Hj.
    destruct Hk as [[? Hk]|[-> <-]], Hj as [[? Hj]|[-> <-]].
    + eauto.
    + simpl. by apply Hrel.
    + simpl. pose proof (Hrel _ _ Hj). lia.
    + simpl. lia.
  - apply Forall_app. split; [done|]. apply Forall_singleton. simpl.
    split; [done|]. split; [lia|]. by rewrite Hm, bool_decide_true.
Qed.
End repl_spec.
