(* ===== verification/Roles.v ===== *)
(** The three roles of a peer and its event loop (raft/follower.go,
    candidate.go, leader.go, raft.go).

    One goroutine, [processor], takes events off [evCh] and is the only one
    that changes the peer; [processor_event] is what it does with one event.
    The other goroutines put events on the queue: the RPC handlers and the
    public methods ([RequestVote], [AppendEntries], [Start], [GetState],
    [Snapshot], [Kill]) and the role's own timers and RPC goroutines through
    [tryPutEv].

    A role object that was stopped is never activated again, so a goroutine
    that captured a role other than the current one finds it closed: the second
    argument of [tryPutEv] says whether the captured role is the current one.
    The durations of timers are not modelled, only whether they are armed. *)

From S2P Require Import Prelude BitVec RaftTypes Persist Logs ReplCounter.

(** * Timers *)

(** [if t == nil || !t.Reset(d) { t = time.AfterFunc(...) }] *)
Definition timer_tick (t : Timer) : Timer :=
  match tm_cur t with
  | None => mkTimer (Some true) (tm_orphans t)
  | Some true => mkTimer (Some true) (tm_orphans t)
  | Some false => mkTimer (Some true) (S (tm_orphans t))
  end.

(** [if t != nil { t.Stop() }] *)
Definition timer_stop (t : Timer) : Timer :=
  match tm_cur t with
  | None => t
  | Some _ => mkTimer (Some false) (tm_orphans t)
  end.

Section roles.
Context {Cmd : Type} `{!Gob Cmd}.
Implicit Types s : Raft Cmd.

Definition emit (o : Output) : M (Raft Cmd) unit :=
  modify (fun s => set_outbox (outbox s ++ [o]) s).

Definition put_event (ev : Event Cmd) : M (Raft Cmd) unit :=
  chan_send EVCH_CAP evCh set_evCh ev.

Definition chLock_Lock : M (Raft Cmd) unit := Lock chLock set_chLock.
Definition chLock_Unlock : M (Raft Cmd) unit := Unlock chLock set_chLock.
Definition chLock_RLock : M (Raft Cmd) unit := RLock chLock set_chLock.
Definition chLock_RUnlock : M (Raft Cmd) unit := RUnlock chLock set_chLock.

Definition set_data (d : RoleData) : M (Raft Cmd) unit :=
  modify (fun s => set_role (mkRole (active (role s)) d) s).
Definition set_active (b : bool) : M (Raft Cmd) unit :=
  modify (fun s => set_role (mkRole b (data (role s))) s).

(** * raft.go: terms and role changes *)

Definition Term : M (Raft Cmd) Z := gets term.

Definition setTerm (t : Z) : M (Raft Cmd) unit :=
  cur ← Term;
  assert (t >? cur);;
  modify (set_term (to_int32 t));;
  modify (set_voteFor (-1));;
  persistState.

(** Stopping the current role: false when it is stopped already. *)
Definition stop : M (Raft Cmd) bool :=
  r ← gets role;
  if active r then
    set_active false;;
    match data r with
    | Follower t => set_data (Follower (timer_stop t))
    | Candidate v vs t => set_data (Candidate v vs (timer_stop t))
    | Leader _ => mret tt
    end;;
    chLock_Lock;;
    mret true
  else mret false.

Definition transRole (f : TransFunc) : M (Raft Cmd) unit :=
  stopped ← stop;
  when stopped (put_event (TransEvent (Some f))).

(** The functions passed to transRole; each asserts the type of its argument. *)
Definition trans (f : TransFunc) (r : Role) : M (Raft Cmd) Role :=
  let newFollower := mret (mkRole false (Follower (mkTimer None 0))) in
  match f, data r with
  | followerFromCandidate, Candidate _ _ _ => newFollower
  | followerFromLeader, Leader _ => newFollower
  | candidateFromFollower, Follower _ => mret (mkRole false (Candidate 0 [] (mkTimer None 0)))
  | leaderFromCandidate, Candidate _ _ _ => mret (mkRole false (Leader newReplCounter))
  | _, _ => throw TypeAssertion
  end.

(** * follower.go *)

Definition tickHeartBeatTimer : M (Raft Cmd) unit :=
  r ← gets role;
  match data r with
  | Follower t => set_data (Follower (timer_tick t))
  | _ => mret tt
  end.

Definition follower_activate : M (Raft Cmd) unit :=
  r ← gets role;
  when (negb (active r))
    (set_active true;;
     chLock_Unlock;;
     tickHeartBeatTimer).

Definition follower_appendEntries (args : AppendEntriesArgs Cmd) (reply : AppendEntriesReply)
    : M (Raft Cmd) AppendEntriesReply :=
  myTerm ← Term;
  if ae_Term args <? myTerm then
    mret (mkAppendEntriesReply ENTRY_STALE myTerm (aer_Responsed reply))
  else
    when (ae_Term args >? myTerm) (setTerm (ae_Term args));;
    tickHeartBeatTimer;;
    match ae_Snapshot args with
    | Some sn =>
        followerInstallSnapshot sn;;
        mret (mkAppendEntriesReply ENTRY_MATCH (aer_Term reply) (aer_Responsed reply))
    | None =>
        status ← followerAppendEntries (ae_SendEntries args);
        when (bool_decide (status = ENTRY_MATCH) && bool_decide (ae_EntryType args = ENTRY_T_LOG))
          (updateCommit (LeaderCommit args));;
        mret (mkAppendEntriesReply status (aer_Term reply) (aer_Responsed reply))
    end.

Definition follower_requestVote (args : RequestVoteArgs) (reply : RequestVoteReply)
    : M (Raft Cmd) RequestVoteReply :=
  s ← gets (fun s => s);
  let myTerm := term s in
  if rv_Term args <? myTerm then
    mret (mkRequestVoteReply myTerm (me s) VOTE_OTHER (rvr_Responsed reply))
  else if rv_Term args =? myTerm then
    if CandidateID args =? voteFor s
    then mret (mkRequestVoteReply (rvr_Term reply) (me s) VOTE_GRANTED (rvr_Responsed reply))
    else mret (mkRequestVoteReply (rvr_Term reply) (me s) VOTE_OTHER (rvr_Responsed reply))
  else
    setTerm (rv_Term args);;
    ok ← atLeastUpToDate (LastLogInfo args);
    if (ok : bool) then
      modify (set_voteFor (CandidateID args));;
      tickHeartBeatTimer;;
      mret (mkRequestVoteReply (rvr_Term reply) (me s) VOTE_GRANTED (rvr_Responsed reply))
    else mret (mkRequestVoteReply (rvr_Term reply) (me s) VOTE_OTHER (rvr_Responsed reply)).

Definition follower_process (ev : Event Cmd) : M (Raft Cmd) unit :=
  match ev with
  | GetStateEvent ch => t ← Term; emit (OutState ch (Some (mkNodeState t false)))
  | StartCommandEvent _ ch => emit (OutStart ch (Some (mkStartCommandReply false (-1) (-1))))
  | AppendEntriesEvent args reply ch =>
      reply' ← follower_appendEntries args reply; emit (OutAppend ch reply' true)
  | RequestVoteEvent args reply ch =>
      reply' ← follower_requestVote args reply; emit (OutVote ch reply' true)
  | HeartBeatTimeoutEvent => transRole candidateFromFollower
  | _ => mret tt
  end.

(** * candidate.go *)

Definition setElecTimer : M (Raft Cmd) unit :=
  r ← gets role;
  match data r with
  | Candidate v vs t => when (active r) (set_data (Candidate v vs (timer_tick t)))
  | _ => mret tt
  end.

(** The peers other than [me], in order. *)
Definition other_peers s : list Z :=
  filter (fun i => i <> me s) (seqZ 0 (peers s)).

(** [voteFor] is left as it was, and nothing is persisted. *)
Definition startElection : M (Raft Cmd) unit :=
  modify (fun s => set_term (to_int32 (term s + 1)) s);;
  s ← gets (fun s => s);
  match data (role s) with
  | Candidate _ _ t => set_data (Candidate 1 (replicate (Z.to_nat (peers s)) false) t)
  | _ => mret tt
  end;;
  info ← lastLogInfo;
  for_each (other_peers s) (fun i =>
    emit (CallRequestVote i (mkRequestVoteArgs (term s) (me s) info)));;
  setElecTimer.

Definition candidate_activate : M (Raft Cmd) unit :=
  r ← gets role;
  when (negb (active r))
    (set_active true;;
     startElection;;
     chLock_Unlock).

Definition candidate_appendEntries (args : AppendEntriesArgs Cmd) (reply : AppendEntriesReply)
    : M (Raft Cmd) AppendEntriesReply :=
  myTerm ← Term;
  if ae_Term args >=? myTerm then
    when (ae_Term args >? myTerm) (setTerm (ae_Term args));;
    transRole followerFromCandidate;;
    mret (mkAppendEntriesReply ENTRY_HOLD (aer_Term reply) (aer_Responsed reply))
  else
    mret (mkAppendEntriesReply ENTRY_STALE myTerm (aer_Responsed reply)).

(** The reply's VoterID stays as it was. *)
Definition candidate_requestVote (args : RequestVoteArgs) (reply : RequestVoteReply)
    : M (Raft Cmd) RequestVoteReply :=
  s ← gets (fun s => s);
  let myTerm := term s in
  if rv_Term args <? myTerm then
    mret (mkRequestVoteReply myTerm (VoterID reply) VOTE_OTHER (rvr_Responsed reply))
  else if rv_Term args =? myTerm then
    if CandidateID args =? voteFor s
    then mret (mkRequestVoteReply (rv_Term args) (VoterID reply) VOTE_GRANTED (rvr_Responsed reply))
    else mret (mkRequestVoteReply (rv_Term args) (VoterID reply) VOTE_OTHER (rvr_Responsed reply))
  else
    setTerm (rv_Term args);;
    transRole followerFromCandidate;;
    ok ← atLeastUpToDate (LastLogInfo args);
    if (ok : bool) then
      modify (set_voteFor (CandidateID args));;
      mret (mkRequestVoteReply (rvr_Term reply) (VoterID reply) VOTE_GRANTED (rvr_Responsed reply))
    else mret (mkRequestVoteReply (rvr_Term reply) (VoterID reply) VOTE_OTHER (rvr_Responsed reply)).

Definition auditVote (ev_term ev_voter : Z) : M (Raft Cmd) unit :=
  s ← gets (fun s => s);
  match data (role s) with
  | Candidate votes voters t =>
      if term s =? ev_term then
        voted ← go_index voters ev_voter;
        if (voted : bool) then mret tt else
        voters' ← go_update voters ev_voter true;
        set_data (Candidate (votes + 1) voters' t);;
        when (votes + 1 >=? majorN s) (transRole leaderFromCandidate)
      else mret tt
  | _ => mret tt
  end.

Definition candidate_process (ev : Event Cmd) : M (Raft Cmd) unit :=
  match ev with
  | GetStateEvent ch => t ← Term; emit (OutState ch (Some (mkNodeState t false)))
  | StartCommandEvent _ ch => emit (OutStart ch (Some (mkStartCommandReply false (-1) (-1))))
  | AppendEntriesEvent args reply ch =>
      reply' ← candidate_appendEntries args reply; emit (OutAppend ch reply' true)
  | RequestVoteEvent args reply ch =>
      reply' ← candidate_requestVote args reply; emit (OutVote ch reply' true)
  | VoteGrantEvent t v => auditVote t v
  | ElectionTimeoutEvent => transRole followerFromCandidate
  | StaleCandidateEvent newTerm =>
      t ← Term;
      when (newTerm >? t) (setTerm newTerm);;
      transRole followerFromCandidate
  | _ => mret tt
  end.

(** * leader.go *)

Definition get_rc : M (Raft Cmd) (list ReplEntry) :=
  r ← gets role; mret (match data r with Leader rc => rc | _ => [] end).

Definition startReplication : M (Raft Cmd) unit :=
  s ← gets (fun s => s);
  for_each (other_peers s) (fun i => emit (StartReplicator i)).

Definition leader_activate : M (Raft Cmd) unit :=
  t ← Term;
  r ← leaderAppendEntry (mkEntry NOOP_INDEX t None);
  rc ← get_rc;
  rc' ← watchIndex rc (fst r);
  set_data (Leader rc');;
  startReplication;;
  set_active true;;
  chLock_Unlock.

(** A second leader of the same term is only reported by [rf.fatal]: the reply
    keeps its default status. *)
Definition leader_appendEntries (args : AppendEntriesArgs Cmd) (reply : AppendEntriesReply)
    : M (Raft Cmd) AppendEntriesReply :=
  myTerm ← Term;
  if ae_Term args <? myTerm then
    mret (mkAppendEntriesReply ENTRY_STALE myTerm (aer_Responsed reply))
  else if ae_Term args =? myTerm then
    mret (mkAppendEntriesReply (EntryStatus_ reply) myTerm (aer_Responsed reply))
  else
    setTerm (ae_Term args);;
    transRole followerFromLeader;;
    mret (mkAppendEntriesReply ENTRY_HOLD myTerm (aer_Responsed reply)).

Definition leader_requestVote (args : RequestVoteArgs) (reply : RequestVoteReply)
    : M (Raft Cmd) RequestVoteReply :=
  myTerm ← Term;
  if rv_Term args <=? myTerm then
    mret (mkRequestVoteReply myTerm (VoterID reply) VOTE_DENIAL (rvr_Responsed reply))
  else
    setTerm (rv_Term args);;
    ok ← atLeastUpToDate (LastLogInfo args);
    status ← (if (ok : bool)
              then modify (set_voteFor (CandidateID args));; mret VOTE_GRANTED
              else mret VOTE_OTHER);
    transRole followerFromLeader;;
    mret (mkRequestVoteReply (rvr_Term reply) (VoterID reply) status (rvr_Responsed reply)).

Definition leader_process (ev : Event Cmd) : M (Raft Cmd) unit :=
  match ev with
  | GetStateEvent ch => t ← Term; emit (OutState ch (Some (mkNodeState t true)))
  | StartCommandEvent command ch =>
      t ← Term;
      r ← leaderAppendEntry (mkEntry 0 t command);
      emit (OutStart ch (Some (mkStartCommandReply true t (snd r))));;
      rc ← get_rc;
      rc' ← watchIndex rc (fst r);
      set_data (Leader rc')
  | AppendEntriesEvent args reply ch =>
      reply' ← leader_appendEntries args reply; emit (OutAppend ch reply' true)
  | RequestVoteEvent args reply ch =>
      reply' ← leader_requestVote args reply; emit (OutVote ch reply' true)
  | ReplConfirmEvent id startIndex endIndex =>
      rc ← get_rc;
      rc' ← confirm rc id startIndex endIndex;
      set_data (Leader rc')
  | StaleLeaderEvent newTerm =>
      setTerm newTerm;;
      transRole followerFromLeader
  | _ => mret tt
  end.

(** * raft.go: the event loop *)

Definition activate : M (Raft Cmd) unit :=
  r ← gets role;
  match data r with
  | Follower _ => follower_activate
  | Candidate _ _ _ => candidate_activate
  | Leader _ => leader_activate
  end.

Definition process (ev : Event Cmd) : M (Raft Cmd) unit :=
  r ← gets role;
  match data r with
  | Follower _ => follower_process ev
  | Candidate _ _ _ => candidate_process ev
  | Leader _ => leader_process ev
  end.

(** ev.go: an event that reaches a stopped role. *)
Definition discardEv (ev : Event Cmd) : M (Raft Cmd) unit :=
  match ev with
  | RequestVoteEvent _ reply ch => emit (OutVote ch reply false)
  | AppendEntriesEvent _ reply ch => emit (OutAppend ch reply false)
  | StartCommandEvent _ ch => emit (OutStart ch None)
  | GetStateEvent ch => emit (OutState ch None)
  | SnapshotEvent _ _ ch => emit (OutSnapshot ch false)
  | _ => mret tt
  end.

Definition processor_event (ev : Event Cmd) : M (Raft Cmd) unit :=
  match ev with
  | TransEvent f =>
      match f with
      | Some f => r ← gets role; r' ← trans f r; modify (set_role r')
      | None => mret tt
      end;;
      activate
  | SnapshotEvent index data ch =>
      r ← gets role;
      if closed r then emit (OutSnapshot ch false)
      else takeSnapshot index data;; emit (OutSnapshot ch true)
  | KillEvent ch =>
      stop;;
      modify (set_dead true);;
      emit (OutKilled ch)
  | _ =>
      r ← gets role;
      if closed r then discardEv ev else process ev
  end.

(** One turn of [processor]: false when the peer is dead; it waits on an empty
    queue. *)
Definition processor_turn : M (Raft Cmd) bool :=
  s ← gets (fun s => s);
  if dead s then mret false else
  match evCh s with
  | [] => block
  | ev :: rest => modify (set_evCh rest);; processor_event ev;; mret true
  end.

(** * raft.go: the goroutines that put events *)

Definition tryPutEv (ev : Event Cmd) (current : bool) : M (Raft Cmd) bool := fun s =>
  match chLock s with
  | WLocked => Done false s
  | _ =>
      (chLock_RLock;;
       r ← gets role;
       put ← (if current && negb (closed r) then put_event ev;; mret true else mret false);
       chLock_RUnlock;;
       mret put) s
  end.

(** Put an event under the read lock of [chLock]. *)
Definition put_locked (ev : Event Cmd) : M (Raft Cmd) unit :=
  chLock_RLock;;
  put_event ev;;
  chLock_RUnlock.

(** The RPC handlers: false when the peer is dead, in which case the reply goes
    back as it came; otherwise the answer is read from channel [ch]. *)
Definition RequestVote (args : RequestVoteArgs) (reply : RequestVoteReply) (ch : nat)
    : M (Raft Cmd) bool :=
  d ← gets dead;
  if (d : bool) then mret false else put_locked (RequestVoteEvent args reply ch);; mret true.

(** Formatting the log line reads the fields of SendEntries when there is no
    snapshot. *)
Definition AppendEntries (args : AppendEntriesArgs Cmd) (reply : AppendEntriesReply) (ch : nat)
    : M (Raft Cmd) bool :=
  match ae_Snapshot args, ae_SendEntries args with
  | None, None => throw NilDereference
  | _, _ =>
      d ← gets dead;
      if (d : bool) then mret false else put_locked (AppendEntriesEvent args reply ch);; mret true
  end.

(** Start, GetState and Snapshot ask again until the event is not discarded.
    [r] is [None] on the first turn and then what the last turn read from
    [ch]; the result is [None] when the call has to wait (again). *)
Definition Start (command : option Cmd) (ch : nat) (r : option (option StartCommandReply))
    : M (Raft Cmd) (option (Z * Z * bool)) :=
  let ask := put_locked (StartCommandEvent command ch);; mret None in
  match r with
  | None =>
      d ← gets dead;
      if (d : bool) then mret (Some (-1, -1, false)) else ask
  | Some None => ask
  | Some (Some reply) => mret (Some (scr_index reply, scr_term reply, scr_ok reply))
  end.

(** GetState does not take the lock. *)
Definition GetState (ch : nat) (r : option (option NodeState)) : M (Raft Cmd) (option (Z * bool)) :=
  let ask := put_event (GetStateEvent ch);; mret None in
  match r with
  | None =>
      d ← gets dead;
      if (d : bool) then mret (Some (-1, false)) else ask
  | Some None => ask
  | Some (Some st) => mret (Some (ns_term st, ns_isLeader st))
  end.

Definition Snapshot_ (idx : Z) (snap : bytes) (ch : nat) (ok : bool) : M (Raft Cmd) bool :=
  d ← gets dead;
  if negb ok && negb d then put_locked (SnapshotEvent idx snap ch);; mret false else mret true.

Definition Kill (ch : nat) : M (Raft Cmd) unit := put_event (KillEvent ch).

(** * raft.go: Make *)

(** A new peer with the persister's content.  It starts as a stopped follower;
    the first event activates it. *)
Definition Make (n self : Z) (ps : Persister) : M unit (Raft Cmd) :=
  let snap := ReadSnapshot ps in
  let peer (lg : Logs Cmd) (t v : Z) :=
    mkRaft n ps self false (Z.quot n 2 + 1) t v (mkRole false (Follower (mkTimer None 0))) lg
      [TransEvent None] WLocked Unlocked [] in
  match gob_decode (ReadRaftState ps) with
  | DecOk state =>
      lg ← newLogs (Some (p_Logs state)) snap;
      mret (peer lg (p_Term state) (p_VoteFor state))
  | DecEOF =>
      lg ← newLogs None snap;
      mret (peer lg 0 (-1))
  | DecError => throw LogFatal
  end.
End roles.
