(* ===== verification/Gate.v ===== *)
(** The role machine of raft/raft.go: stopping, changing and activating roles.

    While a role is active the channel lock is free and no role change is
    pending; from the moment a role is stopped until the event that replaces it
    is processed the lock is write-held and exactly one TransEvent, fit for the
    stopped role, is in the queue.  This is what keeps the events of one role
    from reaching the next one (raft/README.md). *)

From S2P Require Import Prelude BitVec RaftTypes Persist Logs ReplCounter Roles.

Section gate.
Context {Cmd : Type} `{!Gob Cmd}.
Implicit Types s : Raft Cmd.

(** * The log's methods touch only the log and the store *)

Definition outside_logs s :=
  (peers s, me s, dead s, majorN s, term s, voteFor s, role s, evCh s, chLock s, outbox s).

Abbreviation frames m := (keeps (same outside_logs) m).

Lemma frames_logs f : frames (modify (on_logs f)).
Proof. by apply keeps_modify. Qed.
Lemma frames_Lock : frames logs_Lock.
Proof. by apply keeps_Lock. Qed.
Lemma frames_Unlock : frames logs_Unlock.
Proof. by apply keeps_Unlock. Qed.
Lemma frames_RLock : frames logs_RLock.
Proof. by apply keeps_RLock. Qed.
Lemma frames_RUnlock : frames logs_RUnlock.
Proof. by apply keeps_RUnlock. Qed.
Lemma frames_saveLock : frames (Lock saveLock set_saveLock).
Proof. by apply keeps_Lock. Qed.
Lemma frames_saveUnlock : frames (Unlock saveLock set_saveLock).
Proof. by apply keeps_Unlock. Qed.
Lemma frames_applier x : frames (applier_send x).
Proof. by apply keeps_chan_send. Qed.
Lemma frames_persister f : frames (modify (fun s => set_persister (f s) s)).
Proof. by apply keeps_modify. Qed.
#[local] Hint Resolve frames_logs frames_Lock frames_Unlock frames_RLock frames_RUnlock
  frames_saveLock frames_saveUnlock frames_applier frames_persister : keeps.

Lemma frames_encodeState : frames encodeState.
Proof. unfold encodeState. keeps_auto. Qed.
#[local] Hint Resolve frames_encodeState : keeps.
Lemma frames_persistState : frames persistState.
Proof. unfold persistState. keeps_auto. Qed.
Lemma frames_persist : frames persist.
Proof. unfold persist. keeps_auto. Qed.
#[local] Hint Resolve frames_persistState frames_persist : keeps.

Lemma frames_updateCommit c : frames (updateCommit c).
Proof. unfold updateCommit, LCI, LLI. keeps_auto. Qed.
Lemma frames_indexLogTermNoLock i : frames (indexLogTermNoLock i).
Proof. unfold indexLogTermNoLock. keeps_auto. Qed.
Lemma frames_lastLogInfo : frames lastLogInfo.
Proof. unfold lastLogInfo. keeps_auto. Qed.
#[local] Hint Resolve frames_updateCommit frames_indexLogTermNoLock frames_lastLogInfo : keeps.
Lemma frames_atLeastUpToDate i : frames (atLeastUpToDate i).
Proof. unfold atLeastUpToDate. keeps_auto. Qed.
Lemma frames_pushEntry e : frames (pushEntry e).
Proof. unfold pushEntry, LLI, Noop. keeps_auto. Qed.
Lemma frames_pushEntries es : frames (pushEntries es).
Proof. unfold pushEntries. keeps_auto. Qed.
Lemma frames_removeAfter i : frames (removeAfter i).
Proof. unfold removeAfter. keeps_auto. Qed.
#[local] Hint Resolve frames_atLeastUpToDate frames_pushEntry frames_pushEntries
  frames_removeAfter : keeps.
Lemma frames_followerAppendEntries a : frames (followerAppendEntries a).
Proof. unfold followerAppendEntries, LCI, LLI. keeps_auto. Qed.
Lemma frames_followerInstallSnapshot sn : frames (followerInstallSnapshot sn).
Proof. unfold followerInstallSnapshot. keeps_auto. Qed.
Lemma frames_leaderAppendEntry e : frames (leaderAppendEntry e).
Proof. unfold leaderAppendEntry, LLI. keeps_auto. Qed.
Lemma frames_takeSnapshot i b : frames (takeSnapshot i b).
Proof. unfold takeSnapshot. keeps_auto. Qed.

Lemma keeps_on_bitvec {A} R `{!PreOrder R} (m : M BitVec A) bv :
  keeps R (on_bitvec m bv : M (Raft Cmd) _).
Proof. intros s a s'. unfold on_bitvec. destruct (m bv); [|done..]. by intros [= _ <-]. Qed.
#[local] Hint Extern 1 (keeps _ (on_bitvec _ _)) => (apply keeps_on_bitvec; exact _) : keeps.

Lemma frames_newBitVec n : frames (newBitVec n).
Proof. unfold newBitVec. keeps_auto. Qed.
#[local] Hint Resolve frames_newBitVec : keeps.
Lemma frames_watchIndex rc i : frames (watchIndex rc i).
Proof. unfold watchIndex. keeps_auto. Qed.
Lemma frames_confirm_loop p n off rc : frames (confirm_loop p n off rc).
Proof. revert off rc. induction n as [|n IH]; intros off rc; cbn [confirm_loop]; keeps_auto. Qed.
#[local] Hint Resolve frames_confirm_loop : keeps.
Lemma frames_confirm rc p a b : frames (confirm rc p a b).
Proof. unfold confirm. keeps_auto. Qed.
End gate.

#[export] Hint Resolve frames_persistState frames_atLeastUpToDate frames_followerAppendEntries
  frames_followerInstallSnapshot frames_leaderAppendEntry frames_takeSnapshot frames_updateCommit
  frames_lastLogInfo frames_watchIndex frames_confirm : keeps.

Section gate_protocol.
Context {Cmd : Type} `{!Gob Cmd}.
Implicit Types s : Raft Cmd.

(** * The protocol *)

Definition is_trans (ev : Event Cmd) : bool := match ev with TransEvent _ => true | _ => false end.
Definition trans_events (q : list (Event Cmd)) : list (Event Cmd) :=
  filter (fun ev => is_trans ev = true) q.

(** Which role a role change applies to. *)
Definition fits (f : option TransFunc) : RoleEnum :=
  match f with
  | None | Some candidateFromFollower => FOLLOWER
  | Some followerFromCandidate | Some leaderFromCandidate => CANDIDATE
  | Some followerFromLeader => LEADER
  end.

Definition gate_ok s : Prop :=
  dead s = false ->
  if active (role s)
  then chLock s = Unlocked /\ trans_events (evCh s) = []
  else chLock s = WLocked /\
       exists f, trans_events (evCh s) = [TransEvent f] /\ role_enum (role s) = fits f.

(** The gate, in a state where the role is [k]. *)
Definition gate_in (k : RoleEnum) s : Prop := gate_ok s /\ role_enum (role s) = k.

(** What the gate depends on. *)
Definition gate_part s := (dead s, active (role s), role_enum (role s), chLock s, evCh s).

Lemma gate_in_part k s s' : same gate_part s s' -> gate_in k s -> gate_in k s'.
Proof.
  unfold same, gate_part, gate_in, gate_ok. intros [= -> -> -> -> ->]. done.
Qed.

Lemma same_outside_part s s' : same outside_logs s s' -> same gate_part s s'.
Proof. unfold same, outside_logs, gate_part. intros [= _ _ -> _ _ _ -> -> -> _]. done. Qed.

Abbreviation guards k m := (keeps (stable (gate_in k)) m).

Lemma guards_part {A} k (m : M (Raft Cmd) A) : keeps (same gate_part) m -> guards k m.
Proof. apply keeps_mono. intros s s' H ?. by eapply gate_in_part. Qed.

Lemma part_frames {A} (m : M (Raft Cmd) A) : keeps (same outside_logs) m -> keeps (same gate_part) m.
Proof. apply keeps_mono. apply same_outside_part. Qed.
#[local] Hint Extern 2 (keeps (same gate_part) _) => (apply part_frames; solve [eauto with keeps]) : keeps.

Lemma part_emit o : keeps (same gate_part) (emit o).
Proof. by apply keeps_modify. Qed.
Lemma part_set_term f : keeps (same gate_part) (modify (fun s => set_term (f s) s)).
Proof. by apply keeps_modify. Qed.
Lemma part_set_term' v : keeps (same gate_part) (modify (set_term v)).
Proof. by apply keeps_modify. Qed.
Lemma part_set_voteFor v : keeps (same gate_part) (modify (set_voteFor v)).
Proof. by apply keeps_modify. Qed.
#[local] Hint Resolve part_emit part_set_term part_set_term' part_set_voteFor : keeps.

Lemma part_setTerm t : keeps (same gate_part) (setTerm t).
Proof. unfold setTerm, Term. keeps_auto. Qed.
Lemma part_tick : keeps (same gate_part) tickHeartBeatTimer.
Proof.
  intros s. unfold tickHeartBeatTimer. wp_step. wp_step.
  destruct (role s) as [b [t|v vs t|rc]] eqn:E; simpl; [|by apply post_ret..].
  apply post_modify. unfold same, gate_part. simpl. by rewrite E.
Qed.
Lemma part_setElecTimer : keeps (same gate_part) setElecTimer.
Proof.
  intros s. unfold setElecTimer. wp_step. wp_step.
  destruct (role s) as [b [t|v vs t|rc]] eqn:E; simpl; try by apply post_ret.
  destruct b; simpl; [|by apply post_ret].
  apply post_modify. unfold same, gate_part. simpl. by rewrite E.
Qed.
#[local] Hint Resolve part_setTerm part_tick part_setElecTimer : keeps.

Lemma part_follower_appendEntries a r : keeps (same gate_part) (follower_appendEntries a r).
Proof. unfold follower_appendEntries, Term. keeps_auto. Qed.
Lemma part_follower_requestVote a r : keeps (same gate_part) (follower_requestVote a r).
Proof. unfold follower_requestVote. keeps_auto. Qed.
#[local] Hint Resolve part_follower_appendEntries part_follower_requestVote : keeps.

Lemma trans_events_app q1 q2 : trans_events (q1 ++ q2) = trans_events q1 ++ trans_events q2.
Proof. apply filter_app. Qed.

(** Stopping a role and queueing its replacement keeps the gate. *)
Lemma guards_transRole k f : fits (Some f) = k -> guards k (transRole f).
Proof.
  intros Hf s u s' E [Hg Hk]. unfold transRole, stop in E.
  unfold mbind, M_bind, gets, when, set_active, set_data, modify, mret, M_ret in E.
  destruct (active (role s)) eqn:Ea; [|by injection E as _ <-].
  unfold gate_in, gate_ok in *. rewrite Ea in Hg.
  unfold chLock_Lock, Lock, put_event, chan_send in E.
  destruct (dead s) eqn:Ed.
  - destruct (data (role s)) eqn:Edata; simpl in E; destruct (chLock s); simpl in E; try done;
      case_decide; simplify_eq; simpl; unfold role_enum in *; rewrite Edata in *; simpl in *;
      (split; [intros; congruence|done]).
  - destruct (Hg eq_refl) as [Hl Hq]. simpl in E.
    destruct (data (role s)) eqn:Edata; simpl in E; rewrite Hl in E; simpl in E;
      case_decide; simplify_eq; simpl; unfold role_enum in *; rewrite Edata in *; simpl in *;
      (split; [|done]); intros _; (split; [done|]); exists (Some f);
      rewrite trans_events_app, Hq; (split; [done|exact Hk]).
Qed.
#[local] Hint Extern 1 (keeps (stable (gate_in _)) (transRole _)) =>
  (apply guards_transRole; reflexivity) : keeps.
#[local] Hint Extern 3 (keeps (stable (gate_in _)) _) =>
  (apply guards_part; solve [eauto with keeps]) : keeps.

Lemma guards_candidate_appendEntries a r : guards CANDIDATE (candidate_appendEntries a r).
Proof. unfold candidate_appendEntries, Term. keeps_auto. Qed.
Lemma guards_candidate_requestVote a r : guards CANDIDATE (candidate_requestVote a r).
Proof. unfold candidate_requestVote. keeps_auto. Qed.
Lemma guards_leader_appendEntries a r : guards LEADER (leader_appendEntries a r).
Proof. unfold leader_appendEntries, Term. keeps_auto. Qed.
Lemma guards_leader_requestVote a r : guards LEADER (leader_requestVote a r).
Proof. unfold leader_requestVote, Term. keeps_auto. Qed.
#[local] Hint Resolve guards_candidate_appendEntries guards_candidate_requestVote
  guards_leader_appendEntries guards_leader_requestVote : keeps.

(** Replacing the fields of a role object keeps its kind. *)
Lemma guards_set_candidate v vs t : guards CANDIDATE (set_data (Candidate v vs t)).
Proof.
  apply keeps_modify. intros s [Hg Hk]. split; [|done].
  unfold gate_ok in *. simpl. intros Hd. specialize (Hg Hd). by rewrite Hk in Hg.
Qed.
Lemma guards_set_leader rc : guards LEADER (set_data (Leader rc)).
Proof.
  apply keeps_modify. intros s [Hg Hk]. split; [|done].
  unfold gate_ok in *. simpl. intros Hd. specialize (Hg Hd). by rewrite Hk in Hg.
Qed.
#[local] Hint Resolve guards_set_candidate guards_set_leader : keeps.

Lemma guards_auditVote t v : guards CANDIDATE (auditVote t v).
Proof. unfold auditVote. keeps_auto. Qed.
#[local] Hint Resolve guards_auditVote : keeps.

Lemma guards_follower_process ev : guards FOLLOWER (follower_process ev).
Proof. unfold follower_process, Term. keeps_auto. Qed.
Lemma guards_candidate_process ev : guards CANDIDATE (candidate_process ev).
Proof. unfold candidate_process, Term. keeps_auto. Qed.
Lemma guards_leader_process ev : guards LEADER (leader_process ev).
Proof. unfold leader_process, Term, get_rc. keeps_auto. Qed.

Lemma process_gate ev s :
  gate_ok s -> post (process ev) s (fun _ s' => gate_ok s').
Proof.
  intros Hg. unfold process. wp_step. wp_step.
  destruct (data (role s)) eqn:Ed; intros u s' E.
  - by eapply (guards_follower_process ev s u s' E); split; [|unfold role_enum; rewrite Ed].
  - by eapply (guards_candidate_process ev s u s' E); split; [|unfold role_enum; rewrite Ed].
  - by eapply (guards_leader_process ev s u s' E); split; [|unfold role_enum; rewrite Ed].
Qed.

(** ** Activation *)

(** Between taking a TransEvent off the queue and activating the new role. *)
Definition gate_open s : Prop :=
  dead s = false /\ active (role s) = false /\ chLock s = WLocked /\ trans_events (evCh s) = [].

(** The gate after the lock was released. *)
Definition gate_free s : Prop :=
  dead s = false /\ active (role s) = true /\ chLock s = Unlocked /\ trans_events (evCh s) = [].

Lemma gate_free_ok s : gate_free s -> gate_ok s.
Proof. intros (Hd & Ha & Hl & Hq) _. by rewrite Ha. Qed.

(** Code that keeps the gate's fields, but for the kind of the role object. *)
Definition lock_part s := (dead s, active (role s), chLock s, evCh s).

Lemma lock_of_part {A} (m : M (Raft Cmd) A) : keeps (same gate_part) m -> keeps (same lock_part) m.
Proof.
  apply keeps_mono. unfold same, gate_part, lock_part. by intros s s' [= -> -> _ -> ->].
Qed.
#[local] Hint Extern 3 (keeps (same lock_part) _) =>
  (apply lock_of_part; solve [eauto with keeps]) : keeps.

Lemma lock_set_data d : keeps (same lock_part) (set_data d).
Proof. by apply keeps_modify. Qed.
#[local] Hint Resolve lock_set_data : keeps.

Lemma lock_startElection : keeps (same lock_part) startElection.
Proof. unfold startElection. keeps_auto. Qed.
Lemma lock_startReplication : keeps (same lock_part) startReplication.
Proof. unfold startReplication. keeps_auto. Qed.
#[local] Hint Resolve lock_startElection lock_startReplication : keeps.

Lemma unlock_free s :
  dead s = false -> active (role s) = true -> chLock s = WLocked -> trans_events (evCh s) = [] ->
  post chLock_Unlock s (fun _ s' => gate_free s').
Proof.
  intros Hd Ha Hl Hq u s' E. unfold chLock_Unlock, Unlock in E. rewrite Hl in E.
  by injection E as _ <-.
Qed.

Lemma activate_gate s : gate_open s -> post activate s (fun _ s' => gate_ok s').
Proof.
  intros (Hd & Ha & Hl & Hq). unfold activate. wp_step. wp_step.
  destruct (data (role s)) eqn:Edata.
  - unfold follower_activate. wp_step. wp_step. rewrite Ha. simpl. wp_step.
    apply post_modify. wp_step. eapply post_mono; [apply unlock_free; done|].
    intros [] s1 (H1 & H2 & H3 & H4) u s2 E. specialize (part_tick s1 u s2 E).
    unfold same, gate_part. intros [= E1 E2 E3 E4 E5]. apply gate_free_ok.
    unfold gate_free. by rewrite E1, E2, E4, E5.
  - unfold candidate_activate. wp_step. wp_step. rewrite Ha. simpl. wp_step.
    apply post_modify. wp_step. eapply post_mono; [apply lock_startElection|].
    unfold same, lock_part. simpl. intros [] s1 [= E1 E2 E3 E4].
    eapply post_mono; [apply unlock_free; congruence|]. intros ? s2 ?. by apply gate_free_ok.
  - unfold leader_activate, Term, get_rc.
    match goal with |- post ?m _ _ =>
      assert (post (m) s (fun _ s' => gate_free s')) as Hp end.
    2:{ eapply post_mono; [apply Hp|]. intros ? s2 ?. by apply gate_free_ok. }
    wp_step. wp_step. wp_step.
    eapply post_mono; [apply (lock_of_part _ (part_frames _ (frames_leaderAppendEntry _)))|].
    unfold same at 1, lock_part at 1. simpl. intros r s1 E1. wp_step. wp_step. wp_step. wp_step. wp_step.
    eapply post_mono; [apply (lock_of_part _ (part_frames _ (frames_watchIndex _ _)))|].
    intros rc2 s2 E2. wp_step. apply post_modify. wp_step.
    eapply post_mono; [apply lock_startReplication|]. intros [] s3 E3. wp_step.
    apply post_modify. unfold same, lock_part in *. simpl in *.
    injection E1 as ????. injection E2 as ????. injection E3 as ????.
    apply unlock_free; simpl; congruence.
Qed.

(** ** Every step keeps the gate *)

Lemma trans_open f s :
  dead s = false -> active (role s) = false -> chLock s = WLocked -> trans_events (evCh s) = [] ->
  post (r ← gets role; r' ← trans f r; modify (set_role r')) s (fun _ s' => gate_open s').
Proof.
  intros Hd Ha Hl Hq. wp_step. wp_step. wp_step.
  destruct f, (data (role s)) eqn:Ed; unfold trans; rewrite Ed;
    first [apply post_throw | apply post_ret, post_modify; done].
Qed.

Lemma pop_other ev rest s :
  evCh s = ev :: rest -> is_trans ev = false -> gate_ok s -> gate_ok (set_evCh rest s).
Proof.
  unfold gate_ok. intros E Ht Hg Hd. specialize (Hg Hd). simpl.
  unfold trans_events in *. rewrite E in Hg. rewrite filter_cons_False in Hg by (by rewrite Ht). done.
Qed.

Lemma pop_trans f rest s :
  evCh s = TransEvent f :: rest -> gate_ok s -> dead s = false ->
  gate_open (set_evCh rest s) /\ role_enum (role s) = fits f.
Proof.
  unfold gate_ok. intros E Hg Hd. specialize (Hg Hd).
  unfold trans_events in *. rewrite E in Hg. rewrite filter_cons_True in Hg by done.
  destruct (active (role s)) eqn:Ea; [by destruct Hg|].
  destruct Hg as (Hl & f' & [= <- Hq] & Hf). done.
Qed.

Lemma emit_gate o s : gate_ok s -> post (emit o) s (fun _ s' => gate_ok s').
Proof. intros H. by apply post_modify. Qed.

Lemma discard_gate ev s : gate_ok s -> post (discardEv ev) s (fun _ s' => gate_ok s').
Proof. intros H. destruct ev; simpl; first [by apply emit_gate | by apply post_ret]. Qed.

Lemma processor_event_gate ev rest s :
  dead s = false -> evCh s = ev :: rest -> gate_ok s ->
  post (processor_event ev) (set_evCh rest s) (fun _ s' => gate_ok s').
Proof.
  intros Hd E Hg.
  destruct (is_trans ev) eqn:Et.
  - destruct ev as [f| | | | | | | | | | | | | |]; try done.
    destruct (pop_trans _ _ _ E Hg Hd) as [(H1 & H2 & H3 & H4) _].
    cbn [processor_event]. wp_step. destruct f as [f|].
    + eapply post_mono; [by apply trans_open|]. intros [] s1 H. by apply activate_gate.
    + apply post_ret. by apply activate_gate.
  - pose proof (pop_other _ _ _ E Et Hg) as Hg'.
    destruct ev; try done; cbn [processor_event]; wp_step;
      try (wp_step; destruct (closed _); [by apply discard_gate|by apply process_gate]).
    + wp_step. destruct (closed _); [by apply emit_gate|]. wp_step.
      eapply post_mono; [apply (part_frames _ (frames_takeSnapshot _ _))|].
      intros [] s1 H1. apply emit_gate. destruct (role_enum (role (set_evCh rest s))) eqn:Ek;
      eapply (gate_in_part _ _ _ H1); split; done.
    + intros b s1 _. wp_step. apply post_modify. intros u s2 [= _ <-] Hd'. done.
Qed.

Lemma processor_turn_gate s : gate_ok s -> post processor_turn s (fun _ s' => gate_ok s').
Proof.
  intros Hg. unfold processor_turn. wp_step. wp_step.
  destruct (dead s) eqn:Hd; [by apply post_ret|].
  destruct (evCh s) as [|ev rest] eqn:E; [done|].
  wp_step. apply post_modify. wp_step.
  eapply post_mono; [by apply processor_event_gate|]. intros [] s1 H. by apply post_ret.
Qed.

(** Queueing an event that is not a role change. *)
Lemma put_event_gate ev s :
  is_trans ev = false -> gate_ok s -> post (put_event ev) s (fun _ s' => gate_ok s').
Proof.
  intros Ht Hg u s' E. unfold put_event, chan_send in E. case_decide; [|done].
  injection E as _ <-. unfold gate_ok in *. simpl. rewrite trans_events_app.
  unfold trans_events at 2 4. rewrite filter_cons_False, filter_nil, app_nil_r by (by rewrite Ht).
  done.
Qed.

(** Under the read lock the event is queued and nothing else changes. *)
Lemma put_locked_run ev s u s' :
  put_locked ev s = Done u s' -> s' = set_evCh (evCh s ++ [ev]) s.
Proof.
  unfold put_locked, chLock_RLock, chLock_RUnlock, put_event, chan_send, RLock, RUnlock, mbind, M_bind.
  destruct s as [?????????? cl ??]; simpl. destruct cl as [|n|]; simpl; [..|done];
    case_decide; naive_solver.
Qed.

Lemma tryPutEv_run ev cur s b s' :
  tryPutEv ev cur s = Done b s' ->
  s' = if b then set_evCh (evCh s ++ [ev]) s else s.
Proof.
  unfold tryPutEv, chLock_RLock, chLock_RUnlock, put_event, chan_send, RLock, RUnlock, gets,
    mbind, M_bind, mret, M_ret.
  destruct s as [??????? r ?? cl ??]; simpl. destruct cl as [|n|]; simpl; [..|naive_solver];
    (destruct (cur && _); [case_decide|]); naive_solver.
Qed.

Lemma queued_gate ev s :
  is_trans ev = false -> gate_ok s -> gate_ok (set_evCh (evCh s ++ [ev]) s).
Proof.
  intros Ht Hg. unfold gate_ok in *. simpl. rewrite trans_events_app.
  unfold trans_events at 2 4. rewrite filter_cons_False, filter_nil, app_nil_r by (by rewrite Ht).
  done.
Qed.

Lemma frames_applier_turn accept : keeps (same outside_logs) (applier_turn accept).
Proof.
  unfold applier_turn. apply keeps_bind; [exact _|keeps_auto|]. intros lg.
  destruct (applier lg) as [|a rest]; [keeps_auto|].
  apply keeps_bind; [exact _|by apply keeps_modify|]. intros _. destruct a as [ets i|sn]; [keeps_auto|].
  destruct (accept 0%nat); [|keeps_auto].
  apply keeps_bind; [exact _|by apply keeps_modify|]. intros _. keeps_auto.
Qed.

(** The steps of a live peer: its event loop, the goroutines and clients that
    queue events, a replicator that finds its leader stale, and the applier. *)
Inductive peer_step : Raft Cmd -> Raft Cmd -> Prop :=
  | peer_turn b s s' : processor_turn s = Done b s' -> peer_step s s'
  | peer_try ev cur b s s' :
      is_trans ev = false -> tryPutEv ev cur s = Done b s' -> peer_step s s'
  | peer_call ev u s s' :
      is_trans ev = false -> put_locked ev s = Done u s' -> peer_step s s'
  | peer_query ev u s s' :
      is_trans ev = false -> put_event ev s = Done u s' -> peer_step s s'
  | peer_stale u s s' :
      active (role s) = true -> role_enum (role s) = LEADER ->
      transRole followerFromLeader s = Done u s' -> peer_step s s'
  | peer_apply accept r s s' : applier_turn accept s = Done r s' -> peer_step s s'.

Lemma peer_step_gate s s' : gate_ok s -> peer_step s s' -> gate_ok s'.
Proof.
  intros Hg Hs. destruct Hs as [b ?? E|ev cur b ?? Ht E|ev u ?? Ht E|ev u ?? Ht E|u ?? Ha Hk E|accept r s1 s1' E].
  - by eapply processor_turn_gate.
  - rewrite (tryPutEv_run _ _ _ _ _ E). destruct b; [by apply queued_gate|done].
  - rewrite (put_locked_run _ _ _ _ E). by apply queued_gate.
  - unfold put_event, chan_send in E. case_decide; [|done]. injection E as _ <-. by apply queued_gate.
  - by eapply (guards_transRole LEADER followerFromLeader eq_refl _ _ _ E).
  - assert (same gate_part s1 s1') as Hsame.
    { apply same_outside_part. by eapply frames_applier_turn. }
    by apply (gate_in_part (role_enum (role s1)) _ _ Hsame).
Qed.

Lemma Make_gate n self ps u s : Make n self ps u = Done s u -> gate_ok s.
Proof.
  unfold Make. intros E. unfold mbind, M_bind, mret, M_ret in E.
  destruct (gob_decode _) as [st| |]; [..|done].
  all: destruct (newLogs _ _ _); simplify_eq; unfold gate_ok; simpl; intros _.
  all: split; [done|]; by exists None.
Qed.

(** ** A pending role change always completes *)

(** The role a change leads to. *)
Definition target (f : option TransFunc) : RoleEnum :=
  match f with
  | None | Some followerFromCandidate | Some followerFromLeader => FOLLOWER
  | Some candidateFromFollower => CANDIDATE
  | Some leaderFromCandidate => LEADER
  end.

Lemma emit_all_run {A} (f : A -> Output) l s :
  for_each l (fun i => emit (f i)) s = Done tt (set_outbox (outbox s ++ (f <$> l)) s).
Proof.
  revert s. induction l as [|x l IH]; intros s.
  - simpl. rewrite app_nil_r. by destruct s.
  - cbn [for_each]. rewrite (bind_done (emit (f x)) _ s tt _ eq_refl), IH. simpl. by rewrite <- app_assoc.
Qed.
End gate_protocol.
