(* ===== verification/Votes.v ===== *)
(** Terms and votes (raft/follower.go, candidate.go, leader.go).

    [votes_kept] relates the term and vote of a peer before and after some
    code: the term does not go back, and within a term a vote is not changed.
    Every step of the event loop respects it; and a granted vote is recorded as
    the vote of its term.  So the answers a peer gives to RequestVote name one
    candidate per term.  (A candidate's vote for itself is not recorded, see
    Election.v.) *)

From S2P Require Import Prelude BitVec RaftTypes Persist Logs ReplCounter Roles Gate.

Section votes.
Context {Cmd : Type} `{!Gob Cmd}.
Implicit Types s : Raft Cmd.

Definition votes_kept s s' : Prop :=
  term s <= term s' /\ (term s' = term s -> voteFor s = -1 \/ voteFor s' = voteFor s).

#[export] Instance votes_kept_preorder : PreOrder votes_kept.
Proof.
  split; [intros s; split; [lia|auto]|].
  intros s1 s2 s3 [H1 H2] [H3 H4]. split; [lia|]. intros E.
  destruct H2 as [|E2]; [lia|auto|]. destruct H4 as [|E3]; [lia| |]; [left|right]; congruence.
Qed.

Definition ballot s := (term s, voteFor s).

Lemma kept_ballot {A} (m : M (Raft Cmd) A) : keeps (same ballot) m -> keeps votes_kept m.
Proof.
  apply keeps_mono. unfold same, ballot, votes_kept. intros s s' [= -> ->]. split; [lia|auto].
Qed.

Lemma ballot_frames {A} (m : M (Raft Cmd) A) : keeps (same outside_logs) m -> keeps (same ballot) m.
Proof.
  apply keeps_mono. unfold same, outside_logs, ballot. by intros s s' [= _ _ _ _ -> -> _ _ _ _].
Qed.
#[local] Hint Extern 2 (keeps (same ballot) _) =>
  (apply ballot_frames; solve [eauto with keeps]) : keeps.

Lemma ballot_emit o : keeps (same ballot) (emit o).
Proof. by apply keeps_modify. Qed.
Lemma ballot_set_data d : keeps (same ballot) (set_data d).
Proof. by apply keeps_modify. Qed.
Lemma ballot_set_active b : keeps (same ballot) (set_active b).
Proof. by apply keeps_modify. Qed.
Lemma ballot_put_event ev : keeps (same ballot) (put_event ev).
Proof. by apply keeps_chan_send. Qed.
Lemma ballot_chLock : keeps (same ballot) chLock_Lock.
Proof. by apply keeps_Lock. Qed.
Lemma ballot_chUnlock : keeps (same ballot) chLock_Unlock.
Proof. by apply keeps_Unlock. Qed.
Lemma ballot_set_role r : keeps (same ballot) (modify (set_role r)).
Proof. by apply keeps_modify. Qed.
Lemma ballot_set_dead b : keeps (same ballot) (modify (set_dead b)).
Proof. by apply keeps_modify. Qed.
#[local] Hint Resolve ballot_emit ballot_set_data ballot_set_active ballot_put_event
  ballot_chLock ballot_chUnlock ballot_set_role ballot_set_dead : keeps.

Lemma ballot_stop : keeps (same ballot) stop.
Proof. unfold stop. keeps_auto. Qed.
#[local] Hint Resolve ballot_stop : keeps.
Lemma ballot_transRole f : keeps (same ballot) (transRole f).
Proof. unfold transRole. keeps_auto. Qed.
Lemma ballot_tick : keeps (same ballot) tickHeartBeatTimer.
Proof. unfold tickHeartBeatTimer. keeps_auto. Qed.
Lemma ballot_setElecTimer : keeps (same ballot) setElecTimer.
Proof. unfold setElecTimer. keeps_auto. Qed.
Lemma ballot_startReplication : keeps (same ballot) startReplication.
Proof. unfold startReplication. keeps_auto. Qed.
Lemma ballot_trans f r : keeps (same ballot) (trans f r).
Proof. unfold trans. keeps_auto. Qed.
#[local] Hint Resolve ballot_transRole ballot_tick ballot_setElecTimer ballot_startReplication
  ballot_trans : keeps.
Lemma ballot_auditVote t v : keeps (same ballot) (auditVote t v).
Proof. unfold auditVote. keeps_auto. Qed.
Lemma ballot_discardEv ev : keeps (same ballot) (discardEv ev).
Proof. unfold discardEv. keeps_auto. Qed.
#[local] Hint Resolve ballot_auditVote ballot_discardEv : keeps.
#[local] Hint Extern 4 (keeps votes_kept _) => (apply kept_ballot; solve [eauto with keeps]) : keeps.

(** setTerm moves to the new term and forgets the vote. *)
Lemma setTerm_spec t s :
  is_int32 t -> post (setTerm t) s (fun _ s' => term s < t /\ term s' = t /\ voteFor s' = -1).
Proof.
  intros Ht. unfold setTerm, Term. wp_step. wp_step. wp_step. wp_step. intros E. wp_step.
  apply post_modify. wp_step. apply post_modify. rewrite to_int32_small by done.
  eapply post_mono; [apply (ballot_frames _ frames_persistState)|].
  intros [] s1. unfold same, ballot. simpl. intros [= -> ->].
  rewrite Z.gtb_ltb in E. apply Z.ltb_lt in E. done.
Qed.

Lemma kept_setTerm t : is_int32 t -> keeps votes_kept (setTerm t).
Proof.
  intros Ht s. eapply post_mono; [by apply setTerm_spec|].
  intros [] s1 (H1 & H2 & H3). split; lia.
Qed.

(** ** Votes *)

(** A reply that grants names the candidate the peer then has its vote for. *)
Definition vote_answer (args : RequestVoteArgs) s (r : RequestVoteReply) s' : Prop :=
  votes_kept s s' /\
  (VoteStatus_ r = VOTE_GRANTED -> term s' = rv_Term args /\ voteFor s' = CandidateID args).

(** Granting in a new term, with the vote set where the code sets it. *)
Lemma new_term_vote args s {A} (m : A -> M (Raft Cmd) RequestVoteReply) (k : M (Raft Cmd) A) :
  is_int32 (rv_Term args) -> keeps (same ballot) k ->
  (forall a s1, term s1 = rv_Term args ->
    post (m a) s1 (fun r s' => term s' = rv_Term args /\
      (VoteStatus_ r = VOTE_GRANTED -> voteFor s' = CandidateID args))) ->
  post (setTerm (rv_Term args);; a ← k; m a) s (vote_answer args s).
Proof.
  intros Ht Hk Hm. wp_step. eapply post_mono; [by apply setTerm_spec|].
  intros [] s1 (H1 & H2 & H3). wp_step. eapply post_mono; [apply Hk|].
  intros a s2 [= E1 E2]. eapply post_mono; [apply Hm; congruence|].
  intros r s3 [E3 Hg]. split; [split; lia|]. auto.
Qed.

(** Code after the vote was decided does not change it. *)
Lemma decided {A} (m : M (Raft Cmd) A) s (Q : A -> Prop) :
  keeps (same ballot) m -> post m s (fun a _ => Q a) ->
  post m s (fun a s' => term s' = term s /\ voteFor s' = voteFor s /\ Q a).
Proof. intros Hb Hq a s' E. specialize (Hb _ _ _ E). injection Hb as ??. eauto. Qed.

Lemma follower_requestVote_answer args reply s :
  is_int32 (rv_Term args) -> post (follower_requestVote args reply) s (vote_answer args s).
Proof.
  intros Ht. unfold follower_requestVote. wp_step. wp_step.
  destruct (rv_Term args <? term s) eqn:E1.
  { apply post_ret. split; [reflexivity|done]. }
  destruct (rv_Term args =? term s) eqn:E2.
  { apply Z.eqb_eq in E2. destruct (CandidateID args =? voteFor s) eqn:E3; apply post_ret;
      (split; [reflexivity|]); simpl; [|done]. apply Z.eqb_eq in E3. auto. }
  apply new_term_vote; [done|eauto with keeps|]. intros ok s1 Hs1.
  destruct ok; [|by apply post_ret]. wp_step. apply post_modify. wp_step.
  eapply post_mono; [apply ballot_tick|]. intros [] s2 [= E3 E4]. apply post_ret.
  simpl in *. split; [congruence|done].
Qed.

Lemma candidate_requestVote_answer args reply s :
  is_int32 (rv_Term args) -> post (candidate_requestVote args reply) s (vote_answer args s).
Proof.
  intros Ht. unfold candidate_requestVote. wp_step. wp_step.
  destruct (rv_Term args <? term s) eqn:E1.
  { apply post_ret. split; [reflexivity|done]. }
  destruct (rv_Term args =? term s) eqn:E2.
  { apply Z.eqb_eq in E2. destruct (CandidateID args =? voteFor s) eqn:E3; apply post_ret;
      (split; [reflexivity|]); simpl; [|done]. apply Z.eqb_eq in E3. auto. }
  apply new_term_vote; [done|apply ballot_transRole|]. intros _ s1 Hs1. wp_step.
  eapply post_mono; [apply (ballot_frames _ (frames_atLeastUpToDate _))|].
  intros ok s2 [= E3 E4]. destruct ok; [|apply post_ret; split; [congruence|done]].
  wp_step. apply post_modify. apply post_ret. simpl. split; [congruence|done].
Qed.

Lemma leader_requestVote_answer args reply s :
  is_int32 (rv_Term args) -> post (leader_requestVote args reply) s (vote_answer args s).
Proof.
  intros Ht. unfold leader_requestVote, Term. wp_step. wp_step.
  destruct (rv_Term args <=? term s) eqn:E1.
  { apply post_ret. split; [reflexivity|done]. }
  apply new_term_vote; [done|eauto with keeps|]. intros ok s1 Hs1. wp_step.
  destruct ok.
  - wp_step. apply post_modify. apply post_ret. wp_step.
    eapply post_mono; [apply ballot_transRole|]. intros [] s2 [= E3 E4]. apply post_ret.
    simpl in *. split; [congruence|done].
  - apply post_ret. wp_step. eapply post_mono; [apply ballot_transRole|].
    intros [] s2 [= E3 E4]. apply post_ret. split; [congruence|done].
Qed.

(** ** Every event keeps terms and votes *)

(** The term an event carries. *)
Definition event_term (ev : Event Cmd) : Z :=
  match ev with
  | RequestVoteEvent args _ _ => rv_Term args
  | AppendEntriesEvent args _ _ => ae_Term args
  | StaleCandidateEvent t | StaleLeaderEvent t => t
  | _ => 0
  end.

Lemma kept_answer {A} (m : M (Raft Cmd) A) (Q : Raft Cmd -> A -> Raft Cmd -> Prop) :
  (forall s, post m s (fun a s' => votes_kept s s' /\ Q s a s')) -> keeps votes_kept m.
Proof. intros H s. eapply post_mono; [apply H|]. by intros a s' [??]. Qed.

Lemma kept_follower_requestVote args r :
  is_int32 (rv_Term args) -> keeps votes_kept (follower_requestVote args r).
Proof. intros Ht. eapply kept_answer. intros s. by apply follower_requestVote_answer. Qed.
Lemma kept_candidate_requestVote args r :
  is_int32 (rv_Term args) -> keeps votes_kept (candidate_requestVote args r).
Proof. intros Ht. eapply kept_answer. intros s. by apply candidate_requestVote_answer. Qed.
Lemma kept_leader_requestVote args r :
  is_int32 (rv_Term args) -> keeps votes_kept (leader_requestVote args r).
Proof. intros Ht. eapply kept_answer. intros s. by apply leader_requestVote_answer. Qed.
#[local] Hint Resolve kept_setTerm kept_follower_requestVote kept_candidate_requestVote
  kept_leader_requestVote : keeps.

Lemma kept_follower_appendEntries args r :
  is_int32 (ae_Term args) -> keeps votes_kept (follower_appendEntries args r).
Proof. intros. unfold follower_appendEntries, Term. keeps_auto. Qed.
Lemma kept_candidate_appendEntries args r :
  is_int32 (ae_Term args) -> keeps votes_kept (candidate_appendEntries args r).
Proof. intros. unfold candidate_appendEntries, Term. keeps_auto. Qed.
Lemma kept_leader_appendEntries args r :
  is_int32 (ae_Term args) -> keeps votes_kept (leader_appendEntries args r).
Proof. intros. unfold leader_appendEntries, Term. keeps_auto. Qed.
#[local] Hint Resolve kept_follower_appendEntries kept_candidate_appendEntries
  kept_leader_appendEntries : keeps.

Lemma kept_process ev : is_int32 (event_term ev) -> keeps votes_kept (process ev).
Proof.
  intros Ht. unfold process, follower_process, candidate_process, leader_process, Term, get_rc.
  apply keeps_bind; [exact _|apply keeps_gets; exact _|]. intros r.
  destruct (data r), ev; cbn [event_term] in Ht; keeps_auto.
Qed.

(** A started election moves the term up by one. *)
Lemma startElection_kept s :
  0 <= term s < 2147483647 -> post startElection s (fun _ s' => votes_kept s s').
Proof.
  intros Ht. unfold startElection. wp_step. apply post_modify.
  rewrite to_int32_small by (unfold is_int32; lia).
  set (s1 := set_term (term s + 1) s).
  assert (votes_kept s s1) as K by (split; simpl; lia).
  eapply post_mono; [|intros u s' H; etrans; [exact K|exact H]].
  revert s1 K. intros s1 _. apply (kept_ballot (s ← gets (fun s => s); _)). keeps_auto.
Qed.

Lemma activate_kept s :
  0 <= term s < 2147483647 -> post activate s (fun _ s' => votes_kept s s').
Proof.
  intros Ht. unfold activate. wp_step. wp_step. destruct (data (role s)).
  - apply (kept_ballot follower_activate). unfold follower_activate. keeps_auto.
  - unfold candidate_activate. wp_step. wp_step. destruct (negb _); [|by apply post_ret].
    cbn [when]. wp_step. apply post_modify. wp_step.
    eapply post_mono; [by apply startElection_kept|]. intros [] s1 H u s2 E.
    specialize (kept_ballot _ ballot_chUnlock _ _ _ E). intros H2. etrans; [|exact H2]. exact H.
  - apply (kept_ballot leader_activate). unfold leader_activate, Term, get_rc. keeps_auto.
Qed.

Lemma kept_handled ev :
  is_int32 (event_term ev) -> is_trans ev = false -> keeps votes_kept (processor_event ev).
Proof.
  intros Ht Hi. pose proof (kept_process ev Ht) as Hp.
  destruct ev; try done; cbn [processor_event]; keeps_auto.
Qed.

Lemma ballot_change_role f :
  keeps (same ballot) (r ← gets role; r' ← trans f r; modify (set_role r') : M (Raft Cmd) unit).
Proof. keeps_auto. Qed.

Lemma processor_event_kept ev s :
  is_int32 (event_term ev) -> 0 <= term s < 2147483647 ->
  post (processor_event ev) s (fun _ s' => votes_kept s s').
Proof.
  intros Ht Hs. destruct (is_trans ev) eqn:Ei; [|by apply kept_handled].
  destruct ev as [f| | | | | | | | | | | | | |]; try done. cbn [processor_event]. wp_step.
  destruct f as [f|]; [|apply post_ret; by apply activate_kept].
  eapply post_mono; [apply ballot_change_role|]. intros [] s1 [= E1 E2].
  eapply post_mono; [apply activate_kept; lia|]. intros _ s2 [H1 H2].
  split; [lia|]. rewrite <- E1, <- E2. exact H2.
Qed.

(** ** Along a run *)

(** The events in the queue carry terms of the width of the term field. *)
Definition queue_ok s : Prop := Forall (fun ev => is_int32 (event_term ev)) (evCh s).

Lemma processor_turn_kept s :
  queue_ok s -> 0 <= term s < 2147483647 ->
  post processor_turn s (fun _ s' => votes_kept s s').
Proof.
  intros Hq Hs. unfold processor_turn. wp_step. wp_step.
  destruct (dead s); [by apply post_ret|].
  destruct (evCh s) as [|ev rest] eqn:E; [done|]. wp_step. apply post_modify. wp_step.
  unfold queue_ok in Hq. rewrite E in Hq. apply Forall_cons in Hq as [Hev _].
  eapply post_mono; [apply (processor_event_kept ev (set_evCh rest s)); done|].
  intros [] s1 H. apply post_ret. exact H.
Qed.

Lemma kept_queue q s : votes_kept s (set_evCh q s).
Proof. split; simpl; [lia|auto]. Qed.

Lemma peer_step_kept s s' :
  queue_ok s -> 0 <= term s < 2147483647 -> peer_step s s' -> votes_kept s s'.
Proof.
  intros Hq Hs H. destruct H as [b ?? E|ev cur b ?? Ht E|ev u ?? Ht E|ev u ?? Ht E|u ?? Ha Hk E|accept r s1 s1' E].
  - by eapply processor_turn_kept.
  - rewrite (tryPutEv_run _ _ _ _ _ E). destruct b; [apply kept_queue|done].
  - rewrite (put_locked_run _ _ _ _ E). apply kept_queue.
  - unfold put_event, chan_send in E. case_decide; [|done]. injection E as _ <-. apply kept_queue.
  - eapply kept_ballot; [apply ballot_transRole|exact E].
  - eapply kept_ballot; [|exact E]. apply ballot_frames, frames_applier_turn.
Qed.

(** A run of a live peer in which terms keep to their width. *)
Inductive bounded_run : Raft Cmd -> Raft Cmd -> Prop :=
  | run_here s : bounded_run s s
  | run_step s1 s2 s3 :
      queue_ok s1 -> 0 <= term s1 < 2147483647 -> peer_step s1 s2 ->
      bounded_run s2 s3 -> bounded_run s1 s3.

Lemma bounded_run_kept s s' : bounded_run s s' -> votes_kept s s'.
Proof.
  induction 1 as [|s1 s2 s3 Hq Hs H12 _ IH]; [done|]. etrans; [by apply peer_step_kept|exact IH].
Qed.

(** The peer, in state [s], answers a RequestVote with [r]. *)
Definition votes s (args : RequestVoteArgs) (r : RequestVoteReply) s' : Prop :=
  exists ch, process (RequestVoteEvent args emptyVoteReply ch) s = Done tt s' /\
    outbox s' = outbox s ++ [OutVote ch r true].

Lemma requestVote_answer (ch : nat) args r0 s :
  is_int32 (rv_Term args) ->
  post (process (RequestVoteEvent args r0 ch)) s (fun _ s' =>
    exists r, vote_answer args s r s' /\ exists o, outbox s' = o ++ [OutVote ch r true]).
Proof.
  intros Ht. unfold process. wp_step. wp_step.
  destruct (data (role s)); cbn [follower_process candidate_process leader_process]; wp_step;
    [eapply post_mono; [by apply follower_requestVote_answer|]
    |eapply post_mono; [by apply candidate_requestVote_answer|]
    |eapply post_mono; [by apply leader_requestVote_answer|]];
    intros r s1 H; apply post_modify; exists r; (split; [exact H|]); by eexists.
Qed.

Lemma votes_answer args r s s' :
  is_int32 (rv_Term args) -> votes s args r s' -> vote_answer args s r s'.
Proof.
  intros Ht (ch & E & Ho). destruct (requestVote_answer ch args _ s Ht _ _ E) as (r' & H & o & Ho').
  rewrite Ho in Ho'. apply app_inj_2 in Ho' as [_ [= ->]]; [exact H|done].
Qed.

Lemma one_vote args1 args2 r1 r2 s1 s2 s3 s4 :
  is_int32 (rv_Term args1) -> is_int32 (rv_Term args2) -> 0 <= CandidateID args1 ->
  votes s1 args1 r1 s2 -> bounded_run s2 s3 -> votes s3 args2 r2 s4 ->
  VoteStatus_ r1 = VOTE_GRANTED -> VoteStatus_ r2 = VOTE_GRANTED ->
  rv_Term args1 = rv_Term args2 -> CandidateID args1 = CandidateID args2.
Proof.
  intros Ht1 Ht2 Hc V1 Hr V2 G1 G2 E.
  destruct (votes_answer _ _ _ _ Ht1 V1) as [_ A1]. destruct (A1 G1) as [T1 F1].
  destruct (votes_answer _ _ _ _ Ht2 V2) as [[K1 K2] A2]. destruct (A2 G2) as [T2 F2].
  destruct (bounded_run_kept _ _ Hr) as [L1 L2].
  destruct L2 as [|L2]; [lia..|]. destruct K2 as [|K2]; [lia..|]. congruence.
Qed.
End votes.
