(* ===== verification/Election.v ===== *)
(** Elections (raft/candidate.go, with follower.go and leader.go).

    [vote_rpc] and [on_vote_reply] are the goroutine startElection starts per
    peer; [auditVote] counts its events.  A candidate becomes leader on a
    majority of slots of [voters], its own vote included.  The cluster at the
    end composes peers with the calls between them, executable on a schedule;
    it has a schedule with two leaders in one term, because a candidate keeps
    its vote of the previous term. *)

From S2P Require Import Prelude BitVec RaftTypes Persist Logs ReplCounter Roles Gate Votes.

(** * The goroutine of a vote request *)

(** [call k] is what the [k]-th Call leaves: its result and the reply object;
    [live k] is the candidate's [active] flag as read before it.  The result has
    the number of calls made. *)
Fixpoint vote_retry (call : nat -> bool * RequestVoteReply) (live : nat -> bool)
    (tries k : nat) (ok : bool) (reply : RequestVoteReply) : bool * RequestVoteReply * nat :=
  match tries with
  | O => (ok, reply, k)
  | S tries =>
      if live k && (negb ok || negb (rvr_Responsed reply))
      then let '(ok, reply) := call k in vote_retry call live tries (S k) ok reply
      else (ok, reply, k)
  end.

Definition vote_rpc (call : nat -> bool * RequestVoteReply) (live : nat -> bool)
    : bool * RequestVoteReply * nat :=
  let '(ok, reply) := call 0%nat in vote_retry call live RPC_CALL_TRY_TIMES 1 ok reply.

(** A reply was obtained and the remote processed the request. *)
Definition answered (ok : bool) (reply : RequestVoteReply) : bool := ok && rvr_Responsed reply.

Lemma vote_retry_spec call live tries k ok reply :
  let '(ok', reply', k') := vote_retry call live tries k ok reply in
  (k <= k' <= k + tries)%nat /\
  ((ok', reply') = (ok, reply) /\ k' = k \/ (k < k')%nat /\ call (k' - 1)%nat = (ok', reply')) /\
  (answered ok' reply' = true \/ k' = (k + tries)%nat \/ live k' = false).
Proof.
  revert k ok reply. induction tries as [|n IH]; intros k ok reply; cbn [vote_retry].
  { repeat split; auto; lia. }
  destruct (live k && _) eqn:E.
  - destruct (call k) as [ok1 r1] eqn:Ec. specialize (IH (S k) ok1 r1).
    destruct (vote_retry _ _ _ _ _ _) as [[ok' r'] k']. destruct IH as (H1 & H2 & H3).
    split; [lia|]. split.
    + right. split; [lia|]. destruct H2 as [[E2 ->]|[_ H2]]; [|done].
      by rewrite Nat.sub_succ, Nat.sub_0_r, E2.
    + destruct H3 as [H3|[H3|H3]]; [by left|right; left; lia|by right; right].
  - split; [lia|]. split; [by left|]. unfold answered.
    destruct (live k); [left|by right; right]. destruct ok, (rvr_Responsed reply); done.
Qed.

Section election.
Context {Cmd : Type} `{!Gob Cmd}.
Implicit Types s : Raft Cmd.

(** What the goroutine does with the outcome; [current] says that its candidate
    is still the role of the peer. *)
Definition on_vote_reply (t : Z) (ok : bool) (reply : RequestVoteReply) (current : bool)
    : M (Raft Cmd) bool :=
  s ← gets (fun s => s);
  if current && active (role s) then
    if ok && rvr_Responsed reply then
      match VoteStatus_ reply with
      | VOTE_GRANTED => tryPutEv (VoteGrantEvent t (VoterID reply)) current
      | VOTE_OTHER =>
          if rvr_Term reply >? term s
          then tryPutEv (StaleCandidateEvent (rvr_Term reply)) current
          else mret false
      | VOTE_DENIAL => tryPutEv (StaleCandidateEvent (term s)) current
      | VOTE_DEFAULT => mret false
      end
    else mret false
  else mret false.

(** * Counting votes *)

(** Slots of [voters] that are set. *)
Definition granted (voters : list bool) : Z := count_if (fun b => b) voters.

(** A candidate counts its own vote and the slots that are set, one slot per
    peer; it gives way to a leader only with a majority. *)
Definition election_ok s : Prop :=
  match data (role s) with
  | Candidate votes voters _ =>
      votes = 1 + granted voters /\ lenZ voters = Z.max 0 (peers s) /\
      (TransEvent (Some leaderFromCandidate) ∈ evCh s -> majorN s <= votes)
  | _ => True
  end.

Definition ballot_box s :=
  (match data (role s) with Candidate v vs _ => Some (v, vs) | _ => None end,
   evCh s, peers s, majorN s).

Lemma election_ok_box s s' : same ballot_box s s' -> election_ok s -> election_ok s'.
Proof.
  unfold same, ballot_box, election_ok. intros [= E -> -> ->].
  destruct (data (role s)), (data (role s')); by simplify_eq.
Qed.

Abbreviation tallies m := (keeps (stable election_ok) m).

Lemma tallies_box {A} (m : M (Raft Cmd) A) : keeps (same ballot_box) m -> tallies m.
Proof. apply keeps_mono. intros s s' H ?. by eapply election_ok_box. Qed.
Lemma box_frames {A} (m : M (Raft Cmd) A) : keeps (same outside_logs) m -> keeps (same ballot_box) m.
Proof.
  apply keeps_mono. unfold same, outside_logs, ballot_box.
  by intros s s' [= -> _ _ -> _ _ -> -> _ _].
Qed.
#[local] Hint Extern 2 (keeps (same ballot_box) _) =>
  (apply box_frames; solve [eauto with keeps]) : keeps.

Lemma box_emit o : keeps (same ballot_box) (emit o).
Proof. by apply keeps_modify. Qed.
Lemma box_set_term v : keeps (same ballot_box) (modify (set_term v)).
Proof. by apply keeps_modify. Qed.
Lemma box_set_voteFor v : keeps (same ballot_box) (modify (set_voteFor v)).
Proof. by apply keeps_modify. Qed.
Lemma box_set_active b : keeps (same ballot_box) (set_active b).
Proof. by apply keeps_modify. Qed.
Lemma box_chUnlock : keeps (same ballot_box) chLock_Unlock.
Proof. by apply keeps_Unlock. Qed.
Lemma box_chLock : keeps (same ballot_box) chLock_Lock.
Proof. by apply keeps_Lock. Qed.
#[local] Hint Resolve box_emit box_set_term box_set_voteFor box_set_active box_chUnlock
  box_chLock : keeps.

Lemma box_setTerm t : keeps (same ballot_box) (setTerm t).
Proof. unfold setTerm, Term. keeps_auto. Qed.
Lemma box_startReplication : keeps (same ballot_box) startReplication.
Proof. unfold startReplication. keeps_auto. Qed.
Lemma box_tick : keeps (same ballot_box) tickHeartBeatTimer.
Proof.
  intros s. unfold tickHeartBeatTimer. wp_step. wp_step.
  destruct (data (role s)) eqn:E; [|by apply post_ret..].
  apply post_modify. unfold same, ballot_box. simpl. by rewrite E.
Qed.
Lemma box_setElecTimer : keeps (same ballot_box) setElecTimer.
Proof.
  intros s. unfold setElecTimer. wp_step. wp_step.
  destruct (data (role s)) eqn:E; try by apply post_ret.
  destruct (active _); [|by apply post_ret].
  apply post_modify. unfold same, ballot_box. simpl. by rewrite E.
Qed.
Lemma box_stop : keeps (same ballot_box) stop.
Proof.
  intros s. unfold stop. wp_step. wp_step. destruct (active (role s)); [|by apply post_ret].
  wp_step. apply post_modify. wp_step.
  eapply (post_mono _ _ (fun _ s' => same ballot_box s s')).
  - unfold same, ballot_box. destruct (data (role s)) eqn:E; simpl.
    + by apply post_modify.
    + by apply post_modify.
    + by apply post_ret.
  - intros [] s1 H1. wp_step. eapply post_mono; [apply box_chLock|].
    intros [] s2 H2. apply post_ret. by etrans.
Qed.
#[local] Hint Resolve box_setTerm box_startReplication box_tick box_setElecTimer box_stop : keeps.

Lemma tallies_follower_data t : tallies (set_data (Follower t)).
Proof. by apply keeps_modify. Qed.
Lemma tallies_leader_data rc : tallies (set_data (Leader rc)).
Proof. by apply keeps_modify. Qed.
#[local] Hint Resolve tallies_follower_data tallies_leader_data : keeps.
#[local] Hint Extern 3 (keeps (stable election_ok) _) =>
  (apply tallies_box; solve [eauto with keeps]) : keeps.

Lemma tallies_put_event ev :
  ev <> TransEvent (Some leaderFromCandidate) -> tallies (put_event ev).
Proof.
  intros Hev. apply keeps_chan_send_spec. intros s H.
  unfold election_ok in *. simpl. destruct (data (role s)); [done| |done].
  destruct H as (H1 & H2 & H3). split; [done|]. split; [done|].
  intros [Hin|Hin%list_elem_of_singleton]%elem_of_app; [auto|congruence].
Qed.

Lemma tallies_transRole f : f <> leaderFromCandidate -> tallies (transRole f).
Proof.
  intros Hf. unfold transRole. apply keeps_bind; [exact _|eauto with keeps|]. intros b.
  apply keeps_when; [exact _|]. apply tallies_put_event. congruence.
Qed.
#[local] Hint Extern 1 (keeps (stable election_ok) (transRole _)) =>
  (apply tallies_transRole; discriminate) : keeps.

(** ** auditVote *)

(** The state in which [f] is pending: the role is stopped, the queue has its
    TransEvent and the channel lock is held. *)
Definition stopped_role (r : Role) : Role :=
  mkRole false
    match data r with
    | Follower t => Follower (timer_stop t)
    | Candidate v vs t => Candidate v vs (timer_stop t)
    | Leader rc => Leader rc
    end.
Definition pending_change (f : TransFunc) s : Raft Cmd :=
  set_evCh (evCh s ++ [TransEvent (Some f)]) (set_chLock WLocked (set_role (stopped_role (role s)) s)).

Lemma transRole_run f s :
  active (role s) = true -> chLock s = Unlocked -> (length (evCh s) < EVCH_CAP)%nat ->
  transRole f s = Done tt (pending_change f s).
Proof.
  destruct s as [??????? [a d] ?? cl ??]. simpl. intros -> -> Hq.
  unfold transRole, stop, pending_change, stopped_role, chLock_Lock, Lock, put_event, chan_send, when,
    set_active, set_data, modify, gets, mbind, M_bind, mret, M_ret. simpl.
  destruct d; simpl; by rewrite decide_True by exact Hq.
Qed.

(** What a vote changes: nothing when it is of another term or counted
    already; otherwise the slot and the count, and the candidate gives way to a
    leader on a majority. *)
Definition audited (t voter votes : Z) (voters : list bool) (tm : Timer) s : Raft Cmd :=
  if negb (term s =? t) || default false (nthZ voters voter) then s
  else
    let s1 := set_role (mkRole true (Candidate (votes + 1) (<[Z.to_nat voter := true]> voters) tm)) s in
    if majorN s <=? votes + 1 then pending_change leaderFromCandidate s1 else s1.

Lemma auditVote_run t voter votes voters tm s :
  role s = mkRole true (Candidate votes voters tm) -> chLock s = Unlocked ->
  (length (evCh s) < EVCH_CAP)%nat -> 0 <= voter < lenZ voters ->
  auditVote t voter s = Done tt (audited t voter votes voters tm s).
Proof.
  intros Hr Hl Hq Hv. destruct (nthZ_in_range _ _ Hv) as [b Hb].
  unfold auditVote, audited. rewrite bind_gets, Hr, Hb. cbn [data default].
  destruct (term s =? t); [|done]. cbn [negb orb].
  rewrite (bind_done _ _ _ _ _ (go_index_ok _ _ _ _ Hb)). destruct b; [done|].
  rewrite (bind_done _ _ _ _ _ (go_update_ok _ _ _ _ Hv)). unfold set_data.
  rewrite bind_modify, Hr, Z.geb_leb. destruct (majorN s <=? votes + 1); [|done].
  cbn [when]. by rewrite transRole_run.
Qed.

(** A vote for a slot that does not exist panics. *)
Lemma auditVote_panic t voter votes voters tm s :
  data (role s) = Candidate votes voters tm -> term s = t -> ~ 0 <= voter < lenZ voters ->
  auditVote t voter s = Panicked IndexOutOfRange s.
Proof.
  intros Hr <- Hv. unfold auditVote. rewrite bind_gets, Hr, Z.eqb_refl.
  by apply bind_panicked, go_index_panic.
Qed.

Lemma granted_insert voters i :
  voters !! i = Some false -> granted (<[i := true]> voters) = granted voters + 1.
Proof.
  intros H. unfold granted. rewrite <- (take_drop_middle voters i false H) at 2.
  rewrite insert_take_drop by (by eapply lookup_lt_Some).
  rewrite !count_if_app, !count_if_cons. lia.
Qed.

Lemma audited_ok t voter votes voters tm s :
  role s = mkRole true (Candidate votes voters tm) -> 0 <= voter < lenZ voters ->
  trans_events (evCh s) = [] ->
  election_ok s -> election_ok (audited t voter votes voters tm s).
Proof.
  intros Hr Hv Hq H. unfold audited. destruct (nthZ_in_range _ _ Hv) as [b Hb]. rewrite Hb. simpl.
  destruct (_ || _) eqn:E; [done|]. apply orb_false_iff in E as [_ ->].
  unfold election_ok in H. rewrite Hr in H. simpl in H. destruct H as (H1 & H2 & _).
  assert (voters !! Z.to_nat voter = Some false) as Hb'.
  { unfold nthZ in Hb. by case_decide. }
  assert (majorN s <= votes + 1 -> election_ok (pending_change leaderFromCandidate
    (set_role (mkRole true (Candidate (votes + 1) (<[Z.to_nat voter := true]> voters) tm)) s))) as Hp.
  { intros Hm. unfold election_ok. simpl. rewrite granted_insert by done.
    rewrite length_insert. repeat split; [lia..|auto]. }
  destruct (majorN s <=? votes + 1) eqn:E; [apply Hp; lia|].
  unfold election_ok. simpl. rewrite granted_insert by done. rewrite length_insert.
  repeat split; [lia..|]. intros Hin. exfalso.
  assert (TransEvent (Some leaderFromCandidate) ∈ trans_events (evCh s)) as Hin2.
  { by apply list_elem_of_filter. }
  rewrite Hq in Hin2. set_solver.
Qed.

Lemma transRole_inv f s u s' :
  transRole f s = Done u s' -> s' = if active (role s) then pending_change f s else s.
Proof.
  destruct s as [??????? [a d] ?? cl ??]. simpl.
  unfold transRole, stop, pending_change, stopped_role, chLock_Lock, Lock, put_event, chan_send, when,
    set_active, set_data, modify, gets, mbind, M_bind, mret, M_ret. simpl.
  destruct a; [|by intros [= _ <-]].
  destruct d; simpl; destruct cl; try done; simpl; case_decide; by intros [= _ <-].
Qed.

Lemma auditVote_inv t voter s u s' :
  active (role s) = true -> auditVote t voter s = Done u s' ->
  s' = s \/ exists votes voters tm, role s = mkRole true (Candidate votes voters tm) /\
    0 <= voter < lenZ voters /\ s' = audited t voter votes voters tm s.
Proof.
  intros Ha. unfold auditVote. rewrite bind_gets.
  destruct (role s) as [a [tm|votes voters tm|rc]] eqn:Hr; simpl in Ha |- *; subst a;
    [by intros [= _ <-]; left| |by intros [= _ <-]; left].
  destruct (term s =? t) eqn:Et; [|by intros [= _ <-]; left].
  destruct (decide (0 <= voter < lenZ voters)) as [Hv|Hv];
    [|by rewrite (bind_panicked _ _ _ _ _ (go_index_panic _ _ _ Hv))].
  destruct (nthZ_in_range _ _ Hv) as [b Hb].
  rewrite (bind_done _ _ _ _ _ (go_index_ok _ _ _ _ Hb)). destruct b; [by intros [= _ <-]; left|].
  rewrite (bind_done _ _ _ _ _ (go_update_ok _ _ _ _ Hv)). unfold set_data.
  rewrite bind_modify, Hr, Z.geb_leb. intros E. right. exists votes, voters, tm.
  split; [done|]. split; [done|]. unfold audited. rewrite Et, Hb. simpl. cbn [active] in E.
  destruct (majorN s <=? votes + 1); [|by injection E as _ <-].
  cbn [when] in E. by apply transRole_inv in E.
Qed.

(** ** Every step keeps the count *)

Lemma tallies_follower_process ev : tallies (follower_process ev).
Proof.
  unfold follower_process, follower_appendEntries, follower_requestVote, Term. keeps_auto.
Qed.
Lemma tallies_candidate_process ev :
  (forall t v, ev <> VoteGrantEvent t v) -> tallies (candidate_process ev).
Proof.
  intros Hev. unfold candidate_process, candidate_appendEntries, candidate_requestVote, Term.
  destruct ev; try (by destruct (Hev _ _ eq_refl)); keeps_auto.
Qed.
Lemma tallies_leader_process ev : tallies (leader_process ev).
Proof.
  unfold leader_process, leader_appendEntries, leader_requestVote, Term, get_rc. keeps_auto.
Qed.
Lemma tallies_discardEv ev : tallies (discardEv ev).
Proof. unfold discardEv. keeps_auto. Qed.

Lemma process_tally ev s :
  active (role s) = true -> trans_events (evCh s) = [] -> election_ok s ->
  post (process ev) s (fun _ s' => election_ok s').
Proof.
  intros Ha Hq H. unfold process. wp_step. wp_step. destruct (data (role s)) eqn:Ed.
  - intros u s' E. by eapply tallies_follower_process.
  - assert ((exists t v, ev = VoteGrantEvent t v) \/ forall t v, ev <> VoteGrantEvent t v) as Hev.
    { destruct ev; try (right; congruence). left; eauto. }
    destruct Hev as [(t & v & ->)|Hev]; [|intros u s' E; by eapply tallies_candidate_process].
    cbn [candidate_process]. intros u s' E.
    apply auditVote_inv in E as [->|(vs & vrs & tm & Hr & Hv & ->)]; [done| |done].
    by apply audited_ok.
  - intros u s' E. by eapply tallies_leader_process.
Qed.

Lemma startElection_tally s votes voters t :
  data (role s) = Candidate votes voters t -> trans_events (evCh s) = [] ->
  post startElection s (fun _ s' => election_ok s').
Proof.
  intros Hd Hq. unfold startElection. wp_step. apply post_modify. wp_step. wp_step.
  simpl. rewrite Hd. wp_step. apply post_modify.
  match goal with |- post ?m ?s1 _ => assert (election_ok s1) as H end.
  { unfold election_ok. simpl. unfold granted. rewrite length_replicate. repeat split; [|lia|].
    - induction (Z.to_nat (peers s)) as [|n IH]; [done|]. simpl. rewrite count_if_cons. lia.
    - intros Hin. exfalso.
      assert (TransEvent (Some leaderFromCandidate) ∈ trans_events (evCh s)) as Hin2
        by (by apply list_elem_of_filter).
      rewrite Hq in Hin2. set_solver. }
  intros u s' E. revert u s' E H.
  match goal with |- forall u s', ?m ?s1 = _ -> _ =>
    enough (tallies m) as Hk by (intros u s' E H; by eapply Hk) end.
  keeps_auto.
Qed.

Lemma activate_tally s :
  gate_open s -> post activate s (fun _ s' => election_ok s').
Proof.
  intros (Hd & Ha & Hl & Hq). unfold activate. wp_step. wp_step.
  destruct (data (role s)) eqn:Ed.
  - assert (election_ok s) as H by (unfold election_ok; by rewrite Ed).
    intros u s' E. revert E H. unfold follower_activate. intros E H.
    refine ((_ : tallies _) s u s' E H). keeps_auto.
  - unfold candidate_activate. wp_step. wp_step. rewrite Ha. cbn [negb when]. wp_step.
    apply post_modify. wp_step. eapply post_mono; [by eapply startElection_tally|].
    intros [] s1 H u s2 E. by eapply (tallies_box _ box_chUnlock).
  - assert (election_ok s) as H by (unfold election_ok; by rewrite Ed).
    intros u s' E. refine ((_ : tallies leader_activate) s u s' E H).
    unfold leader_activate, Term, get_rc. keeps_auto.
Qed.

Definition peer_ok s : Prop := gate_ok s /\ (dead s = false -> election_ok s).

Lemma election_ok_queue q s :
  (forall ev, ev ∈ q -> ev ∈ evCh s \/ is_trans ev = false) ->
  election_ok s -> election_ok (set_evCh q s).
Proof.
  unfold election_ok. simpl. intros Hq. destruct (data (role s)); [done| |done].
  intros (H1 & H2 & H3). split; [done|]. split; [done|]. intros Hin.
  destruct (Hq _ Hin) as [?|?]; [auto|done].
Qed.

Lemma pop_tally ev rest s : evCh s = ev :: rest -> election_ok s -> election_ok (set_evCh rest s).
Proof. intros E. apply election_ok_queue. intros ev' H. left. rewrite E. set_solver. Qed.

Lemma push_tally ev s :
  is_trans ev = false -> election_ok s -> election_ok (set_evCh (evCh s ++ [ev]) s).
Proof. intros E. apply election_ok_queue. intros ev' [?|H%list_elem_of_singleton]%elem_of_app; subst; auto. Qed.

Lemma processor_event_tally ev rest s :
  dead s = false -> evCh s = ev :: rest -> peer_ok s ->
  post (processor_event ev) (set_evCh rest s) (fun _ s' => dead s' = false -> election_ok s').
Proof.
  intros Hd E [Hg He]. specialize (He Hd). destruct (is_trans ev) eqn:Et.
  - destruct ev as [f| | | | | | | | | | | | | |]; try done.
    destruct (pop_trans _ _ _ E Hg Hd) as [(H1 & H2 & H3 & H4) _].
    cbn [processor_event]. wp_step. destruct f as [f|].
    + eapply post_mono; [by apply trans_open|]. intros [] s1 H.
      eapply post_mono; [by apply activate_tally|]. auto.
    + apply post_ret. eapply post_mono; [by apply activate_tally|]. auto.
  - pose proof (pop_other _ _ _ E Et Hg) as Hg'. pose proof (pop_tally _ _ _ E He) as He'.
    assert (post (r ← gets role; if closed r then discardEv ev else process ev) (set_evCh rest s)
      (fun _ s' => dead s' = false -> election_ok s')) as Hdefault.
    { wp_step. wp_step. unfold closed. specialize (Hg' Hd).
      destruct (active (role (set_evCh rest s))) eqn:Ea; simpl.
      - destruct Hg' as [Hl Hq]. eapply post_mono; [by apply process_tally|]. auto.
      - intros u s' E'. intros _. by eapply tallies_discardEv. }
    destruct ev; try done; cbn [processor_event].
    + wp_step. wp_step. destruct (closed _); [by apply post_modify|]. wp_step.
      eapply post_mono; [apply (tallies_box _ (box_frames _ (frames_takeSnapshot _ _)))|].
      intros [] s1 H1. apply post_modify. intros _. by apply H1.
    + wp_step. intros b s1 _. wp_step. apply post_modify. by intros u s2 [= _ <-].
Qed.

Lemma processor_turn_dead s : dead s = true -> processor_turn s = Done false s.
Proof. intros H. unfold processor_turn. by rewrite bind_gets, H. Qed.

Lemma peer_step_ok s s' : peer_ok s -> peer_step s s' -> peer_ok s'.
Proof.
  intros [Hg He] Hs. split; [by eapply peer_step_gate|].
  destruct Hs as [b s s' E|ev cur b ?? Ht E|ev u ?? Ht E|ev u ?? Ht E|u s1 ? Ha Hk E|accept r s1 s1' E].
  - destruct (dead s) eqn:Hd; [rewrite processor_turn_dead in E by done; by injection E as _ <-; congruence|].
    unfold processor_turn in E. rewrite bind_gets, Hd in E.
    destruct (evCh s) as [|ev rest] eqn:Eq; [done|]. rewrite bind_modify in E.
    pose proof (processor_event_tally ev rest s Hd Eq (conj Hg (fun _ => He eq_refl))) as Hp.
    unfold mbind, M_bind in E. destruct (processor_event ev _) as [u s1| |] eqn:E1; [|done..].
    injection E as _ <-. by eapply Hp.
  - rewrite (tryPutEv_run _ _ _ _ _ E). destruct b; [|done]. intros Hd. by apply push_tally; auto.
  - rewrite (put_locked_run _ _ _ _ E). intros Hd. by apply push_tally; auto.
  - unfold put_event, chan_send in E. case_decide; [|done]. injection E as _ <-.
    intros Hd. by apply push_tally; auto.
  - apply transRole_inv in E as ->. rewrite Ha. intros _. unfold election_ok, role_enum in *. simpl.
    by destruct (data (role s1)).
  - assert (same outside_logs s1 s1') as Hsame by (by eapply frames_applier_turn).
    assert (dead s1' = dead s1) as Ed by (unfold same, outside_logs in Hsame; congruence).
    intros Hd. eapply election_ok_box; [|apply He; congruence].
    by eapply (box_frames _ (frames_applier_turn accept)).
Qed.

Lemma Make_ok n self ps u s : Make n self ps u = Done s u -> peer_ok s.
Proof.
  intros E. split; [by eapply Make_gate|]. intros _. unfold Make, mbind, M_bind, mret, M_ret in E.
  destruct (gob_decode _) as [st| |]; [..|done];
    destruct (newLogs _ _ _); by simplify_eq.
Qed.

(** A peer that is about to become leader has a majority of the slots, its own
    vote included. *)
Lemma elected s f rest :
  peer_ok s -> dead s = false -> evCh s = TransEvent f :: rest -> f = Some leaderFromCandidate ->
  exists votes voters tm, data (role s) = Candidate votes voters tm /\
    lenZ voters = Z.max 0 (peers s) /\ majorN s <= 1 + granted voters.
Proof.
  intros [Hg He] Hd E ->. destruct (pop_trans _ _ _ E Hg Hd) as [_ Hf].
  specialize (He Hd). unfold election_ok, role_enum in *.
  destruct (data (role s)) as [|votes voters tm|]; [done| |done].
  exists votes, voters, tm. destruct He as (H1 & H2 & H3). split; [done|]. split; [done|].
  rewrite <- H1. apply H3. rewrite E. set_solver.
Qed.
End election.
