(* ===== verification/Activation.v ===== *)
(** A pending role change always completes (raft/raft.go processor,
    follower.go, candidate.go and leader.go activate): from a state that
    satisfies the gate, with the log consistent and its locks free, taking the
    TransEvent off the queue makes the new role and activates it. *)

From S2P Require Import Prelude BitVec RaftTypes Persist Logs LogsSpec ReplCounter Roles Gate.

Section activation.
Context {Cmd : Type} `{!Gob Cmd, !GobRegistered Cmd}.
Implicit Types s : Raft Cmd.
Implicit Types full : list (LogEntry Cmd).

(** The new role is in charge. *)
Definition in_charge (k : RoleEnum) s : Prop :=
  active (role s) = true /\ role_enum (role s) = k /\ chLock s = Unlocked.

Lemma chLock_Unlock_run s : chLock s = WLocked -> chLock_Unlock s = Done tt (set_chLock Unlocked s).
Proof. intros E. unfold chLock_Unlock, Unlock. by rewrite E. Qed.

Lemma tick_run t b s :
  role s = mkRole b (Follower t) ->
  tickHeartBeatTimer s = Done tt (set_role (mkRole b (Follower (timer_tick t))) s).
Proof. intros E. unfold tickHeartBeatTimer, set_data, modify, gets, mbind, M_bind. rewrite E. simpl. by rewrite E. Qed.

Lemma setElecTimer_run v vs t s :
  role s = mkRole true (Candidate v vs t) ->
  setElecTimer s = Done tt (set_role (mkRole true (Candidate v vs (timer_tick t))) s).
Proof.
  intros E. unfold setElecTimer, set_data, modify, gets, mbind, M_bind. rewrite E. simpl. by rewrite E.
Qed.

Lemma follower_activate_run t s :
  role s = mkRole false (Follower t) -> chLock s = WLocked ->
  exists s', follower_activate s = Done tt s' /\ in_charge FOLLOWER s' /\ logs s' = logs s.
Proof.
  intros Hr Hl. unfold follower_activate. rewrite bind_gets, Hr. cbn [active negb when].
  unfold set_active. rewrite bind_modify, Hr.
  erewrite bind_done; [|by apply chLock_Unlock_run].
  erewrite tick_run by reflexivity. eexists. split; [reflexivity|]. done.
Qed.

(** A started election: the term is one higher, a vote request goes to every
    other peer with the term and the last entry of the log, and the count
    starts at one. *)
Definition election_started full (t : Timer) s : Raft Cmd :=
  let s1 := set_term (to_int32 (term s + 1)) s in
  set_role (mkRole true (Candidate 1 (replicate (Z.to_nat (peers s)) false) (timer_tick t)))
    (set_outbox (outbox s ++ ((fun i => CallRequestVote i
       (mkRequestVoteArgs (term s1) (me s) (last_info full))) <$> other_peers s)) s1).

Lemma startElection_run full v vs t s :
  role s = mkRole true (Candidate v vs t) -> logs_rep full (logs s) -> rw (logs s) <> WLocked ->
  startElection s = Done tt (election_started full t s).
Proof.
  intros Hr Hf Hw. unfold startElection. rewrite bind_modify, bind_gets. simpl role.
  rewrite Hr. cbn [data]. unfold set_data. rewrite bind_modify.
  erewrite bind_done; [|by apply (lastLogInfo_rep full)].
  rewrite (bind_done _ _ _ _ _ (emit_all_run _ _ _)). simpl role. rewrite Hr.
  by erewrite setElecTimer_run by reflexivity.
Qed.

Lemma candidate_activate_run full v vs t s :
  role s = mkRole false (Candidate v vs t) -> chLock s = WLocked ->
  logs_rep full (logs s) -> rw (logs s) <> WLocked ->
  exists s', candidate_activate s = Done tt s' /\ in_charge CANDIDATE s' /\ logs s' = logs s.
Proof.
  intros Hr Hl Hf Hw. unfold candidate_activate. rewrite bind_gets, Hr. cbn [active negb when].
  unfold set_active. rewrite bind_modify, Hr.
  erewrite bind_done; [|by eapply (startElection_run full)].
  rewrite chLock_Unlock_run by done. eexists. split; [reflexivity|]. done.
Qed.

Lemma leader_activate_run full b s :
  role s = mkRole b (Leader newReplCounter) -> chLock s = WLocked ->
  logs_rep full (logs s) -> unlocked s -> lenZ full + 1 < 2^31 -> 0 <= me s < peers s ->
  exists s', leader_activate s = Done tt s' /\ in_charge LEADER s' /\
    logs_rep (full ++ [mkEntry NOOP_INDEX (term s) None]) (logs s').
Proof.
  intros Hr Hl Hf Hu Hlen Hme. unfold leader_activate, Term, get_rc. rewrite bind_gets.
  destruct (leaderAppendEntry_rep full s (mkEntry NOOP_INDEX (term s) None) Hf Hu Hlen)
    as (s1 & E1 & Hw & _ & Hrep & _).
  rewrite (bind_done _ _ _ _ _ E1).
  assert (role s1 = role s /\ peers s1 = peers s /\ me s1 = me s /\ chLock s1 = chLock s)
    as (R1 & R2 & R3 & R4) by (rewrite Hw; done).
  unfold mbind at 1, M_bind at 1. rewrite bind_gets, R1, Hr. cbn [data].
  unfold mret at 1, M_ret at 1. simpl fst.
  destruct (watchIndex_run s1 newReplCounter (lenZ full)) as (bv & E2 & _ & _);
    [apply counter_ok_nil|lia|done|].
  rewrite (bind_done _ _ _ _ _ E2). unfold set_data. rewrite bind_modify.
  unfold startReplication. unfold mbind at 1, M_bind at 1. rewrite bind_gets, emit_all_run.
  unfold set_active. rewrite bind_modify.
  rewrite chLock_Unlock_run by (simpl; congruence).
  eexists. split; [reflexivity|]. split; [done|]. exact Hrep.
Qed.

(** The log while a role changes: only a new leader's noop is added. *)
Definition changed_log (f : option TransFunc) full (t : Z) : list (LogEntry Cmd) :=
  if bool_decide (f = Some leaderFromCandidate) then full ++ [mkEntry NOOP_INDEX t None] else full.

Lemma activate_done full f s :
  active (role s) = false -> chLock s = WLocked -> role_enum (role s) = target f ->
  (forall rc, data (role s) = Leader rc -> rc = newReplCounter) ->
  logs_rep full (logs s) -> unlocked s -> lenZ full + 1 < 2^31 -> 0 <= me s < peers s ->
  exists s', activate s = Done tt s' /\ in_charge (target f) s' /\
    logs_rep (changed_log f full (term s)) (logs s').
Proof.
  intros Ha Hl Hk Hnew Hf Hu Hlen Hme. unfold activate. rewrite bind_gets.
  destruct (role s) as [a d] eqn:Hr. simpl in *. subst a.
  assert (rw (logs s) <> WLocked) as Hw by (destruct Hu; congruence).
  destruct d as [t|v vs t|rc].
  - destruct (follower_activate_run t s Hr Hl) as (s' & E & H & Hlogs).
    exists s'. rewrite E, Hlogs, <- Hk. by destruct f as [[]|].
  - destruct (candidate_activate_run full v vs t s) as (s' & E & H & Hlogs); [done..|].
    exists s'. rewrite E, Hlogs, <- Hk. by destruct f as [[]|].
  - rewrite (Hnew rc) in Hr by done.
    destruct (leader_activate_run full false s) as (s' & E & H & Hlogs); [done..|].
    exists s'. rewrite E, <- Hk. by destruct f as [[]|].
Qed.

Lemma role_change_done full f rest s :
  gate_ok s -> dead s = false -> evCh s = TransEvent f :: rest ->
  logs_rep full (logs s) -> unlocked s -> lenZ full + 1 < 2^31 -> 0 <= me s < peers s ->
  exists s', processor_turn s = Done true s' /\ in_charge (target f) s' /\
    logs_rep (changed_log f full (term s)) (logs s').
Proof.
  intros Hg Hd E Hf Hu Hlen Hme.
  destruct (pop_trans _ _ _ E Hg Hd) as [(_ & Ha & Hl & _) Hk].
  unfold processor_turn. rewrite bind_gets, Hd, E, bind_modify. cbn [processor_event].
  assert (exists r', active r' = false /\ role_enum r' = target f /\
    (forall rc, data r' = Leader rc -> rc = newReplCounter) /\
    (match f with
     | Some f => r ← gets role; r' ← trans f r; modify (set_role r')
     | None => mret tt
     end) (set_evCh rest s) = Done tt (set_role r' (set_evCh rest s))) as (r' & H1 & H2 & H3 & H4).
  { destruct s as [??????? [a d] ???? o]. simpl in *. subst a. unfold role_enum in *. simpl in *.
    destruct f as [f|].
    - destruct f, d; try done; unfold trans, gets, mbind, M_bind, modify; simpl;
        eexists; (split; [|split; [|split; [|reflexivity]]]); try done; simpl; congruence.
    - destruct d as [t| |]; try done. by exists (mkRole false (Follower t)). }
  destruct (activate_done full f (set_role r' (set_evCh rest s))) as (s' & E' & Hc & Hrep);
    [done..|].
  exists s'. split; [|split; [done|exact Hrep]].
  erewrite bind_done; [reflexivity|]. by rewrite (bind_done _ _ _ _ _ H4).
Qed.
End activation.
