(* ===== verification/Replicator.v ===== *)
(** The leader's replicators (raft/repl.go, Replicator), one goroutine per peer.

    [append_rpc] is the call with its retries: completions of the concurrent
    calls arrive in some order, only the first successful reply is stored, and
    a completion the loop receives makes it look at the stored reply.
    [matchIndex] is the binary search for the last index on which the peer
    agrees, and [replicate_turn] one round of [start].

    The goroutine runs beside the leader's own: the [k]-th time it looks at the
    leader it sees [env k], the active flag, the leader's state and the answer
    its call gets there. *)

From S2P Require Import Prelude BitVec RaftTypes Persist Logs LogsSpec.

(** * appendEntries: the call and its retries *)

(** One completed call: whether the waiting loop received it (the channel of an
    abandoned try is not read any more), and the reply if it succeeded. *)
Record completion := mkCompletion { received : bool; outcome_reply : option AppendEntriesReply }.

(** The stored reply after a completion: CompareAndSwap(nil, r). *)
Definition store_reply (stored : option AppendEntriesReply) (c : completion) : option AppendEntriesReply :=
  match stored with
  | Some r => Some r
  | None => outcome_reply c
  end.

(** [None] while the loop waits. *)
Fixpoint append_rpc (stored : option AppendEntriesReply) (cs : list completion)
    : option AppendEntriesReply :=
  match cs with
  | [] => None
  | c :: cs =>
      let stored' := store_reply stored c in
      match stored' with
      | Some r =>
          if received c && bool_decide (is_Some (outcome_reply c)) && aer_Responsed r then Some r
          else append_rpc stored' cs
      | None => append_rpc stored' cs
      end
  end.

(** The first successful reply among the completions. *)
Fixpoint first_success (cs : list completion) : option AppendEntriesReply :=
  match cs with
  | [] => None
  | c :: cs => match outcome_reply c with Some r => Some r | None => first_success cs end
  end.

Lemma append_rpc_stored r cs r' : append_rpc (Some r) cs = Some r' -> r' = r /\ aer_Responsed r = true.
Proof.
  induction cs as [|c cs IH]; [done|]. cbn [append_rpc store_reply].
  destruct (received c && _ && aer_Responsed r) eqn:E; [|exact IH].
  intros [= <-]. by apply andb_true_iff in E as [_ ->].
Qed.

Lemma append_rpc_first cs r :
  append_rpc None cs = Some r -> first_success cs = Some r /\ aer_Responsed r = true.
Proof.
  induction cs as [|c cs IH]; [done|]. cbn [append_rpc store_reply first_success].
  destruct (outcome_reply c) as [r0|] eqn:Eo; [|exact IH].
  destruct (_ && aer_Responsed r0) eqn:E.
  - intros [= <-]. by apply andb_true_iff in E as [_ ->].
  - by intros [-> ?]%append_rpc_stored.
Qed.

Lemma first_success_app cs cs' r : first_success cs = Some r -> first_success (cs ++ cs') = Some r.
Proof.
  induction cs as [|c cs IH]; [done|]. simpl. destruct (outcome_reply c); [done|exact IH].
Qed.

(** Once a reply the remote did not process is stored, the loop never ends. *)
Lemma append_rpc_stuck cs cs' r :
  first_success cs = Some r -> aer_Responsed r = false -> append_rpc None (cs ++ cs') = None.
Proof.
  intros Hf Hr. destruct (append_rpc None (cs ++ cs')) as [r'|] eqn:E; [|done].
  apply append_rpc_first in E as [E1 E2]. rewrite (first_success_app _ _ _ Hf) in E1. congruence.
Qed.

(** Otherwise it ends with the next success it receives. *)
Lemma append_rpc_stored_returns r cs c :
  aer_Responsed r = true -> received c = true -> is_Some (outcome_reply c) ->
  append_rpc (Some r) (cs ++ [c]) = Some r.
Proof.
  intros Hr Hc Ho. induction cs as [|c' cs IH]; cbn [app append_rpc store_reply].
  - by rewrite Hc, Hr, bool_decide_true.
  - by destruct (_ && _).
Qed.

Lemma append_rpc_returns cs cs' c r :
  first_success cs = Some r -> aer_Responsed r = true ->
  received c = true -> is_Some (outcome_reply c) ->
  append_rpc None (cs ++ cs' ++ [c]) = Some r.
Proof.
  intros Hf Hr Hc Ho. revert Hf. induction cs as [|c' cs IH]; [done|].
  cbn [app append_rpc store_reply first_success]. destruct (outcome_reply c') as [r'|]; [|exact IH].
  intros [= ->]. destruct (_ && _); [done|].
  rewrite app_assoc. by apply append_rpc_stored_returns.
Qed.

Section replicator.
Context {Cmd : Type} `{!Gob Cmd}.
Implicit Types full : list (LogEntry Cmd).

(** What the goroutine sees when it looks. *)
Record Obs := mkObs {
  ob_active : bool;
  ob_raft : Raft Cmd;
  ob_reply : AppendEntriesArgs Cmd -> AppendEntriesReply }.

Section search.
Context (env : nat -> Obs).

Definition active_at (k : nat) : bool := ob_active (env k).

(** * matchIndex *)

Inductive round_result : Type := RoundMatch | RoundUnmatch | RoundStale | RoundReturn | RoundLeft.

(** The loop [round]: ask until the answer is definite. *)
Fixpoint query_round (fuel k : nat) (args : AppendEntriesArgs Cmd) : option (round_result * nat) :=
  match fuel with
  | O => None
  | S fuel =>
      if negb (active_at k) then Some (RoundLeft, S k)
      else
        let reply := ob_reply (env k) args in
        if negb (active_at (S k)) then Some (RoundReturn, S (S k))
        else match EntryStatus_ reply with
             | ENTRY_MATCH => Some (RoundMatch, S (S k))
             | ENTRY_UNMATCH => Some (RoundUnmatch, S (S k))
             | ENTRY_STALE => Some (RoundStale, S (S k))
             | ENTRY_HOLD | ENTRY_DEFAULT => query_round fuel (S (S k)) args
             end
  end.

Inductive search_result : Type :=
  | SearchDone (prevLogIndex : Z)
  | SearchAgain (prevLogIndex : Z)
  | SearchStale
  | SearchReturn.

Definition query_args (s : Raft Cmd) (m mTerm : Z) : AppendEntriesArgs Cmd :=
  mkAppendEntriesArgs (me s) (term s) (lci (logs s)) ENTRY_T_QUERY None
    (Some (mkSendEntries [] (mkLogInfo m mTerm))).

(** The loop over [l, r]. *)
Fixpoint search_loop (fuel k : nat) (l r prevLogIndex : Z) : option (search_result * nat) :=
  match fuel with
  | O => None
  | S fuel' =>
      if active_at k && (l <=? r) then
        let m := l + Z.quot (r - l) 2 in
        match tryIndexLogTerm m (ob_raft (env k)) with
        | Done (mTerm, true) _ =>
            match query_round fuel (S k) (query_args (ob_raft (env k)) m mTerm) with
            | Some (RoundMatch, k') => search_loop fuel' k' (m + 1) r m
            | Some (RoundUnmatch, k') => search_loop fuel' k' l (m - 1) prevLogIndex
            | Some (RoundStale, k') => Some (SearchStale, k')
            | Some (RoundReturn, k') => Some (SearchReturn, k')
            | Some (RoundLeft, k') => search_loop fuel' k' l r prevLogIndex
            | None => None
            end
        | Done (_, false) _ => Some (SearchAgain prevLogIndex, S k)
        | _ => None
        end
      else Some (SearchDone prevLogIndex, S k)
  end.

Definition lii (lg : Logs Cmd) : Z :=
  match snapshot lg with Some sn => LastIncludeIndex sn | None => 0 end.

(** The outer loop: [prevLogIndex] survives a restart of the search. *)
Fixpoint match_loop (fuel k : nat) (prevLogIndex : Z) : option (search_result * nat) :=
  match fuel with
  | O => None
  | S fuel' =>
      if active_at k then
        let lg := logs (ob_raft (env k)) in
        match search_loop fuel (S k) (lii lg) (lli lg) prevLogIndex with
        | Some (SearchAgain p, k') => match_loop fuel' k' p
        | res => res
        end
      else Some (SearchDone prevLogIndex, S k)
  end.

Inductive match_outcome : Type :=
  | NextIndex (nextIndex : Z)     (* the search is over *)
  | LeaderStale                   (* transRole(followerFromLeader) was called *)
  | LeaderStopped.                (* the leader was stopped meanwhile *)

Definition matchIndex (fuel k : nat) : option match_outcome :=
  match match_loop fuel k (-1) with
  | Some (SearchDone p, k') => Some (if active_at k' then NextIndex (p + 1) else LeaderStopped)
  | Some (SearchStale, _) => Some LeaderStale
  | Some (SearchReturn, _) => Some LeaderStopped
  | _ => None
  end.
End search.

(** * start: one round of replication *)

Inductive turn_result : Type :=
  | TurnNext (nextIndex : Z) (ev : option (Event Cmd))  (* the round is over *)
  | TurnRematch                                         (* matchIndex again *)
  | TurnAgain                                           (* the same request again *)
  | TurnStop (ev : Event Cmd).                          (* the leader is stale *)

Definition replicate_args (s : Raft Cmd) (r : option Snapshot * option (SendEntries Cmd))
    : AppendEntriesArgs Cmd :=
  mkAppendEntriesArgs (me s) (term s) (lci (logs s)) ENTRY_T_LOG (fst r) (snd r).

(** What a round does with the reply to what [entriesAfter] gave it. *)
Definition on_append_reply (peerId nextIndex : Z) (r : option Snapshot * option (SendEntries Cmd))
    (reply : AppendEntriesReply) : M (Raft Cmd) turn_result :=
  match EntryStatus_ reply with
  | ENTRY_STALE => mret (TurnStop (StaleLeaderEvent (aer_Term reply)))
  | ENTRY_UNMATCH => mret TurnRematch
  | ENTRY_HOLD | ENTRY_DEFAULT => mret TurnAgain
  | ENTRY_MATCH =>
      match r with
      | (Some sn, _) => mret (TurnNext (LastIncludeIndex sn + 1) None)
      | (None, Some se) =>
          if (0 <? length (Entries se))%nat
          then mret (TurnNext (nextIndex + lenZ (Entries se))
                 (Some (ReplConfirmEvent peerId nextIndex (nextIndex + lenZ (Entries se)))))
          else mret (TurnNext nextIndex None)
      | (None, None) => throw NilDereference
      end
  end.

(** A round whose call is answered by [call]. *)
Definition replicate_turn (peerId nextIndex : Z) (call : AppendEntriesArgs Cmd -> AppendEntriesReply)
    : M (Raft Cmd) turn_result :=
  assert (nextIndex >=? 0);;
  r ← entriesAfter nextIndex;
  s ← gets (fun s => s);
  on_append_reply peerId nextIndex r (call (replicate_args s r)).
End replicator.

(** * The search finds an index where agreement ends *)

Section search_spec.
Context {Cmd : Type} `{!Gob Cmd}.
Context (env : nat -> Obs (Cmd := Cmd)) (s : Raft Cmd) (full : list (LogEntry Cmd)).
Context (status : Z -> EntryStatus).

(** The leader stays active with the log [full] while the search runs, and the
    peer answers a query at index [m] with [status m]. *)
Context (Hactive : forall k, ob_active (env k) = true).
Context (Hleader : forall k, ob_raft (env k) = s).
Context (Hrep : logs_rep full (logs s)) (Hfree : rw (logs s) <> WLocked).
Context (Hstatus : forall k m, lii (logs s) <= m <= lli (logs s) ->
  EntryStatus_ (ob_reply (env k) (query_args s m (term_at full m))) = status m).
Context (Hdefinite : forall m, lii (logs s) <= m <= lli (logs s) ->
  status m = ENTRY_MATCH \/ status m = ENTRY_UNMATCH).

(** [p] is matched, or nothing was, and the index after it is not. *)
Definition search_end (p : Z) : Prop :=
  (p = -1 /\ (lli (logs s) < lii (logs s) \/ status (lii (logs s)) = ENTRY_UNMATCH)) \/
  (lii (logs s) <= p <= lli (logs s) /\ status p = ENTRY_MATCH /\
   (p = lli (logs s) \/ status (p + 1) = ENTRY_UNMATCH)).

Lemma active_now k : active_at env k = true.
Proof. apply Hactive. Qed.

Lemma lii_bounds :
  0 <= lii (logs s) /\ offset (logs s) - 1 <= lii (logs s) /\ lii (logs s) <= lli (logs s) + 1.
Proof.
  pose proof (rep_lli _ _ Hrep) as Hlast. unfold lii. destruct (snapshot (logs s)) as [sn|] eqn:E.
  - destruct (rep_lii _ _ _ Hrep E) as (? & ? & _). lia.
  - pose proof (rep_snapshot _ _ Hrep) as H. rewrite E in H. lia.
Qed.

Lemma query_definite fuel k m :
  lii (logs s) <= m <= lli (logs s) ->
  query_round env (S fuel) k (query_args s m (term_at full m))
  = Some (if bool_decide (status m = ENTRY_MATCH) then RoundMatch else RoundUnmatch, S (S k)).
Proof.
  intros Hm. cbn [query_round]. rewrite !active_now. simpl. rewrite Hstatus by done.
  by destruct (Hdefinite m Hm) as [-> | ->].
Qed.

Lemma search_loop_end fuel k l r prev :
  lii (logs s) <= l -> r <= lli (logs s) -> l <= r + 1 -> r - l + 2 <= Z.of_nat fuel ->
  (prev = -1 /\ l = lii (logs s) \/
   prev = l - 1 /\ lii (logs s) <= prev /\ status prev = ENTRY_MATCH) ->
  (r = lli (logs s) \/ status (r + 1) = ENTRY_UNMATCH) ->
  exists p k', search_loop env fuel k l r prev = Some (SearchDone p, k') /\ search_end p.
Proof.
  revert k l r prev. induction fuel as [|fuel IH]; intros k l r prev Hl Hr Hlr Hfuel Hprev Hnext; [lia|].
  cbn [search_loop]. rewrite active_now. cbn [andb]. destruct (l <=? r) eqn:E.
  - assert (0 <= Z.quot (r - l) 2 <= r - l) as Hm.
    { rewrite Z.quot_div_nonneg by lia. pose proof (Z.div_pos (r - l) 2). 
      pose proof (Z.div_le_upper_bound (r - l) 2 (r - l)). lia. }
    set (m := l + Z.quot (r - l) 2) in *. rewrite Hleader.
    destruct lii_bounds as (Hb1 & Hb2 & _). pose proof (rep_lli _ _ Hrep).
    rewrite (tryIndexLogTerm_rep full) by done. rewrite bool_decide_true by lia.
    rewrite query_definite by lia. case_bool_decide as Es.
    + apply IH; try lia; [|done]. right. replace (m + 1 - 1) with m by lia. repeat split; [lia|done].
    + apply IH; try lia; try done. right. destruct (Hdefinite m) as [?|?]; [lia|done|].
      by replace (m - 1 + 1) with m by lia.
  - eexists _, _. split; [reflexivity|]. assert (l = r + 1) as -> by lia.
    destruct Hprev as [[-> Hp]|(-> & Hp & Hs)].
    + left. split; [done|]. destruct Hnext as [->|Hn]; [left; lia|right; by rewrite <- Hp].
    + right. replace (r + 1 - 1) with r in * by lia. repeat split; [lia..|done|done].
Qed.

Lemma matchIndex_end fuel k :
  lli (logs s) - lii (logs s) + 2 <= Z.of_nat fuel -> (0 < fuel)%nat ->
  exists p, matchIndex env fuel k = Some (NextIndex (p + 1)) /\ search_end p.
Proof.
  intros Hfuel Hpos. destruct lii_bounds as (_ & _ & Hle). destruct fuel as [|fuel]; [lia|].
  unfold matchIndex. cbn [match_loop]. rewrite active_now, Hleader.
  destruct (search_loop_end (S fuel) (S k) (lii (logs s)) (lli (logs s)) (-1)) as (p & k' & E & He);
    [lia..|by left|by left|].
  exists p. rewrite E, active_now. done.
Qed.
End search_spec.

(** * Leader and follower *)

Section agreement.
Context {Cmd : Type} `{!Gob Cmd, !GobRegistered Cmd}.
Implicit Types L F : list (LogEntry Cmd).

(** The first [n] entries are the same. *)
Definition agree (n : Z) L F : Prop := take (Z.to_nat n) F = take (Z.to_nat n) L.

(** Raft's log matching: the same term at an index means the same log up to it. *)
Definition log_matching L F : Prop :=
  forall i, 0 <= i < lenZ L -> i < lenZ F -> term_at L i = term_at F i -> agree (i + 1) L F.

Lemma agree_mono m n L F : m <= n -> agree n L F -> agree m L F.
Proof.
  unfold agree. intros Hmn E. apply (f_equal (take (Z.to_nat m))) in E.
  rewrite !take_take in E. by rewrite Nat.min_l in E by lia.
Qed.

Lemma agree_term n L F i : agree n L F -> 0 <= i < n -> term_at F i = term_at L i.
Proof.
  intros E Hi. unfold term_at, nthZ. rewrite !decide_True by lia.
  rewrite <- (lookup_take_lt F (Z.to_nat n)) by lia.
  rewrite <- (lookup_take_lt L (Z.to_nat n)) by lia. by rewrite E.
Qed.

(** The answer to a query tells whether the logs agree up to its index. *)
Lemma query_agree c L F m :
  0 <= m < lenZ L -> log_matching L F -> c < lenZ F -> agree (c + 1) L F ->
  match snd (append_spec c F (mkLogInfo m (term_at L m)) []) with
  | ENTRY_MATCH => m < lenZ F /\ agree (m + 1) L F
  | ENTRY_UNMATCH => ~ (m < lenZ F /\ agree (m + 1) L F)
  | _ => False
  end.
Proof.
  intros Hm Hlm Hc Hagree. unfold append_spec. simpl.
  destruct (m <? c) eqn:E1; simpl; [split; [lia|eapply agree_mono; [|exact Hagree]; lia]|].
  destruct (lenZ F - 1 <? m) eqn:E2; simpl; [lia|].
  destruct (m <? 0) eqn:E3; [lia|]. simpl.
  destruct (term_at F m =? term_at L m) eqn:E4; simpl.
  - split; [lia|]. apply Hlm; lia.
  - intros [_ H]. apply Z.eqb_neq in E4. apply E4. eapply agree_term; [exact H|lia].
Qed.

Lemma agree_drop n L F : agree n L F -> take (Z.to_nat n) F ++ drop (Z.to_nat n) L = L.
Proof. intros ->. apply take_drop. Qed.

(** Sending everything from an index on which the logs agree makes the follower's
    log the leader's. *)
Lemma send_suffix c L F n :
  agree n L F -> 0 <= n <= lenZ L -> n <= lenZ F -> c <= n - 1 ->
  append_spec c F (mkLogInfo (n - 1) (term_at L (n - 1))) (drop (Z.to_nat n) L)
  = (if n =? lenZ L then F else L, ENTRY_MATCH).
Proof.
  intros Ha Hn HF Hc. unfold append_spec. simpl.
  rewrite (proj2 (Z.ltb_ge (n - 1) c)) by lia. rewrite (proj2 (Z.ltb_ge (lenZ F - 1) (n - 1))) by lia.
  assert ((n - 1 <? 0) || (term_at F (n - 1) =? term_at L (n - 1)) = true) as ->.
  { apply orb_true_iff. destruct (n - 1 <? 0) eqn:E; [by left|right].
    apply Z.eqb_eq. eapply agree_term; [exact Ha|lia]. }
  replace (n - 1 + 1) with n by lia. rewrite agree_drop by done. rewrite length_drop.
  f_equal. destruct (n =? lenZ L) eqn:E.
  - by replace (length L - Z.to_nat n =? 0)%nat with true by (symmetry; apply Nat.eqb_eq; lia).
  - by replace (length L - Z.to_nat n =? 0)%nat with false by (symmetry; apply Nat.eqb_neq; lia).
Qed.

(** One round of replication from [n]. *)
Lemma round_copies id n (sl sf : Raft Cmd) L F :
  logs_rep L (logs sl) -> rw (logs sl) = Unlocked -> logs_rep F (logs sf) -> unlocked sf ->
  agree n L F -> offset (logs sl) <= n <= lenZ L -> n <= lenZ F -> lci (logs sf) <= n - 1 ->
  lenZ F + lenZ L < 2^31 ->
  let r := (None, Some (mkSendEntries (drop (Z.to_nat n) L) (mkLogInfo (n - 1) (term_at L (n - 1))))) in
  (exists sf', followerAppendEntries (ae_SendEntries (replicate_args sl r)) sf = Done ENTRY_MATCH sf' /\
     logs_rep (if n =? lenZ L then F else L) (logs sf')) /\
  forall call, EntryStatus_ (call (replicate_args sl r)) = ENTRY_MATCH ->
    replicate_turn id n call sl
    = Done (TurnNext (lenZ L)
        (if n =? lenZ L then None else Some (ReplConfirmEvent id n (lenZ L)))) sl.
Proof.
  intros HL HlL HF Hu Ha Hn HnF Hc Hlen r. pose proof (rep_offset _ _ HL) as Ho.
  pose proof (send_suffix (lci (logs sf)) L F n Ha ltac:(lia) HnF Hc) as Hs. split.
  - destruct (followerAppendEntries_rep F sf (mkLogInfo (n - 1) (term_at L (n - 1)))
      (drop (Z.to_nat n) L) HF Hu) as (sf' & E & _ & Hrep & _); [rewrite length_drop; lia|].
    exists sf'. rewrite Hs in E, Hrep. done.
  - intros call Hcall. unfold replicate_turn. rewrite Z.geb_leb.
    rewrite (proj2 (Z.leb_le 0 n)) by lia. rewrite bind_assert.
    erewrite bind_done; [|apply (entriesAfter_rep L); [done|done|lia]].
    rewrite (proj2 (Z.ltb_ge _ _)) by lia. rewrite bind_gets. fold r.
    unfold on_append_reply. rewrite Hcall. subst r. cbn [Entries]. rewrite length_drop.
    destruct (n =? lenZ L) eqn:E.
    + replace (0 <? _)%nat with false by (symmetry; apply Nat.ltb_ge; lia).
      by apply Z.eqb_eq in E as ->.
    + replace (0 <? _)%nat with true by (symmetry; apply Nat.ltb_lt; lia).
      by replace (n + Z.of_nat (length L - Z.to_nat n)) with (lenZ L) by lia.
Qed.
End agreement.
