(* ===== verification/Cluster.v ===== *)
(** Several peers and the vote requests between them, executable on a schedule.

    A cluster holds the peers and the RequestVote calls made so far.  The goroutine
    that asks a peer for its vote makes a call after another until one is answered; a call
    may reach the peer at any time after startElection started the goroutine, it may
    return its answer at any later time, or return without it, or never, and a timer that is
    armed may fire at any time. *)

From S2P Require Import Prelude BitVec RaftTypes Persist Logs ReplCounter Roles Votes Election.

Section cluster.
Context {Cmd : Type} `{!Gob Cmd}.

(** A call: under way, returned without an answer to the request, or with one. *)
Inductive call_state : Type := Waiting | Failed | Taken (reply : RequestVoteReply).

Record vote_call := mkVoteCall {
  vc_caller : nat; vc_callee : nat; vc_args : RequestVoteArgs; vc_state : call_state }.
Definition set_vc_state st c : vote_call := mkVoteCall (vc_caller c) (vc_callee c) (vc_args c) st.

Record Cluster := mkCluster {
  nodes : list (Raft Cmd);
  calls : list vote_call }.

Inductive action : Type :=
  | Turn (i : nat)
  | Fire (i : nat)
  | Ask (i k : nat)
  | Answer (c : nat)
  | Lose (c : nat).

(** The timer of the current role fires. *)
Definition fire : M (Raft Cmd) bool :=
  r ← gets role;
  match data r with
  | Follower (mkTimer (Some true) n) =>
      set_data (Follower (mkTimer (Some false) n));; tryPutEv HeartBeatTimeoutEvent true
  | Candidate v vs (mkTimer (Some true) n) =>
      set_data (Candidate v vs (mkTimer (Some false) n));; tryPutEv ElectionTimeoutEvent true
  | _ => mret false
  end.

Definition at_node {A} (i : nat) (m : M (Raft Cmd) A) (c : Cluster) : option Cluster :=
  s ← nodes c !! i;
  match m s with
  | Done _ s' => Some (mkCluster (<[i := s']> (nodes c)) (calls c))
  | _ => None
  end.

(** A candidate object lives as long as its election, and until it is stopped
    the term of the peer is the election's. *)
Definition is_current (args : RequestVoteArgs) (s : Raft Cmd) : bool :=
  bool_decide (role_enum (role s) = CANDIDATE) && (term s =? rv_Term args).

Fixpoint find_vote (ch : nat) (out : list Output) : option RequestVoteReply :=
  match out with
  | [] => None
  | OutVote ch' r ok :: out =>
      if decide (ch' = ch)
      then Some (mkRequestVoteReply (rvr_Term r) (VoterID r) (VoteStatus_ r) ok)
      else find_vote ch out
  | _ :: out => find_vote ch out
  end.

(** The calls of the goroutine that asks [j] for the vote of an election of [i]; it makes another one when all of
    them came back without an answer. *)
Definition of_goroutine (i j : nat) (t : Z) (c : vote_call) : bool :=
  bool_decide (vc_caller c = i) && bool_decide (vc_callee c = j) && (rv_Term (vc_args c) =? t).
Definition may_call (i j : nat) (t : Z) (cs : list vote_call) : bool :=
  forallb (fun c => negb (of_goroutine i j t c) || match vc_state c with Failed => true | _ => false end) cs.

Definition act (a : action) (c : Cluster) : option Cluster :=
  match a with
  | Turn i => at_node i processor_turn c
  | Fire i => at_node i fire c
  | Ask i k =>
      s ← nodes c !! i;
      match outbox s !! k with
      | Some (CallRequestVote j args) =>
          if may_call i (Z.to_nat j) (rv_Term args) (calls c) then
            c' ← at_node (Z.to_nat j) (RequestVote args emptyVoteReply (length (calls c))) c;
            Some (mkCluster (nodes c') (calls c' ++ [mkVoteCall i (Z.to_nat j) args Waiting]))
          else None
      | _ => None
      end
  | Answer k =>
      x ← calls c !! k;
      match vc_state x with
      | Waiting =>
          caller ← nodes c !! vc_caller x;
          callee ← nodes c !! vc_callee x;
          reply ← find_vote k (outbox callee);
          let st := if rvr_Responsed reply then Taken reply else Failed in
          c' ← at_node (vc_caller x) (on_vote_reply (rv_Term (vc_args x)) true reply (is_current (vc_args x) caller)) c;
          Some (mkCluster (nodes c') (<[k := set_vc_state st x]> (calls c')))
      | _ => None
      end
  | Lose k =>
      x ← calls c !! k;
      match vc_state x with
      | Waiting => Some (mkCluster (nodes c) (<[k := set_vc_state Failed x]> (calls c)))
      | _ => None
      end
  end.

Fixpoint run (l : list action) (c : Cluster) : option Cluster :=
  match l with
  | [] => Some c
  | a :: l => c' ← act a c; run l c'
  end.

(** [n] peers with empty stores. *)
Definition fresh_node (n : nat) (i : nat) : option (Raft Cmd) :=
  match Make (Z.of_nat n) (Z.of_nat i) MakePersister tt with
  | Done s _ => Some s
  | _ => None
  end.
Definition fresh_cluster (n : nat) : option Cluster :=
  ns ← mapM (fresh_node n) (seq 0 n); Some (mkCluster ns []).

(** The term in which node [i] is an active leader. *)
Definition leads (c : Cluster) (i : nat) : option Z :=
  s ← nodes c !! i;
  if active (role s) && bool_decide (role_enum (role s) = LEADER) then Some (term s) else None.
End cluster.
Arguments Cluster : clear implicits.

(** Node 2 asks for votes in term 1 and node 1 grants; the answer is lost, both
    time out into term 2, and node 1, a candidate itself, still has its vote of
    term 1 for node 2. *)
Definition two_candidates : list action :=
  [Turn 0; Turn 1; Turn 2;
   Fire 2; Turn 2; Turn 2; Ask 2 1; Turn 1;
   Fire 2; Turn 2; Turn 2; Fire 2; Turn 2; Turn 2;
   Fire 1; Turn 1; Turn 1;
   Ask 2 3; Turn 1; Answer 1; Turn 2; Turn 2;
   Ask 1 1; Turn 0; Answer 2; Turn 1; Turn 1].

Definition two_leaders_run : option (option Z * option Z) :=
  c ← (c0 ← fresh_cluster (Cmd := Z) 3; run two_candidates c0); Some (leads c 1, leads c 2).
