(* ===== verification/RaftLogTheorems.v ===== *)
(** The theorems on one peer's log (raft/log.go, persist.go, bitvec.go and the
    ReplCounter of repl.go), each with an instance at a concrete state. *)

From S2P Require Import Prelude BitVec RaftTypes Persist Logs LogsSpec Snapshots Applied ReplCounter.

(** * A concrete peer for the instances *)

Definition demo_full : list (LogEntry Z) :=
  [mkEntry (-1) 1 None; mkEntry 1 1 (Some 10); mkEntry 2 1 (Some 20)].

Definition demo_logs : Logs Z := mkLogs demo_full 0 2 0 1 0 [] None Unlocked.

Definition demo_peer (lg : Logs Z) : Raft Z :=
  mkRaft 3 MakePersister 0 false 2 1 (-1) (mkRole true (Follower (mkTimer None 0))) lg []
    Unlocked Unlocked [].

Lemma demo_rep : logs_rep demo_full demo_logs.
Proof. constructor; vm_compute; intuition discriminate. Qed.

Lemma demo_unlocked lg : rw lg = Unlocked -> unlocked (demo_peer lg).
Proof. by split. Qed.

Lemma demo_numbered : numbered demo_full.
Proof.
  intros i et. unfold nthZ. case_decide; [|done].
  replace i with (Z.of_nat (Z.to_nat i)) by lia. rewrite Nat2Z.id. generalize (Z.to_nat i). clear.
  intros [|[|[|n]]]; simpl; [..|done]; intros [= <-]; done.
Qed.

Definition fresh_logs : Logs Z := mkLogs [] (-1) (-1) (-1) 0 0 [] None Unlocked.

Section theorems.
Context {Cmd : Type} `{!Gob Cmd, !GobRegistered Cmd}.
Implicit Types full ets : list (LogEntry Cmd).
Implicit Types s : Raft Cmd.




(** leaderAppendEntry appends one entry at the next log index, gives a
    command the next command number (noops are not counted), so that the
    commands of the log stay numbered 1, 2, 3, ..., returns both indices and
    saves the new state before it returns. *)
Theorem leader_append_numbers full s et :
  logs_rep full (logs s) -> numbered full -> unlocked s -> lenZ full + 1 < 2^31 ->
  exists s', leaderAppendEntry et s = Done (lenZ full, CommandIndex (stamped full et)) s' /\
    logs_rep (full ++ [stamped full et]) (logs s') /\ numbered (full ++ [stamped full et]) /\
    (is_noop et = false -> CommandIndex (stamped full et) = next_command full) /\ saved s'.
Proof.
  intros Hf Hn Hu Hl. destruct (leaderAppendEntry_rep full s et Hf Hu Hl) as (s' & E & _ & Hs & Hr & _).
  exists s'. split; [done|]. split; [done|]. split; [by apply numbered_stamped|]. split; [|done].
  intros Hc. unfold stamped. by rewrite Hc.
Qed.

(** updateCommit moves the commit index to the leader's, but not past the
    end of the log and never back, and queues exactly the newly committed
    entries for the applier. *)
Theorem commit_advances full s lc :
  logs_rep full (logs s) -> unlocked s -> (length (applier (logs s)) < APPLIER_CAP)%nat ->
  exists s', updateCommit lc s = Done tt s' /\ logs_rep full (logs s') /\
    lci (logs s') = commit_spec full (lci (logs s)) lc /\
    applier (logs s') = applier (logs s) ++
      (if lci (logs s) <? lci (logs s')
       then [ApplyLogEntry (segment full (lci (logs s) + 1) (lci (logs s') + 1)) (lci (logs s'))]
       else []).
Proof.
  intros Hf Hu Ha. destruct (updateCommit_rep full s lc Hf Hu Ha) as (s' & E & _ & Hr & _ & _ & _ & Hc & Hq).
  by exists s'.
Qed.

(** C19: What a peer saved is what it comes back with: newLogs on the persisted
    state and snapshot rebuilds a log with the same abstract content, the same
    commit and applied indices and the same snapshot. *)
Theorem recovery_restores full s :
  logs_rep full (logs s) -> saved s -> -1 <= lai (logs s) ->
  (snapshot (logs s) <> None -> snapshot_data s <> []) ->
  snapshot_bytes (persister s) = snapshot_data s ->
  exists st lg, gob_decode (ReadRaftState (persister s)) = DecOk st /\
    p_Term st = term s /\ p_VoteFor st = voteFor s /\
    newLogs (Some (p_Logs st)) (ReadSnapshot (persister s)) tt = Done lg tt /\
    logs_rep full lg /\ lci lg = lci (logs s) /\ lai lg = lai (logs s) /\
    snapshot lg = snapshot (logs s) /\ rw lg = Unlocked.
Proof.
  intros Hf Hs Ha Hd Hb. exists (persistent_state s).
  exists (set_rw Unlocked (set_applier (resume_queue full (logs s)) (logs s))).
  split; [unfold ReadRaftState; rewrite clone_id; by apply gob_roundtrip|]. split; [done|]. split; [done|].
  assert (ReadSnapshot (persister s) = snapshot_data s) as -> by (unfold ReadSnapshot; by rewrite clone_id, Hb).
  split; [apply (newLogs_run tt full s Hf Ha Hd)|]. split; [|done].
  by destruct Hf; constructor.
Qed.

(** The order in which candidates' logs are compared for a vote is total:
    of two logs at least one is at least as up-to-date as the other, and two
    logs that are so both ways end in the same index and term; and it is
    transitive.  atLeastUpToDate computes it from the last entry, also when
    that entry is only in the snapshot. *)
Theorem up_to_date_order full s a b c :
  logs_rep full (logs s) -> rw (logs s) <> WLocked ->
  atLeastUpToDate a s = Done (up_to_date (last_info full) a) s /\
  (up_to_date a b || up_to_date b a = true) /\
  (up_to_date a b = true -> up_to_date b a = true -> a = b) /\
  (up_to_date a b = true -> up_to_date b c = true -> up_to_date a c = true).
Proof.
  intros Hf Hw. split; [by apply atLeastUpToDate_rep|].
  destruct a as [ia ta], b as [ib tb], c as [ic tc]. unfold up_to_date. simpl.
  repeat split; repeat case_bool; try lia. intros. f_equal; lia.
Qed.

(** C21: confirm records the peer on the indices it confirmed, and commits up to
    an index only when a majority of the peers, the leader included, confirmed
    every watched entry up to it; what stays watched is what follows. *)
Theorem confirm_majority full s n self p a b rc e0 rest :
  rc = e0 :: rest -> counter_ok n self rc -> 0 <= p < n -> b <= index e0 + lenZ rc ->
  logs_rep full (logs s) -> unlocked s -> (length (applier (logs s)) < APPLIER_CAP)%nat ->
  exists rc1 i s', confirmed p a b rc rc1 /\ (i <= length rc1)%nat /\
    confirm rc p a b s = Done (drop i rc1) s' /\ counter_ok n self (drop i rc1) /\
    (forall k e, (k < i)%nat -> rc1 !! k = Some e -> majorN s <= count (bitVec e)) /\
    (forall e, rc1 !! i = Some e -> count (bitVec e) < majorN s) /\
    lci (logs s') = match rc1 !! pred i with
                    | Some e => if (0 <? i)%nat then commit_spec full (lci (logs s)) (index e)
                                else lci (logs s)
                    | None => lci (logs s)
                    end.
Proof.
  intros Hrc Hok Hp Hb Hf Hu Ha.
  destruct (confirm_run s n self p a b rc e0 rest Hrc Hok Hp Hb) as (rc1 & Hc & Hok1 & E).
  destruct (majority_prefix_spec (majorN s) rc1) as (H1 & H2 & H3).
  set (i := majority_prefix (majorN s) rc1) in *. simpl in E.
  exists rc1, i. destruct (0 <? i)%nat eqn:Ei.
  - apply Nat.ltb_lt in Ei. destruct (lookup_lt_is_Some_2 rc1 (pred i)) as [e He]; [lia|].
    destruct (updateCommit_rep full s (index e) Hf Hu Ha) as (s' & Es & _ & _ & _ & _ & _ & Hl & _).
    exists s'. rewrite He in E |- *. rewrite E, (bind_done _ _ _ _ _ Es).
    do 3 (split; [done|]). split; [by apply counter_ok_drop|]. done.
  - apply Nat.ltb_ge in Ei. assert (i = 0%nat) as Hi by lia. rewrite Hi in *.
    exists s. rewrite drop_0. rewrite E. destruct (rc1 !! pred 0); done.
Qed.

(** The bit vector is a finite set of positions: Set adds a position and
    tells whether it was new, Unset removes one and tells whether it was there,
    At tests membership, Count is the cardinality; a position past the end
    panics and changes nothing. *)
Theorem bitvec_is_set bv i :
  bitvec_ok bv -> 0 <= i < room bv ->
  (exists bv', Set_ i bv = Done (negb (member bv i)) bv' /\ inserted bv i bv') /\
  (exists bv', Unset i bv = Done (member bv i) bv' /\ removed bv i bv') /\
  At i bv = Done (member bv i) bv /\
  Count bv = Done (count_if (member bv) (seqZ 0 (room bv))) bv /\
  (forall j, room bv <= j -> Set_ j bv = Panicked IndexOutOfRange bv).
Proof.
  intros Hok Hi. split; [by apply Set_inserted|]. split; [by apply Unset_removed|].
  split; [by apply At_member|]. split; [by unfold Count, gets; rewrite (count_ok _ Hok)|].
  intros j. apply Set_out_of_range.
Qed.


(** C39: takeSnapshot never returns: it finds the command's log index, compacts the
    log in memory (the abstract log is the same) and then waits for ever, in
    persist, for the read lock of the logs whose write lock it holds itself;
    the save lock stays taken and nothing was saved. *)
Theorem takeSnapshot_deadlocks full s i et snap :
  logs_rep full (logs s) -> numbered full -> unlocked s ->
  offset (logs s) <= i <= lci (logs s) -> nthZ full i = Some et -> is_noop et = false ->
  exists s', takeSnapshot (CommandIndex et) snap s = Blocked s' /\
    logs_rep full (logs s') /\ offset (logs s') = i + 1 /\
    rw (logs s') = WLocked /\ saveLock s' = WLocked /\ persister s' = persister s.
Proof.
  intros Hf Hn Hu Hi He Hc. eexists. split; [apply (takeSnapshot_run full s i et snap); try done; lia|].
  simpl. split; [apply compacted_rep; try done; lia|]. done.
Qed.

(** followerInstallSnapshot never returns either, for the same reason; and
    it takes over any snapshot, so the commit index becomes the snapshot's last
    index even when the follower had committed more. *)
Lemma installSnapshot_deadlocks s sn :
  unlocked s -> (length (applier (logs s)) < APPLIER_CAP)%nat -> is_int32 (LastIncludeIndex sn) ->
  exists s', followerInstallSnapshot sn s = Blocked s' /\
    lci (logs s') = LastIncludeIndex sn /\ entries (logs s') = [] /\
    rw (logs s') = WLocked /\ saveLock s' = WLocked /\ persister s' = persister s.
Proof.
  intros Hu Ha Hi. eexists. split; [by apply followerInstallSnapshot_run|].
  simpl. by rewrite to_int32_small.
Qed.

(** A peer that comes back with a snapshot it had not delivered queues the
    snapshot alone: the committed entries after the snapshot are not queued,
    although the commit index is past them. *)
Theorem recovery_skips_entries full s sn :
  logs_rep full (logs s) -> -1 <= lai (logs s) -> snapshot (logs s) = Some sn ->
  sn_Snapshot sn <> [] -> lai (logs s) < LastIncludeIndex sn < lci (logs s) ->
  exists lg, newLogs (Some (p_Logs (persistent_state s))) (snapshot_data s) tt = Done lg tt /\
    lci lg = lci (logs s) /\ applier lg = [ApplySnapshotEntry sn] /\
    segment full (LastIncludeIndex sn + 1) (lci lg + 1) <> [].
Proof.
  intros Hf Ha Hs Hd Hl.
  eexists. split; [apply (newLogs_run tt full s Hf Ha)|].
  { unfold snapshot_data. by rewrite Hs. }
  unfold resume_queue. simpl. rewrite Hs. rewrite (proj2 (Z.ltb_lt _ _)) by lia.
  split; [done|]. split; [done|]. intros E%(f_equal length). unfold segment in E.
  rewrite length_take, length_drop in E. simpl in E.
  pose proof (rep_lci _ _ Hf). pose proof (rep_lli _ _ Hf). lia.
Qed.

(** A delayed duplicate of an AppendEntries request takes confirmed entries
    away: after a request with [ets1 ++ ets2] was accepted, the earlier request
    with [ets1] alone is accepted again and cuts the log back to [ets1]. *)
Theorem stale_append_truncates full s prev ets1 ets2 :
  logs_rep full (logs s) -> unlocked s -> ets1 <> [] ->
  lenZ full + 2 * lenZ ets1 + lenZ ets2 < 2^31 ->
  0 <= li_Index prev -> lci (logs s) <= li_Index prev < lenZ full ->
  term_at full (li_Index prev) = li_Term prev ->
  let kept := take (Z.to_nat (li_Index prev + 1)) full in
  exists s1 s2,
    followerAppendEntries (Some (mkSendEntries (ets1 ++ ets2) prev)) s = Done ENTRY_MATCH s1 /\
    logs_rep (kept ++ ets1 ++ ets2) (logs s1) /\
    followerAppendEntries (Some (mkSendEntries ets1 prev)) s1 = Done ENTRY_MATCH s2 /\
    logs_rep (kept ++ ets1) (logs s2).
Proof.
  intros Hf Hu Hne Hlen H0 Hi Ht kept.
  assert (forall ets c F, ets <> [] -> c <= li_Index prev -> li_Index prev < lenZ F ->
    term_at F (li_Index prev) = li_Term prev ->
    append_spec c F prev ets = (take (Z.to_nat (li_Index prev + 1)) F ++ ets, ENTRY_MATCH)) as Hspec.
  { intros ets c F He Hc HF HT. unfold append_spec. rewrite !(proj2 (Z.ltb_ge _ _)) by lia.
    rewrite HT, Z.eqb_refl. destruct ets; done. }
  assert (ets1 ++ ets2 <> []) as Hne2 by (by destruct ets1).
  destruct (followerAppendEntries_rep full s prev (ets1 ++ ets2) Hf Hu) as (s1 & E1 & W1 & R1 & P1); [len|].
  rewrite Hspec in E1, R1 by (done || lia).
  pose proof P1 as (Hrw & Hlci & _). cbn [fst snd] in E1, R1.
  assert (length kept = Z.to_nat (li_Index prev + 1)) as Hk by (unfold kept; rewrite length_take; lia).
  assert (unlocked s1) as Hu1 by (by eapply (unlocked_with_logs s)).
  destruct (followerAppendEntries_rep _ s1 prev ets1 R1 Hu1) as (s2 & E2 & _ & R2 & _).
  { rewrite !length_app, length_take. lia. }
  fold kept in R1, E2, R2.
  assert (take (Z.to_nat (li_Index prev + 1)) (kept ++ ets1 ++ ets2) = kept) as Htake.
  { rewrite <- Hk. by rewrite take_app_length. }
  assert (term_at (kept ++ ets1 ++ ets2) (li_Index prev) = li_Term prev) as Ht2.
  { rewrite <- Ht. unfold term_at, nthZ. rewrite !decide_True by lia.
    rewrite lookup_app_l by lia. unfold kept. by rewrite lookup_take_lt by lia. }
  assert (li_Index prev < lenZ (kept ++ ets1 ++ ets2)) as Hlen2 by (rewrite length_app, Hk; lia).
  rewrite Hspec, Htake in E2, R2 by (done || lia). by exists s1, s2.
Qed.
End theorems.

(** * Instances *)

Definition state_of {S A} (o : outcome S A) : S :=
  match o with Done _ s | Panicked _ s | Blocked s => s end.

(** A command is appended, committed and delivered. *)
Definition demo0 : Raft Z := demo_peer fresh_logs.
Definition demo_command : LogEntry Z := mkEntry 0 1 (Some 7).
Definition demo1 : Raft Z := state_of (leaderAppendEntry demo_command demo0).
Definition demo2 : Raft Z := state_of (updateCommit 0 demo1).
Definition demo3 : Raft Z := state_of (applier_turn (fun _ => true) demo2).
Definition demo_delivered : list (ApplyMsg Z) := [command_msg (mkEntry 1 1 (Some 7))].

Lemma demo_run : rtc log_step (LW demo0 [] true) (LW demo3 demo_delivered true).
Proof.
  eapply rtc_l; [apply (step_leader demo_command (0, 1) demo0 demo1); vm_compute; reflexivity|].
  eapply rtc_l; [apply (step_commit 0 demo1 demo2); vm_compute; reflexivity|].
  eapply rtc_l; [|apply rtc_refl].
  apply (step_apply (fun _ => true) demo_delivered true demo2 demo3 []). vm_compute. reflexivity.
Qed.




Lemma leader_append_numbers_witness :
  exists s', leaderAppendEntry (mkEntry 0 1 (Some 30)) (demo_peer demo_logs) = Done (3, 3) s' /\
    logs_rep (demo_full ++ [mkEntry 3 1 (Some 30)]) (logs s') /\
    numbered (demo_full ++ [mkEntry 3 1 (Some 30)]) /\ (false = false -> 3 = 3) /\ saved s'.
Proof.
  apply (leader_append_numbers demo_full (demo_peer demo_logs) (mkEntry 0 1 (Some 30)));
    [exact demo_rep|exact demo_numbered|by split|done].
Defined.

Lemma commit_advances_witness :
  exists s', updateCommit 5 (demo_peer demo_logs) = Done tt s' /\ logs_rep demo_full (logs s') /\
    lci (logs s') = 2 /\
    applier (logs s') = if 0 <? lci (logs s')
      then [ApplyLogEntry (segment demo_full 1 (lci (logs s') + 1)) (lci (logs s'))] else [].
Proof.
  apply (commit_advances demo_full (demo_peer demo_logs) 5); [exact demo_rep|by split|].
  vm_compute. lia.
Defined.

(** The peer of [demo_logs] after its state was saved. *)
Definition demo_saved : Raft Z := state_of (persistState (demo_peer demo_logs)).

Lemma recovery_restores_witness :
  exists st lg, gob_decode (ReadRaftState (persister demo_saved)) = DecOk st /\
    p_Term st = 1 /\ p_VoteFor st = -1 /\
    newLogs (Some (p_Logs st)) (ReadSnapshot (persister demo_saved)) tt = Done lg tt /\
    logs_rep demo_full lg /\ lci lg = 0 /\ lai lg = 0 /\ snapshot lg = None /\ rw lg = Unlocked.
Proof.
  apply (recovery_restores demo_full demo_saved);
    [exact demo_rep|vm_compute; reflexivity|done|done|vm_compute; reflexivity].
Defined.

Lemma up_to_date_order_witness :
  atLeastUpToDate (mkLogInfo 0 2) (demo_peer demo_logs) = Done true (demo_peer demo_logs) /\
  up_to_date (mkLogInfo 0 2) (mkLogInfo 5 1) || up_to_date (mkLogInfo 5 1) (mkLogInfo 0 2) = true /\
  (up_to_date (mkLogInfo 0 2) (mkLogInfo 5 1) = true ->
   up_to_date (mkLogInfo 5 1) (mkLogInfo 0 2) = true -> mkLogInfo 0 2 = mkLogInfo 5 1) /\
  (up_to_date (mkLogInfo 0 2) (mkLogInfo 5 1) = true ->
   up_to_date (mkLogInfo 5 1) (mkLogInfo 6 1) = true ->
   up_to_date (mkLogInfo 0 2) (mkLogInfo 6 1) = true).
Proof.
  apply (up_to_date_order demo_full (demo_peer demo_logs) (mkLogInfo 0 2) (mkLogInfo 5 1)
    (mkLogInfo 6 1)); [exact demo_rep|done].
Defined.

(** A vector for three peers with only peer 0 set, and the counter that watches
    indices 1 and 2 with it. *)
Definition demo_vec : BitVec := mkBitVec 3 1 [1].
Definition demo_rc : list ReplEntry := [mkReplEntry demo_vec 1; mkReplEntry demo_vec 2].

Lemma demo_vec_ok : bitvec_ok demo_vec.
Proof. split; [|reflexivity]. repeat constructor; lia. Qed.

Lemma demo_counter_ok : counter_ok 3 0 demo_rc.
Proof.
  split.
  - intros [|[|k]] [|[|j]] ek ej; simpl; intros; simplify_eq; simpl; lia.
  - repeat constructor; simpl; try apply demo_vec_ok; vm_compute; congruence.
Qed.

Lemma confirm_majority_witness :
  exists rc1 i s', confirmed 2 1 3 demo_rc rc1 /\ (i <= length rc1)%nat /\
    confirm demo_rc 2 1 3 (demo_peer demo_logs) = Done (drop i rc1) s' /\ counter_ok 3 0 (drop i rc1) /\
    (forall k e, (k < i)%nat -> rc1 !! k = Some e -> 2 <= count (bitVec e)) /\
    (forall e, rc1 !! i = Some e -> count (bitVec e) < 2) /\
    lci (logs s') = match rc1 !! pred i with
                    | Some e => if (0 <? i)%nat then commit_spec demo_full 0 (index e) else 0
                    | None => 0
                    end.
Proof.
  apply (confirm_majority demo_full (demo_peer demo_logs) 3 0 2 1 3 demo_rc
    (mkReplEntry demo_vec 1) [mkReplEntry demo_vec 2]);
    [reflexivity|exact demo_counter_ok|lia|vm_compute; congruence|exact demo_rep|by split|].
  vm_compute. lia.
Defined.

Lemma bitvec_is_set_witness :
  (exists bv', Set_ 5 demo_vec = Done true bv' /\ inserted demo_vec 5 bv') /\
  (exists bv', Unset 5 demo_vec = Done false bv' /\ removed demo_vec 5 bv') /\
  At 5 demo_vec = Done false demo_vec /\ Count demo_vec = Done 1 demo_vec /\
  (forall j, 8 <= j -> Set_ j demo_vec = Panicked IndexOutOfRange demo_vec).
Proof. apply (bitvec_is_set demo_vec 5); [exact demo_vec_ok|vm_compute; intuition congruence]. Defined.


Lemma takeSnapshot_deadlocks_witness :
  exists s', takeSnapshot 1 [42] (demo_peer (set_lci 2 demo_logs)) = Blocked s' /\
    logs_rep demo_full (logs s') /\ offset (logs s') = 2 /\
    rw (logs s') = WLocked /\ saveLock s' = WLocked /\ persister s' = MakePersister.
Proof.
  apply (takeSnapshot_deadlocks demo_full (demo_peer (set_lci 2 demo_logs)) 1 (mkEntry 1 1 (Some 10)) [42]);
    [|exact demo_numbered|by split|vm_compute; intuition congruence|reflexivity..].
  constructor; vm_compute; intuition congruence.
Defined.

(** A follower that has committed index 2 takes over a snapshot that ends at 0. *)
Definition demo_compacted : Logs Z :=
  mkLogs [mkEntry 2 1 (Some 20)] 2 2 0 1 2 [] (Some (mkSnapshot [42] 1 1 1 1)) Unlocked.

Lemma demo_compacted_rep : logs_rep demo_full demo_compacted.
Proof.
  constructor; try (vm_compute; intuition congruence).
  split; [done|]. split; [|reflexivity]. by exists (mkEntry 1 1 (Some 10)).
Qed.

Lemma recovery_skips_entries_witness :
  exists lg, newLogs (Some (p_Logs (persistent_state (demo_peer demo_compacted)))) [42] tt = Done lg tt /\
    lci lg = 2 /\ applier lg = [ApplySnapshotEntry (mkSnapshot [42] 1 1 1 1)] /\
    segment demo_full 2 (lci lg + 1) <> [].
Proof.
  apply (recovery_skips_entries demo_full (demo_peer demo_compacted) (mkSnapshot [42] 1 1 1 1));
    [exact demo_compacted_rep|vm_compute; congruence|reflexivity|done|vm_compute; intuition congruence].
Defined.

Lemma stale_append_truncates_witness :
  exists s1 s2,
    followerAppendEntries (Some (mkSendEntries
      [mkEntry 3 1 (Some 30); mkEntry 4 1 (Some 40)] (mkLogInfo 2 1))) (demo_peer demo_logs)
    = Done ENTRY_MATCH s1 /\
    logs_rep (demo_full ++ [mkEntry 3 1 (Some 30); mkEntry 4 1 (Some 40)]) (logs s1) /\
    followerAppendEntries (Some (mkSendEntries [mkEntry 3 1 (Some 30)] (mkLogInfo 2 1))) s1
    = Done ENTRY_MATCH s2 /\
    logs_rep (demo_full ++ [mkEntry 3 1 (Some 30)]) (logs s2).
Proof.
  apply (stale_append_truncates demo_full (demo_peer demo_logs) (mkLogInfo 2 1)
    [mkEntry 3 1 (Some 30)] [mkEntry 4 1 (Some 40)]);
    [exact demo_rep|by split|done|done|done|vm_compute; intuition congruence|reflexivity].
Defined.
