(* ===== verification/RaftProtocolTheorems.v ===== *)
(** The theorems on roles, votes, elections and replication (raft/raft.go,
    follower.go, candidate.go, leader.go, repl.go), each with an instance at a
    concrete state. *)

From S2P Require Import Prelude BitVec RaftTypes Persist Logs LogsSpec Snapshots ReplCounter Roles.
From S2P Require Import Gate Votes Election Activation Replicator Cluster RaftLogTheorems.

(** * Voting, as a function *)

Section voting.
Context {Cmd : Type} `{!Gob Cmd, !GobRegistered Cmd}.
Implicit Types full : list (LogEntry Cmd).
Implicit Types s : Raft Cmd.

Lemma setTerm_run t s :
  unlocked s -> is_int32 t -> term s < t ->
  let s1 := set_voteFor (-1) (set_term t s) in
  exists ps, setTerm t s = Done tt (set_persister ps s1) /\
    gob_encode (persistent_state s1) = Some (raftstate ps).
Proof.
  intros Hu Ht Hlt s1. unfold setTerm, Term. rewrite bind_gets, Z.gtb_ltb.
  rewrite (proj2 (Z.ltb_lt _ _) Hlt), bind_assert, !bind_modify, to_int32_small by done.
  destruct (persistState_run s1) as (ps & E & Hs & _); [exact Hu|]. by exists ps.
Qed.

(** The vote a follower gives, by cases on the terms. *)
Definition follower_vote full (args : RequestVoteArgs) s : VoteStatus :=
  if rv_Term args <? term s then VOTE_OTHER
  else if rv_Term args =? term s then
    if CandidateID args =? voteFor s then VOTE_GRANTED else VOTE_OTHER
  else if up_to_date (last_info full) (LastLogInfo args) then VOTE_GRANTED else VOTE_OTHER.

Lemma follower_requestVote_run full args s t :
  role s = mkRole true (Follower t) -> logs_rep full (logs s) -> unlocked s ->
  is_int32 (rv_Term args) ->
  exists s' r, follower_requestVote args emptyVoteReply s = Done r s' /\
    VoteStatus_ r = follower_vote full args s /\ VoterID r = me s /\
    (term s < rv_Term args ->
     term s' = rv_Term args /\
     voteFor s' = (if up_to_date (last_info full) (LastLogInfo args) then CandidateID args else -1) /\
     exists st, gob_decode (ReadRaftState (persister s')) = DecOk st /\
       p_Term st = rv_Term args /\ p_VoteFor st = -1).
Proof.
  intros Hr Hf Hu Ht. unfold follower_requestVote, follower_vote. rewrite bind_gets.
  destruct (rv_Term args <? term s) eqn:E1; [eexists _, _; repeat split; simpl; try done; lia|].
  destruct (rv_Term args =? term s) eqn:E2.
  { destruct (CandidateID args =? voteFor s); eexists _, _; repeat split; simpl; try done; lia. }
  destruct (setTerm_run (rv_Term args) s Hu Ht) as (ps & E & Henc); [lia|].
  rewrite (bind_done _ _ _ _ _ E).
  assert (exists st, gob_decode (ReadRaftState ps) = DecOk st /\
    p_Term st = rv_Term args /\ p_VoteFor st = -1) as Hst.
  { eexists. unfold ReadRaftState. rewrite clone_id.
    split; [apply gob_roundtrip, Henc|]. done. }
  erewrite bind_done; [|apply (atLeastUpToDate_rep full); [done|destruct Hu; simpl; congruence]].
  destruct (up_to_date (last_info full) (LastLogInfo args)); [|by eexists _, _].
  rewrite bind_modify. erewrite bind_done; [|by eapply tick_run]. by eexists _, _.
Qed.
End voting.

Section theorems.
Context {Cmd : Type} `{!Gob Cmd, !GobRegistered Cmd}.
Implicit Types full : list (LogEntry Cmd).
Implicit Types s : Raft Cmd.


(** C6: A peer made by Make turns into a leader only when it holds a majority: when
    the change from candidate to leader is taken off the queue, the candidate's
    own vote and the set slots of its vote table, one slot per peer, are at
    least majorN. *)
Theorem leader_has_majority n self ps u s s' rest :
  Make n self ps u = Done s u -> rtc peer_step s s' -> dead s' = false ->
  evCh s' = TransEvent (Some leaderFromCandidate) :: rest ->
  exists votes voters tm, data (role s') = Candidate votes voters tm /\
    lenZ voters = Z.max 0 (peers s') /\ majorN s' <= 1 + granted voters.
Proof.
  intros Hm Hr Hd E. apply Make_ok in Hm. assert (peer_ok s') as Hok.
  { induction Hr as [|s1 s2 s3 H12 _ IH]; [done|]. apply IH; try done. by eapply peer_step_ok. }
  by apply (elected s' (Some leaderFromCandidate) rest).
Qed.


(** A follower's answer to RequestVote, on every branch: a lower term is refused;
    in the current term only the candidate that has the vote is confirmed; in a
    higher term the vote goes to a candidate whose log is at least as
    up-to-date, and the new term is saved before the answer.  The handler
    always returns. *)
Theorem follower_votes full args s t :
  role s = mkRole true (Follower t) -> logs_rep full (logs s) -> unlocked s ->
  is_int32 (rv_Term args) ->
  exists s' r, follower_requestVote args emptyVoteReply s = Done r s' /\
    VoteStatus_ r = follower_vote full args s /\ VoterID r = me s /\
    (term s < rv_Term args ->
     term s' = rv_Term args /\
     voteFor s' = (if up_to_date (last_info full) (LastLogInfo args) then CandidateID args else -1) /\
     exists st, gob_decode (ReadRaftState (persister s')) = DecOk st /\
       p_Term st = rv_Term args /\ p_VoteFor st = -1).
Proof. apply follower_requestVote_run. Qed.

(** A vote is not forgotten by a restart: after a follower answered a request of a
    higher term, a peer made from its store answers every request of that term,
    or a lower one, with a refusal. *)
Theorem no_second_vote_after_restart full args s t r s' n self u s2 args2 full2 :
  role s = mkRole true (Follower t) -> logs_rep full (logs s) -> unlocked s ->
  is_int32 (rv_Term args) -> term s < rv_Term args ->
  follower_requestVote args emptyVoteReply s = Done r s' ->
  Make n self (persister s') u = Done s2 u ->
  rv_Term args2 <= rv_Term args -> 0 <= CandidateID args2 ->
  follower_vote full2 args2 s2 = VOTE_OTHER.
Proof.
  intros Hr Hf Hu Ht Hlt E Hm Ht2 Hc.
  destruct (follower_requestVote_run full args s t Hr Hf Hu Ht) as (s'' & r'' & E' & _ & _ & H).
  rewrite E in E'. injection E' as <- <-. destruct (H Hlt) as (_ & _ & st & Hst & H1 & H2).
  assert (term s2 = rv_Term args /\ voteFor s2 = -1) as [Et Ev].
  { unfold Make, mbind, M_bind, mret, M_ret in Hm. rewrite Hst in Hm.
    destruct (newLogs _ _ _); [|done..]. by injection Hm as <-. }
  unfold follower_vote. rewrite Et, Ev. destruct (rv_Term args2 <? rv_Term args) eqn:E1; [done|].
  rewrite (proj2 (Z.eqb_eq _ _)) by lia. by rewrite (proj2 (Z.eqb_neq _ _)) by lia.
Qed.


(** auditVote counts a vote once: a vote of another term or of a peer already
    counted changes nothing; a new one sets its slot and adds one, and on
    reaching majorN the candidate is stopped with the change to leader queued. *)
Theorem vote_counted_once t voter votes voters tm s :
  role s = mkRole true (Candidate votes voters tm) -> chLock s = Unlocked ->
  (length (evCh s) < EVCH_CAP)%nat -> 0 <= voter < lenZ voters ->
  votes = 1 + granted voters ->
  auditVote t voter s = Done tt (audited t voter votes voters tm s) /\
  (term s = t -> nthZ voters voter = Some false ->
   granted (<[Z.to_nat voter := true]> voters) = granted voters + 1) /\
  (term s <> t \/ nthZ voters voter = Some true -> audited t voter votes voters tm s = s).
Proof.
  intros Hr Hl Hq Hv Hg. split; [by apply auditVote_run|]. split.
  - intros _ H. apply granted_insert. unfold nthZ in H. by case_decide.
  - unfold audited. intros [H|H]; [by rewrite (proj2 (Z.eqb_neq _ _)) by done|].
    rewrite H. simpl. by rewrite orb_true_r.
Qed.


(** C22: One round of replication makes the follower's log the leader's: with the logs
    in agreement below the next index, and the follower's commit index below
    it, the follower accepts what the round sends and then holds the leader's
    whole log, and on its answer the round confirms exactly those indices to the
    leader's counter and moves on. *)
Theorem replication_round_copies id n (sl sf : Raft Cmd) L F :
  logs_rep L (logs sl) -> rw (logs sl) = Unlocked -> logs_rep F (logs sf) -> unlocked sf ->
  agree n L F -> offset (logs sl) <= n <= lenZ L -> n <= lenZ F -> lci (logs sf) <= n - 1 ->
  lenZ F + lenZ L < 2^31 ->
  let r := (None, Some (mkSendEntries (drop (Z.to_nat n) L) (mkLogInfo (n - 1) (term_at L (n - 1))))) in
  (exists sf', followerAppendEntries (ae_SendEntries (replicate_args sl r)) sf = Done ENTRY_MATCH sf' /\
     logs_rep (if n =? lenZ L then F else L) (logs sf')) /\
  forall call, EntryStatus_ (call (replicate_args sl r)) = ENTRY_MATCH ->
    replicate_turn id n call sl
    = Done (TurnNext (lenZ L)
        (if n =? lenZ L then None else Some (ReplConfirmEvent id n (lenZ L)))) sl.
Proof. apply round_copies. Qed.
End theorems.

(** The goroutine of a vote request ends: it makes between one and six calls, what
    it then has is what the last call left, and it gives up early only with an
    answer or because its candidate was stopped. *)
Lemma vote_rpc_ends call live :
  let '(ok, reply, k) := vote_rpc call live in
  (1 <= k <= 6)%nat /\ call (k - 1)%nat = (ok, reply) /\
  (answered ok reply = true \/ k = 6%nat \/ live k = false).
Proof.
  unfold vote_rpc. destruct (call 0%nat) as [ok0 r0] eqn:E0.
  pose proof (vote_retry_spec call live RPC_CALL_TRY_TIMES 1 ok0 r0) as H.
  destruct (vote_retry _ _ _ _ _ _) as [[ok reply] k]. destruct H as (H1 & H2 & H3).
  unfold RPC_CALL_TRY_TIMES in *. split; [lia|]. split; [|done].
  destruct H2 as [[E ->]|[_ H2]]; [|done]. by rewrite E.
Qed.

(** The replicator's call returns the first successful reply, and only if the
    remote processed the request; when that first reply was not processed (the
    remote was changing its role) the call never returns, whatever replies come
    later.  When it was processed, the call returns with the next success that
    its loop receives. *)
Theorem append_rpc_first_reply cs cs' r :
  first_success cs = Some r ->
  (aer_Responsed r = false -> append_rpc None (cs ++ cs') = None) /\
  (forall r', append_rpc None (cs ++ cs') = Some r' -> r' = r /\ aer_Responsed r = true) /\
  (aer_Responsed r = true -> forall c, received c = true -> is_Some (outcome_reply c) ->
   append_rpc None (cs ++ cs' ++ [c]) = Some r).
Proof.
  intros Hf. split; [intros Hr; by eapply append_rpc_stuck|]. split.
  - intros r' H. destruct (aer_Responsed r) eqn:Hr; [|by rewrite (append_rpc_stuck cs cs' r) in H].
    apply append_rpc_first in H as [H _]. rewrite (first_success_app _ _ _ Hf) in H. by simplify_eq.
  - intros Hr c Hc Ho. by apply append_rpc_returns.
Qed.


(** * Instances *)

(** A peer of three as Make leaves it, then active, then a candidate, then with a
    majority of votes. *)
Definition peer0 : Raft Z :=
  mkRaft 3 MakePersister 0 false 2 0 (-1) (mkRole false (Follower (mkTimer None 0))) fresh_logs
    [TransEvent None] WLocked Unlocked [].
Definition peer1 : Raft Z := state_of (processor_turn peer0).
Definition peer2 : Raft Z := state_of (tryPutEv HeartBeatTimeoutEvent true peer1).
Definition peer3 : Raft Z := state_of (processor_turn peer2).
Definition peer4 : Raft Z := state_of (processor_turn peer3).
Definition peer5 : Raft Z := state_of (tryPutEv (VoteGrantEvent 1 2) true peer4).
Definition peer6 : Raft Z := state_of (processor_turn peer5).

Lemma make_peer0 : Make 3 0 MakePersister tt = Done peer0 tt.
Proof. vm_compute. reflexivity. Qed.

Lemma peer0_to_3 : rtc peer_step peer0 peer3.
Proof.
  eapply rtc_l; [apply (peer_turn true peer0 peer1); vm_compute; reflexivity|].
  eapply rtc_l; [apply (peer_try HeartBeatTimeoutEvent true true peer1 peer2); vm_compute; reflexivity|].
  eapply rtc_l; [apply (peer_turn true peer2 peer3); vm_compute; reflexivity|]. apply rtc_refl.
Qed.

Lemma peer3_to_6 : rtc peer_step peer3 peer6.
Proof.
  eapply rtc_l; [apply (peer_turn true peer3 peer4); vm_compute; reflexivity|].
  eapply rtc_l; [apply (peer_try (VoteGrantEvent 1 2) true true peer4 peer5); vm_compute; reflexivity|].
  eapply rtc_l; [apply (peer_turn true peer5 peer6); vm_compute; reflexivity|]. apply rtc_refl.
Qed.

Lemma peer0_to_6 : rtc peer_step peer0 peer6.
Proof. etrans; [exact peer0_to_3|exact peer3_to_6]. Qed.


Lemma leader_has_majority_witness :
  exists votes voters tm, data (role peer6) = Candidate votes voters tm /\
    lenZ voters = 3 /\ 2 <= 1 + granted voters.
Proof.
  apply (leader_has_majority 3 0 MakePersister tt peer0 peer6 []);
    [exact make_peer0|exact peer0_to_6|vm_compute; reflexivity..].
Defined.

Definition ask2 : RequestVoteArgs := mkRequestVoteArgs 1 2 (mkLogInfo (-1) 0).
Definition granted_reply : RequestVoteReply := mkRequestVoteReply 0 0 VOTE_GRANTED false.
Definition voter1 : Raft Z := state_of (process (RequestVoteEvent ask2 emptyVoteReply 0) peer1).
Definition voter2 : Raft Z := state_of (process (RequestVoteEvent ask2 emptyVoteReply 0) voter1).


Definition demo_follower : Raft Z := demo_peer demo_logs.
Definition ask_term2 : RequestVoteArgs := mkRequestVoteArgs 2 1 (mkLogInfo 5 1).

Lemma follower_votes_witness :
  exists s' r, follower_requestVote ask_term2 emptyVoteReply demo_follower = Done r s' /\
    VoteStatus_ r = VOTE_GRANTED /\ VoterID r = 0 /\
    (1 < 2 -> term s' = 2 /\ voteFor s' = 1 /\
     exists st : PersistentState Z,
       gob_decode (ReadRaftState (persister s')) = DecOk st /\ p_Term st = 2 /\ p_VoteFor st = -1).
Proof.
  apply (follower_votes demo_full ask_term2 demo_follower (mkTimer None 0));
    [reflexivity|exact demo_rep|by split|vm_compute; intuition congruence].
Defined.

Definition demo_voted : Raft Z := state_of (follower_requestVote ask_term2 emptyVoteReply demo_follower).
Definition demo_restarted : Raft Z :=
  match Make 3 0 (persister demo_voted) tt with Done s _ => s | _ => demo_voted end.

Lemma no_second_vote_after_restart_witness :
  follower_vote demo_full (mkRequestVoteArgs 2 2 (mkLogInfo 9 1)) demo_restarted = VOTE_OTHER.
Proof.
  apply (no_second_vote_after_restart demo_full ask_term2 demo_follower (mkTimer None 0)
    (mkRequestVoteReply 0 0 VOTE_GRANTED false) demo_voted 3 0 tt demo_restarted);
    [reflexivity|exact demo_rep|by split|vm_compute; intuition congruence|done
    |vm_compute; reflexivity|vm_compute; reflexivity|done|done].
Defined.

Lemma peer3_gate : gate_ok peer3.
Proof. vm_compute. intros _. split; [done|]. by eexists. Qed.


Lemma vote_counted_once_witness :
  auditVote 1 2 peer4 = Done tt (audited 1 2 1 [false; false; false] (mkTimer (Some true) 0) peer4) /\
  (term peer4 = 1 -> nthZ [false; false; false] 2 = Some false ->
   granted [false; false; true] = granted [false; false; false] + 1) /\
  (term peer4 <> 1 \/ nthZ [false; false; false] 2 = Some true ->
   audited 1 2 1 [false; false; false] (mkTimer (Some true) 0) peer4 = peer4).
Proof.
  apply (vote_counted_once 1 2 1 [false; false; false] (mkTimer (Some true) 0) peer4);
    try (vm_compute; reflexivity); vm_compute; intuition (congruence || lia).
Defined.

(** A leader with [demo_full] and a follower that has its first entry. *)
Definition demo_behind : Logs Z := mkLogs [mkEntry (-1) 1 None] 0 0 0 1 0 [] None Unlocked.
Lemma demo_behind_rep : logs_rep [mkEntry (-1) 1 None] demo_behind.
Proof. constructor; vm_compute; intuition congruence. Qed.

Definition demo_env (k : nat) : Obs :=
  mkObs true (demo_peer demo_logs) (fun args =>
    mkAppendEntriesReply
      (match followerAppendEntries (ae_SendEntries args) (demo_peer demo_behind) with
       | Done st _ => st
       | _ => ENTRY_DEFAULT
       end) 0 true).


Lemma replication_round_copies_witness :
  let r := (None, Some (mkSendEntries [mkEntry 1 1 (Some 10); mkEntry 2 1 (Some 20)] (mkLogInfo 0 1))) in
  (exists sf', followerAppendEntries (ae_SendEntries (replicate_args (demo_peer demo_logs) r))
      (demo_peer demo_behind) = Done ENTRY_MATCH sf' /\ logs_rep demo_full (logs sf')) /\
  forall call, EntryStatus_ (call (replicate_args (demo_peer demo_logs) r)) = ENTRY_MATCH ->
    replicate_turn 2 1 call (demo_peer demo_logs)
    = Done (TurnNext 3 (Some (ReplConfirmEvent 2 1 3))) (demo_peer demo_logs).
Proof.
  apply (replication_round_copies 2 1 (demo_peer demo_logs) (demo_peer demo_behind) demo_full
    [mkEntry (-1) 1 None]);
    [exact demo_rep|reflexivity|exact demo_behind_rep|by split|reflexivity|vm_compute; intuition congruence..].
Defined.

Definition unprocessed : completion := mkCompletion true (Some (mkAppendEntriesReply ENTRY_DEFAULT 0 false)).
Definition processed : completion := mkCompletion true (Some (mkAppendEntriesReply ENTRY_MATCH 0 true)).

Lemma append_rpc_first_reply_witness :
  (false = false -> append_rpc None ([unprocessed] ++ [processed; processed]) = None) /\
  (forall r', append_rpc None ([unprocessed] ++ [processed; processed]) = Some r' ->
     r' = mkAppendEntriesReply ENTRY_DEFAULT 0 false /\ false = true) /\
  (false = true -> forall c, received c = true -> is_Some (outcome_reply c) ->
   append_rpc None ([unprocessed] ++ [processed; processed] ++ [c])
   = Some (mkAppendEntriesReply ENTRY_DEFAULT 0 false)).
Proof.
  apply (append_rpc_first_reply [unprocessed] [processed; processed]
    (mkAppendEntriesReply ENTRY_DEFAULT 0 false)); reflexivity.
Defined.
