(* ===== verification/PeerLog.v ===== *)
(** What a turn of a peer's event loop does to its log (raft/raft.go processor,
    follower.go, candidate.go, leader.go): nothing, unless an active leader takes a
    command, a candidate becomes leader, or a follower processes an AppendEntries request.

    The peer has no snapshot: takeSnapshot and followerInstallSnapshot never
    return (RaftLogTheorems). *)

From S2P Require Import Prelude BitVec RaftTypes Persist Logs LogsSpec Applied ReplCounter Roles Gate Votes Election.

Section peer_log.
Context {Cmd : Type} `{!Gob Cmd, !GobRegistered Cmd}.
Implicit Types s : Raft Cmd.

Definition the_log s : list (LogEntry Cmd) := entries (logs s).

(** The persister has the log: nothing was saved and the log is empty, or the state of some moment [s0]
    was saved when the log was what it is now. *)
Definition synced s : Prop :=
  snapshot_bytes (persister s) = [] /\
  ((raftstate (persister s) = [] /\ the_log s = []) \/
   exists s0, gob_encode (persistent_state s0) = Some (raftstate (persister s)) /\
     logs_rep (the_log s) (logs s0) /\ snapshot (logs s0) = None).

(** Between two events: the log is consistent, whole, unlocked and saved. *)
Record logs_ok s : Prop := {
  lo_rep : logs_rep (the_log s) (logs s);
  lo_unlocked : unlocked s;
  lo_snapshot : snapshot (logs s) = None;
  lo_synced : synced s }.

Lemma lo_offset s : logs_ok s -> offset (logs s) = 0.
Proof. intros [H _ Hs _]. pose proof (rep_snapshot _ _ H) as R. by rewrite Hs in R. Qed.

(** ** What code does to the persister *)

Lemma encodeState_image s b s' :
  encodeState s = Done b s' -> gob_encode (persistent_state s) = Some b /\ persister s' = persister s /\
    persistent_state s' = persistent_state s.
Proof.
  unfold encodeState. intros E. apply bind_inv in E as ([] & s1 & E1 & E). rewrite bind_gets in E.
  apply bind_inv in E as ([] & s2 & E2 & E).
  assert (persistent_state s1 = persistent_state s /\ persister s1 = persister s) as [P1 Q1].
  { revert E1. unfold logs_RLock, RLock. destruct (logs_rw s); try done; by intros [= <-]. }
  assert (persistent_state s2 = persistent_state s1 /\ persister s2 = persister s1) as [P2 Q2].
  { revert E2. unfold logs_RUnlock, RUnlock. destruct (logs_rw s1) as [|[]|]; try done; by intros [= <-]. }
  rewrite P1 in E. destruct (gob_encode (persistent_state s)) as [b'|]; [|done]. injection E as -> <-.
  split; [done|]. split; congruence.
Qed.

Lemma persistState_saves s :
  post persistState s (fun _ s' => saved s' /\ snapshot_bytes (persister s') = snapshot_bytes (persister s) /\
    persistent_state s' = persistent_state s).
Proof.
  intros u s' E. unfold persistState in E. apply bind_inv in E as ([] & s1 & E1 & E).
  assert (persistent_state s1 = persistent_state s /\ persister s1 = persister s) as [P1 Q1].
  { revert E1. unfold Lock. destruct (saveLock s); try done; by intros [= <-]. }
  apply bind_inv in E as (b & s2 & E2 & E). destruct (encodeState_image _ _ _ E2) as (Eb & Q2 & P2).
  rewrite bind_modify in E. revert E. unfold Unlock. simpl. destruct (saveLock s2); try done. intros [= _ <-].
  unfold saved, persistent_state in *. simpl in *. split; [|split; congruence]. rewrite P2. exact Eb.
Qed.

(** The term that was saved. *)
Definition stored_term s : Z :=
  match gob_decode (raftstate (persister s)) with DecOk st => p_Term st | _ => 0 end.
Lemma saved_term s : saved s -> stored_term s = term s.
Proof. intros H. unfold stored_term. by rewrite (gob_roundtrip _ _ H). Qed.

(** Nothing is saved and the log stays, or the new log is saved. *)
Definition store_step s s' : Prop :=
  (persister s' = persister s /\ logs s' = logs s) \/
  (saved s' /\ snapshot_bytes (persister s') = snapshot_bytes (persister s)).

Lemma store_persister {A} (m : M (Raft Cmd) A) s : keeps (same persister) m -> 
  post (m;; persistState) s (fun _ s' => saved s' /\ snapshot_bytes (persister s') = snapshot_bytes (persister s)).
Proof.
  intros K. wp_step. intros a s1 E1. pose proof (K _ _ _ E1) as H1. eapply post_mono; [apply persistState_saves|].
  intros u s2 (H2 & H3 & _). split; [done|]. unfold same in H1. congruence.
Qed.

(** The methods that change the entries do not save. *)
Lemma disk_on_logs f : keeps (same persister) (modify (on_logs (Cmd := Cmd) f)).
Proof. by apply keeps_modify. Qed.
Lemma disk_on_logs' (f : Raft Cmd -> Logs Cmd -> Logs Cmd) : keeps (same persister) (modify (fun s => on_logs (f s) s)).
Proof. by apply keeps_modify. Qed.
Lemma disk_Lock : keeps (same persister) (logs_Lock (Cmd := Cmd)).
Proof. by apply keeps_Lock. Qed.
Lemma disk_Unlock : keeps (same persister) (logs_Unlock (Cmd := Cmd)).
Proof. by apply keeps_Unlock. Qed.
#[local] Hint Resolve disk_on_logs disk_on_logs' disk_Lock disk_Unlock : keeps.
Lemma disk_pushEntry et : keeps (same persister) (pushEntry (Cmd := Cmd) et).
Proof. unfold pushEntry, LLI, Noop. keeps_auto. Qed.
Lemma disk_pushEntries ets : keeps (same persister) (pushEntries (Cmd := Cmd) ets).
Proof. unfold pushEntries. keeps_auto. Qed.
Lemma disk_removeAfter i : keeps (same persister) (removeAfter (Cmd := Cmd) i).
Proof. unfold removeAfter. keeps_auto. Qed.
#[local] Hint Resolve disk_pushEntry disk_pushEntries disk_removeAfter : keeps.

Lemma reads_index i s : post (indexLogTermNoLock i) s (fun _ s' => s' = s).
Proof.
  intros t s' E. assert (keeps (same (fun s : Raft Cmd => s)) (indexLogTermNoLock (Cmd := Cmd) i)) as K.
  { unfold indexLogTermNoLock. keeps_auto. }
  apply (K _ _ _ E).
Qed.

Lemma followerAppendEntries_store se s : post (followerAppendEntries (Some se)) s (fun _ s' => store_step s s').
Proof.
  unfold followerAppendEntries, LCI, LLI. do 2 wp_step. case_match; [apply post_ret; by left|]. do 2 wp_step.
  case_match; [apply post_ret; by left|]. case_match; [apply post_ret; by left|]. wp_step.
  eapply (post_mono _ _ (fun _ s1 => s1 = s)).
  { case_match; [by apply post_ret|]. wp_step. eapply post_mono; [apply reads_index|]. intros t s1 ->. by apply post_ret. }
  intros m s1 ->. destruct m; [|apply post_ret; by left]. wp_step.
  eapply (post_mono _ _ (fun _ s' => store_step s s')); [|intros u s2 ?; by apply post_ret].
  destruct (0 <? length (Entries se))%nat; [|apply post_ret; by left]. simpl. intros u s' E. right.
  set (m := when _ _) in E. assert (keeps (same persister) (m;; pushEntries (Entries se))) as K by (unfold m; keeps_auto).
  apply (store_persister _ s K u s'). unfold mbind, M_bind in E |- *. destruct (m s); [|done..]. done.
Qed.

Lemma synced_step s s' :
  store_step s s' -> logs_rep (the_log s') (logs s') -> snapshot (logs s') = None -> synced s -> synced s'.
Proof.
  intros [[H1 H2]|[H1 H2]] R Hn [H3 H4]; (split; [congruence|]).
  - unfold the_log in *. by rewrite H1, H2.
  - right. by exists s'.
Qed.

(** * Code that leaves the log as it is *)

Definition log_kept s s' : Prop := logs_ok s -> logs_ok s' /\ the_log s' = the_log s.

#[export] Instance log_kept_preorder : PreOrder log_kept.
Proof.
  split; [by intros s H|]. intros s1 s2 s3 H1 H2 H. destruct (H1 H) as [H3 E1]. destruct (H2 H3) as [H4 E2].
  split; [done|congruence].
Qed.

Definition log_part s := (logs s, saveLock s, persister s).

Lemma log_kept_part s s' : same log_part s s' -> log_kept s s'.
Proof.
  unfold same, log_part, log_kept. intros [= E1 E2 E3] [H1 [H2 H3] H4 H5]. unfold the_log in *.
  split; [|by rewrite E1]. constructor; unfold the_log, unlocked, synced, the_log; rewrite E1, ?E2, ?E3; done.
Qed.

Lemma kept_part {A} (m : M (Raft Cmd) A) : keeps (same log_part) m -> keeps log_kept m.
Proof. apply keeps_mono. apply log_kept_part. Qed.

Lemma part_of_emit o : keeps (same log_part) (emit (Cmd := Cmd) o).
Proof. by apply keeps_modify. Qed.
Lemma part_of_set_data d : keeps (same log_part) (set_data (Cmd := Cmd) d).
Proof. by apply keeps_modify. Qed.
Lemma part_of_set_active b : keeps (same log_part) (set_active (Cmd := Cmd) b).
Proof. by apply keeps_modify. Qed.
Lemma part_of_put_event ev : keeps (same log_part) (put_event (Cmd := Cmd) ev).
Proof. by apply keeps_chan_send. Qed.
Lemma part_of_chLock : keeps (same log_part) (chLock_Lock (Cmd := Cmd)).
Proof. by apply keeps_Lock. Qed.
Lemma part_of_chUnlock : keeps (same log_part) (chLock_Unlock (Cmd := Cmd)).
Proof. by apply keeps_Unlock. Qed.
Lemma part_of_set_role r : keeps (same log_part) (modify (set_role (Cmd := Cmd) r)).
Proof. by apply keeps_modify. Qed.
Lemma part_of_set_dead b : keeps (same log_part) (modify (set_dead (Cmd := Cmd) b)).
Proof. by apply keeps_modify. Qed.
Lemma part_of_set_term v : keeps (same log_part) (modify (set_term (Cmd := Cmd) v)).
Proof. by apply keeps_modify. Qed.
Lemma part_of_raise_term f : keeps (same log_part) (modify (fun s => set_term (f s) s)).
Proof. by apply keeps_modify. Qed.
Lemma part_of_set_voteFor v : keeps (same log_part) (modify (set_voteFor (Cmd := Cmd) v)).
Proof. by apply keeps_modify. Qed.
#[local] Hint Resolve part_of_emit part_of_set_data part_of_set_active part_of_put_event part_of_chLock
  part_of_chUnlock part_of_set_role part_of_set_dead part_of_set_term part_of_raise_term part_of_set_voteFor : keeps.
#[local] Hint Extern 3 (keeps log_kept _) => (apply kept_part; solve [eauto with keeps]) : keeps.

(** The log's own methods. *)
Lemma log_kept_done {A} (m : M (Raft Cmd) A) :
  (forall s, logs_ok s -> post m s (fun _ s' => log_kept s s')) -> keeps log_kept m.
Proof. intros H s a s' E Hs. by apply (H s Hs a s' E). Qed.

Lemma kept_persistState : keeps log_kept (persistState (Cmd := Cmd)).
Proof.
  apply log_kept_done. intros s Hs a s' E. destruct (persistState_run s (lo_unlocked _ Hs)) as (ps & E' & _).
  rewrite E' in E. injection E as _ <-. intros _. destruct (persistState_saves s _ _ E') as (H1 & H2 & _).
  split; [|done]. destruct Hs as [R U N Y]. constructor; try done. by apply (synced_step s); [right|..].
Qed.

Lemma kept_lastLogInfo : keeps log_kept (lastLogInfo (Cmd := Cmd)).
Proof.
  apply log_kept_done. intros s Hs a s' E. rewrite (lastLogInfo_rep (the_log s)) in E; [|apply Hs|].
  - by injection E as _ <-.
  - destruct (lo_unlocked _ Hs) as [-> _]. done.
Qed.

Lemma kept_atLeastUpToDate o : keeps log_kept (atLeastUpToDate (Cmd := Cmd) o).
Proof.
  apply log_kept_done. intros s Hs a s' E. rewrite (atLeastUpToDate_rep (the_log s)) in E; [|apply Hs|].
  - by injection E as _ <-.
  - destruct (lo_unlocked _ Hs) as [-> _]. done.
Qed.

(** From a representation of the same log. *)
Lemma same_log_ok full s s' :
  logs_ok s -> with_logs s (logs s') s' -> logs_rep full (logs s') -> rw (logs s') = rw (logs s) ->
  snapshot (logs s') = snapshot (logs s) -> store_step s s' -> logs_ok s' /\ the_log s' = full.
Proof.
  intros [H1 H2 H3 H4] W R E1 E2 St. assert (the_log s' = full) as El.
  { unfold the_log. pose proof (rep_snapshot _ _ R) as Ho. rewrite E2, H3 in Ho.
    by rewrite (rep_entries _ _ R), Ho, drop_0. }
  split; [|done]. rewrite <- El in R. constructor; [done| |congruence|apply (synced_step s); [done|done|congruence|done]].
  split; [rewrite E1; apply H2|]. rewrite W. apply H2.
Qed.

Lemma updateCommit_store c s : post (updateCommit c) s (fun _ s' => store_step s s').
Proof.
  unfold updateCommit, LCI, LLI. do 2 wp_step. case_match; [apply post_ret; by left|]. do 2 wp_step.
  case_match; [|apply post_ret; by left]. do 2 wp_step. wp_step. intros ets s1 E1.
  assert (persister s1 = persister s) as Hp. { revert E1. unfold go_slice. case_decide; [|done]. by intros [= _ <-]. }
  intros u s' E. right. rewrite <- Hp.
  assert (keeps (same persister) (applier_send (ApplyLogEntry ets (minInt c (lli (logs s)))))) as K1 by (by apply keeps_chan_send).
  apply bind_inv in E as ([] & s2 & E2 & E). pose proof (K1 _ _ _ E2) as H2. rewrite bind_modify in E.
  destruct (persistState_saves _ _ _ E) as (H3 & H4 & _). split; [done|]. simpl in H4. unfold same in H2. congruence.
Qed.

Lemma kept_updateCommit c : keeps log_kept (updateCommit (Cmd := Cmd) c).
Proof.
  apply log_kept_done. intros s Hs [] s' E Hs'.
  destruct (decide (length (applier (logs s)) < APPLIER_CAP)%nat) as [Hcap|Hcap].
  - destruct (updateCommit_rep (the_log s) s c (lo_rep _ Hs) (lo_unlocked _ Hs) Hcap)
      as (s1 & E1 & W & R & L & _ & Sn & _).
    pose proof (updateCommit_store c s _ _ E1) as St.
    rewrite E1 in E. injection E as <-. apply (same_log_ok _ s s1); try done. rewrite L. symmetry. apply Hs.
  - rewrite (updateCommit_full _ _ _ E Hcap). done.
Qed.
#[local] Hint Resolve kept_persistState kept_lastLogInfo kept_atLeastUpToDate kept_updateCommit : keeps.
#[local] Hint Extern 1 (keeps _ (on_bitvec _ _)) => (apply keeps_on_bitvec; exact _) : keeps.

Lemma kept_newBitVec n : keeps log_kept (newBitVec n : M (Raft Cmd) _).
Proof. unfold newBitVec. keeps_auto. Qed.
#[local] Hint Resolve kept_newBitVec : keeps.
Lemma kept_watchIndex rc i : keeps log_kept (watchIndex (Cmd := Cmd) rc i).
Proof. unfold watchIndex. keeps_auto. Qed.
Lemma kept_confirm_loop p n off rc : keeps log_kept (confirm_loop (Cmd := Cmd) p n off rc).
Proof. revert off rc. induction n as [|n IH]; intros off rc; cbn [confirm_loop]; keeps_auto. Qed.
#[local] Hint Resolve kept_confirm_loop : keeps.
Lemma kept_confirm rc p a b : keeps log_kept (confirm (Cmd := Cmd) rc p a b).
Proof. unfold confirm. keeps_auto. Qed.

(** The two methods that never return. *)
Lemma locked_persist s : rw (logs s) = WLocked -> saveLock s = Unlocked -> post persist s (fun _ _ => False).
Proof. intros H1 H2 a s' E. by rewrite (persist_blocked s H1 H2) in E. Qed.

Definition write_locked s : Prop := rw (logs s) = WLocked /\ saveLock s = Unlocked.

Lemma stable_index i : keeps (stable write_locked) (indexLogTermNoLock (Cmd := Cmd) i).
Proof. unfold indexLogTermNoLock. keeps_auto. Qed.

Lemma write_lock s : logs_ok s -> post logs_Lock s (fun _ s' => write_locked s').
Proof.
  intros Hs u s' E. destruct (lo_unlocked _ Hs) as [H1 H2]. unfold logs_Lock, Lock, logs_rw in E. rewrite H1 in E.
  injection E as _ <-. done.
Qed.

(** Under the write lock, whatever comes before persist. *)
Definition stuck {A} (m : M (Raft Cmd) A) : Prop := forall s, write_locked s -> post m s (fun _ _ => False).

Lemma stuck_bind {A B} (m : M (Raft Cmd) A) (k : A -> M (Raft Cmd) B) :
  keeps (stable write_locked) m -> (forall a, stuck (k a)) -> stuck (m ≫= k).
Proof.
  intros Hm Hk s Hs. apply post_bind. eapply post_mono; [apply Hm|]. intros a s1 H1. apply (Hk a). by apply H1.
Qed.

Lemma stuck_persist (k : unit -> M (Raft Cmd) unit) : stuck (persist ≫= k).
Proof.
  intros s [H1 H2]. apply post_bind. eapply post_mono; [by apply locked_persist|]. done.
Qed.

Lemma locked_on_logs f : (forall lg, rw (f lg) = rw lg) -> keeps (stable write_locked) (modify (on_logs (Cmd := Cmd) f)).
Proof. intros H. apply keeps_modify. intros s [H1 H2]. split; [|done]. simpl. by rewrite H. Qed.

Lemma locked_applier_send x : keeps (stable write_locked) (applier_send (Cmd := Cmd) x).
Proof. apply keeps_chan_send. intros q s [H1 H2]. by split. Qed.

Ltac stuck_step := apply stuck_bind; [first [by apply locked_on_logs|apply locked_applier_send|apply stable_index|keeps_auto]|intros ?].

Lemma takeSnapshot_never s i b : logs_ok s -> post (takeSnapshot i b) s (fun _ _ => False).
Proof.
  intros Hs. unfold takeSnapshot. wp_step. wp_step. destruct (search_command _ _ _ _ _) as [li no].
  wp_step. apply post_assert. intros _. wp_step. intros et s1 E1. unfold go_index in E1.
  destruct (nthZ _ _); [|done]. injection E1 as <- <-. wp_step. apply post_assert. intros _. wp_step.
  eapply post_mono; [by apply write_lock|]. intros u s2 H2. revert s2 H2. cbv beta. do 6 stuck_step. apply stuck_persist.
Qed.

Lemma installSnapshot_never s sn : logs_ok s -> post (followerInstallSnapshot sn) s (fun _ _ => False).
Proof.
  intros Hs. unfold followerInstallSnapshot. wp_step. eapply post_mono; [by apply write_lock|].
  intros u s2 H2. revert s2 H2. cbv beta. do 7 stuck_step. apply stuck_persist.
Qed.

Lemma never_kept {A} (m : M (Raft Cmd) A) : (forall s, logs_ok s -> post m s (fun _ _ => False)) -> keeps log_kept m.
Proof. intros H. apply log_kept_done. intros s Hs a s' E. destruct (H s Hs a s' E). Qed.
Lemma kept_takeSnapshot i b : keeps log_kept (takeSnapshot (Cmd := Cmd) i b).
Proof. apply never_kept. intros s. apply takeSnapshot_never. Qed.
Lemma kept_installSnapshot sn : keeps log_kept (followerInstallSnapshot (Cmd := Cmd) sn).
Proof. apply never_kept. intros s. apply installSnapshot_never. Qed.
#[local] Hint Resolve kept_watchIndex kept_confirm kept_takeSnapshot kept_installSnapshot : keeps.

(** The handlers that do not append. *)
Lemma kept_setTerm_log t : keeps log_kept (setTerm (Cmd := Cmd) t).
Proof. unfold setTerm, Term. keeps_auto. Qed.
Lemma kept_stop : keeps log_kept (stop (Cmd := Cmd)).
Proof. unfold stop. keeps_auto. Qed.
#[local] Hint Resolve kept_setTerm_log kept_stop : keeps.
Lemma kept_transRole f : keeps log_kept (transRole (Cmd := Cmd) f).
Proof. unfold transRole. keeps_auto. Qed.
Lemma kept_tick : keeps log_kept (tickHeartBeatTimer (Cmd := Cmd)).
Proof. unfold tickHeartBeatTimer. keeps_auto. Qed.
Lemma kept_setElecTimer : keeps log_kept (setElecTimer (Cmd := Cmd)).
Proof. unfold setElecTimer. keeps_auto. Qed.
#[local] Hint Resolve kept_transRole kept_tick kept_setElecTimer : keeps.
Lemma kept_startElection : keeps log_kept (startElection (Cmd := Cmd)).
Proof. unfold startElection. keeps_auto. Qed.
Lemma kept_startReplication : keeps log_kept (startReplication (Cmd := Cmd)).
Proof. unfold startReplication. keeps_auto. Qed.
Lemma kept_auditVote t v : keeps log_kept (auditVote (Cmd := Cmd) t v).
Proof. unfold auditVote. keeps_auto. Qed.
Lemma kept_discardEv ev : keeps log_kept (discardEv (Cmd := Cmd) ev).
Proof. unfold discardEv. keeps_auto. Qed.
Lemma kept_trans f r : keeps log_kept (trans (Cmd := Cmd) f r).
Proof. unfold trans. keeps_auto. Qed.
#[local] Hint Resolve kept_startElection kept_startReplication kept_auditVote kept_discardEv kept_trans : keeps.

Lemma kept_candidate_process ev : keeps log_kept (candidate_process (Cmd := Cmd) ev).
Proof. unfold candidate_process, candidate_appendEntries, candidate_requestVote, Term. keeps_auto. Qed.
Lemma kept_follower_requestVote_log a r : keeps log_kept (follower_requestVote (Cmd := Cmd) a r).
Proof. unfold follower_requestVote. keeps_auto. Qed.
Lemma kept_leader_requestVote_log a r : keeps log_kept (leader_requestVote (Cmd := Cmd) a r).
Proof. unfold leader_requestVote, Term. keeps_auto. Qed.
Lemma kept_leader_appendEntries_log a r : keeps log_kept (leader_appendEntries (Cmd := Cmd) a r).
Proof. unfold leader_appendEntries, Term. keeps_auto. Qed.
#[local] Hint Resolve kept_candidate_process kept_follower_requestVote_log kept_leader_requestVote_log
  kept_leader_appendEntries_log : keeps.

(** * Code that appends *)

(** The term a peer leads, while it is an active leader. *)
Definition lead s : option Z :=
  if active (role s) && bool_decide (role_enum (role s) = LEADER) then Some (term s) else None.

(** Peer [i] is elected, and in which term. *)
Definition elected (i : nat) s s' : list (nat * Z) :=
  match lead s, lead s' with None, Some t => [(i, t)] | _, _ => [] end.

(** One more entry, of term [t]. *)
Definition one_more (t : Z) s s' : Prop := exists et, et_Term et = t /\ the_log s' = the_log s ++ [et].

Lemma leaderAppendEntry_store et s : post (leaderAppendEntry et) s (fun _ s' => saved s' /\
  snapshot_bytes (persister s') = snapshot_bytes (persister s) /\ store_step s s').
Proof.
  unfold leaderAppendEntry, LLI. wp_step. intros i s1 E1. pose proof (disk_pushEntry _ _ _ _ E1) as H1. wp_step.
  eapply post_mono; [apply persistState_saves|]. intros u s2 (H2 & H3 & _). do 2 wp_step. apply post_ret.
  unfold same in H1. rewrite H1 in H3. split; [done|]. split; [done|]. by right.
Qed.

Lemma leaderAppendEntry_log et s :
  logs_ok s -> lenZ (the_log s) + 1 < 2^31 ->
  post (leaderAppendEntry et) s (fun _ s' => logs_ok s' /\ one_more (et_Term et) s s' /\ stored_term s' = term s /\ term s' = term s).
Proof.
  intros Hs Hl r s' E.
  destruct (leaderAppendEntry_rep (the_log s) s et (lo_rep _ Hs) (lo_unlocked _ Hs) Hl) as (s1 & E1 & W & Sv & R & P).
  destruct (leaderAppendEntry_store et s _ _ E1) as (_ & _ & St). rewrite E1 in E. injection E as _ <-. destruct P as (P1 & _ & _ & _ & _ & P2).
  destruct (same_log_ok _ s s1 Hs W R P1 P2 St) as [H1 H2]. split; [done|]. split; [|rewrite (saved_term _ Sv), W; done].
  exists (stamped (the_log s) et). split; [|done]. unfold stamped. by destruct (is_noop et).
Qed.

(** After an append, code that leaves the log alone. *)
Lemma one_more_kept t s s1 s2 : logs_ok s1 -> one_more t s s1 -> log_kept s1 s2 -> logs_ok s2 /\ one_more t s s2.
Proof. intros H1 (et & Ht & E) K. destruct (K H1) as [H2 E2]. split; [done|]. exists et. by rewrite E2. Qed.

(** ** The leader *)

(** Where the term moves, the leader is stopped. *)
Definition same_term s s' : Prop := lead s' = None \/ term s' = term s.

Lemma lead_pending f s : active (role s) = true -> lead (pending_change f s) = None.
Proof. done. Qed.

Lemma role_frames {A} (m : M (Raft Cmd) A) : keeps (same outside_logs) m -> keeps (same role) m.
Proof. apply keeps_mono. unfold same, outside_logs. by intros s s' [= _ _ _ _ _ _ -> _ _ _]. Qed.
#[local] Hint Extern 2 (keeps (same role) _) => (apply role_frames; solve [eauto with keeps]) : keeps.
Lemma role_set_term v : keeps (same role) (modify (set_term (Cmd := Cmd) v)).
Proof. by apply keeps_modify. Qed.
Lemma role_set_voteFor v : keeps (same role) (modify (set_voteFor (Cmd := Cmd) v)).
Proof. by apply keeps_modify. Qed.
#[local] Hint Resolve role_set_term role_set_voteFor : keeps.
Lemma role_setTerm t : keeps (same role) (setTerm (Cmd := Cmd) t).
Proof. unfold setTerm, Term. keeps_auto. Qed.
#[local] Hint Resolve role_setTerm : keeps.

Lemma stepping_down f s s1 u s2 :
  active (role s) = true -> same role s s1 -> transRole f s1 = Done u s2 -> lead s2 = None.
Proof. unfold same. intros Ha E E2. apply transRole_inv in E2. rewrite E, Ha in E2. by rewrite E2. Qed.

Lemma leader_requestVote_lead args r s :
  active (role s) = true -> post (leader_requestVote args r) s (fun _ s' => same_term s s').
Proof.
  intros Ha. unfold leader_requestVote, Term. do 2 wp_step. case_bool; [apply post_ret; by right|].
  wp_step. eapply post_mono; [apply role_setTerm|]. intros u1 s1 H1. wp_step.
  eapply post_mono; [apply (role_frames _ (frames_atLeastUpToDate _))|]. intros ok s2 H2. wp_step.
  eapply (post_mono _ _ (fun _ s3 => same role s2 s3)).
  { destruct ok; [|by apply post_ret]. do 2 wp_step. by apply post_ret. }
  intros st s3 H3. wp_step. intros u4 s4 E4. apply post_ret. left.
  eapply (stepping_down followerFromLeader s s3); [done| |done]. unfold same in *. congruence.
Qed.

Lemma leader_appendEntries_lead args r s :
  active (role s) = true -> post (leader_appendEntries args r) s (fun _ s' => same_term s s').
Proof.
  intros Ha. unfold leader_appendEntries, Term. do 2 wp_step. do 2 (case_bool; [apply post_ret; by right|]).
  wp_step. eapply post_mono; [apply role_setTerm|]. intros u1 s1 H1. wp_step.
  intros u2 s2 E2. apply post_ret. left. by eapply (stepping_down followerFromLeader s s1).
Qed.

#[local] Hint Resolve ballot_emit ballot_set_data : keeps.
#[local] Hint Extern 2 (keeps (same ballot) _) => (apply ballot_frames; solve [eauto with keeps]) : keeps.

Lemma ballot_term {A} (m : M (Raft Cmd) A) s : keeps (same ballot) m -> post m s (fun _ s' => same_term s s').
Proof. intros H a s' E. right. by injection (H s a s' E). Qed.

Lemma leader_process_lead ev s :
  active (role s) = true -> post (leader_process ev) s (fun _ s' => same_term s s').
Proof.
  intros Ha. destruct ev; cbn [leader_process]; try (apply ballot_term; unfold Term, get_rc; keeps_auto; fail).
  - wp_step. eapply post_mono; [by apply leader_requestVote_lead|]. intros r s1 H1. by apply post_modify.
  - wp_step. eapply post_mono; [by apply leader_appendEntries_lead|]. intros r s1 H1. by apply post_modify.
  - wp_step. eapply post_mono; [apply role_setTerm|]. intros u1 s1 H1 u2 s2 E2. left.
    by eapply (stepping_down followerFromLeader s s1).
Qed.

Lemma kept_leader_process ev :
  match ev with StartCommandEvent _ _ => False | _ => True end -> keeps log_kept (leader_process (Cmd := Cmd) ev).
Proof. intros H. destruct ev; try done; cbn [leader_process]; unfold Term, get_rc; keeps_auto. Qed.

(** What a leader's event does to its log. *)
Lemma leader_process_log ev s :
  logs_ok s -> lenZ (the_log s) + 1 < 2^31 ->
  post (leader_process ev) s (fun _ s' => logs_ok s' /\
    (the_log s' = the_log s \/ (term s' = term s /\ one_more (term s) s s'))).
Proof.
  intros Hs Hl. destruct ev as [| | |cmd ch| | | | | | | | | | |].
  4: { cbn [leader_process]. unfold Term. do 2 wp_step. wp_step.
    eapply post_mono; [by apply leaderAppendEntry_log|]. intros r s1 (H1 & H2 & _ & H4).
    set (rest := _ ;; _). assert (keeps log_kept rest) as K1 by (unfold rest, get_rc; keeps_auto).
    assert (keeps (same ballot) rest) as K2 by (unfold rest, get_rc; keeps_auto).
    intros u s2 E. destruct (one_more_kept _ _ _ _ H1 H2 (K1 _ _ _ E)) as [H5 H6]. split; [done|]. right.
    injection (K2 _ _ _ E) as E1 _. split; [congruence|done]. }
  all: intros u s' E; match type of E with leader_process ?ev _ = _ => destruct (kept_leader_process ev I _ _ _ E Hs) end; eauto.
Qed.

(** ** The follower *)

(** The log is what AppendEntries makes of it, with some commit index. *)
Definition copied (args : AppendEntriesArgs Cmd) s s' : Prop :=
  exists se c, ae_SendEntries args = Some se /\
  the_log s' = fst (append_spec c (the_log s) (PrevLogInfo se) (Entries se)).

Definition payload (args : AppendEntriesArgs Cmd) : Z :=
  match ae_SendEntries args with Some se => lenZ (Entries se) | None => 0 end.

Lemma followerAppendEntries_log se s :
  logs_ok s -> lenZ (the_log s) + lenZ (Entries se) < 2^31 ->
  post (followerAppendEntries (Some se)) s (fun _ s' => logs_ok s' /\
    the_log s' = fst (append_spec (lci (logs s)) (the_log s) (PrevLogInfo se) (Entries se))).
Proof.
  intros Hs Hl st s' E. destruct se as [ets prev]. simpl in Hl |- *.
  destruct (followerAppendEntries_rep (the_log s) s prev ets (lo_rep _ Hs) (lo_unlocked _ Hs) Hl) as (s1 & E1 & W & R & P).
  pose proof (followerAppendEntries_store (mkSendEntries ets prev) s _ _ E1) as St.
  rewrite E1 in E. injection E as _ <-. destruct P as (P1 & _ & _ & _ & _ & P2).
  by apply (same_log_ok _ s s1 Hs W R).
Qed.

Lemma follower_appendEntries_log args r s :
  logs_ok s -> lenZ (the_log s) + payload args < 2^31 ->
  post (follower_appendEntries args r) s (fun _ s' => logs_ok s' /\ (the_log s' = the_log s \/ copied args s s')).
Proof.
  intros Hs Hl. unfold follower_appendEntries, Term. do 2 wp_step. case_bool; [apply post_ret; eauto|].
  wp_step. assert (keeps log_kept (when (ae_Term args >? term s) (setTerm (ae_Term args)))) as K by keeps_auto.
  eapply post_mono; [apply K|]. intros u1 s1 H1. destruct (H1 Hs) as [Hs1 E1]. wp_step.
  eapply post_mono; [apply kept_tick|]. intros u2 s2 H2. destruct (H2 Hs1) as [Hs2 E2].
  assert (the_log s2 = the_log s) as El by congruence. destruct (ae_Snapshot args) as [sn|] eqn:Esn.
  { wp_step. eapply post_mono; [by apply installSnapshot_never|]. done. }
  destruct (ae_SendEntries args) as [se|] eqn:Ese; [|by intros ? ? ?].
  unfold payload in Hl. rewrite Ese in Hl. wp_step.
  eapply post_mono; [apply followerAppendEntries_log; [done|by rewrite El]|]. intros st s3 [Hs3 E3].
  intros r' s4 E4. set (rest := _ ;; _) in E4. assert (keeps log_kept rest) as K4 by (unfold rest; keeps_auto).
  destruct (K4 _ _ _ E4 Hs3) as [Hs4 E5]. split; [done|]. right.
  exists se, (lci (logs s2)). split; [done|]. by rewrite E5, E3, El.
Qed.

Lemma follower_process_log ev s :
  logs_ok s -> (forall args r ch, ev = AppendEntriesEvent args r ch -> lenZ (the_log s) + payload args < 2^31) ->
  post (follower_process ev) s (fun _ s' => logs_ok s' /\
    (the_log s' = the_log s \/ exists args r ch, ev = AppendEntriesEvent args r ch /\ copied args s s')).
Proof.
  intros Hs Hl. destruct ev as [| |args r ch| | | | | | | | | | | |].
  3: { cbn [follower_process]. wp_step. eapply post_mono; [apply follower_appendEntries_log; [done|by eapply Hl]|].
    intros r' s1 [H1 H2]. apply post_modify. destruct (part_of_emit (OutAppend ch r' true) s1 tt _ eq_refl).
    split; [by apply (log_kept_part s1)|]. destruct H2 as [H2|H2]; [by left|]. right. eauto 10. }
  all: intros u s' E; match type of E with follower_process ?ev _ = _ =>
    assert (keeps log_kept (follower_process (Cmd := Cmd) ev)) as K by (cbn [follower_process]; unfold Term; keeps_auto) end;
    destruct (K _ _ _ E Hs); eauto.
Qed.

(** ** The event loop *)

(** What a turn does to the log, and to the peer as a leader. *)
Inductive turn_effect s s' : Prop :=
  | eff_same : the_log s' = the_log s -> lead s' = None \/ lead s' = lead s -> turn_effect s s'
  | eff_append : lead s = Some (term s) -> one_more (term s) s s' -> lead s' = None \/ lead s' = lead s ->
      turn_effect s s'
  | eff_elected : role_enum (role s) = CANDIDATE -> one_more (term s) s s' -> lead s' = Some (term s) ->
      stored_term s' = term s -> turn_effect s s'
  | eff_copied args r ch : AppendEntriesEvent args r ch ∈ evCh s -> copied args s s' -> lead s' = None -> turn_effect s s'.

Lemma lead_other s : role_enum (role s) <> LEADER -> lead s = None.
Proof. intros H. unfold lead. rewrite (bool_decide_eq_false_2 _ H). by rewrite andb_false_r. Qed.

Lemma lead_cases s s' : same_term s s' -> lead s' = None \/ lead s' = Some (term s).
Proof.
  intros [H|H]; [by left|]. unfold lead. destruct (_ && _); [right; congruence|by left].
Qed.

(** The sizes an event may bring the log to. *)
Definition fits_log s : Prop :=
  lenZ (the_log s) + 1 < 2^31 /\
  forall args r ch, AppendEntriesEvent args r ch ∈ evCh s -> lenZ (the_log s) + payload args < 2^31.

Lemma process_effect ev rest s :
  gate_ok s -> logs_ok s -> fits_log s -> evCh s = ev :: rest -> active (role s) = true ->
  gate_ok (set_evCh rest s) ->
  post (process ev) (set_evCh rest s) (fun _ s' => logs_ok s' /\ turn_effect s s').
Proof.
  intros Hg Hs [Hf1 Hf2] E Ha Hg'. set (s0 := set_evCh rest s) in *.
  assert (logs_ok s0) as Hs0 by (by apply (log_kept_part s)).
  unfold process. do 2 wp_step. change (role s0) with (role s).
  destruct (data (role s)) eqn:Ed; intros u s' E'.
  - assert (role_enum (role s') = FOLLOWER) as Hk.
    { eapply (guards_follower_process ev s0 u s' E'). split; [done|]. unfold role_enum. simpl. by rewrite Ed. }
    destruct (follower_process_log ev s0) with (a := u) (s' := s') as [H1 H2]; [done| |done|].
    { intros args r ch ->. apply (Hf2 args r ch). rewrite E. by left. }
    split; [done|]. destruct H2 as [H2|(args & r & ch & -> & H2)].
    + apply eff_same; [done|]. left. apply lead_other. by rewrite Hk.
    + eapply eff_copied; [rewrite E; by left|exact H2|]. apply lead_other. by rewrite Hk.
  - assert (role_enum (role s') = CANDIDATE) as Hk.
    { eapply (guards_candidate_process ev s0 u s' E'). split; [done|]. unfold role_enum. simpl. by rewrite Ed. }
    destruct (kept_candidate_process ev s0 u s' E' Hs0) as [H1 H2]. split; [done|].
    apply eff_same; [done|]. left. apply lead_other. by rewrite Hk.
  - assert (lead s = Some (term s)) as Hl.
    { unfold lead, role_enum. by rewrite Ha, Ed. }
    destruct (leader_process_log ev s0 Hs0 Hf1 u s' E') as [H1 H2].
    pose proof (lead_cases _ _ (leader_process_lead ev s0 Ha u s' E')) as H3. simpl in H3. rewrite <- Hl in H3.
    split; [done|]. destruct H2 as [H2|[_ H2]]; [by apply eff_same|by apply eff_append].
Qed.

(** The activation of a new role. *)
Definition not_leader s : Prop := role_enum (role s) <> LEADER.

Lemma nl_same {A} (m : M (Raft Cmd) A) : keeps (same role) m -> keeps (stable not_leader) m.
Proof. apply keeps_mono. unfold same, stable, not_leader. intros s s' ->. done. Qed.
Lemma nl_follower t : keeps (stable not_leader) (set_data (Cmd := Cmd) (Follower t)).
Proof. by apply keeps_modify. Qed.
Lemma nl_candidate v vs t : keeps (stable not_leader) (set_data (Cmd := Cmd) (Candidate v vs t)).
Proof. by apply keeps_modify. Qed.
Lemma nl_set_active b : keeps (stable not_leader) (set_active (Cmd := Cmd) b).
Proof. apply keeps_modify. intros s. by unfold stable, not_leader, role_enum. Qed.
Lemma role_chUnlock : keeps (same role) (chLock_Unlock (Cmd := Cmd)).
Proof. by apply keeps_Unlock. Qed.
Lemma role_emit o : keeps (same role) (emit (Cmd := Cmd) o).
Proof. by apply keeps_modify. Qed.
Lemma role_raise_term f : keeps (same role) (modify (fun s => set_term (f s) s)).
Proof. by apply keeps_modify. Qed.
#[local] Hint Resolve nl_follower nl_candidate nl_set_active role_chUnlock role_emit role_raise_term : keeps.
#[local] Hint Extern 4 (keeps (stable not_leader) _) => (apply nl_same; solve [eauto with keeps]) : keeps.

Lemma nl_follower_activate : keeps (stable not_leader) (follower_activate (Cmd := Cmd)).
Proof. unfold follower_activate, tickHeartBeatTimer. keeps_auto. Qed.
Lemma nl_candidate_activate : keeps (stable not_leader) (candidate_activate (Cmd := Cmd)).
Proof. unfold candidate_activate, startElection, setElecTimer. keeps_auto. Qed.
Lemma kept_follower_activate : keeps log_kept (follower_activate (Cmd := Cmd)).
Proof. unfold follower_activate. keeps_auto. Qed.
Lemma kept_candidate_activate : keeps log_kept (candidate_activate (Cmd := Cmd)).
Proof. unfold candidate_activate. keeps_auto. Qed.

#[local] Hint Resolve ballot_set_active ballot_chUnlock ballot_startReplication : keeps.

Lemma leader_activates (r : Z * Z) s :
  post (rc ← get_rc; rc' ← watchIndex rc r.1; set_data (Leader rc');; startReplication;; set_active true;; chLock_Unlock) s
    (fun _ s' => active (role s') = true /\ role_enum (role s') = LEADER).
Proof.
  wp_step. intros rc s1 _. wp_step. intros rc' s2 _. wp_step. apply post_modify. wp_step. intros u3 s3 E3.
  assert (keeps (same role) (startReplication (Cmd := Cmd))) as K by (unfold startReplication; keeps_auto).
  pose proof (K _ _ _ E3) as H3. wp_step. apply post_modify. intros u4 s4 E4. pose proof (role_chUnlock _ _ _ E4) as H4.
  unfold same in *. rewrite H4. simpl. rewrite H3. done.
Qed.

Lemma activate_effect s :
  logs_ok s -> lenZ (the_log s) + 1 < 2^31 ->
  post activate s (fun _ s' => logs_ok s' /\
    (the_log s' = the_log s /\ lead s' = None \/
     role_enum (role s) = LEADER /\ one_more (term s) s s' /\ lead s' = Some (term s) /\ stored_term s' = term s)).
Proof.
  intros Hs Hl. unfold activate. do 2 wp_step. destruct (data (role s)) eqn:Ed; intros u s' E.
  - destruct (kept_follower_activate s u s' E Hs) as [H1 H2]. split; [done|]. left. split; [done|].
    apply lead_other. apply (nl_follower_activate s u s' E). unfold not_leader, role_enum. by rewrite Ed.
  - destruct (kept_candidate_activate s u s' E Hs) as [H1 H2]. split; [done|]. left. split; [done|].
    apply lead_other. apply (nl_candidate_activate s u s' E). unfold not_leader, role_enum. by rewrite Ed.
  - revert E. unfold leader_activate, Term. rewrite bind_gets. intros E. apply bind_inv in E as (r & s1 & E1 & E).
    destruct (leaderAppendEntry_log _ s Hs Hl r s1 E1) as (H1 & H2 & H3 & H4). set (rest := _ ≫= _) in E.
    assert (keeps (same log_part) rest) as K3 by (unfold rest, get_rc, startReplication, watchIndex, newBitVec; keeps_auto).
    assert (keeps log_kept rest) as K1 by (unfold rest, get_rc; keeps_auto).
    assert (keeps (same ballot) rest) as K2 by (unfold rest, get_rc; keeps_auto).
    destruct (one_more_kept _ _ _ _ H1 H2 (K1 _ _ _ E)) as [H5 H6]. split; [done|]. right.
    split; [unfold role_enum; by rewrite Ed|]. split; [done|]. unfold lead.
    destruct (leader_activates r s1 u s' E) as [-> ->]. injection (K2 _ _ _ E) as E2 _. injection (K3 _ _ _ E) as _ _ E3.
    split; [simpl; congruence|]. unfold stored_term in *. by rewrite E3.
Qed.

Lemma change_role_effect f s :
  post (match f with Some f => r ← gets role; r' ← trans f r; modify (set_role r') | None => mret tt end) s
    (fun _ s' => same log_part s s' /\ term s' = term s /\
       (role_enum (role s') = LEADER -> f = Some leaderFromCandidate \/ (f = None /\ role s' = role s))).
Proof.
  destruct f as [f|]; [|apply post_ret; split; [done|]; split; [done|]; intros _; by right]. do 3 wp_step.
  unfold trans. destruct f, (data (role s)); try apply post_throw; apply post_ret, post_modify; (split; [done|]; split; [done|]); intros H; by auto.
Qed.

Lemma lead_emit o : keeps (same lead) (emit (Cmd := Cmd) o).
Proof. by apply keeps_modify. Qed.
#[local] Hint Resolve lead_emit : keeps.
Lemma lead_discardEv ev : keeps (same lead) (discardEv (Cmd := Cmd) ev).
Proof. unfold discardEv. keeps_auto. Qed.

Lemma lead_kill ch s u s' : (stop;; modify (set_dead true);; emit (OutKilled ch)) s = Done u s' -> lead s' = None.
Proof.
  intros E. apply bind_inv in E as (b & s1 & E1 & E). rewrite bind_modify in E. injection E as _ <-.
  unfold lead. simpl. replace (active (role s1)) with false; [done|]. symmetry. revert E1.
  unfold stop, set_active, set_data, chLock_Lock, Lock. rewrite bind_gets. destruct (active (role s)) eqn:Ha; [|by intros [= _ <-]].
  rewrite bind_modify. destruct (data (role s)); rewrite ?bind_modify, ?bind_ret; unfold mbind, M_bind; simpl;
    destruct (chLock s); try done; by intros [= _ <-].
Qed.

Lemma turn_log s :
  gate_ok s -> logs_ok s -> fits_log s ->
  post processor_turn s (fun _ s' => logs_ok s' /\ turn_effect s s').
Proof.
  intros Hg Hs Hf. unfold processor_turn. do 2 wp_step. destruct (dead s) eqn:Hd; [apply post_ret; split; [done|apply eff_same; auto]|].
  destruct (evCh s) as [|ev rest] eqn:E; [done|]. do 2 wp_step. wp_step.
  set (s0 := set_evCh rest s). assert (logs_ok s0) as Hs0 by (by apply (log_kept_part s)).
  eapply (post_mono _ _ (fun _ s' => logs_ok s' /\ turn_effect s s')); [|intros u s1 H; by apply post_ret].
  destruct (is_trans ev) eqn:Et.
  - destruct ev as [f| | | | | | | | | | | | | |]; try done.
    destruct (pop_trans _ _ _ E Hg Hd) as [(_ & Ha & _) Hk]. simpl in Ha. cbn [processor_event]. wp_step.
    eapply post_mono; [apply change_role_effect|]. intros u1 s1 (H1 & H2 & H3).
    destruct (log_kept_part _ _ H1 Hs0) as [Hs1 E1]. destruct Hf as [Hf1 _].
    eapply post_mono; [apply activate_effect; [done|by rewrite E1]|]. intros u2 s2 [Hs2 H4]. split; [done|].
    destruct H4 as [[H4 H5]|(H4 & H5 & H6 & H7)]; [apply eff_same; [by rewrite H4|by left]|].
    destruct (H3 H4) as [-> |[-> Hr]].
    + apply eff_elected; [done| |by rewrite H2 in H6|by rewrite H2 in H7].
      destruct H5 as (et & H5 & H8). exists et. rewrite H2 in H5. by rewrite H8, E1.
    + rewrite Hr in H4. simpl in H4. by rewrite H4 in Hk.
  - pose proof (pop_other _ _ _ E Et Hg) as Hg'.
    assert (post (r ← gets role; if closed r then discardEv ev else process ev) s0
      (fun _ s' => logs_ok s' /\ turn_effect s s')) as Hother.
    { do 2 wp_step. unfold closed. destruct (active (role s0)) eqn:Ha; simpl; [by eapply process_effect|].
      intros u s' Em. destruct (kept_discardEv ev _ _ _ Em Hs0) as [H1 H2]. split; [done|]. apply eff_same; [done|].
      right. apply (lead_discardEv ev _ _ _ Em). }
    destruct ev; try done; cbn [processor_event].
    + do 2 wp_step. destruct (closed _).
      * intros u s' Em. destruct (kept_part _ (part_of_emit _) _ _ _ Em Hs0) as [H1 H2]. split; [done|]. apply eff_same; [done|].
        right. apply (lead_emit _ _ _ _ Em).
      * wp_step. eapply post_mono; [by apply takeSnapshot_never|]. done.
    + intros u s' Em. assert (keeps log_kept (stop (Cmd := Cmd);; modify (set_dead true);; emit (OutKilled ch))) as K by keeps_auto.
      destruct (K _ _ _ Em Hs0) as [H1 H2]. split; [done|]. apply eff_same; [done|]. left. by eapply lead_kill.
Qed.

(** The applier takes from its queue. *)
Lemma kept_on_logs f :
  (forall lg, entries (f lg) = entries lg /\ lli (f lg) = lli lg /\ lci (f lg) = lci lg /\ noopCount (f lg) = noopCount lg /\
    offset (f lg) = offset lg /\ snapshot (f lg) = snapshot lg /\ rw (f lg) = rw lg) ->
  keeps log_kept (modify (on_logs (Cmd := Cmd) f)).
Proof.
  intros Hf. apply keeps_modify. intros s Hs. destruct (Hf (logs s)) as (E1 & E2 & E3 & E4 & E5 & E6 & E7).
  split; [|done]. destruct Hs as [H1 [H2 H3] H4 H5]. constructor; unfold synced, the_log; simpl.
  - rewrite E1. apply (rep_frame _ (logs s)); try done. rewrite E3. apply (rep_lci _ _ H1).
  - split; simpl; congruence.
  - congruence.
  - rewrite E1. exact H5.
Qed.

Lemma kept_applier_turn accept : keeps log_kept (applier_turn (Cmd := Cmd) accept).
Proof.
  unfold applier_turn. apply keeps_bind; [exact _|keeps_auto|]. intros lg.
  destruct (applier lg) as [|a rest]; [keeps_auto|].
  apply keeps_bind; [exact _|by apply kept_on_logs|]. intros _. destruct a as [ets i|sn]; [keeps_auto|].
  destruct (accept 0%nat); [|keeps_auto]. apply keeps_bind; [exact _|by apply kept_on_logs|]. intros _. keeps_auto.
Qed.
End peer_log.
