(* ===== verification/PeerTurn.v ===== *)
(** What a turn of a peer's event loop does to its queue and to its term as a
    candidate: only role changes are queued, and a peer that becomes a candidate
    moves to a higher term. *)

From S2P Require Import Prelude BitVec RaftTypes Persist Logs LogsSpec Applied ReplCounter Roles Gate Votes Election PeerLog.

Section peer_turn.
Context {Cmd : Type} `{!Gob Cmd, !GobRegistered Cmd}.
Implicit Types s : Raft Cmd.

(** * The queue *)

(** The events that are not role changes. *)
Definition plain (q : list (Event Cmd)) : list (Event Cmd) := filter (fun ev => is_trans ev = false) q.
Definition others s : list (Event Cmd) := plain (evCh s).

Lemma ev_same {A} (m : M (Raft Cmd) A) : keeps (same evCh) m -> keeps (same others) m.
Proof. apply keeps_mono. unfold same, others. by intros s s' ->. Qed.
Lemma ev_frames {A} (m : M (Raft Cmd) A) : keeps (same outside_logs) m -> keeps (same evCh) m.
Proof. apply keeps_mono. unfold same, outside_logs. by intros s s' [= _ _ _ _ _ _ _ -> _ _]. Qed.
#[local] Hint Extern 2 (keeps (same evCh) _) => (apply ev_frames; solve [eauto with keeps]) : keeps.
#[local] Hint Extern 3 (keeps (same others) _) => (apply ev_same; solve [eauto with keeps]) : keeps.

Lemma ev_emit o : keeps (same evCh) (emit (Cmd := Cmd) o).
Proof. by apply keeps_modify. Qed.
Lemma ev_set_data d : keeps (same evCh) (set_data (Cmd := Cmd) d).
Proof. by apply keeps_modify. Qed.
Lemma ev_set_active b : keeps (same evCh) (set_active (Cmd := Cmd) b).
Proof. by apply keeps_modify. Qed.
Lemma ev_chLock : keeps (same evCh) (chLock_Lock (Cmd := Cmd)).
Proof. by apply keeps_Lock. Qed.
Lemma ev_chUnlock : keeps (same evCh) (chLock_Unlock (Cmd := Cmd)).
Proof. by apply keeps_Unlock. Qed.
Lemma ev_set_role r : keeps (same evCh) (modify (set_role (Cmd := Cmd) r)).
Proof. by apply keeps_modify. Qed.
Lemma ev_set_dead b : keeps (same evCh) (modify (set_dead (Cmd := Cmd) b)).
Proof. by apply keeps_modify. Qed.
Lemma ev_set_term v : keeps (same evCh) (modify (set_term (Cmd := Cmd) v)).
Proof. by apply keeps_modify. Qed.
Lemma ev_raise_term f : keeps (same evCh) (modify (fun s => set_term (f s) s)).
Proof. by apply keeps_modify. Qed.
Lemma ev_set_voteFor v : keeps (same evCh) (modify (set_voteFor (Cmd := Cmd) v)).
Proof. by apply keeps_modify. Qed.
Lemma ev_put_trans f : keeps (same others) (put_event (TransEvent f)).
Proof. apply keeps_chan_send_spec. intros s. unfold same, others, plain. simpl. by rewrite filter_app, app_nil_r. Qed.
#[local] Hint Resolve ev_emit ev_set_data ev_set_active ev_chLock ev_chUnlock ev_set_role ev_set_dead ev_set_term
  ev_raise_term ev_set_voteFor ev_put_trans : keeps.

Lemma ev_setTerm t : keeps (same others) (setTerm t).
Proof. unfold setTerm, Term. keeps_auto. Qed.
Lemma ev_stop : keeps (same others) stop.
Proof. unfold stop. keeps_auto. Qed.
#[local] Hint Resolve ev_setTerm ev_stop : keeps.
Lemma ev_transRole f : keeps (same others) (transRole f).
Proof. unfold transRole. keeps_auto. Qed.
Lemma ev_tick : keeps (same others) tickHeartBeatTimer.
Proof. unfold tickHeartBeatTimer. keeps_auto. Qed.
#[local] Hint Resolve ev_transRole ev_tick : keeps.
Lemma ev_auditVote t v : keeps (same others) (auditVote t v).
Proof. unfold auditVote. keeps_auto. Qed.
Lemma ev_trans f r : keeps (same others) (trans f r).
Proof. unfold trans. keeps_auto. Qed.
Lemma ev_discardEv ev : keeps (same others) (discardEv ev).
Proof. unfold discardEv. keeps_auto. Qed.
#[local] Hint Resolve ev_auditVote ev_trans ev_discardEv : keeps.
Lemma ev_process ev : keeps (same others) (process ev).
Proof.
  unfold process, follower_process, candidate_process, leader_process, follower_appendEntries, follower_requestVote,
    candidate_appendEntries, candidate_requestVote, leader_appendEntries, leader_requestVote, Term, get_rc. keeps_auto.
Qed.
Lemma ev_activate : keeps (same others) activate.
Proof.
  unfold activate, follower_activate, candidate_activate, leader_activate, startElection, setElecTimer, startReplication,
    Term, get_rc. keeps_auto.
Qed.
#[local] Hint Resolve ev_process ev_activate : keeps.
Lemma ev_processor_event ev : keeps (same others) (processor_event ev).
Proof. unfold processor_event. keeps_auto. Qed.

(** A turn takes the first event; what else it does to the queue is to add role changes. *)
Lemma turn_others s :
  post processor_turn s (fun _ s' => (dead s = true /\ s' = s) \/
    exists ev rest, dead s = false /\ evCh s = ev :: rest /\ others s' = plain rest).
Proof.
  unfold processor_turn. do 2 wp_step. destruct (dead s); [apply post_ret; by left|].
  destruct (evCh s) as [|ev rest] eqn:E; [done|]. do 2 wp_step. wp_step.
  eapply post_mono; [apply ev_processor_event|]. intros u s1 H1. apply post_ret. right. exists ev, rest. by rewrite H1.
Qed.

Section queue.
Context (P : Event Cmd -> Prop) (HP : forall f, P (TransEvent f)).

Definition all_events s : Prop := Forall P (evCh s).

Lemma all_others s : all_events s <-> Forall P (others s).
Proof.
  unfold all_events, others, plain. rewrite !Forall_forall. split.
  - intros H ev [_ Hin]%list_elem_of_filter. auto.
  - intros H ev Hin. destruct (is_trans ev) eqn:E; [destruct ev; try done; apply HP|]. apply H. by apply list_elem_of_filter.
Qed.
Lemma same_others_events s s' : same others s s' -> all_events s -> all_events s'.
Proof. unfold same. intros E. rewrite !all_others. by rewrite E. Qed.

Lemma turn_events s : all_events s -> post processor_turn s (fun _ s' => all_events s').
Proof.
  intros H b s' E. destruct (turn_others s b s' E) as [[_ ->]|(ev & rest & _ & Eq & Eo)]; [done|].
  apply all_others. rewrite Eo. unfold all_events in H. rewrite Eq in H. apply Forall_cons in H as [_ H].
  apply Forall_forall. intros ev' [_ Hin]%list_elem_of_filter. by apply (proj1 (Forall_forall _ _) H).
Qed.
End queue.

(** * Becoming a candidate *)

Definition kind s : RoleEnum := role_enum (role s).
Definition is_kind (k : RoleEnum) s : Prop := kind s = k.

Lemma kind_role {A} k (m : M (Raft Cmd) A) : keeps (same role) m -> keeps (stable (is_kind k)) m.
Proof. apply keeps_mono. unfold same, stable, is_kind, kind. intros s s' ->. done. Qed.
#[local] Hint Extern 2 (keeps (same role) _) => (apply role_frames; solve [eauto with keeps]) : keeps.
#[local] Hint Extern 3 (keeps (stable (is_kind _)) _) => (apply kind_role; solve [eauto with keeps]) : keeps.
Lemma kind_follower t : keeps (stable (is_kind FOLLOWER)) (set_data (Cmd := Cmd) (Follower t)).
Proof. by apply keeps_modify. Qed.
Lemma kind_leader rc : keeps (stable (is_kind LEADER)) (set_data (Cmd := Cmd) (Leader rc)).
Proof. by apply keeps_modify. Qed.
Lemma kind_set_active k b : keeps (stable (is_kind k)) (set_active (Cmd := Cmd) b).
Proof. apply keeps_modify. intros s. by unfold stable, is_kind, kind, role_enum. Qed.
#[local] Hint Resolve kind_follower kind_leader kind_set_active role_chUnlock role_emit : keeps.

Lemma kind_follower_activate : keeps (stable (is_kind FOLLOWER)) (follower_activate (Cmd := Cmd)).
Proof. unfold follower_activate, tickHeartBeatTimer. keeps_auto. Qed.
Lemma kind_leader_activate : keeps (stable (is_kind LEADER)) (leader_activate (Cmd := Cmd)).
Proof. unfold leader_activate, startReplication, Term, get_rc. keeps_auto. Qed.

Lemma kind_stop k : keeps (stable (is_kind k)) (stop (Cmd := Cmd)).
Proof.
  intros s b s' E H. unfold stop in E. rewrite bind_gets in E. destruct (active (role s)); [|by injection E as _ <-].
  unfold set_active, set_data, chLock_Lock, Lock in E. rewrite bind_modify in E. unfold is_kind, kind, role_enum in *.
  destruct (data (role s)); rewrite ?bind_modify, ?bind_ret in E; unfold mbind, M_bind in E; simpl in E;
    destruct (chLock s); try done; by injection E as _ <-.
Qed.

(** An active candidate has raised its term. *)
Lemma candidate_raises s :
  active (role s) = false -> -1 <= term s < 2147483647 -> post candidate_activate s (fun _ s' => term s < term s').
Proof.
  intros Ha Ht. unfold candidate_activate. do 2 wp_step. rewrite Ha. cbn [negb when]. wp_step. apply post_modify.
  unfold startElection. wp_step. wp_step. apply post_modify. set (s1 := set_term _ _).
  assert (term s < term s1) as H1. { simpl. rewrite to_int32_small; [lia|]. unfold is_int32. lia. }
  clearbody s1. set (rest := _ ≫= _).
  assert (keeps (same ballot) rest) as K.
  { unfold rest, setElecTimer. keeps_auto; try apply ballot_emit; try apply ballot_set_data.
    apply ballot_frames, frames_lastLogInfo. }
  intros u2 s2 E2 u3 s3 E3. injection (K _ _ _ E2) as E4 _. injection (ballot_chUnlock _ _ _ E3) as E5 _. lia.
Qed.

Lemma activate_kind s :
  active (role s) = false -> -1 <= term s < 2147483647 ->
  post activate s (fun _ s' => kind s' = CANDIDATE -> term s < term s').
Proof.
  intros Ha Ht. unfold activate. do 2 wp_step. destruct (data (role s)) eqn:Ed; intros u s' E.
  - assert (is_kind FOLLOWER s) as H by (unfold is_kind, kind, role_enum; by rewrite Ed).
    rewrite (kind_follower_activate _ _ _ E H). done.
  - intros _. by apply (candidate_raises s Ha Ht u s').
  - assert (is_kind LEADER s) as H by (unfold is_kind, kind, role_enum; by rewrite Ed).
    rewrite (kind_leader_activate _ _ _ E H). done.
Qed.

Lemma kind_process ev s : gate_ok s -> post (process ev) s (fun _ s' => kind s' = kind s).
Proof.
  intros Hg. unfold process. do 2 wp_step. unfold kind.
  destruct (data (role s)) eqn:Ed; intros u s' E.
  - transitivity FOLLOWER; [|unfold role_enum; by rewrite Ed].
    by eapply (guards_follower_process ev s u s' E); split; [|unfold role_enum; rewrite Ed].
  - transitivity CANDIDATE; [|unfold role_enum; by rewrite Ed].
    by eapply (guards_candidate_process ev s u s' E); split; [|unfold role_enum; rewrite Ed].
  - transitivity LEADER; [|unfold role_enum; by rewrite Ed].
    by eapply (guards_leader_process ev s u s' E); split; [|unfold role_enum; rewrite Ed].
Qed.

Lemma turn_candidate s :
  gate_ok s -> -1 <= term s < 2147483647 ->
  post processor_turn s (fun _ s' => kind s' = CANDIDATE -> kind s = CANDIDATE \/ term s < term s').
Proof.
  intros Hg Ht. unfold processor_turn. do 2 wp_step. destruct (dead s) eqn:Hd; [apply post_ret; auto|].
  destruct (evCh s) as [|ev rest] eqn:E; [done|]. do 2 wp_step. wp_step. set (s0 := set_evCh rest s).
  eapply (post_mono _ _ (fun _ s' => kind s' = CANDIDATE -> kind s = CANDIDATE \/ term s < term s'));
    [|intros u s1 H; by apply post_ret].
  destruct (is_trans ev) eqn:Et.
  - destruct ev as [f| | | | | | | | | | | | | |]; try done.
    destruct (pop_trans _ _ _ E Hg Hd) as [Hopen _]. cbn [processor_event]. wp_step.
    assert (post (match f with Some f => r ← gets role; r' ← trans f r; modify (set_role r') | None => mret tt end) s0
      (fun _ s1 => gate_open s1 /\ term s1 = term s)) as H1.
    { destruct f as [f|]; [|by apply post_ret]. intros u s1 E1. split.
      - destruct Hopen as (A & B & C & D). by apply (trans_open f s0 A B C D u s1).
      - injection (ballot_change_role f s0 u s1 E1) as -> _. done. }
    eapply post_mono; [exact H1|]. intros u s1 [(_ & Ha & _) E1].
    eapply post_mono; [apply activate_kind; [done|lia]|]. intros u2 s2 H2 Hk. right. rewrite <- E1. auto.
  - pose proof (pop_other _ _ _ E Et Hg) as Hg'.
    enough (post (processor_event ev) s0 (fun _ s' => kind s' = kind s)) as H.
    { eapply post_mono; [exact H|]. intros u s' Hk Hc. left. congruence. }
    assert (post (r ← gets role; if closed r then discardEv ev else process ev) s0 (fun _ s' => kind s' = kind s)) as Hother.
    { do 2 wp_step. destruct (closed _); [|by apply (kind_process ev s0)].
      intros u s' Em. assert (keeps (same role) (discardEv (Cmd := Cmd) ev)) as K by (unfold discardEv; keeps_auto).
      unfold kind. by rewrite (K _ _ _ Em). }
    destruct ev; try done; cbn [processor_event].
    + do 2 wp_step. destruct (closed _); [by apply post_modify|]. wp_step.
      eapply post_mono; [apply (role_frames _ (frames_takeSnapshot _ _))|]. intros u s1 H1. apply post_modify.
      unfold kind. simpl. by rewrite H1.
    + wp_step. intros b s1 E1. wp_step. apply post_modify. apply post_modify. simpl. by apply (kind_stop (kind s) s0 b s1).
Qed.
End peer_turn.
