(* ===== verification/PeerStore.v ===== *)
(** What a turn of a peer's event loop does to the term and vote that are saved, and what
    Make brings back from the persister (raft/persist.go, raft.go). *)

From S2P Require Import Prelude BitVec RaftTypes Persist Logs LogsSpec Applied ReplCounter Roles Gate Votes Election PeerLog.

Section peer_store.
Context {Cmd : Type} `{!Gob Cmd, !GobRegistered Cmd}.
Implicit Types s : Raft Cmd.

(** * The saved ballot *)

(** The vote that was saved. *)
Definition stored_vote s : Z :=
  match gob_decode (raftstate (persister s)) with DecOk st => p_VoteFor st | _ => -1 end.
Lemma saved_vote s : saved s -> stored_vote s = voteFor s.
Proof. intros H. unfold stored_vote. by rewrite (gob_roundtrip _ _ H). Qed.

Definition term_part s := (term s, persister s).
Definition book s := (term s, voteFor s, persister s).

Lemma tp_of_book {A} (m : M (Raft Cmd) A) : keeps (same book) m -> keeps (same term_part) m.
Proof. apply keeps_mono. unfold same, book, term_part. by intros s s' [= -> _ ->]. Qed.

(** The peer is in a higher term, which was saved before any vote in it. *)
Definition raised s s' : Prop := term s < term s' /\ stored_term s' = term s' /\ stored_vote s' = -1.

(** ** Code that leaves them alone *)

Lemma bk_on_logs f : keeps (same book) (modify (on_logs (Cmd := Cmd) f)).
Proof. by apply keeps_modify. Qed.
Lemma bk_Lock : keeps (same book) (logs_Lock (Cmd := Cmd)).
Proof. by apply keeps_Lock. Qed.
Lemma bk_Unlock : keeps (same book) (logs_Unlock (Cmd := Cmd)).
Proof. by apply keeps_Unlock. Qed.
Lemma bk_RLock : keeps (same book) (logs_RLock (Cmd := Cmd)).
Proof. by apply keeps_RLock. Qed.
Lemma bk_RUnlock : keeps (same book) (logs_RUnlock (Cmd := Cmd)).
Proof. by apply keeps_RUnlock. Qed.
Lemma bk_applier x : keeps (same book) (applier_send (Cmd := Cmd) x).
Proof. by apply keeps_chan_send. Qed.
Lemma bk_emit o : keeps (same book) (emit (Cmd := Cmd) o).
Proof. by apply keeps_modify. Qed.
Lemma bk_set_data d : keeps (same book) (set_data (Cmd := Cmd) d).
Proof. by apply keeps_modify. Qed.
Lemma bk_set_active b : keeps (same book) (set_active (Cmd := Cmd) b).
Proof. by apply keeps_modify. Qed.
Lemma bk_put_event ev : keeps (same book) (put_event (Cmd := Cmd) ev).
Proof. by apply keeps_chan_send. Qed.
Lemma bk_chLock : keeps (same book) (chLock_Lock (Cmd := Cmd)).
Proof. by apply keeps_Lock. Qed.
Lemma bk_chUnlock : keeps (same book) (chLock_Unlock (Cmd := Cmd)).
Proof. by apply keeps_Unlock. Qed.
Lemma bk_set_role r : keeps (same book) (modify (set_role (Cmd := Cmd) r)).
Proof. by apply keeps_modify. Qed.
Lemma bk_set_dead b : keeps (same book) (modify (set_dead (Cmd := Cmd) b)).
Proof. by apply keeps_modify. Qed.
Lemma tp_set_voteFor v : keeps (same term_part) (modify (set_voteFor (Cmd := Cmd) v)).
Proof. by apply keeps_modify. Qed.
#[local] Hint Resolve bk_on_logs bk_Lock bk_Unlock bk_RLock bk_RUnlock bk_applier bk_emit bk_set_data bk_set_active
  bk_put_event bk_chLock bk_chUnlock bk_set_role bk_set_dead tp_set_voteFor : keeps.

Lemma bk_pushEntry et : keeps (same book) (pushEntry (Cmd := Cmd) et).
Proof. unfold pushEntry, LLI, Noop. keeps_auto. Qed.
Lemma bk_pushEntries ets : keeps (same book) (pushEntries (Cmd := Cmd) ets).
Proof. unfold pushEntries. keeps_auto. Qed.
Lemma bk_removeAfter i : keeps (same book) (removeAfter (Cmd := Cmd) i).
Proof. unfold removeAfter. keeps_auto. Qed.
Lemma bk_index i : keeps (same book) (indexLogTermNoLock (Cmd := Cmd) i).
Proof. unfold indexLogTermNoLock. keeps_auto. Qed.
Lemma bk_lastLogInfo : keeps (same book) (lastLogInfo (Cmd := Cmd)).
Proof. unfold lastLogInfo. keeps_auto. Qed.
#[local] Hint Resolve bk_pushEntry bk_pushEntries bk_removeAfter bk_index bk_lastLogInfo : keeps.
Lemma bk_atLeastUpToDate o : keeps (same book) (atLeastUpToDate (Cmd := Cmd) o).
Proof. unfold atLeastUpToDate. keeps_auto. Qed.
Lemma bk_stop : keeps (same book) (stop (Cmd := Cmd)).
Proof. unfold stop. keeps_auto. Qed.
#[local] Hint Resolve bk_atLeastUpToDate bk_stop : keeps.
Lemma bk_transRole f : keeps (same book) (transRole (Cmd := Cmd) f).
Proof. unfold transRole. keeps_auto. Qed.
Lemma bk_tick : keeps (same book) (tickHeartBeatTimer (Cmd := Cmd)).
Proof. unfold tickHeartBeatTimer. keeps_auto. Qed.
Lemma bk_trans f r : keeps (same book) (trans (Cmd := Cmd) f r).
Proof. unfold trans. keeps_auto. Qed.
Lemma bk_discardEv ev : keeps (same book) (discardEv (Cmd := Cmd) ev).
Proof. unfold discardEv. keeps_auto. Qed.
#[local] Hint Extern 1 (keeps _ (on_bitvec _ _)) => (apply keeps_on_bitvec; exact _) : keeps.
Lemma bk_watchIndex rc i : keeps (same book) (watchIndex (Cmd := Cmd) rc i).
Proof. unfold watchIndex, newBitVec. keeps_auto. Qed.
Lemma bk_confirm_loop p n off rc : keeps (same book) (confirm_loop (Cmd := Cmd) p n off rc).
Proof. revert off rc. induction n as [|n IH]; intros off rc; cbn [confirm_loop]; keeps_auto. Qed.
#[local] Hint Resolve bk_transRole bk_tick bk_trans bk_discardEv bk_watchIndex bk_confirm_loop : keeps.
Lemma bk_auditVote t v : keeps (same book) (auditVote (Cmd := Cmd) t v).
Proof. unfold auditVote. keeps_auto. Qed.
Lemma bk_startReplication : keeps (same book) (startReplication (Cmd := Cmd)).
Proof. unfold startReplication. keeps_auto. Qed.
Lemma bk_setElecTimer : keeps (same book) (setElecTimer (Cmd := Cmd)).
Proof. unfold setElecTimer. keeps_auto. Qed.
#[local] Hint Resolve bk_auditVote bk_startReplication bk_setElecTimer : keeps.
#[local] Hint Extern 3 (keeps (same term_part) _) => (apply tp_of_book; solve [eauto with keeps]) : keeps.

(** ** Saving *)

Lemma persist_saves s : post persist s (fun _ s' => saved s' /\ ballot s' = ballot s).
Proof.
  intros u s' E. unfold persist in E. apply bind_inv in E as ([] & s1 & E1 & E).
  assert (ballot s1 = ballot s) as P1. { revert E1. unfold Lock. destruct (saveLock s); try done; by intros [= <-]. }
  rewrite bind_gets in E. apply bind_inv in E as ([] & s2 & E2 & E).
  assert (saved s2 /\ ballot s2 = ballot s1) as [P2 Q2].
  { assert (exists sn, (b ← encodeState; modify (fun s => set_persister (Save b sn (persister s)) s)) s1 = Done tt s2) as (sn & Es).
    { destruct (snapshot (logs s1)); eauto. }
    clear E2. apply bind_inv in Es as (b & s3 & E3 & E4). injection E4 as <-. destruct (encodeState_image _ _ _ E3) as (Eb & _ & P3).
    unfold saved, persistent_state, ballot in *. simpl in *. rewrite clone_id, P3. split; [done|]. injection P3. congruence. }
  revert E. unfold Unlock. destruct (saveLock s2); try done. intros [= _ <-]. split; [exact P2|]. unfold ballot in *. simpl. congruence.
Qed.

Lemma setTerm_raises t s : is_int32 t -> post (setTerm t) s (fun _ s' => raised s s').
Proof.
  intros Ht u s' E. pose proof (setTerm_spec t s Ht _ _ E) as (H1 & H2 & H3). unfold setTerm, Term in E.
  rewrite bind_gets in E. apply bind_inv in E as (? & s1 & E1 & E). rewrite !bind_modify in E.
  destruct (persistState_saves _ _ _ E) as (H4 & _ & _). unfold raised. rewrite (saved_term _ H4), (saved_vote _ H4). lia.
Qed.

(** A new term, and a vote in it. *)
Lemma raised_new_term {A} t (m : M (Raft Cmd) A) s :
  is_int32 t -> keeps (same term_part) m -> post (setTerm t;; m) s (fun _ s' => raised s s').
Proof.
  intros Ht Km a s' E. apply bind_inv in E as (u & s1 & E1 & E2).
  destruct (setTerm_raises t s Ht _ _ E1) as (H1 & H2 & H3). injection (Km _ _ _ E2) as E3 E4.
  unfold raised, stored_term, stored_vote in *. rewrite E3, E4. done.
Qed.

(** A request of a higher term is answered in it; others change nothing. *)
Lemma follower_requestVote_book args r s : is_int32 (rv_Term args) ->
  post (follower_requestVote args r) s (fun r' s' => raised s s' \/ s' = s /\ (VoteStatus_ r' = VOTE_GRANTED -> CandidateID args = voteFor s)).
Proof.
  intros Ht. unfold follower_requestVote. do 2 wp_step. case_match; [apply post_ret; by right|].
  case_match; [|eapply post_mono; [apply raised_new_term; [done|keeps_auto]|by left]].
  destruct (CandidateID args =? voteFor s) eqn:E; apply post_ret; right; (split; [done|]); [lia|done].
Qed.
Lemma candidate_requestVote_book args r s : is_int32 (rv_Term args) ->
  post (candidate_requestVote args r) s (fun r' s' => raised s s' \/ s' = s /\ (VoteStatus_ r' = VOTE_GRANTED -> CandidateID args = voteFor s)).
Proof.
  intros Ht. unfold candidate_requestVote. do 2 wp_step. case_match; [apply post_ret; by right|].
  case_match; [|eapply post_mono; [apply raised_new_term; [done|keeps_auto]|by left]].
  destruct (CandidateID args =? voteFor s) eqn:E; apply post_ret; right; (split; [done|]); [lia|done].
Qed.
Lemma leader_requestVote_book args r s : is_int32 (rv_Term args) ->
  post (leader_requestVote args r) s (fun r' s' => raised s s' \/ s' = s /\ (VoteStatus_ r' = VOTE_GRANTED -> CandidateID args = voteFor s)).
Proof.
  intros Ht. unfold leader_requestVote, Term. do 2 wp_step. case_match; [apply post_ret; by right|].
  eapply post_mono; [apply raised_new_term; [done|keeps_auto]|by left].
Qed.

(** * What a turn keeps *)

Section kept.
Context (K : Raft Cmd -> Prop).
Context (K_book : forall s s', same book s s' -> K s -> K s').
Context (K_saved : forall s s', saved s' -> ballot s' = ballot s -> K s -> K s').
Context (K_raised : forall s s', raised s s' -> K s -> K s').

Lemma kp_book {A} (m : M (Raft Cmd) A) : keeps (same book) m -> keeps (stable K) m.
Proof. apply keeps_mono. unfold stable. apply K_book. Qed.
#[local] Hint Extern 4 (keeps (stable K) _) => (apply kp_book; solve [eauto with keeps]) : keeps.

Lemma kp_persistState : keeps (stable K) (persistState (Cmd := Cmd)).
Proof.
  intros s u s' E. destruct (persistState_saves s u s' E) as (H1 & _ & H3). intros H.
  apply (K_saved s); [done| |done]. unfold ballot. injection H3. congruence.
Qed.
Lemma kp_persist : keeps (stable K) (persist (Cmd := Cmd)).
Proof. intros s u s' E. destruct (persist_saves s u s' E) as [H1 H2]. intros H. by apply (K_saved s). Qed.
Lemma kp_setTerm t : is_int32 t -> keeps (stable K) (setTerm (Cmd := Cmd) t).
Proof. intros Ht s u s' E. exact (K_raised _ _ (setTerm_raises t s Ht u s' E)). Qed.
#[local] Hint Resolve kp_persistState kp_persist kp_setTerm : keeps.

Lemma kp_followerAppendEntries o : keeps (stable K) (followerAppendEntries (Cmd := Cmd) o).
Proof. unfold followerAppendEntries, LCI, LLI. keeps_auto. Qed.
Lemma kp_updateCommit c : keeps (stable K) (updateCommit (Cmd := Cmd) c).
Proof. unfold updateCommit, LCI, LLI. keeps_auto. Qed.
Lemma kp_installSnapshot sn : keeps (stable K) (followerInstallSnapshot (Cmd := Cmd) sn).
Proof. unfold followerInstallSnapshot. keeps_auto. Qed.
Lemma kp_takeSnapshot c b : keeps (stable K) (takeSnapshot (Cmd := Cmd) c b).
Proof. unfold takeSnapshot. keeps_auto. Qed.
Lemma kp_leaderAppendEntry et : keeps (stable K) (leaderAppendEntry (Cmd := Cmd) et).
Proof. unfold leaderAppendEntry, LLI. keeps_auto. Qed.
Lemma kp_applier_turn accept : keeps (stable K) (applier_turn (Cmd := Cmd) accept).
Proof. unfold applier_turn. keeps_auto. Qed.
#[local] Hint Resolve kp_followerAppendEntries kp_updateCommit kp_installSnapshot kp_takeSnapshot
  kp_leaderAppendEntry : keeps.
Lemma kp_confirm rc i j k : keeps (stable K) (confirm (Cmd := Cmd) rc i j k).
Proof. unfold confirm. keeps_auto. Qed.
#[local] Hint Resolve kp_confirm : keeps.

(** The roles. *)
Lemma kp_follower_requestVote args r : is_int32 (rv_Term args) -> keeps (stable K) (follower_requestVote (Cmd := Cmd) args r).
Proof. intros Ht s a s' E. destruct (follower_requestVote_book args r s Ht a s' E) as [H|[-> _]]; [exact (K_raised _ _ H)|done]. Qed.
Lemma kp_candidate_requestVote args r : is_int32 (rv_Term args) -> keeps (stable K) (candidate_requestVote (Cmd := Cmd) args r).
Proof. intros Ht s a s' E. destruct (candidate_requestVote_book args r s Ht a s' E) as [H|[-> _]]; [exact (K_raised _ _ H)|done]. Qed.
Lemma kp_leader_requestVote args r : is_int32 (rv_Term args) -> keeps (stable K) (leader_requestVote (Cmd := Cmd) args r).
Proof. intros Ht s a s' E. destruct (leader_requestVote_book args r s Ht a s' E) as [H|[-> _]]; [exact (K_raised _ _ H)|done]. Qed.
#[local] Hint Resolve kp_follower_requestVote kp_candidate_requestVote kp_leader_requestVote : keeps.

Lemma kp_process ev : is_int32 (event_term ev) -> keeps (stable K) (process ev).
Proof.
  intros Ht. unfold process, follower_process, candidate_process, leader_process, follower_appendEntries,
    candidate_appendEntries, leader_appendEntries, Term, get_rc.
  apply keeps_bind; [exact _|apply keeps_gets; exact _|]. intros r. destruct (data r), ev; cbn [event_term] in Ht; keeps_auto.
Qed.
Lemma kp_handled ev : is_int32 (event_term ev) -> is_trans ev = false -> keeps (stable K) (processor_event ev).
Proof. intros Ht Hi. pose proof (kp_process ev Ht) as Hp. destruct ev; try done; cbn [processor_event]; keeps_auto. Qed.
Lemma kp_change_role f : keeps (same book) (match f with Some f => r ← gets role; r' ← trans f r; modify (set_role (Cmd := Cmd) r') | None => mret tt end).
Proof. keeps_auto. Qed.

(** startElection raises the term and does not save it. *)
Definition elects s s' : Prop := ballot s' = (term s + 1, voteFor s) /\ persister s' = persister s.

Lemma candidate_elects s :
  active (role s) = false -> 0 <= term s < 2147483647 -> post candidate_activate s (fun _ s' => elects s s').
Proof.
  intros Ha Ht. unfold candidate_activate. do 2 wp_step. rewrite Ha. cbn [negb when]. wp_step. apply post_modify.
  unfold startElection. wp_step. wp_step. apply post_modify. set (s1 := set_term _ _).
  assert (elects s s1) as H1. { unfold elects, ballot. simpl. rewrite to_int32_small; [done|]. unfold is_int32. lia. }
  clearbody s1. set (rest := _ ≫= _). assert (keeps (same book) rest) as Kr by (unfold rest; keeps_auto).
  intros u2 s2 E2 u3 s3 E3. injection (Kr _ _ _ E2) as E4 E5 E6. injection (bk_chUnlock _ _ _ E3) as E7 E8 E9.
  unfold elects, ballot in *. by rewrite E7, E8, E9, E4, E5, E6.
Qed.

Lemma kp_activate s :
  active (role s) = false -> 0 <= term s < 2147483647 ->
  post activate s (fun _ s' => (role_enum (role s) = CANDIDATE /\ elects s s') \/ (K s -> K s')).
Proof.
  intros Ha Ht. unfold activate. do 2 wp_step. destruct (data (role s)) eqn:Ed.
  - assert (keeps (stable K) (follower_activate (Cmd := Cmd))) as H by (unfold follower_activate; keeps_auto).
    intros u s' E. right. apply (H _ _ _ E).
  - intros u s' E. left. split; [unfold role_enum; by rewrite Ed|]. by apply (candidate_elects s Ha Ht u s').
  - assert (keeps (stable K) (leader_activate (Cmd := Cmd))) as H by (unfold leader_activate, Term, get_rc; keeps_auto).
    intros u s' E. right. apply (H _ _ _ E).
Qed.

(** A turn starts an election, or keeps [K]. *)
Lemma kp_turn s :
  gate_ok s -> queue_ok s -> 0 <= term s < 2147483647 ->
  post processor_turn s (fun _ s' => (exists rest, dead s = false /\ evCh s = TransEvent (Some candidateFromFollower) :: rest /\ elects s s') \/ (K s -> K s')).
Proof.
  intros Hg Hq Ht. unfold processor_turn. do 2 wp_step. destruct (dead s) eqn:Hd; [apply post_ret; by right|].
  destruct (evCh s) as [|ev rest] eqn:E; [done|]. wp_step. apply post_modify. wp_step.
  unfold queue_ok in Hq. rewrite E in Hq. apply Forall_cons in Hq as [Hev _]. set (s0 := set_evCh rest s).
  assert (K s -> K s0) as H0 by (by apply K_book).
  eapply (post_mono _ _ (fun _ s' => _)); [|intros u s1 H; apply post_ret; exact H].
  destruct (is_trans ev) eqn:Et; [|intros u s' E'; right; intros H; by apply (kp_handled ev Hev Et _ _ _ E'), H0].
  destruct ev as [f| | | | | | | | | | | | | |]; try done. cbn [processor_event]. wp_step.
  destruct (pop_trans _ _ _ E Hg Hd) as [Ho Hf]. intros u1 s1 E1. pose proof (kp_change_role f s0 u1 s1 E1) as B.
  assert (gate_open s1 /\ (role_enum (role s1) = CANDIDATE -> f = Some candidateFromFollower)) as [(_ & Ha & _) Hk].
  { destruct f as [f|].
    - destruct Ho as (A1 & A2 & A3 & A4). split; [by apply (trans_open f s0 A1 A2 A3 A4 u1 s1)|].
      rewrite bind_gets in E1. apply bind_inv in E1 as (r' & s2 & E1 & E2). injection E2 as _ <-. simpl. revert E1.
      unfold trans. destruct f, (data (role s0)); try done; intros [= <- _]; done.
    - injection E1 as _ <-. split; [done|]. intros Hc. unfold fits in Hf. change (role s0) with (role s) in Hc. congruence. }
  pose proof B as B'. injection B' as B1 B2 B3. eapply post_mono; [apply kp_activate; [done|by rewrite B1]|].
  intros u2 s2 [[Hc He]|H].
  - left. exists rest. rewrite (Hk Hc). split; [done|]. split; [done|]. unfold elects in *. by rewrite B1, B2, B3 in He.
  - right. intros HK. apply H. apply (K_book s0); auto.
Qed.
End kept.

(** ** The saved term *)

(** It is [T] at least, and the peer is not behind it. *)
Definition term_kept (T : Z) s : Prop := T <= stored_term s <= term s.

Section term.
Context (T : Z).
Lemma tk_book s s' : same book s s' -> term_kept T s -> term_kept T s'.
Proof. unfold same, book, term_kept, stored_term. by intros [= -> _ ->]. Qed.
Lemma tk_saved s s' : saved s' -> ballot s' = ballot s -> term_kept T s -> term_kept T s'.
Proof. intros H [= E _] [H1 H2]. unfold term_kept. rewrite (saved_term _ H), E. lia. Qed.
Lemma tk_raised s s' : raised s s' -> term_kept T s -> term_kept T s'.
Proof. unfold raised, term_kept. lia. Qed.
Lemma tk_elects s s' : elects s s' -> term_kept T s -> term_kept T s'.
Proof. unfold elects, ballot, term_kept, stored_term. intros [[= -> _] ->]. lia. Qed.

Lemma turn_term s :
  gate_ok s -> queue_ok s -> 0 <= term s < 2147483647 -> post processor_turn s (fun _ s' => term_kept T s -> term_kept T s').
Proof.
  intros Hg Hq Ht. eapply post_mono; [by apply (kp_turn (term_kept T) tk_book tk_saved tk_raised)|].
  intros b s' [(rest & _ & _ & H)|H]; [by apply tk_elects|done].
Qed.
Lemma applier_term accept : keeps (stable (term_kept T)) (applier_turn (Cmd := Cmd) accept).
Proof. by apply (kp_applier_turn _ tk_book tk_saved). Qed.
Lemma transRole_term f : keeps (stable (term_kept T)) (transRole (Cmd := Cmd) f).
Proof. apply (kp_book _ tk_book), bk_transRole. Qed.
End term.

(** * After a crash *)

Lemma newLogs_whole (p : PersistentLogs Cmd) sn lg :
  p_Snapshot p = None -> newLogs (Some p) sn tt = Done lg tt ->
  exists q, lg = mkLogs (p_Entries p) (p_Lci p) (p_Lli p) (p_Lai p) (p_NoopCount p) (p_Offset p) q None Unlocked.
Proof.
  unfold newLogs. intros ->. unfold mbind, M_bind, mret, M_ret. simpl. case_match; [|intros [= <-]; eauto].
  unfold go_slice. case_decide; [|done]. intros [= <-]. unfold set_applier. simpl. eauto.
Qed.

(** A peer that Make starts from the persister of [s] has the log of [s] and the term that was saved. *)
Lemma Make_recovers n self s s' :
  logs_ok s -> Make n self (persister s) tt = Done s' tt ->
  logs_ok s' /\ the_log s' = the_log s /\ term s' = stored_term s /\ stored_term s' = stored_term s /\
  lead s' = None /\ role_enum (role s') = FOLLOWER /\ evCh s' = [TransEvent None].
Proof.
  intros [R U N Y] E. pose proof Y as [Y1 [[Y2 Y3]|(s0 & Y2 & Y3 & Y4)]]; unfold Make, ReadRaftState, ReadSnapshot in E;
    rewrite !clone_id in E.
  - rewrite Y1, Y2, gob_empty in E. injection E as <-. unfold stored_term. simpl. rewrite Y2, gob_empty.
    split; [|done]. constructor; try done. split; [done|]. by left.
  - unfold stored_term. rewrite (gob_roundtrip _ _ Y2) in E |- *. apply bind_inv in E as (lg & [] & El & E). injection E as <-.
    apply newLogs_whole in El as [q ->]; [|simpl; by rewrite Y4]. simpl. rewrite (gob_roundtrip _ _ Y2).
    pose proof (rep_snapshot _ _ Y3) as Ho. rewrite Y4 in Ho.
    assert (entries (logs s0) = the_log s) as Ee. { rewrite (rep_entries _ _ Y3), Ho. done. }
    split; [|done]. constructor; try done.
    + unfold the_log. simpl. rewrite Ee. destruct Y3. constructor; simpl; try done. by rewrite Ho.
    + split; [done|]. right. exists s0. unfold the_log. simpl. rewrite Ee. done.
Qed.
End peer_store.
