(* ===== verification/PeerVotes.v ===== *)
(** What a turn of a peer's event loop does to the votes: the vote the peer has given and the one it has
    saved, the votes it has counted as a candidate, and the requests and answers it sends
    (raft/follower.go, candidate.go, leader.go). *)

From S2P Require Import Prelude BitVec RaftTypes Persist Logs LogsSpec Applied ReplCounter Roles Gate Votes Election PeerLog.
From S2P Require Import PeerTurn PeerStore.

Section peer_votes.
Context {Cmd : Type} `{!Gob Cmd, !GobRegistered Cmd}.
Implicit Types s : Raft Cmd.

(** * The vote given *)

(** The vote of term [T] went to [c]: the peer, and what it would restart with, are past [T], or in it with
    the vote for [c] or none. *)
Definition vote_kept (T c : Z) s : Prop :=
  term_kept T s /\ (term s = T -> voteFor s = c \/ voteFor s = -1) /\
  (stored_term s = T -> stored_vote s = c \/ stored_vote s = -1).

(** The saved ballot is not ahead of the peer's. *)
Definition store_agrees s : Prop :=
  stored_term s <= term s /\ (stored_term s = term s -> stored_vote s = -1 \/ stored_vote s = voteFor s).

(** The term is saved, or it is the one that it was. *)
Definition settled (t st : Z) s : Prop := stored_term s = term s \/ (term s = t /\ stored_term s = st).

Lemma book_eqs s s' : same book s s' ->
  term s' = term s /\ voteFor s' = voteFor s /\ stored_term s' = stored_term s /\ stored_vote s' = stored_vote s.
Proof. unfold same, book, stored_term, stored_vote. by intros [= -> -> ->]. Qed.
Lemma elects_eqs s s' : elects s s' ->
  term s' = term s + 1 /\ voteFor s' = voteFor s /\ stored_term s' = stored_term s /\ stored_vote s' = stored_vote s.
Proof. unfold elects, ballot, stored_term, stored_vote. by intros [[= -> ->] ->]. Qed.
Lemma saved_eqs s s' : saved s' -> ballot s' = ballot s ->
  term s' = term s /\ voteFor s' = voteFor s /\ stored_term s' = term s /\ stored_vote s' = voteFor s.
Proof. intros H [= E1 E2]. by rewrite (saved_term _ H), (saved_vote _ H), E1, E2. Qed.

Ltac kept_by :=
  match goal with
  | H : same book _ _ |- _ => apply book_eqs in H
  | H : elects _ _ |- _ => apply elects_eqs in H
  | H : saved ?s, H' : ballot ?s = _ |- _ => pose proof (saved_eqs _ _ H H')
  | H : raised _ _ |- _ => idtac
  end; unfold vote_kept, term_kept, store_agrees, settled, raised in *; destruct_and?; lia.

Lemma vote_turn T c s :
  gate_ok s -> queue_ok s -> 0 <= term s < 2147483647 ->
  post processor_turn s (fun _ s' => vote_kept T c s -> vote_kept T c s').
Proof.
  intros Hg Hq Ht. eapply post_mono; [apply (kp_turn (vote_kept T c)); try done; intros s1 s2 ?; intros; kept_by|].
  intros b s' [(rest & _ & _ & H)|H]; [|done]. intros Hk. kept_by.
Qed.
Lemma vote_applier T c accept : keeps (stable (vote_kept T c)) (applier_turn (Cmd := Cmd) accept).
Proof. apply kp_applier_turn; intros s1 s2 ?; intros; kept_by. Qed.

Lemma agrees_turn s :
  gate_ok s -> queue_ok s -> 0 <= term s < 2147483647 ->
  post processor_turn s (fun _ s' => store_agrees s -> store_agrees s').
Proof.
  intros Hg Hq Ht. eapply post_mono; [apply (kp_turn store_agrees); try done; intros s1 s2 ?; intros; kept_by|].
  intros b s' [(rest & _ & _ & H)|H]; [|done]. intros Hk. kept_by.
Qed.
Lemma agrees_applier accept : keeps (stable store_agrees) (applier_turn (Cmd := Cmd) accept).
Proof. apply kp_applier_turn; intros s1 s2 ?; intros; kept_by. Qed.

Lemma settled_applier t st accept : keeps (stable (settled t st)) (applier_turn (Cmd := Cmd) accept).
Proof. apply kp_applier_turn; intros s1 s2 ?; intros; kept_by. Qed.

Lemma settled_turn s :
  gate_ok s -> queue_ok s -> 0 <= term s < 2147483647 ->
  post processor_turn s (fun _ s' => (exists rest, dead s = false /\ evCh s = TransEvent (Some candidateFromFollower) :: rest) \/
    settled (term s) (stored_term s) s').
Proof.
  intros Hg Hq Ht. eapply post_mono;
    [apply (kp_turn (settled (term s) (stored_term s))); try done; intros s1 s2 ?; intros; kept_by|].
  intros b s' [(rest & H1 & H2 & _)|H]; [left; eauto|]. right. apply H. by right.
Qed.

(** * What is sent *)

(** Neither a request for a vote nor the answer to one. *)
Definition quiet (o : Output) : Prop := match o with OutVote _ _ true | CallRequestVote _ _ => False | _ => True end.

Definition voice s := (peers s, me s, majorN s, outbox s).

Definition says (P : Output -> Prop) s s' : Prop :=
  (peers s', me s', majorN s') = (peers s, me s, majorN s) /\ exists new, outbox s' = outbox s ++ new /\ Forall P new.

#[export] Instance says_preorder P : PreOrder (says P).
Proof.
  split; [intros s; split; [done|]; exists []; by rewrite app_nil_r|].
  intros s1 s2 s3 [E1 (n1 & O1 & P1)] [E2 (n2 & O2 & P2)]. split; [congruence|]. exists (n1 ++ n2).
  rewrite O2, O1, app_assoc. split; [done|]. by apply Forall_app.
Qed.
Lemma says_voice P s s' : same voice s s' -> says P s s'.
Proof. unfold same, voice. intros [= E1 E2 E3 E4]. split; [congruence|]. exists []. by rewrite app_nil_r. Qed.

Lemma vo_says {A} (m : M (Raft Cmd) A) : keeps (same voice) m -> keeps (says quiet) m.
Proof. apply keeps_mono. apply says_voice. Qed.
Lemma vo_frames {A} (m : M (Raft Cmd) A) : keeps (same outside_logs) m -> keeps (same voice) m.
Proof. apply keeps_mono. unfold same, outside_logs, voice. by intros s s' [= -> -> _ -> _ _ _ _ _ ->]. Qed.
#[local] Hint Extern 2 (keeps (same voice) _) => (apply vo_frames; solve [eauto with keeps]) : keeps.
#[local] Hint Extern 3 (keeps (says quiet) _) => (apply vo_says; solve [eauto with keeps]) : keeps.

Lemma vo_set_data d : keeps (same voice) (set_data (Cmd := Cmd) d).
Proof. by apply keeps_modify. Qed.
Lemma vo_set_active b : keeps (same voice) (set_active (Cmd := Cmd) b).
Proof. by apply keeps_modify. Qed.
Lemma vo_put_event ev : keeps (same voice) (put_event (Cmd := Cmd) ev).
Proof. by apply keeps_chan_send. Qed.
Lemma vo_chLock : keeps (same voice) (chLock_Lock (Cmd := Cmd)).
Proof. by apply keeps_Lock. Qed.
Lemma vo_chUnlock : keeps (same voice) (chLock_Unlock (Cmd := Cmd)).
Proof. by apply keeps_Unlock. Qed.
Lemma vo_set_role r : keeps (same voice) (modify (set_role (Cmd := Cmd) r)).
Proof. by apply keeps_modify. Qed.
Lemma vo_set_dead b : keeps (same voice) (modify (set_dead (Cmd := Cmd) b)).
Proof. by apply keeps_modify. Qed.
Lemma vo_set_term v : keeps (same voice) (modify (set_term (Cmd := Cmd) v)).
Proof. by apply keeps_modify. Qed.
Lemma vo_raise_term f : keeps (same voice) (modify (fun s : Raft Cmd => set_term (f s) s)).
Proof. by apply keeps_modify. Qed.
Lemma vo_set_voteFor v : keeps (same voice) (modify (set_voteFor (Cmd := Cmd) v)).
Proof. by apply keeps_modify. Qed.
Lemma says_emit P o : P o -> keeps (says P) (emit (Cmd := Cmd) o).
Proof. intros H. apply keeps_modify. intros s. split; [done|]. exists [o]. split; [done|]. by constructor. Qed.
#[local] Hint Resolve vo_set_data vo_set_active vo_put_event vo_chLock vo_chUnlock vo_set_role vo_set_dead vo_set_term
  vo_raise_term vo_set_voteFor : keeps.
#[local] Hint Extern 1 (keeps (says quiet) (emit _)) => (apply says_emit; exact I) : keeps.

Lemma vo_setTerm t : keeps (same voice) (setTerm (Cmd := Cmd) t).
Proof. unfold setTerm, Term. keeps_auto. Qed.
Lemma vo_stop : keeps (same voice) (stop (Cmd := Cmd)).
Proof. unfold stop. keeps_auto. Qed.
#[local] Hint Resolve vo_setTerm vo_stop : keeps.
Lemma vo_transRole f : keeps (same voice) (transRole (Cmd := Cmd) f).
Proof. unfold transRole. keeps_auto. Qed.
Lemma vo_tick : keeps (same voice) (tickHeartBeatTimer (Cmd := Cmd)).
Proof. unfold tickHeartBeatTimer. keeps_auto. Qed.
Lemma vo_trans f r : keeps (same voice) (trans (Cmd := Cmd) f r).
Proof. unfold trans. keeps_auto. Qed.
#[local] Hint Resolve vo_transRole vo_tick vo_trans : keeps.
Lemma vo_auditVote t v : keeps (same voice) (auditVote (Cmd := Cmd) t v).
Proof. unfold auditVote. keeps_auto. Qed.
Lemma vo_follower_requestVote args r : keeps (same voice) (follower_requestVote (Cmd := Cmd) args r).
Proof. unfold follower_requestVote. keeps_auto. Qed.
Lemma vo_candidate_requestVote args r : keeps (same voice) (candidate_requestVote (Cmd := Cmd) args r).
Proof. unfold candidate_requestVote. keeps_auto. Qed.
Lemma vo_leader_requestVote args r : keeps (same voice) (leader_requestVote (Cmd := Cmd) args r).
Proof. unfold leader_requestVote, Term. keeps_auto. Qed.
#[local] Hint Resolve vo_auditVote vo_follower_requestVote vo_candidate_requestVote vo_leader_requestVote : keeps.

Definition is_ask (ev : Event Cmd) : bool := match ev with RequestVoteEvent _ _ _ => true | _ => false end.

Lemma says_process ev : is_ask ev = false -> keeps (says quiet) (process ev).
Proof.
  intros Hr. unfold process, follower_process, candidate_process, leader_process, follower_appendEntries,
    candidate_appendEntries, leader_appendEntries, Term, get_rc.
  apply keeps_bind; [exact _|apply keeps_gets; exact _|]. intros r. destruct (data r), ev; try done; keeps_auto.
Qed.
Lemma says_discardEv ev : keeps (says quiet) (discardEv (Cmd := Cmd) ev).
Proof. unfold discardEv. keeps_auto. Qed.
#[local] Hint Resolve says_process says_discardEv : keeps.
Lemma says_handled ev : is_trans ev = false -> is_ask ev = false -> keeps (says quiet) (processor_event ev).
Proof. intros Ht Hr. pose proof (says_process ev Hr). destruct ev; try done; cbn [processor_event]; keeps_auto. Qed.

(** Activation asks for votes as a candidate, and for none otherwise. *)
Definition asks s (o : Output) : Prop :=
  quiet o \/ exists j args, o = CallRequestVote j args /\ CandidateID args = me s /\ j ∈ other_peers s.

Lemma says_mono (P Q : Output -> Prop) s s' : (forall o, P o -> Q o) -> says P s s' -> says Q s s'.
Proof. intros H [E (new & O & F)]. split; [done|]. exists new. split; [done|]. by eapply Forall_impl. Qed.

Lemma other_peers_voice s s' : (peers s', me s', majorN s') = (peers s, me s, majorN s) -> other_peers s' = other_peers s.
Proof. unfold other_peers. by intros [= -> -> _]. Qed.

Lemma says_each P {A} (l : list A) (f : A -> Output) :
  (forall x, x ∈ l -> P (f x)) -> keeps (says P) (for_each l (fun x => emit (Cmd := Cmd) (f x))).
Proof.
  induction l as [|x l IH]; intros H; simpl; [apply keeps_ret; exact _|].
  apply keeps_bind; [exact _|apply says_emit, H; by left|]. intros _. apply IH. intros y Hy. apply H. by right.
Qed.

Lemma says_activate s : post activate s (fun _ s' => says (asks s) s s').
Proof.
  unfold activate. do 2 wp_step. destruct (data (role s)); intros u s' E.
  - apply (says_mono quiet); [by left|]. revert E. refine ((_ : keeps _ follower_activate) s u s'). unfold follower_activate. keeps_auto.
  - unfold candidate_activate in E. rewrite bind_gets in E. destruct (active (role s)); [by injection E as _ <-|].
    cbn [negb when] in E. unfold set_active in E. rewrite bind_modify in E. set (s1 := set_role _ s) in E.
    assert (same voice s s1) as H1 by done. clearbody s1. apply bind_inv in E as ([] & s2 & E2 & E).
    etrans; [by apply says_voice|]. etrans; [|apply says_voice; by eapply vo_chUnlock].
    unfold startElection in E2. rewrite bind_modify, bind_gets in E2. set (s3 := set_term _ s1) in E2.
    assert (same voice s1 s3) as H3 by done. clearbody s3. etrans; [by apply says_voice|].
    unfold same, voice in H1, H3. assert ((peers s3, me s3, majorN s3) = (peers s, me s, majorN s)) as H4 by congruence.
    revert E2. set (m := mbind _ _). enough (keeps (says (asks s)) m) as Km by apply Km. unfold m.
    apply keeps_bind; [exact _|destruct (data (role s3)); try (apply keeps_ret; exact _); eapply keeps_mono; [apply says_voice|apply vo_set_data]|].
    intros _. apply keeps_bind; [exact _|eapply keeps_mono; [apply says_voice|apply vo_frames, frames_lastLogInfo]|]. intros info.
    apply keeps_bind; [exact _| |].
    + apply says_each. intros j Hj. right. rewrite (other_peers_voice _ _ H4) in Hj. injection H4 as _ H5 _.
      eexists _, _. split; [done|]. by rewrite <- H5.
    + intros _. eapply keeps_mono; [apply says_voice|]. unfold setElecTimer. keeps_auto.
  - apply (says_mono quiet); [by left|]. revert E. refine ((_ : keeps _ leader_activate) s u s').
    unfold leader_activate, startReplication, Term, get_rc. keeps_auto.
Qed.

(** The vote goes to the candidate that asks, in its term, in which the peer has not voted before or has voted for it. *)
Definition given (args : RequestVoteArgs) s s' : Prop :=
  term s' = rv_Term args /\ voteFor s' = CandidateID args /\ (raised s s' \/ (same book s s' /\ CandidateID args = voteFor s)).

Definition replied (args : RequestVoteArgs) s (r : RequestVoteReply) s' : Prop :=
  same voice s s' /\ (VoteStatus_ r = VOTE_GRANTED -> given args s s').

Lemma answer_given args s r s' :
  vote_answer args s r s' -> same voice s s' ->
  raised s s' \/ s' = s /\ (VoteStatus_ r = VOTE_GRANTED -> CandidateID args = voteFor s) -> replied args s r s'.
Proof.
  intros [_ H1] H2 H3. split; [done|]. intros Hr. destruct (H1 Hr) as [H4 H5]. split; [done|]. split; [done|].
  destruct H3 as [H3|[-> H3]]; [by left|]. right. split; [done|auto].
Qed.

Lemma ask_replied args r0 ch s : is_int32 (rv_Term args) ->
  post (process (RequestVoteEvent args r0 ch)) s (fun _ s' => exists r s1,
    replied args s r s1 /\ s' = set_outbox (outbox s ++ [OutVote ch r true]) s1).
Proof.
  intros Ht. unfold process. do 2 wp_step.
  assert (forall m : M (Raft Cmd) RequestVoteReply, post m s (replied args s) ->
    post (r ← m; emit (OutVote ch r true)) s (fun _ s' => exists r s1,
      replied args s r s1 /\ s' = set_outbox (outbox s ++ [OutVote ch r true]) s1)) as Hm.
  { intros m Hm. wp_step. eapply post_mono; [exact Hm|]. intros r s1 H. apply post_modify. exists r, s1. split; [done|].
    destruct H as [H _]. unfold same, voice in H. f_equal. congruence. }
  destruct (data (role s)); cbn [follower_process candidate_process leader_process]; apply Hm; intros r s1 E.
  - apply answer_given; [by apply (follower_requestVote_answer args r0 s Ht)|by eapply vo_follower_requestVote|by eapply follower_requestVote_book].
  - apply answer_given; [by apply (candidate_requestVote_answer args r0 s Ht)|by eapply vo_candidate_requestVote|by eapply candidate_requestVote_book].
  - apply answer_given; [by apply (leader_requestVote_answer args r0 s Ht)|by eapply vo_leader_requestVote|by eapply leader_requestVote_book].
Qed.

(** A turn answers at most the request it took from the queue, or asks for votes in an election. *)
Definition votes_of s s' (o : Output) : Prop :=
  match o with
  | OutVote ch r true => exists args r0 rest, dead s = false /\ evCh s = RequestVoteEvent args r0 ch :: rest /\
      (VoteStatus_ r = VOTE_GRANTED -> given args s s')
  | CallRequestVote j args => CandidateID args = me s /\ j ∈ other_peers s
  | _ => True
  end.

Lemma quiet_votes s s' o : quiet o -> votes_of s s' o.
Proof. destruct o as [? ? []| | | | | | |]; done. Qed.
Lemma turn_says s : queue_ok s -> post processor_turn s (fun _ s' => says (votes_of s s') s s').
Proof.
  intros Hq. unfold processor_turn. do 2 wp_step. destruct (dead s) eqn:Hd; [by apply post_ret|].
  destruct (evCh s) as [|ev rest] eqn:E; [done|]. wp_step. apply post_modify. wp_step. set (s0 := set_evCh rest s).
  unfold queue_ok in Hq. rewrite E in Hq. apply Forall_cons in Hq as [Hev _].
  eapply (post_mono _ _ (fun _ s' => says (votes_of s s') s s')); [|intros u s1 H; by apply post_ret].
  destruct (is_trans ev) eqn:Et; [|destruct (is_ask ev) eqn:Ea].
  - destruct ev as [f| | | | | | | | | | | | | |]; try done. cbn [processor_event]. wp_step. intros u s1 E1 u2 s2 E2.
    assert (same voice s0 s1) as H1.
    { refine ((_ : keeps (same voice) (match f with Some f => r ← gets role; r' ← trans f r; modify (set_role r') | None => mret tt end)) s0 u s1 E1).
      destruct f; keeps_auto. }
    change (same voice s s1) in H1. apply (says_mono (asks s1)).
    + intros o [H|(j & args & -> & H2 & H3)]; [by apply quiet_votes|]. unfold same, voice in H1. injection H1 as H4 H5 H6 _.
      rewrite (other_peers_voice s s1) in H3 by congruence. simpl. rewrite H2. auto.
    + etrans; [by apply says_voice|]. by apply (says_activate s1 u2 s2).
  - destruct ev as [|args r0 ch| | | | | | | | | | | | |]; try done. cbn [processor_event]. do 2 wp_step.
    destruct (closed _).
    + apply post_modify. split; [done|]. exists [OutVote ch r0 false]. split; [done|]. by constructor.
    + eapply post_mono; [by apply ask_replied|]. intros u s' (r & s1 & [H1 H2] & ->). unfold same, voice in H1. injection H1 as H3 H4 H5 H6.
      split; [simpl; congruence|]. eexists [_]. split; [done|]. constructor; [|done]. exists args, r0, rest. auto.
  - intros u s' E'. apply (says_mono quiet); [apply quiet_votes|]. by apply (says_handled ev Et Ea s0 u s').
Qed.

(** * The votes counted *)

Definition is_yes (T : Z) (ev : Event Cmd) : bool := match ev with VoteGrantEvent t _ => t =? T | _ => false end.
Definition steps_down (ev : Event Cmd) : bool :=
  match ev with TransEvent (Some followerFromCandidate) => true | _ => false end.

(** A candidate that is not about to be a follower again. *)
Definition counting s : bool := bool_decide (role_enum (role s) = CANDIDATE) && negb (existsb steps_down (evCh s)).
(** The votes of term [T] that it has counted, and those in its queue. *)
Definition slots (T : Z) s : Z :=
  match data (role s) with Candidate _ voters _ => if counting s && (term s =? T) then granted voters else 0 | _ => 0 end.
Definition pend (T : Z) s : Z := count_if (is_yes T) (evCh s).

Lemma count_plain T (q : list (Event Cmd)) : count_if (is_yes T) (plain q) = count_if (is_yes T) q.
Proof.
  unfold plain. induction q as [|ev q IH]; [done|]. rewrite count_if_cons, filter_cons. destruct ev; simpl; rewrite ?count_if_cons; simpl; lia.
Qed.
Lemma pend_others T s : pend T s = count_if (is_yes T) (others s).
Proof. unfold pend, others. by rewrite count_plain. Qed.

Lemma slots_other T s : kind s <> CANDIDATE -> slots T s = 0.
Proof. unfold slots, kind, role_enum. by destruct (data (role s)). Qed.
Lemma counting_kind s : counting s = true -> kind s = CANDIDATE.
Proof. unfold counting. by intros [?%bool_decide_eq_true _]%andb_true_iff. Qed.
Lemma slots_down T s : existsb steps_down (evCh s) = true -> slots T s = 0 /\ counting s = false.
Proof.
  intros H. unfold slots, counting. rewrite H, andb_false_r. split; [|done]. by destruct (data (role s)).
Qed.

Lemma slots_pos T s : 0 <= slots T s.
Proof. unfold slots. repeat case_match; try lia. apply count_if_bounds. Qed.

(** What they depend on. *)
Definition tally_part s :=
  (match data (role s) with Candidate _ vs _ => Some vs | _ => None end, existsb steps_down (evCh s), term s).
Lemma tally_same s s' : same tally_part s s' -> (forall T, slots T s' = slots T s) /\ counting s' = counting s.
Proof.
  unfold same, tally_part, slots, counting, role_enum. intros [= E -> ->].
  destruct (data (role s)), (data (role s')); by simplify_eq.
Qed.

(** The peer is a candidate at work. *)
Definition stands_now s : Prop := active (role s) = true /\ kind s = CANDIDATE.

(** What a turn does: votes are counted as they are taken from the queue, and a peer is counting after the turn if it stands
    for election or was counting before. *)
Definition tally_step s s' : Prop :=
  (forall T, slots T s' + pend T s' <= slots T s + pend T s) /\
  (counting s' = true -> stands_now s' \/ (counting s = true /\ term s' = term s)).

Definition down s : Prop := existsb steps_down (evCh s) = true.

Lemma down_transRole s : active (role s) = true -> post (transRole followerFromCandidate) s (fun _ s' => down s').
Proof.
  intros Ha u s' E. apply transRole_inv in E. rewrite Ha in E. subst s'. unfold down. simpl. rewrite existsb_app.
  simpl. apply orb_true_r.
Qed.
Lemma down_kept {A} (m : M (Raft Cmd) A) s : keeps (same evCh) m -> down s -> post m s (fun _ s' => down s').
Proof. intros Km H a s' E. unfold down. by rewrite (Km _ _ _ E). Qed.
Lemma active_setTerm t s : post (setTerm (Cmd := Cmd) t) s (fun _ s' => active (role s') = active (role s)).
Proof. intros u s' E. by injection (part_setTerm t s u s' E). Qed.

Lemma active_when_setTerm (c : bool) t s :
  active (role s) = true -> post (when c (setTerm (Cmd := Cmd) t)) s (fun _ s' => active (role s') = true).
Proof. intros Ha. destruct c; [|by apply post_ret]. eapply post_mono; [apply active_setTerm|]. by intros u s' ->. Qed.

Lemma candidate_process_down ev s :
  active (role s) = true -> (forall t v, ev <> VoteGrantEvent t v) ->
  post (candidate_process ev) s (fun _ s' => same tally_part s s' \/ down s').
Proof.
  intros Ha Hev. destruct ev; cbn [candidate_process]; try (by apply post_ret; left); unfold Term.
  - unfold candidate_requestVote. wp_step. do 2 wp_step. do 2 (case_bool; [try case_bool; apply post_ret, post_modify; by left|]).
    wp_step. eapply post_mono; [apply active_setTerm|]. intros u1 s1 H1. wp_step.
    eapply post_mono; [apply down_transRole; congruence|]. intros u2 s2 H2.
    match goal with |- post ?m _ _ => assert (post m s2 (fun _ s' => down s')) as Hd end.
    { apply down_kept; [|done]. apply keeps_bind; [exact _|apply ev_frames, frames_atLeastUpToDate|]. intros []; keeps_auto. apply ev_set_voteFor. }
    eapply post_mono; [exact Hd|]. intros r s3 H3. apply post_modify. by right.
  - unfold candidate_appendEntries, Term. wp_step. do 2 wp_step. case_bool; [|apply post_ret, post_modify; by left].
    wp_step. eapply post_mono; [by apply active_when_setTerm|].
    intros u1 s1 H1. wp_step. eapply post_mono; [by apply down_transRole|]. intros u2 s2 H2. apply post_ret, post_modify. by right.
  - eapply post_mono; [by apply down_transRole|]. by right.
  - by destruct (Hev vg_term voter).
  - do 2 wp_step. wp_step. eapply post_mono; [by apply active_when_setTerm|].
    intros u1 s1 H1. eapply post_mono; [by apply down_transRole|]. by right.
Qed.

Lemma no_down (q : list (Event Cmd)) : trans_events q = [] -> existsb steps_down q = false.
Proof.
  unfold trans_events. induction q as [|ev q IH]; [done|]. rewrite filter_cons. case_decide as H; [done|].
  intros E. simpl. rewrite (IH E). by destruct ev.
Qed.

Lemma audited_tally t voter votes voters tm s :
  role s = mkRole true (Candidate votes voters tm) -> 0 <= voter < lenZ voters -> trans_events (evCh s) = [] ->
  (forall T, slots T (audited t voter votes voters tm s) <= slots T s + (if t =? T then 1 else 0)) /\
  term (audited t voter votes voters tm s) = term s.
Proof.
  intros Hr Hv Hq. unfold audited. destruct (nthZ_in_range _ _ Hv) as [b Hb]. rewrite Hb. simpl.
  destruct (_ || _) eqn:E; [split; [intros T; case_match; lia|done]|]. apply orb_false_iff in E as [Et ->].
  apply negb_false_iff, Z.eqb_eq in Et. assert (voters !! Z.to_nat voter = Some false) as Hb' by (unfold nthZ in Hb; by case_decide).
  pose proof (no_down _ Hq) as Hd. set (s1 := set_role _ s).
  assert (forall s2, data (role s2) = Candidate (votes + 1) (<[Z.to_nat voter := true]> voters) (match data (role s2) with Candidate _ _ tm => tm | _ => tm end) ->
    existsb steps_down (evCh s2) = false -> term s2 = term s ->
    forall T, slots T s2 <= slots T s + (if t =? T then 1 else 0)) as H.
  { intros s2 H1 H2 H3 T. unfold slots, counting, role_enum. rewrite H1, H2, H3, Hr, Hd. simpl.
    rewrite (granted_insert _ _ Hb'). rewrite Et. destruct (t =? T); lia. }
  destruct (majorN s <=? votes + 1).
  - split; [|done]. apply H; [done| |done]. simpl. rewrite existsb_app, Hd. done.
  - split; [|done]. by apply H.
Qed.

Lemma candidate_tally ev s :
  active (role s) = true -> kind s = CANDIDATE -> trans_events (evCh s) = [] ->
  post (candidate_process ev) s (fun _ s' => (forall T, slots T s' <= slots T s + (if is_yes T ev then 1 else 0)) /\
    (counting s' = true -> term s' = term s)).
Proof.
  intros Ha Hk Hq. assert ((exists t v, ev = VoteGrantEvent t v) \/ forall t v, ev <> VoteGrantEvent t v) as Hev.
  { destruct ev; try (right; congruence). left; eauto. }
  destruct Hev as [(t & v & ->)|Hev]; intros u s' E.
  - cbn [candidate_process is_yes] in *. apply auditVote_inv in E as [->|(vs & vrs & tm & Hr & Hv & ->)]; [| |done].
    + split; [intros T; case_match; lia|done].
    + destruct (audited_tally t v vs vrs tm s Hr Hv Hq) as [H1 H2]. auto.
  - destruct (candidate_process_down ev s Ha Hev u s' E) as [H|H].
    + destruct (tally_same _ _ H) as [H1 H2]. split; [intros T; rewrite H1; case_match; lia|]. injection H. auto.
    + split; [|destruct (slots_down 0 _ H); congruence]. intros T. destruct (slots_down T _ H) as [-> _].
      pose proof (slots_pos T s). case_match; lia.
Qed.

(** A new candidate has no votes but its own. *)
Lemma granted_none n : granted (replicate n false) = 0.
Proof. unfold granted. induction n as [|n IH]; [done|]. simpl. rewrite count_if_cons. lia. Qed.

Lemma candidate_fresh s votes voters tm :
  data (role s) = Candidate votes voters tm -> active (role s) = false ->
  post candidate_activate s (fun _ s' => stands_now s' /\ forall T, slots T s' = 0).
Proof.
  intros Hd Ha. unfold candidate_activate. do 2 wp_step. rewrite Ha. cbn [negb when]. wp_step. apply post_modify. wp_step.
  unfold startElection. wp_step. apply post_modify. do 2 wp_step. simpl. rewrite Hd. wp_step. apply post_modify.
  set (s1 := set_role _ _). set (rest := _ ≫= _).
  assert (keeps (same ballot_box) rest) as K1.
  { unfold rest. apply keeps_bind; [exact _|apply box_frames, frames_lastLogInfo|]. intros info.
    apply keeps_bind; [exact _|apply keeps_for_each; [exact _|]; intros j; apply box_emit|]. intros _. apply box_setElecTimer. }
  assert (keeps (same (fun s : Raft Cmd => active (role s))) rest) as K2.
  { unfold rest. apply keeps_bind; [exact _| |].
    - eapply keeps_mono; [|apply role_frames, frames_lastLogInfo]. unfold same. by intros x y ->.
    - intros info. unfold setElecTimer. keeps_auto; by apply keeps_modify. }
  intros u2 s2 E2 u3 s3 E3. pose proof (K1 _ _ _ E2) as B2. pose proof (K2 _ _ _ E2) as A2.
  pose proof (box_chUnlock _ _ _ E3) as B3. pose proof (role_chUnlock _ _ _ E3) as R3. unfold same in *.
  rewrite <- B3 in B2 at 1. injection B2 as B2 _ _ _.
  assert (exists tm', data (role s3) = Candidate 1 (replicate (Z.to_nat (peers s)) false) tm') as [tm' E4].
  { destruct (data (role s3)) eqn:Ed; try done. injection B2 as -> ->. eauto. }
  split.
  - split; [rewrite R3, A2; done|]. unfold kind, role_enum. by rewrite E4.
  - intros T. unfold slots. rewrite E4, granted_none. by destruct (_ && _).
Qed.

Lemma activate_votes s :
  active (role s) = false -> post activate s (fun _ s' => (forall T, slots T s' = 0) /\ (kind s' = CANDIDATE -> stands_now s')).
Proof.
  intros Ha. unfold activate. do 2 wp_step. destruct (data (role s)) eqn:Ed; intros u s' E.
  - assert (kind s' = FOLLOWER) as Hk.
    { apply (kind_follower_activate s u s' E). unfold is_kind, kind, role_enum. by rewrite Ed. }
    split; [intros T; apply slots_other|]; by rewrite Hk.
  - destruct (candidate_fresh s _ _ _ Ed Ha u s' E). auto.
  - assert (kind s' = LEADER) as Hk.
    { apply (kind_leader_activate s u s' E). unfold is_kind, kind, role_enum. by rewrite Ed. }
    split; [intros T; apply slots_other|]; by rewrite Hk.
Qed.

(** An event that is no role change. *)
Definition counts_on ev s s' : Prop :=
  (forall T, slots T s' <= slots T s + (if is_yes T ev then 1 else 0)) /\
  (counting s' = true -> counting s = true /\ term s' = term s).

Lemma counts_same ev s s' : same tally_part s s' -> counts_on ev s s'.
Proof.
  intros H. destruct (tally_same _ _ H) as [H1 H2]. split; [intros T; rewrite H1; case_match; lia|].
  rewrite H2. intros Hc. split; [done|]. by injection H.
Qed.
Lemma counts_other ev s s' : kind s' <> CANDIDATE -> counts_on ev s s'.
Proof.
  intros Hk. split; [|by intros Hc%counting_kind]. intros T. rewrite (slots_other _ _ Hk). pose proof (slots_pos T s). case_match; lia.
Qed.

Lemma process_counts ev s :
  gate_ok s -> dead s = false -> active (role s) = true -> post (process ev) s (fun _ s' => counts_on ev s s').
Proof.
  intros Hg Hd Ha u s' E. destruct (decide (kind s = CANDIDATE)) as [Hk|Hk].
  - specialize (Hg Hd). rewrite Ha in Hg. destruct Hg as [_ Hq]. unfold process in E. rewrite bind_gets in E.
    assert (candidate_process ev s = Done u s') as E'. { unfold kind, role_enum in Hk. by destruct (data (role s)). }
    destruct (candidate_tally ev s Ha Hk Hq u s' E') as [H1 H2]. split; [done|]. intros Hc. split; [|auto].
    unfold counting. rewrite (no_down _ Hq). unfold kind in Hk. by rewrite Hk.
  - apply counts_other. by rewrite (kind_process ev s Hg u s' E).
Qed.

Lemma tally_frames s s' : same outside_logs s s' -> same tally_part s s'.
Proof. unfold same, outside_logs, tally_part. by intros [= _ _ _ _ -> _ -> -> _ _]. Qed.

Lemma tally_stop s : post stop s (fun _ s' => same tally_part s s').
Proof.
  intros b s' E. pose proof (box_stop s b s' E) as B. assert (keeps (same term) (stop (Cmd := Cmd))) as Kt.
  { eapply keeps_mono; [|apply ballot_stop]. unfold same, ballot. by intros x y [= -> _]. }
  unfold same, tally_part, ballot_box in *. rewrite (Kt _ _ _ E). injection B as B -> _ _. f_equal. f_equal.
  destruct (data (role s)), (data (role s')); by simplify_eq.
Qed.

Lemma handled_tally ev s :
  gate_ok s -> dead s = false -> is_trans ev = false -> post (processor_event ev) s (fun _ s' => counts_on ev s s').
Proof.
  intros Hg Hd Ht. assert (post (r ← gets role; if closed r then discardEv ev else process ev) s (fun _ s' => counts_on ev s s')) as H.
  { do 2 wp_step. unfold closed. destruct (active (role s)) eqn:Ha; simpl; [by apply process_counts|].
    intros u s' E. apply counts_same. destruct ev; simpl in E; by injection E as _ <-. }
  destruct ev; try done; cbn [processor_event].
  - do 2 wp_step. destruct (closed _); [apply post_modify; by apply counts_same|]. wp_step.
    eapply post_mono; [apply frames_takeSnapshot|]. intros u s1 H1. apply post_modify. apply counts_same.
    apply (tally_frames _ _ H1).
  - wp_step. eapply post_mono; [apply tally_stop|]. intros b s1 H1. wp_step. apply post_modify. apply post_modify. by apply counts_same.
Qed.

Lemma turn_tally s : gate_ok s -> post processor_turn s (fun _ s' => tally_step s s').
Proof.
  intros Hg b s' Em. destruct (turn_others s b s' Em) as [[_ ->]|(ev & rest & Hd & E & Ho)]; [split; [lia|auto]|].
  set (s0 := set_evCh rest s).
  assert (forall T, pend T s = (if is_yes T ev then 1 else 0) + pend T s') as Hp.
  { intros T. rewrite (pend_others T s'), Ho, count_plain. unfold pend. by rewrite E, count_if_cons. }
  unfold processor_turn in Em. rewrite bind_gets, Hd, E, bind_modify in Em. fold s0 in Em.
  apply bind_inv in Em as ([] & s1 & Em & E1). injection E1 as _ <-. destruct (is_trans ev) eqn:Et.
  - destruct ev as [f| | | | | | | | | | | | | |]; try done. destruct (pop_trans _ _ _ E Hg Hd) as [(A1 & A2 & A3 & A4) _].
    cbn [processor_event] in Em. apply bind_inv in Em as ([] & s2 & E2 & Em).
    assert (active (role s2) = false) as Ha.
    { destruct f as [f|]; [|by injection E2 as <-]. by destruct (trans_open f s0 A1 A2 A3 A4 tt s2 E2) as (_ & ? & _). }
    destruct (activate_votes s2 Ha tt s1 Em) as [H1 H2]. split; [|intros Hc; left; by apply H2, counting_kind].
    intros T. rewrite H1, (Hp T). simpl. pose proof (slots_pos T s). lia.
  - assert (same tally_part s s0) as Hs. { unfold same, tally_part, s0. simpl. rewrite E. simpl. by destruct ev. }
    destruct (tally_same _ _ Hs) as [S1 S2]. pose proof (pop_other _ _ _ E Et Hg) as Hg'.
    destruct (handled_tally ev s0 Hg' Hd Et tt s1 Em) as [H1 H2]. split.
    + intros T. specialize (H1 T). rewrite (S1 T) in H1. rewrite (Hp T). lia.
    + intros Hc. right. rewrite <- S2. by apply H2.
Qed.

(** * Becoming leader *)

Lemma lead_kind s t : lead s = Some t -> kind s = LEADER /\ active (role s) = true /\ t = term s.
Proof.
  unfold lead, kind. destruct (active (role s)); [|done]. simpl. case_bool_decide; [|done]. by intros [= <-].
Qed.
Lemma lead_none_kind s : lead s = None -> active (role s) = true -> kind s <> LEADER.
Proof. unfold lead, kind. intros H Ha. rewrite Ha, andb_true_l in H. by case_bool_decide. Qed.

Lemma activate_leads s t :
  active (role s) = false -> post activate s (fun _ s' => lead s' = Some t -> kind s = LEADER /\ t = term s).
Proof.
  intros Ha u s' E Hl. destruct (lead_kind _ _ Hl) as (Hk & _ & ->). unfold activate in E. rewrite bind_gets in E.
  destruct (data (role s)) eqn:Ed.
  - assert (is_kind FOLLOWER s) as H by (unfold is_kind, kind, role_enum; by rewrite Ed).
    by rewrite (kind_follower_activate s u s' E H) in Hk.
  - destruct (candidate_fresh s _ _ _ Ed Ha u s' E) as [[_ H] _]. congruence.
  - split; [unfold kind, role_enum; by rewrite Ed|]. assert (keeps (same ballot) (leader_activate (Cmd := Cmd))) as Kb.
    { unfold leader_activate, Term, get_rc. keeps_auto; solve [apply ballot_set_data | apply ballot_startReplication
        | apply ballot_set_active | apply ballot_chUnlock | apply ballot_frames; eauto with keeps]. }
    by injection (Kb _ _ _ E).
Qed.

Lemma turn_leads s t :
  gate_ok s -> lead s = None ->
  post processor_turn s (fun _ s' => lead s' = Some t ->
    dead s = false /\ t = term s /\ exists rest, evCh s = TransEvent (Some leaderFromCandidate) :: rest).
Proof.
  intros Hg Hn. unfold processor_turn. do 2 wp_step. destruct (dead s) eqn:Hd; [apply post_ret; by rewrite Hn|].
  destruct (evCh s) as [|ev rest] eqn:E; [done|]. wp_step. apply post_modify. wp_step. set (s0 := set_evCh rest s).
  eapply (post_mono _ _ (fun _ s' => lead s' = Some t -> _)); [|intros u s1 H; apply post_ret; exact H].
  destruct (is_trans ev) eqn:Et.
  - destruct ev as [f| | | | | | | | | | | | | |]; try done. destruct (pop_trans _ _ _ E Hg Hd) as [(A1 & A2 & A3 & A4) Hf].
    cbn [processor_event]. wp_step. intros u1 s1 E1. destruct (change_role_effect f s0 u1 s1 E1) as (_ & T1 & R1).
    assert (active (role s1) = false) as Ha.
    { destruct f as [f|]; [|by injection E1 as _ <-]. by destruct (trans_open f s0 A1 A2 A3 A4 u1 s1 E1) as (_ & ? & _). }
    eapply post_mono; [by apply (activate_leads s1 t)|]. intros u2 s2 H Hl. destruct (H Hl) as [Hk ->].
    destruct (R1 Hk) as [->|[-> Hr]]; [eauto|]. unfold kind in Hk. rewrite Hr in Hk. change (role s0) with (role s) in Hk.
    by rewrite Hf in Hk.
  - pose proof (pop_other _ _ _ E Et Hg) as Hg'. intros u s' Em Hl. exfalso. destruct (lead_kind _ _ Hl) as (Hk & Ha & _).
    assert (forall m : M (Raft Cmd) unit, keeps (same role) m -> m s0 = Done u s' -> False) as Hr.
    { intros m Km Em'. pose proof (Km _ _ _ Em') as R. unfold same in R. unfold kind in Hk. rewrite R in Hk, Ha.
      by apply (lead_none_kind s Hn). }
    assert ((r ← gets role; if closed r then discardEv ev else process ev) s0 = Done u s' -> False) as Hother.
    { rewrite bind_gets. unfold closed. destruct (active (role s0)) eqn:Ha0; simpl.
      - intros Ep. rewrite (kind_process ev s0 Hg' u s' Ep) in Hk. by apply (lead_none_kind s Hn).
      - apply Hr. unfold discardEv. keeps_auto; by apply keeps_modify. }
    destruct ev; try done; cbn [processor_event] in Em; try by apply Hother.
    + rewrite bind_gets in Em. destruct (closed _); [by apply (Hr _ (role_emit _) Em)|].
      eapply Hr; [|exact Em]. apply keeps_bind; [exact _|apply role_frames, frames_takeSnapshot|]. intros _. by apply keeps_modify.
    + by rewrite (lead_kill _ _ _ _ Em) in Hl.
Qed.

(** A peer about to be leader has counted a majority, its own vote included. *)
Lemma about_to_lead s rest :
  peer_ok s -> dead s = false -> evCh s = TransEvent (Some leaderFromCandidate) :: rest ->
  counting s = true /\ majorN s <= 1 + slots (term s) s.
Proof.
  intros Hp Hd E. destruct (Election.elected s _ rest Hp Hd E eq_refl) as (votes & voters & tm & Ed & _ & Hm).
  destruct (pop_trans _ _ _ E (proj1 Hp) Hd) as [(_ & _ & _ & Hq) _]. simpl in Hq.
  assert (counting s = true) as Hc.
  { unfold counting, role_enum. rewrite Ed, E. simpl. by rewrite (no_down _ Hq). }
  split; [done|]. unfold slots. rewrite Ed, Hc, Z.eqb_refl. exact Hm.
Qed.

(** * What a turn does to the votes, together *)

Lemma turn_stands s rest :
  gate_ok s -> dead s = false -> evCh s = TransEvent (Some candidateFromFollower) :: rest ->
  post processor_turn s (fun _ s' => stands_now s').
Proof.
  intros Hg Hd E b s' Em. destruct (pop_trans _ _ _ E Hg Hd) as [_ Hf]. unfold processor_turn in Em.
  rewrite bind_gets, Hd, E, bind_modify in Em. apply bind_inv in Em as ([] & s1 & Em & E1). injection E1 as _ <-.
  cbn [processor_event] in Em. apply bind_inv in Em as ([] & s2 & E2 & Em). rewrite bind_gets in E2. simpl in E2.
  unfold trans in E2. unfold role_enum, fits in Hf. destruct (data (role s)); try done. injection E2 as <-.
  unfold activate in Em. rewrite bind_gets in Em. simpl in Em.
  by edestruct candidate_fresh as [? _]; [| |exact Em|].
Qed.

Lemma turn_saved s :
  gate_ok s -> queue_ok s -> 0 <= term s < 2147483647 ->
  post processor_turn s (fun _ s' => stands_now s' \/ settled (term s) (stored_term s) s').
Proof.
  intros Hg Hq Ht b s' E. destruct (settled_turn s Hg Hq Ht b s' E) as [(rest & Hd & Eq)|H]; [left|by right].
  by apply (turn_stands s rest Hg Hd Eq b).
Qed.

(** A new peer has the saved ballot, no events and nothing sent. *)
Lemma Make_ballot n self ps s' :
  Make n self ps tt = Done s' tt ->
  (peers s', me s', majorN s', outbox s') = (n, self, Z.quot n 2 + 1, []) /\ evCh s' = [TransEvent None] /\ kind s' = FOLLOWER /\
  persister s' = ps /\ term s' = stored_term s' /\ voteFor s' = stored_vote s'.
Proof.
  unfold Make, ReadRaftState. rewrite clone_id. intros E. destruct (gob_decode (raftstate ps)) as [st| |] eqn:Ed; [| |done].
  - apply bind_inv in E as (lg & [] & _ & E). injection E as <-. unfold stored_term, stored_vote. simpl. by rewrite Ed.
  - apply bind_inv in E as (lg & [] & _ & E). injection E as <-. unfold stored_term, stored_vote. simpl. by rewrite Ed.
Qed.
End peer_votes.
