(* ===== verification/LogMatching.v ===== *)
(** Raft's log matching, for peers that run their event loops over a network
    (raft/raft.go, leader.go, follower.go, repl.go, log.go).

    The peers handle events, the replicators of any of them send what entriesAfter
    gives or ask whether an index matches, with any term and commit index, and the requests
    sent may be delivered late, in any order, several times or never; votes, timers, commands
    and answers come as they like.  The terms each peer was elected in are remembered. *)

From S2P Require Import Prelude BitVec RaftTypes Persist Logs LogsSpec Applied ReplCounter Roles Gate Votes Election.
From S2P Require Import Replicator PeerLog PeerTurn PeerStore.

(** * Logs that have a common origin *)

Section origin.
Context {Cmd : Type}.
Implicit Types X Y F : list (LogEntry Cmd).
Implicit Types G : Z -> list (LogEntry Cmd).

(** [G T] is what the leader of term [T] has, or had, in its log: up to an entry of
    term [T], every log is a prefix of it. *)
Definition rooted G X : Prop := forall k et, X !! k = Some et -> take (S k) X = take (S k) (G (et_Term et)).

Definition grows G G' : Prop := forall T, G T `prefix_of` G' T.

Lemma rooted_long G X k et : rooted G X -> X !! k = Some et -> (k < length (G (et_Term et)))%nat.
Proof.
  intros H E. pose proof (f_equal length (H k et E)) as L. apply lookup_lt_Some in E.
  rewrite !length_take in L. lia.
Qed.

Lemma rooted_grows G G' X : grows G G' -> rooted G X -> rooted G' X.
Proof.
  intros Hg H k et E. rewrite (H k et E). destruct (Hg (et_Term et)) as [Y ->].
  rewrite take_app_le; [done|]. pose proof (rooted_long _ _ _ _ H E). lia.
Qed.

Lemma rooted_push G X et : rooted G X -> G (et_Term et) = X ++ [et] -> rooted G (X ++ [et]).
Proof.
  intros H Hg k e E. apply lookup_app_Some in E as [E|[Hk E]].
  - rewrite take_app_le; [by apply H|]. apply lookup_lt_Some in E. lia.
  - destruct (k - length X)%nat eqn:Ek; simplify_eq/=. by rewrite Hg.
Qed.

Lemma term_at_nat X k et : X !! k = Some et -> term_at X (Z.of_nat k) = et_Term et.
Proof. intros E. unfold term_at, nthZ. by rewrite decide_True, Nat2Z.id, E by lia. Qed.

Lemma rooted_matching G X Y : rooted G X -> rooted G Y -> log_matching X Y.
Proof.
  intros HX HY i [Hi1 Hi2] Hi3 Ht. unfold agree.
  destruct (lookup_lt_is_Some_2 X (Z.to_nat i)) as [e1 E1]; [lia|].
  destruct (lookup_lt_is_Some_2 Y (Z.to_nat i)) as [e2 E2]; [lia|].
  pose proof (term_at_nat _ _ _ E1) as T1. pose proof (term_at_nat _ _ _ E2) as T2. rewrite Z2Nat.id in T1, T2 by lia.
  replace (Z.to_nat (i + 1)) with (S (Z.to_nat i)) by lia.
  rewrite (HX _ _ E1), (HY _ _ E2). congruence.
Qed.

(** What is sent: nothing, or all of some log from an index on. *)
Definition cut_of G (se : SendEntries Cmd) : Prop :=
  Entries se = [] \/ exists X p, rooted G X /\ PrevLogInfo se = mkLogInfo p (term_at X p) /\
    -1 <= p < lenZ X /\ Entries se = drop (Z.to_nat (p + 1)) X.

Lemma cut_grows G G' se : grows G G' -> cut_of G se -> cut_of G' se.
Proof. intros Hg [H|(X & p & H1 & H2)]; [by left|]. right. exists X, p. split; [by eapply rooted_grows|done]. Qed.

Lemma append_rooted G F se c :
  rooted G F -> cut_of G se -> rooted G (fst (append_spec c F (PrevLogInfo se) (Entries se))).
Proof.
  intros HF [->|(X & p & HX & Hp & Hr & He)]; unfold append_spec.
  { repeat case_match; done. }
  rewrite Hp, He. simpl. destruct (p <? c); [done|]. destruct (lenZ F - 1 <? p) eqn:El; [done|].
  destruct ((p <? 0) || (term_at F p =? term_at X p)) eqn:Et; [|done]. cbn [fst].
  destruct (length _ =? 0)%nat; [done|]. enough (take (Z.to_nat (p + 1)) F = take (Z.to_nat (p + 1)) X) as ->
    by (by rewrite take_drop).
  apply orb_true_iff in Et as [Et|Et]; [by replace (Z.to_nat (p + 1)) with 0%nat by lia|].
  destruct (decide (p = -1)) as [->|Hne]; [done|].
  apply (rooted_matching G X F HX HF p); [lia|lia|]. apply Z.eqb_eq in Et. by rewrite Et.
Qed.

(** The leader of [t] has a longer log. *)
Definition longer G (t : Z) X : Z -> list (LogEntry Cmd) := fun T => if decide (T = t) then X else G T.

Lemma longer_grows G t X : G t `prefix_of` X -> grows G (longer G t X).
Proof. intros H T. unfold longer. by case_decide; subst. Qed.
Lemma longer_eq G t X : longer G t X t = X.
Proof. unfold longer. by rewrite decide_True. Qed.
Lemma longer_ne G t X T : T <> t -> longer G t X T = G T.
Proof. intros H. unfold longer. by rewrite decide_False. Qed.
End origin.

(** * The peers and the network *)

Section net.
Context {Cmd : Type} `{!Gob Cmd, !GobRegistered Cmd}.
Implicit Types s : Raft Cmd.

Record raft_net := mkNet {
  net_nodes : list (Raft Cmd);
  sent : list (AppendEntriesArgs Cmd);
  led : list (nat * Z) }.

Definition is_append (ev : Event Cmd) : bool := match ev with AppendEntriesEvent _ _ _ => true | _ => false end.

(** The same entries with a term and a commit index read later. *)
Definition relabel (t c : Z) (args : AppendEntriesArgs Cmd) : AppendEntriesArgs Cmd :=
  mkAppendEntriesArgs (ae_Id args) t c (ae_EntryType args) (ae_Snapshot args) (ae_SendEntries args).

(** Logs shorter than 2^31 and terms below the largest. *)
Inductive net_step : raft_net -> raft_net -> Prop :=
  | net_turn i b s s' ns net ld :
      ns !! i = Some s -> fits_log s -> 0 <= term s < 2147483647 -> processor_turn s = Done b s' ->
      net_step (mkNet ns net ld) (mkNet (<[i := s']> ns) net (elected i s s' ++ ld))
  | net_try i ev cur b s s' ns net ld :
      ns !! i = Some s -> is_trans ev = false -> is_append ev = false -> is_int32 (event_term ev) ->
      tryPutEv ev cur s = Done b s' -> net_step (mkNet ns net ld) (mkNet (<[i := s']> ns) net ld)
  | net_put i ev u s s' ns net ld :
      ns !! i = Some s -> is_trans ev = false -> is_append ev = false -> is_int32 (event_term ev) ->
      put_locked ev s = Done u s' \/ put_event ev s = Done u s' ->
      net_step (mkNet ns net ld) (mkNet (<[i := s']> ns) net ld)
  | net_deliver i args r ch b s s' ns net ld :
      ns !! i = Some s -> args ∈ net -> AppendEntries args r ch s = Done b s' ->
      net_step (mkNet ns net ld) (mkNet (<[i := s']> ns) net ld)
  | net_send i k r s s' ns net ld :
      ns !! i = Some s -> 0 <= term s < 2147483647 -> entriesAfter k s = Done r s' ->
      net_step (mkNet ns net ld) (mkNet ns (replicate_args s r :: net) ld)
  | net_query i m t s s' ns net ld :
      ns !! i = Some s -> 0 <= term s < 2147483647 -> tryIndexLogTerm m s = Done (t, true) s' ->
      net_step (mkNet ns net ld) (mkNet ns (query_args s m t :: net) ld)
  | net_relabel t c args ns net ld :
      args ∈ net -> is_int32 t -> net_step (mkNet ns net ld) (mkNet ns (relabel t c args :: net) ld)
  | net_timer i d s ns net ld :
      ns !! i = Some s -> role_enum (mkRole (active (role s)) d) = role_enum (role s) ->
      net_step (mkNet ns net ld) (mkNet (<[i := set_role (mkRole (active (role s)) d) s]> ns) net ld)
  | net_stale i u s s' ns net ld :
      ns !! i = Some s -> active (role s) = true -> role_enum (role s) = LEADER ->
      transRole followerFromLeader s = Done u s' -> net_step (mkNet ns net ld) (mkNet (<[i := s']> ns) net ld)
  | net_apply i accept r s s' ns net ld :
      ns !! i = Some s -> applier_turn accept s = Done r s' -> net_step (mkNet ns net ld) (mkNet (<[i := s']> ns) net ld)
  | net_restart i s s' ns net ld :
      ns !! i = Some s -> Make (peers s) (me s) (persister s) tt = Done s' tt ->
      net_step (mkNet ns net ld) (mkNet (<[i := s']> ns) net ld).

(** No term has two leaders. *)
Definition one_leader (ld : list (nat * Z)) : Prop := forall i j t, (i, t) ∈ ld -> (j, t) ∈ ld -> i = j.

(** ** The invariant *)

Definition ev_ok (net : list (AppendEntriesArgs Cmd)) (ev : Event Cmd) : Prop :=
  is_int32 (event_term ev) /\ forall args r ch, ev = AppendEntriesEvent args r ch -> args ∈ net.

Definition msg_ok (G : Z -> list (LogEntry Cmd)) (args : AppendEntriesArgs Cmd) : Prop :=
  is_int32 (ae_Term args) /\ forall se, ae_SendEntries args = Some se -> cut_of G se.

Record node_ok (G : Z -> list (LogEntry Cmd)) (net : list (AppendEntriesArgs Cmd)) (ld : list (nat * Z)) (i : nat) s : Prop := {
  no_gate : gate_ok s;
  no_logs : logs_ok s;
  no_queue : all_events (ev_ok net) s;
  no_rooted : rooted G (the_log s);
  no_lead : forall t, lead s = Some t -> (i, t) ∈ ld /\ G t = the_log s;
  no_led : forall t, (i, t) ∈ ld -> term_kept t s /\ (kind s = CANDIDATE -> t < term s) }.

Record net_inv (G : Z -> list (LogEntry Cmd)) (w : raft_net) : Prop := {
  ni_nodes : forall i s, net_nodes w !! i = Some s -> node_ok G (sent w) (led w) i s;
  ni_sent : forall args, args ∈ sent w -> msg_ok G args;
  ni_fresh : forall t, (forall i, (i, t) ∉ led w) -> G t = [] }.

Lemma msg_grows G G' args : grows G G' -> msg_ok G args -> msg_ok G' args.
Proof. intros Hg [H1 H2]. split; [done|]. intros se E. eapply cut_grows; eauto. Qed.

Lemma ev_ok_more net net' ev : net ⊆ net' -> ev_ok net ev -> ev_ok net' ev.
Proof. intros Hn [H1 H2]. split; [done|]. intros args r ch E. apply Hn. eauto. Qed.

(** More messages, the same peers. *)
Lemma inv_sent G ns net ld args :
  net_inv G (mkNet ns net ld) -> msg_ok G args -> net_inv G (mkNet ns (args :: net) ld).
Proof.
  intros [H1 H2 H3] Hm. constructor; simpl in *; [|by intros a [->|Ha]%elem_of_cons; [|apply H2]|done].
  intros i s Hi. destruct (H1 i s Hi) as [A B C D E F]. constructor; try done.
  eapply Forall_impl; [exact C|]. intros ev. apply ev_ok_more. set_solver.
Qed.

(** One peer moves. *)
Lemma inv_node G G' ns net ld ld' i s s' :
  net_inv G (mkNet ns net ld) -> ns !! i = Some s -> grows G G' -> ld ⊆ ld' -> one_leader ld' ->
  (forall t, G' t = G t \/ (i, t) ∈ ld') -> (forall j t, (j, t) ∈ ld' -> (j, t) ∈ ld \/ j = i) ->
  node_ok G' net ld' i s' -> net_inv G' (mkNet (<[i := s']> ns) net ld').
Proof.
  intros [H1 H2 H3] Hi Hg Hld H1l HG Hnew Hs'. constructor; simpl in *.
  - intros j t Hj. apply list_lookup_insert_Some in Hj as [(-> & -> & _)|[Hne Hj]]; [done|].
    destruct (H1 j t Hj) as [A B C D E F]. constructor; try done; [by eapply rooted_grows| |].
    + intros x Hx. destruct (E x Hx) as [E1 E2]. split; [by apply Hld|]. destruct (HG x) as [->|Hix]; [done|].
      destruct Hne. by apply (H1l i j x); [|apply Hld].
    + intros x Hx. destruct (Hnew j x Hx) as [Hx' | ->]; [by apply F|done].
  - intros args Ha. eapply msg_grows; eauto.
  - intros t Ht. destruct (HG t) as [->|Hit]; [|by destruct (Ht i)]. apply H3. intros j Hj. apply (Ht j). by apply Hld.
Qed.

(** A peer whose log and leadership stay, or whose leadership ends. *)
Lemma node_quiet G net ld i s s' :
  node_ok G net ld i s -> gate_ok s' -> logs_ok s' -> all_events (ev_ok net) s' -> the_log s' = the_log s ->
  lead s' = None \/ lead s' = lead s -> term s <= term s' -> (forall t, term_kept t s -> term_kept t s') ->
  (kind s' = CANDIDATE -> kind s = CANDIDATE \/ term s < term s') -> node_ok G net ld i s'.
Proof.
  intros [A B C D E F] Hg Hl Hq El Hlead Ht Hts Hk. constructor; try done; [by rewrite El| |].
  - intros t Et. destruct Hlead as [H|H]; [congruence|]. rewrite El. apply E. congruence.
  - intros t Hin. destruct (F t Hin) as [F1 F2]. split; [by apply Hts|]. intros Hc. destruct (Hk Hc) as [H|H]; [specialize (F2 H)|]; destruct F1; lia.
Qed.

Lemma elected_none i s s' : lead s' = None \/ lead s' = lead s -> elected i s s' = [].
Proof. unfold elected. intros [-> | ->]; by destruct (lead s). Qed.

Lemma lead_term s t : lead s = Some t -> t = term s.
Proof. unfold lead. destruct (_ && _); congruence. Qed.

Lemma quiet_inv G ns net ld i s s' :
  net_inv G (mkNet ns net ld) -> one_leader ld -> ns !! i = Some s -> node_ok G net ld i s' ->
  net_inv G (mkNet (<[i := s']> ns) net ld).
Proof.
  intros Hi H1 Hs Hok. eapply (inv_node G G); eauto. by intros T.
Qed.

(** The turn of an event loop. *)
Section a_turn.
Context (G : Z -> list (LogEntry Cmd)) (ns : list (Raft Cmd)) (net : list (AppendEntriesArgs Cmd)) (ld : list (nat * Z)).
Context (i : nat) (b : bool) (s s' : Raft Cmd).
Context (Hi : net_inv G (mkNet ns net ld)) (Hs : ns !! i = Some s).
Context (Hfit : fits_log s) (Ht : 0 <= term s < 2147483647) (E : processor_turn s = Done b s').
Context (H1 : one_leader (elected i s s' ++ ld)).

Lemma the_node : node_ok G net ld i s.
Proof. by apply (ni_nodes _ _ Hi). Qed.

Lemma turn_facts :
  gate_ok s' /\ all_events (ev_ok net) s' /\ term s <= term s' /\
  (forall t, term_kept t s -> term_kept t s') /\ (kind s' = CANDIDATE -> kind s = CANDIDATE \/ term s < term s').
Proof.
  destruct the_node as [A B C D _ _]. assert (queue_ok s) as Q by (eapply Forall_impl; [exact C|]; by intros ev [? _]). split_and!.
  - by apply (processor_turn_gate s A b s').
  - by apply (turn_events (ev_ok net) ltac:(done) s C b s').
  - by apply (processor_turn_kept s) with (a := b) (s' := s').
  - intros t. by apply (turn_term t s) with (a := b) (s' := s').
  - apply (turn_candidate s A) with (a := b); [lia|done].
Qed.

(** An entry of term [term s] is added to the log of its leader. *)
Lemma push_inv et :
  let G' := longer G (term s) (the_log s ++ [et]) in
  logs_ok s' -> the_log s' = the_log s ++ [et] -> et_Term et = term s -> G (term s) `prefix_of` the_log s ->
  (i, term s) ∈ elected i s s' ++ ld -> lead s' = None \/ lead s' = Some (term s) -> (lead s = None -> stored_term s' = term s) ->
  net_inv G' (mkNet (<[i := s']> ns) net (elected i s s' ++ ld)).
Proof.
  intros G' Hl El Het Hpre Hin Hlead Hst. destruct turn_facts as (T1 & T2 & T3 & Tk & T4). destruct the_node as [A B C D L F].
  assert (grows G G') as Hg by (apply longer_grows; by apply prefix_app_r).
  assert (forall j t, (j, t) ∈ elected i s s' -> j = i /\ lead s' = Some t /\ lead s = None) as Hnew.
  { intros j t. unfold elected. destruct (lead s), (lead s'); set_solver. }
  eapply (inv_node G G'); eauto; [set_solver|..].
  - intros t. destruct (decide (t = term s)) as [->|Hne]; [by right|]. left. by apply longer_ne.
  - intros j t [Hj|Hj]%elem_of_app; [right; by apply (Hnew j t)|by left].
  - constructor; try done.
    + rewrite El. apply rooted_push; [by eapply rooted_grows|]. rewrite Het. apply longer_eq.
    + intros t Et. destruct Hlead as [H|H]; [congruence|]. assert (t = term s) as -> by congruence.
      split; [done|]. rewrite El. apply longer_eq.
    + intros t [Hj|Hj]%elem_of_app.
      * destruct (Hnew _ _ Hj) as (_ & Hj' & Hn). assert (t = term s) as -> by (destruct Hlead; congruence).
        split; [unfold term_kept; rewrite (Hst Hn); lia|]. intros Hk. rewrite lead_other in Hj'; [done|]. unfold kind in Hk. by rewrite Hk.
      * destruct (F t Hj) as [F1 F2]. split; [by apply Tk|]. intros Hc. destruct (T4 Hc) as [H|H]; [specialize (F2 H)|]; destruct F1; lia.
Qed.

Lemma net_turn_inv : exists G', net_inv G' (mkNet (<[i := s']> ns) net (elected i s s' ++ ld)).
Proof.
  destruct turn_facts as (T1 & T2 & T3 & Tk & T4). destruct the_node as [A B C D L F].
  destruct (turn_log s A B Hfit b s' E) as [Hl [El Hlead|Hled (et & Het & El) Hlead|Hk (et & Het & El) Hlead Hst|args r ch Hin Hc Hlead]].
  - exists G. rewrite (elected_none i s s' Hlead) in *. eapply quiet_inv; eauto. by eapply node_quiet; [apply the_node|..].
  - destruct (L _ Hled) as [L1 L2]. eexists. apply push_inv; eauto; [by rewrite L2|set_solver|by rewrite Hled in Hlead|by rewrite Hled].
  - assert (lead s = None) as Hn by (apply lead_other; by rewrite Hk).
    assert (elected i s s' = [(i, term s)]) as He by (unfold elected; by rewrite Hn, Hlead).
    eexists. apply push_inv; eauto; [|rewrite He; set_solver]. rewrite (ni_fresh _ _ Hi); [apply prefix_nil|].
    intros j Hj. simpl in Hj. assert (j = i) as ->. { apply (H1 j i (term s)); rewrite He; set_solver. }
    destruct (F _ Hj) as [_ F2]. specialize (F2 Hk). lia.
  - exists G. assert (lead s' = None \/ lead s' = lead s) as Hl' by (by left).
    rewrite (elected_none i s s' Hl') in *. eapply quiet_inv; eauto. constructor; try done.
    + destruct Hc as (se & c & Hse & ->). apply append_rooted; [done|].
      assert (args ∈ net) as Ha. { apply (proj1 (Forall_forall _ _) C _ Hin) with (r := r) (ch := ch). done. }
      by apply (ni_sent _ _ Hi args Ha).
    + intros t. congruence.
    + intros t Hj. destruct (F t Hj) as [F1 F2]. split; [by apply Tk|]. intros Hc'. destruct (T4 Hc') as [H|H]; [specialize (F2 H)|]; destruct F1; lia.
Qed.
End a_turn.

(** ** The other steps *)

Lemma node_queued G net ld i s ev :
  node_ok G net ld i s -> ev_ok net ev -> is_trans ev = false -> node_ok G net ld i (set_evCh (evCh s ++ [ev]) s).
Proof.
  intros Hn He Ht. apply (node_quiet G net ld i s); [done|by apply queued_gate, Hn| | |done|by right|simpl; lia|done|by left].
  - by apply (log_kept_part s), Hn.
  - apply Forall_app. split; [apply Hn|]. by constructor.
Qed.

Lemma other_event net ev : is_append ev = false -> is_int32 (event_term ev) -> ev_ok net ev.
Proof. intros Ha Ht. split; [done|]. by intros args r ch ->. Qed.

Lemma AppendEntries_run args r ch s b s' :
  AppendEntries args r ch s = Done b s' -> s' = s \/ s' = set_evCh (evCh s ++ [AppendEntriesEvent args r ch]) s.
Proof.
  unfold AppendEntries. intros E.
  assert ((d ← gets dead; if (d : bool) then mret false else put_locked (AppendEntriesEvent args r ch);; mret true) s
    = Done b s') as E' by (by destruct (ae_Snapshot args), (ae_SendEntries args)).
  clear E. rewrite bind_gets in E'. destruct (dead s); [left; by injection E'|].
  apply bind_inv in E' as (u & s1 & E1 & E2). apply put_locked_run in E1. injection E2 as _ <-. by right.
Qed.

Lemma node_stale G net ld i u s s' :
  node_ok G net ld i s -> active (role s) = true -> role_enum (role s) = LEADER ->
  transRole followerFromLeader s = Done u s' -> node_ok G net ld i s'.
Proof.
  intros Hn Ha Hk E. pose proof (transRole_inv _ _ _ _ E) as Es. rewrite Ha in Es.
  eapply node_quiet; eauto.
  - by eapply peer_step_gate; [apply Hn|eapply peer_stale].
  - by eapply (kept_transRole followerFromLeader); [|apply Hn].
  - apply (same_others_events (ev_ok net) ltac:(done) s); [by eapply ev_transRole|apply Hn].
  - by apply (kept_transRole followerFromLeader s u s' E), Hn.
  - left. by rewrite Es.
  - rewrite Es. simpl. lia.
  - intros t. by apply (transRole_term t followerFromLeader s u s').
  - rewrite Es. unfold kind, role_enum in *. simpl. destruct (data (role s)); done.
Qed.

Lemma node_apply G net ld i accept r s s' :
  node_ok G net ld i s -> applier_turn accept s = Done r s' -> node_ok G net ld i s'.
Proof.
  intros Hn E. pose proof (frames_applier_turn accept s r s' E) as Fr. unfold same, outside_logs in Fr.
  injection Fr as _ _ _ _ F5 _ F7 F8 _ _.
  destruct (kept_applier_turn accept s r s' E (no_logs _ _ _ _ _ Hn)) as [H1 H2].
  eapply node_quiet; eauto.
  - eapply peer_step_gate; [apply Hn|by eapply peer_apply].
  - unfold all_events. rewrite F8. apply Hn.
  - right. unfold lead. by rewrite F5, F7.
  - lia.
  - intros t. by apply (applier_term t accept s r s').
  - unfold kind. rewrite F7. auto.
Qed.

Lemma entriesAfter_range full s k r s' :
  logs_rep full (logs s) -> rw (logs s) = Unlocked -> entriesAfter k s = Done r s' ->
  snd r = None \/ 0 <= k <= lenZ full.
Proof.
  intros H Hrw. destruct (decide (0 <= k <= lenZ full)) as [|Hk]; [by right|]. left. revert H0.
  unfold entriesAfter, logs_RLock, RLock, logs_rw, set_logs_rw. unfold mbind, M_bind, mret, M_ret, gets. rewrite Hrw. simpl.
  destruct (k <? offset (logs s)) eqn:E; [|].
  - destruct (logs_RUnlock _); [|done..]. by intros [= <- _].
  - unfold go_slice. rewrite decide_False; [done|]. simpl. pose proof (rep_len _ _ H). pose proof (rep_offset _ _ H). lia.
Qed.

Lemma sent_ok G net ld i k r s s' :
  node_ok G net ld i s -> 0 <= term s < 2147483647 -> entriesAfter k s = Done r s' -> msg_ok G (replicate_args s r).
Proof.
  intros Hn Ht E. pose proof (no_logs _ _ _ _ _ Hn) as L. pose proof (lo_offset s L) as Ho. destruct L as [R [U _] Hsn _].
  destruct (entriesAfter_range (the_log s) s k r s' R U E) as [Hk|Hk].
  - split; [simpl; unfold is_int32; lia|]. intros se. simpl. by rewrite Hk.
  - rewrite (entriesAfter_rep (the_log s) s k R U Hk), Ho, (proj2 (Z.ltb_ge k 0)) in E by lia. injection E as <- _.
    split; [simpl; unfold is_int32; lia|]. intros se [= <-]. right. exists (the_log s), (k - 1).
    split; [apply Hn|]. simpl. split; [done|]. split; [lia|]. by replace (k - 1 + 1) with k by lia.
Qed.

Lemma node_timer G net ld i s d :
  node_ok G net ld i s -> role_enum (mkRole (active (role s)) d) = role_enum (role s) ->
  node_ok G net ld i (set_role (mkRole (active (role s)) d) s).
Proof.
  intros Hn Hk. apply (node_quiet G net ld i s); [done| | |apply Hn|done| |simpl; lia|done|].
  - apply (gate_in_part (role_enum (role s)) s); [|split; [apply Hn|done]]. unfold same, gate_part. simpl. by rewrite Hk.
  - by apply (log_kept_part s), Hn.
  - right. unfold lead. simpl. by rewrite Hk.
  - unfold kind. simpl. rewrite Hk. by left.
Qed.

(** A peer that starts again from its persister has its log, and is in the term of its last election or a later one. *)
Lemma node_restart G net ld i n self s s' :
  node_ok G net ld i s -> Make n self (persister s) tt = Done s' tt -> node_ok G net ld i s'.
Proof.
  intros Hn E. destruct (Make_recovers n self s s' (no_logs _ _ _ _ _ Hn) E) as (H1 & H2 & H3 & H4 & H5 & H6 & H7).
  constructor; [by eapply Make_gate|done| |rewrite H2; apply Hn|by rewrite H5|].
  - unfold all_events. rewrite H7. constructor; [|done]. by split.
  - intros t Ht. destruct (no_led _ _ _ _ _ Hn t Ht) as [[F1 F2] _]. unfold term_kept, kind. rewrite H3, H4, H6. split; [lia|done].
Qed.

Lemma net_step_inv G w w' : net_inv G w -> one_leader (led w') -> net_step w w' -> exists G', net_inv G' w'.
Proof.
  intros Hi H1 Hstep. destruct Hstep as [i b s s' ns net ld Hs Hfit Ht E|i ev cur b s s' ns net ld Hs Htr Ha Hw E
    |i ev u s s' ns net ld Hs Htr Ha Hw E|i args r ch b s s' ns net ld Hs Hin E|i k r s s' ns net ld Hs Ht E
    |i m t s s' ns net ld Hs Ht E|t c args ns net ld Hin Ht|i d s ns net ld Hs Hk|i u s s' ns net ld Hs Ha Hk E|i accept r s s' ns net ld Hs E|i s s' ns net ld Hs E];
    simpl in H1; try pose proof (ni_nodes _ _ Hi i s Hs) as Hn; simpl in *.
  - by eapply net_turn_inv.
  - exists G. eapply quiet_inv; eauto. rewrite (tryPutEv_run _ _ _ _ _ E).
    destruct b; [|done]. by apply node_queued; [|apply other_event|].
  - exists G. eapply quiet_inv; eauto. assert (s' = set_evCh (evCh s ++ [ev]) s) as ->.
    { destruct E as [E|E]; [by eapply put_locked_run|]. unfold put_event, chan_send in E. case_decide; [|done]. by injection E. }
    by apply node_queued; [|apply other_event|].
  - exists G. eapply quiet_inv; eauto. destruct (AppendEntries_run _ _ _ _ _ _ E) as [-> | ->]; [done|].
    apply node_queued; [done| |done]. split; [by apply (ni_sent _ _ Hi)|]. by intros args' r' ch' [= <- _ _].
  - exists G. apply inv_sent; [done|]. by eapply sent_ok.
  - exists G. apply inv_sent; [done|]. split; [simpl; unfold is_int32; lia|]. intros se [= <-]. by left.
  - exists G. apply inv_sent; [done|]. split; [done|]. apply (ni_sent _ _ Hi args Hin).
  - exists G. eapply quiet_inv; eauto. by apply node_timer.
  - exists G. eapply quiet_inv; eauto. by eapply node_stale.
  - exists G. eapply quiet_inv; eauto. by eapply node_apply.
  - exists G. eapply quiet_inv; eauto. by eapply node_restart.
Qed.

(** ** From the start *)

(** New peers with empty stores. *)
Definition new_peers (ns : list (Raft Cmd)) : Prop :=
  forall i s, ns !! i = Some s -> exists n self, Make n self MakePersister tt = Done s tt.

Lemma new_peer n self s : Make n self MakePersister tt = Done s tt ->
  logs_ok s /\ the_log s = [] /\ lead s = None /\ evCh s = [TransEvent None].
Proof.
  unfold Make. unfold ReadRaftState, ReadSnapshot, MakePersister. simpl. rewrite gob_empty. intros [= <-].
  split; [|done]. constructor; try done. split; [done|]. by left.
Qed.

Lemma net_start_inv ns : new_peers ns -> net_inv (fun _ => []) (mkNet ns [] []).
Proof.
  intros Hn. constructor; simpl; [|set_solver|done].
  intros i s Hs. destruct (Hn i s Hs) as (n & self & E). destruct (new_peer n self s E) as (H1 & H2 & H3 & H4).
  constructor; [by eapply Make_gate|done| |by rewrite H2|by rewrite H3|set_solver].
  unfold all_events. rewrite H4. constructor; [|done]. by split.
Qed.

Lemma led_grows w w' : net_step w w' -> led w ⊆ led w'.
Proof. destruct 1; simpl; set_solver. Qed.

Lemma net_run_inv ns w :
  new_peers ns -> rtc net_step (mkNet ns [] []) w -> one_leader (led w) -> exists G, net_inv G w.
Proof.
  intros Hn Hr. refine (rtc_ind_r (fun v => one_leader (led v) -> exists G, net_inv G v) _ _ _ w Hr).
  - intros _. eexists. by apply net_start_inv.
  - intros w1 w2 _ Hstep IH H1. destruct IH as [G HG]; [|by eapply net_step_inv].
    intros i j t Hi Hj. apply (H1 i j t); by apply (led_grows _ _ Hstep).
Qed.

(** In any run of a cluster from new peers in which no term has two leaders, the logs of two
    peers that have an entry of one term at one index are the same up to that index. *)
Theorem logs_match ns w i j si sj :
  new_peers ns -> rtc net_step (mkNet ns [] []) w -> one_leader (led w) ->
  net_nodes w !! i = Some si -> net_nodes w !! j = Some sj -> log_matching (the_log si) (the_log sj).
Proof.
  intros Hn Hr H1 Hi Hj. destruct (net_run_inv ns w Hn Hr H1) as [G HG].
  apply (rooted_matching G); [apply (ni_nodes _ _ HG i si Hi)|apply (ni_nodes _ _ HG j sj Hj)].
Qed.
End net.
Arguments raft_net : clear implicits.
