(* ===== verification/RaftNet.v ===== *)
(** A cluster of peers with all its goroutines, executable on a schedule (raft/raft.go,
    candidate.go, leader.go, repl.go, log.go).

    [Cluster] has the event loops, the timers and the vote requests.  Here a leader
    also starts its replicators, one goroutine per peer: [look] is its next step
    while it reads the leader's state, [on_reply] what it does with the answer to a
    request.  A request is tried several times (rpcMultiTry); each try arrives at
    the peer at any time or never, and comes back with the answer or without.  The
    appliers deliver the commands.

    A peer may crash between two turns and start again from its persister.
    A replicator belongs to a Leader object, known by the term the leader was elected in.
    The elections, the votes given and the delivered messages are remembered. *)

From S2P Require Import Prelude BitVec RaftTypes Persist Logs ReplCounter Roles Votes Election Cluster Replicator PeerLog.

(** A try of a request: on its way, with the peer, back. *)
Inductive flight : Type := Underway | Arrived | Returned.
#[export] Instance flight_eq_dec : EqDecision flight.
Proof. solve_decision. Defined.

Section system.
Context {Cmd : Type} `{!Gob Cmd}.
Implicit Types s : Raft Cmd.

(** * The replicators *)

(** What a request is for: the search at [m], or the entries from [next] on. *)
Inductive goal : Type :=
  | ForMatch (l r prev m : Z)
  | ForEntries (next : Z) (r : option Snapshot * option (SendEntries Cmd)).

(** Where the goroutine is.  In a call: the reply it stored, the number of the call
    and of its rpcMultiTry. *)
Inductive repl_pc : Type :=
  | RMatch (prev : Z) | RBounds (prev : Z) | RBound (prev l : Z)
  | RSearch (l r prev : Z) | RIndex (l r prev : Z) | RFound (prev : Z)
  | RHead (next : Z) | REntries (next : Z)
  | RTerm (g : goal) (args : AppendEntriesArgs Cmd) | RCommit (g : goal) (args : AppendEntriesArgs Cmd)
  | RRound (g : goal) (args : AppendEntriesArgs Cmd)
  | RCall (g : goal) (args : AppendEntriesArgs Cmd) (stored : option AppendEntriesReply) (call multi : nat)
  | RRefresh (g : goal) (args : AppendEntriesArgs Cmd) (stored : option AppendEntriesReply) (call multi : nat)
  | RReply (g : goal) (args : AppendEntriesArgs Cmd) (reply : AppendEntriesReply)
  | RStop.

Record replicator := mkReplicator { rl_leader : nat; rl_term : Z; rl_peer : Z; rl_calls : nat; rl_pc : repl_pc }.

(** The request with another term and commit index. *)
Definition with_term (t : Z) (a : AppendEntriesArgs Cmd) : AppendEntriesArgs Cmd :=
  mkAppendEntriesArgs (ae_Id a) t (LeaderCommit a) (ae_EntryType a) (ae_Snapshot a) (ae_SendEntries a).
Definition with_commit (c : Z) (a : AppendEntriesArgs Cmd) : AppendEntriesArgs Cmd :=
  mkAppendEntriesArgs (ae_Id a) (ae_Term a) c (ae_EntryType a) (ae_Snapshot a) (ae_SendEntries a).

Definition value {A} (m : M (Raft Cmd) A) s : option A := match m s with Done a _ => Some a | _ => None end.

(** ld.active: the Leader object of term [t] is the role and is not stopped. *)
Definition live (t : Z) s : bool := bool_decide (lead s = Some t).

(** A step that reads the leader's state; the fields of a request are read one by one. *)
Definition look (t : Z) (calls : nat) (p : repl_pc) s : option repl_pc :=
  match p with
  | RMatch prev => Some (if live t s then RBounds prev else RFound prev)
  | RBounds prev => Some (RBound prev (lii (logs s)))
  | RBound prev l => Some (RSearch l (lli (logs s)) prev)
  | RSearch l r prev => Some (if live t s && (l <=? r) then RIndex l r prev else RFound prev)
  | RIndex l r prev =>
      let m := l + Z.quot (r - l) 2 in
      '(mTerm, ok) ← value (tryIndexLogTerm m) s;
      Some (if (ok : bool) then RTerm (ForMatch l r prev m) (with_term 0 (with_commit 0 (query_args s m mTerm)))
            else RMatch prev)
  | RFound prev => Some (if live t s then RHead (prev + 1) else RStop)
  | RHead next => if live t s then if next >=? 0 then Some (REntries next) else None else Some RStop
  | REntries next =>
      r ← value (entriesAfter next) s;
      Some (RTerm (ForEntries next r) (with_term 0 (with_commit 0 (replicate_args s r))))
  | RTerm g args => Some (RCommit g (with_term (term s) args))
  | RCommit g args => Some (RRound g (with_commit (lci (logs s)) args))
  | RRound g args =>
      Some (if live t s then RCall g args None calls 0 else
            match g with ForMatch l r prev _ => RSearch l r prev | ForEntries next _ => RHead next end)
  | RRefresh g args stored call multi => Some (RCall g (with_commit (lci (logs s)) args) stored call (S multi))
  | RCall _ _ _ _ _ | RReply _ _ _ | RStop => None
  end.

(** The answer is acted on when the leader is still active. *)
Definition on_reply (t peer : Z) (g : goal) (args : AppendEntriesArgs Cmd) (reply : AppendEntriesReply)
    : M (Raft Cmd) repl_pc :=
  s ← gets (fun s => s);
  if negb (live t s) then mret RStop else
  match g with
  | ForMatch l r prev m =>
      match EntryStatus_ reply with
      | ENTRY_MATCH => mret (RSearch (m + 1) r m)
      | ENTRY_UNMATCH => mret (RSearch l (m - 1) prev)
      | ENTRY_STALE => transRole followerFromLeader;; mret RStop
      | ENTRY_HOLD | ENTRY_DEFAULT => mret (RRound g args)
      end
  | ForEntries next r =>
      res ← on_append_reply peer next r reply;
      match res with
      | TurnNext next' None => mret (RHead next')
      | TurnNext next' (Some ev) => tryPutEv ev true;; mret (RHead next')
      | TurnRematch => mret (RMatch (-1))
      | TurnAgain => mret (RRound g args)
      | TurnStop ev => tryPutEv ev true;; mret RStop
      end
  end.

(** * The tries of a request *)

Record attempt := mkAttempt { at_repl : nat; at_call : nat; at_multi : nat; at_args : AppendEntriesArgs Cmd; at_flight : flight }.
Definition set_flight f (a : attempt) : attempt := mkAttempt (at_repl a) (at_call a) (at_multi a) (at_args a) f.

(** A try of call [call], in its [multi]-th rpcMultiTry, returns: a reply is stored if none is, and the
    rpcMultiTry that waits for it ends. *)
Definition comes_back (call multi : nat) (reply : option AppendEntriesReply) (p : repl_pc) : repl_pc :=
  match p with
  | RCall g args stored c k =>
      if decide (c = call) then
        let stored' := match stored with Some r => Some r | None => reply end in
        if decide (k = multi) then
          match reply, stored' with
          | Some _, Some r => if aer_Responsed r then RReply g args r else RRefresh g args stored' c k
          | _, _ => RRefresh g args stored' c k
          end
        else RCall g args stored' c k
      else p
  | RRefresh g args stored c k =>
      if decide (c = call) then RRefresh g args (match stored with Some r => Some r | None => reply end) c k else p
  | _ => p
  end.

Fixpoint find_append (ch : nat) (out : list Output) : option AppendEntriesReply :=
  match out with
  | [] => None
  | OutAppend ch' r ok :: out =>
      if decide (ch' = ch) then Some (mkAppendEntriesReply (EntryStatus_ r) (aer_Term r) ok) else find_append ch out
  | _ :: out => find_append ch out
  end.

(** * The system *)

Record system := mkSystem {
  cl : Cluster Cmd;
  repls : list replicator;
  tries : list attempt;
  won : list (nat * Z);
  told : list (nat * ApplyMsg Cmd);
  late : list (nat * RequestVoteArgs);
  stood : list (nat * Z);
  grants : list (nat * Z * Z) }.

Definition set_cl c w : system := mkSystem c (repls w) (tries w) (won w) (told w) (late w) (stood w) (grants w).
Definition set_pc (q : nat) (p : repl_pc) (w : system) : system :=
  mkSystem (cl w)
    (alter (fun r => mkReplicator (rl_leader r) (rl_term r) (rl_peer r)
       (match p with RCall _ _ _ c _ => S c | _ => rl_calls r end) p) q (repls w))
    (tries w) (won w) (told w) (late w) (stood w) (grants w).

(** The replicators that a turn of leader [i] starts. *)
Fixpoint started (i : nat) (t : Z) (out : list Output) : list replicator :=
  match out with
  | [] => []
  | StartReplicator j :: out => mkReplicator i t j 0 (RMatch (-1)) :: started i t out
  | _ :: out => started i t out
  end.

(** The term a peer stands for election in. *)
Definition stands (i : nat) s : list (nat * Z) :=
  if active (role s) && bool_decide (role_enum (role s) = CANDIDATE) then [(i, term s)] else [].

(** The votes that a turn of peer [i] gives: to whom and in which term. *)
Definition gives (i : nat) (cs : list vote_call) (out : list Output) : list (nat * Z * Z) :=
  omap (fun o => match o with
    | OutVote ch r true =>
        if decide (VoteStatus_ r = VOTE_GRANTED)
        then c ← cs !! ch; Some (i, CandidateID (vc_args c), rv_Term (vc_args c)) else None
    | _ => None
    end) out.

(** A turn of an event loop, and the goroutines it starts. *)
Definition turn_of (i : nat) (w : system) : option system :=
  s ← nodes (cl w) !! i; c ← act (Turn i) (cl w); s' ← nodes c !! i;
  let out := drop (length (outbox s)) (outbox s') in
  Some (mkSystem c (repls w ++ started i (term s') out) (tries w) (elected i s s' ++ won w) (told w) (late w)
          (stands i s' ++ stood w) (gives i (calls (cl w)) out ++ grants w)).

Definition peers_do (a : action) (w : system) : option system :=
  match a with
  | Turn i => turn_of i w
  | Fire _ | Ask _ _ | Answer _ | Lose _ => c ← act a (cl w); Some (set_cl c w)
  end.

Definition start_command (i : nat) (x : Cmd) (w : system) : option system :=
  c ← at_node i (Start (Some x) 0 None) (cl w); Some (set_cl c w).

Definition deliver_turn (i : nat) (w : system) : option system :=
  s ← nodes (cl w) !! i;
  match applier_turn (fun _ => true) s with
  | Done (Some (ms, _)) s' =>
      Some (mkSystem (mkCluster (<[i := s']> (nodes (cl w))) (calls (cl w))) (repls w) (tries w) (won w)
              (told w ++ ((fun m => (i, m)) <$> ms)) (late w) (stood w) (grants w))
  | _ => None
  end.

(** Some call still reads the request [c] of replicator [q]. *)
Definition reading (q c : nat) (x : attempt) : bool :=
  bool_decide (at_repl x = q) && bool_decide (at_call x = c) && negb (bool_decide (at_flight x = Returned)).
Definition may_look (q : nat) (p : repl_pc) (w : system) : bool :=
  match p with RRefresh _ _ _ c _ => negb (existsb (reading q c) (tries w)) | _ => true end.

Definition repl_look (q : nat) (w : system) : option system :=
  r ← repls w !! q; s ← nodes (cl w) !! rl_leader r;
  if may_look q (rl_pc r) w
  then p ← look (rl_term r) (rl_calls r) (rl_pc r) s; Some (set_pc q p w)
  else None.

Definition try_call (q : nat) (w : system) : option system :=
  r ← repls w !! q;
  match rl_pc r with
  | RCall _ args _ c k => Some (mkSystem (cl w) (repls w) (tries w ++ [mkAttempt q c k args Underway]) (won w) (told w) (late w) (stood w) (grants w))
  | _ => None
  end.

Definition emptyAppendReply : AppendEntriesReply := mkAppendEntriesReply ENTRY_DEFAULT 0 false.

Definition arrive (k : nat) (w : system) : option system :=
  x ← tries w !! k; r ← repls w !! at_repl x;
  match at_flight x with
  | Underway =>
      c ← at_node (Z.to_nat (rl_peer r)) (AppendEntries (at_args x) emptyAppendReply k) (cl w);
      Some (mkSystem c (repls w) (<[k := set_flight Arrived x]> (tries w)) (won w) (told w) (late w) (stood w) (grants w))
  | _ => None
  end.

(** What Call finds: the answer, or nothing; a request that was not delivered has no answer. *)
Definition call_finds (k : nat) (ok : bool) (peer : Z) (f : flight) (w : system) : option (option AppendEntriesReply) :=
  match f, ok with
  | Arrived, true => s ← nodes (cl w) !! Z.to_nat peer; y ← find_append k (outbox s); Some (Some y)
  | Arrived, false | Underway, false => Some None
  | _, _ => None
  end.

Definition call_returns (k : nat) (ok : bool) (w : system) : option system :=
  x ← tries w !! k; r ← repls w !! at_repl x; reply ← call_finds k ok (rl_peer r) (at_flight x) w;
  Some (mkSystem (cl w)
    (<[at_repl x := mkReplicator (rl_leader r) (rl_term r) (rl_peer r) (rl_calls r)
         (comes_back (at_call x) (at_multi x) reply (rl_pc r))]> (repls w))
    (<[k := set_flight Returned x]> (tries w)) (won w) (told w) (late w) (stood w) (grants w)).

Definition repl_reply (q : nat) (w : system) : option system :=
  r ← repls w !! q; s ← nodes (cl w) !! rl_leader r;
  match rl_pc r with
  | RReply g args reply =>
      match on_reply (rl_term r) (rl_peer r) g args reply s with
      | Done p s' => Some (set_pc q p (set_cl (mkCluster (<[rl_leader r := s']> (nodes (cl w))) (calls (cl w))) w))
      | _ => None
      end
  | _ => None
  end.

(** ** A crash and a restart

    A new peer starts from the persister.  The goroutines of the old one no longer matter, but what it
    sent may still arrive: its AppendEntries requests are among the tries, its vote requests in [late]. *)

Definition gone (i : nat) (r : replicator) : replicator :=
  if decide (rl_leader r = i) then mkReplicator (rl_leader r) (rl_term r) (rl_peer r) (rl_calls r) RStop else r.

(** The answer to a call of nobody is not used. *)
Definition disown (i nobody : nat) (x : vote_call) : vote_call :=
  if decide (vc_caller x = i) then mkVoteCall nobody (vc_callee x) (vc_args x) (vc_state x) else x.

Fixpoint vote_requests (out : list Output) : list (nat * RequestVoteArgs) :=
  match out with
  | [] => []
  | CallRequestVote j args :: out => (Z.to_nat j, args) :: vote_requests out
  | _ :: out => vote_requests out
  end.

Definition restart_peer (i : nat) (w : system) : option system :=
  s ← nodes (cl w) !! i;
  match Make (peers s) (me s) (persister s) tt with
  | Done s' _ =>
      let ns := nodes (cl w) in
      Some (mkSystem (mkCluster (<[i := s']> ns) (disown i (length ns) <$> calls (cl w))) (gone i <$> repls w) (tries w)
              (won w) (told w) (late w ++ vote_requests (outbox s)) (stood w) (grants w))
  | _ => None
  end.

Definition late_vote (k : nat) (w : system) : option system :=
  '(j, args) ← late w !! k;
  c ← at_node j (RequestVote args emptyVoteReply (length (calls (cl w)))) (cl w);
  Some (set_cl (mkCluster (nodes c) (calls c ++ [mkVoteCall (length (nodes c)) j args Waiting])) w).

Inductive sys_action : Type :=
  | Peers (a : action)                            (* an event loop, a timer, a vote request *)
  | Command (i : nat) (c : Cmd)                   (* Start *)
  | Deliver (i : nat)                             (* the applier *)
  | Look (q : nat)                                (* a replicator reads *)
  | Try (q : nat)                                 (* rpcMultiTry makes a call *)
  | Arrive (k : nat)                              (* it reaches the peer *)
  | Return (k : nat) (ok : bool)                  (* it comes back *)
  | Reply (q : nat)                               (* the replicator acts on the answer *)
  | Restart (i : nat)                             (* a peer crashes and is started again *)
  | Late (k : nat).                               (* a vote request of a peer that crashed arrives *)

Definition sys_exec (a : sys_action) : system -> option system :=
  match a with
  | Peers b => peers_do b
  | Command i x => start_command i x
  | Deliver i => deliver_turn i
  | Look q => repl_look q
  | Try q => try_call q
  | Arrive k => arrive k
  | Return k ok => call_returns k ok
  | Reply q => repl_reply q
  | Restart i => restart_peer i
  | Late k => late_vote k
  end.

Fixpoint sys_run (l : list sys_action) (w : system) : option system :=
  match l with
  | [] => Some w
  | a :: l => w' ← sys_exec a w; sys_run l w'
  end.

Definition start_system (n : nat) : option system := c ← fresh_cluster n; Some (mkSystem c [] [] [] [] [] [] []).
End system.
Arguments system : clear implicits.
Arguments sys_action : clear implicits.
