(* ===== verification/RaftNetTheorems.v ===== *)
(** What holds of a cluster with all its goroutines, and what does not.

    Every run of [RaftNet] is a run of the peers of [LogMatching] over a network that delivers
    requests as it likes, so the logs match.  Entries that a majority has confirmed
    can be lost all the same: a request that arrives late truncates the log of a
    follower. *)

From S2P Require Import Prelude BitVec RaftTypes Persist Logs LogsSpec ReplCounter Roles Gate Votes Election Cluster.
From S2P Require Import Replicator RaftLogTheorems PeerLog PeerTurn LogMatching RaftNet.

Section simulation.
Context {Cmd : Type} `{!Gob Cmd, !GobRegistered Cmd}.
Implicit Types s : Raft Cmd.
Implicit Types w : system Cmd.
Implicit Types n : raft_net Cmd.

(** Terms are below the largest and logs are shorter than 2^31. *)
Definition int32 (t : Z) : bool := (-2147483648 <=? t) && (t <=? 2147483647).
Definition small_event s (ev : Event Cmd) : bool :=
  int32 (event_term ev) &&
  match ev with AppendEntriesEvent args _ _ => lenZ (the_log s) + payload args <? 2^31 | _ => true end.
Definition small_peer s : bool :=
  (0 <=? term s) && (term s <? 2147483647) && (lenZ (the_log s) + 1 <? 2^31) && forallb (small_event s) (evCh s).
Definition small w : bool := forallb small_peer (nodes (cl w)).

Definition sys_step w w' : Prop := exists a, small w = true /\ small w' = true /\ sys_exec a w = Some w'.

Record small_facts s : Prop := {
  sm_term : 0 <= term s < 2147483647;
  sm_fits : fits_log s;
  sm_events : forall ev, ev ∈ evCh s -> is_int32 (event_term ev) }.

Lemma int32_spec t : int32 t = true -> is_int32 t.
Proof. unfold int32, is_int32. lia. Qed.

Lemma small_node w i s : small w = true -> nodes (cl w) !! i = Some s -> small_facts s.
Proof.
  unfold small. rewrite forallb_forall. intros H Hi. apply list_elem_of_lookup_2, list_elem_of_In, H in Hi.
  unfold small_peer in Hi. rewrite !andb_true_iff, forallb_forall in Hi. destruct Hi as [[[H1 H2] H3] H4].
  constructor; [lia| |].
  - split; [lia|]. intros args r ch Hin%list_elem_of_In%H4. unfold small_event in Hin. simpl in Hin. lia.
  - intros ev [H5 _]%list_elem_of_In%H4%andb_true_iff. by apply int32_spec.
Qed.

(** * The network of a system *)

(** The request a replicator is about to make, or makes. *)
Definition pc_args (p : repl_pc) : option (AppendEntriesArgs Cmd) :=
  match p with
  | RTerm _ a | RCommit _ a | RRound _ a | RCall _ a _ _ _ | RRefresh _ a _ _ _ | RReply _ a _ => Some a
  | _ => None
  end.

Definition known n (a : AppendEntriesArgs Cmd) : Prop := a ∈ sent n /\ is_int32 (ae_Term a).
Definition pc_known n (p : repl_pc) : Prop := forall a, pc_args p = Some a -> known n a.

Record tracks w n : Prop := {
  tr_nodes : net_nodes n = nodes (cl w);
  tr_won : led n = won w;
  tr_tries : Forall (fun x => known n (at_args x)) (tries w);
  tr_repls : Forall (fun r => pc_known n (rl_pc r)) (repls w) }.

Definition simulated w' n : Prop := exists n', rtc net_step n n' /\ tracks w' n'.

Lemma known_more n n' a : sent n ⊆ sent n' -> known n a -> known n' a.
Proof. intros Hs [H1 H2]. split; [by apply Hs|done]. Qed.

(** Peers move, the requests stay. *)
Lemma tracks_nodes w n c rs :
  tracks w n -> (forall p, p ∈ rs -> pc_args (rl_pc p) = None) ->
  tracks (mkSystem c (repls w ++ rs) (tries w) (won w) (told w) (late w) (stood w) (grants w)) (mkNet (nodes c) (sent n) (led n)).
Proof.
  intros [H1 H2 H3 H4] Hrs. constructor; simpl; try done. apply Forall_app. split; [done|].
  apply Forall_forall. intros r Hr a Ha. rewrite (Hrs r Hr) in Ha. done.
Qed.

Lemma at_node_inv {A} i (m : M (Raft Cmd) A) c c' :
  at_node i m c = Some c' -> exists s a s', nodes c !! i = Some s /\ m s = Done a s' /\
    c' = mkCluster (<[i := s']> (nodes c)) (calls c).
Proof.
  unfold at_node. destruct (nodes c !! i) as [s|] eqn:Hi; [|done]. simpl.
  destruct (m s) as [a s'| |] eqn:E; [|done..]. intros [= <-]. by exists s, a, s'.
Qed.

(** One peer moves, or nothing does. *)
Definition moves (i : nat) s s' : Prop :=
  s' = s \/ forall ns net ld, ns !! i = Some s -> rtc net_step (mkNet ns net ld) (mkNet (<[i := s']> ns) net ld).

Lemma moves_step i s s' :
  (forall ns net ld, ns !! i = Some s -> net_step (mkNet ns net ld) (mkNet (<[i := s']> ns) net ld)) -> moves i s s'.
Proof. intros H. right. intros ns net ld Hi. by apply rtc_once, H. Qed.

Lemma try_moves i ev cur b s s' :
  tryPutEv ev cur s = Done b s' -> is_trans ev = false -> is_append ev = false -> small_facts s' -> moves i s s'.
Proof.
  intros E Ht Ha Hs. pose proof (tryPutEv_run _ _ _ _ _ E) as Es. destruct b; [|by left].
  apply moves_step. intros ns net ld Hi. eapply net_try; eauto. apply (sm_events _ Hs). rewrite Es. simpl. set_solver.
Qed.

Lemma put_moves i ev u s s' :
  put_locked ev s = Done u s' -> is_trans ev = false -> is_append ev = false -> small_facts s' -> moves i s s'.
Proof.
  intros E Ht Ha Hs. pose proof (put_locked_run _ _ _ _ E) as Es.
  apply moves_step. intros ns net ld Hi. eapply net_put; eauto. apply (sm_events _ Hs). rewrite Es. simpl. set_solver.
Qed.

Lemma moves_trans i s s1 s2 : moves i s s1 -> moves i s1 s2 -> moves i s s2.
Proof.
  intros [->|H1] [->|H2]; [by left|by right|by right|]. right. intros ns net ld Hi.
  etrans; [by apply H1|]. pose proof (list_lookup_insert_eq ns i s1 (lookup_lt_Some _ _ _ Hi)) as Hi'.
  specialize (H2 _ net ld Hi'). by rewrite list_insert_insert_eq in H2.
Qed.

Lemma moves_sent i s s' w n k :
  tracks w n -> nodes (cl w) !! i = Some s -> moves i s s' ->
  exists n', rtc net_step n n' /\ tracks (set_cl (mkCluster (<[i := s']> (nodes (cl w))) k) w) n' /\ sent n' = sent n.
Proof.
  intros Ht Hi Hm. destruct n as [ns net ld]. destruct Ht as [H1 H2 H3 H4]. simpl in *. subst ns ld.
  destruct Hm as [->|Hm].
  - exists (mkNet (nodes (cl w)) net (won w)). split; [apply rtc_refl|]. split; [|done].
    constructor; simpl; try done. by rewrite list_insert_id.
  - eexists. split; [by apply Hm|]. split; [by constructor|done].
Qed.

Lemma moves_run i s s' w n k :
  tracks w n -> nodes (cl w) !! i = Some s -> moves i s s' ->
  simulated (set_cl (mkCluster (<[i := s']> (nodes (cl w))) k) w) n.
Proof. intros Ht Hi Hm. destruct (moves_sent i s s' w n k Ht Hi Hm) as (n' & H1 & H2 & _). by exists n'. Qed.

(** ** The peers *)

Lemma moves_fire i b s s' : fire s = Done b s' -> small_facts s' -> moves i s s'.
Proof.
  unfold fire. rewrite bind_gets. intros E Hs.
  assert (forall d, role_enum (mkRole (active (role s)) d) = role_enum (role s) ->
    moves i s (set_role (mkRole (active (role s)) d) s)) as Ht.
  { intros d Hd. apply moves_step. intros ns net ld Hi. by apply net_timer. }
  destruct (data (role s)) as [[[[]|] x]|v vs [[[]|] x]|rc] eqn:Ed; try (injection E as _ <-; by left).
  - unfold set_data in E. rewrite bind_modify in E. eapply moves_trans; [|by eapply try_moves].
    apply Ht. unfold role_enum. by rewrite Ed.
  - unfold set_data in E. rewrite bind_modify in E. eapply moves_trans; [|by eapply try_moves].
    apply Ht. unfold role_enum. by rewrite Ed.
Qed.

Lemma moves_ask i args r ch b s s' : RequestVote args r ch s = Done b s' -> small_facts s' -> moves i s s'.
Proof.
  unfold RequestVote. rewrite bind_gets. intros E Hs. destruct (dead s); [injection E as _ <-; by left|].
  apply bind_inv in E as (u & s1 & E1 & E2). injection E2 as _ <-. by eapply put_moves.
Qed.

Lemma moves_answer i t ok r cur b s s' : on_vote_reply t ok r cur s = Done b s' -> small_facts s' -> moves i s s'.
Proof.
  unfold on_vote_reply. rewrite bind_gets. intros E Hs.
  repeat (case_match; try (injection E as _ <-; by left)); by eapply try_moves.
Qed.

Lemma moves_start i x ch b s s' : Start (Some x) ch None s = Done b s' -> small_facts s' -> moves i s s'.
Proof.
  unfold Start. rewrite bind_gets. intros E Hs. destruct (dead s); [injection E as _ <-; by left|].
  apply bind_inv in E as (u & s1 & E1 & E2). injection E2 as _ <-. by eapply put_moves.
Qed.

Lemma moves_apply i accept r s s' : applier_turn accept s = Done r s' -> moves i s s'.
Proof. intros E. apply moves_step. intros ns net ld Hi. by eapply net_apply. Qed.

Lemma sim_turn i w w' n : turn_of i w = Some w' -> tracks w n -> small w = true -> simulated w' n.
Proof.
  intros E Ht Hw. unfold turn_of in E. destruct (nodes (cl w) !! i) as [s|] eqn:Hi; [|done]. cbn in E.
  unfold at_node in E. rewrite Hi in E. cbn in E. destruct (processor_turn s) as [b s'| |] eqn:Ep; [|done..]. cbn in E.
  rewrite list_lookup_insert_eq in E by (by eapply lookup_lt_Some). injection E as <-.
  destruct (small_node w i s Hw Hi) as [H1 H2 H3]. destruct n as [ns net ld].
  destruct Ht as [T1 T2 T3 T4]. simpl in *. subst ns ld. eexists. split; [by eapply rtc_once, net_turn|].
  constructor; simpl; try done. apply Forall_app. split; [done|]. apply Forall_forall. intros r Hr a Ha. exfalso.
  revert Hr. generalize (drop (length (outbox s)) (outbox s')). intros out. induction out as [|[] out IH]; simpl; try done;
    [set_solver|]. intros [->|?]%elem_of_cons; [done|by apply IH].
Qed.

Lemma small_after w i s k : small (set_cl (mkCluster (<[i := s]> (nodes (cl w))) k) w) = true ->
  is_Some (nodes (cl w) !! i) -> small_facts s.
Proof. intros H [s0 Hi]. eapply (small_node _ i); [exact H|]. simpl. apply list_lookup_insert_eq. by eapply lookup_lt_Some. Qed.

Lemma sim_peers a w w' n :
  peers_do a w = Some w' -> tracks w n -> small w = true -> small w' = true -> simulated w' n.
Proof.
  intros E Ht Hw Hw'. destruct a as [i|i|i k|k|k]; [by eapply sim_turn|..]; cbn [peers_do] in E;
    (destruct (act _ _) as [c|] eqn:Ea; [|done]); injection E as <-; cbn [act] in Ea.
  - apply at_node_inv in Ea as (s & b & s' & Hi & Ef & ->).
    eapply moves_run; eauto. eapply moves_fire; eauto. eapply small_after; eauto.
  - destruct (nodes (cl w) !! i) as [s0|]; [|done]. simpl in Ea. destruct (outbox s0 !! k) as [[]|]; try done.
    destruct (may_call _ _ _ _); [|done]. destruct (at_node _ _ _) as [c1|] eqn:E1; [|done]. injection Ea as <-.
    apply at_node_inv in E1 as (s & b & s' & Hi & Ef & ->). simpl in *.
    eapply moves_run; eauto. eapply moves_ask; eauto. eapply small_after; eauto.
  - destruct (calls (cl w) !! k) as [x|]; [|done]. simpl in Ea. destruct (vc_state x); try done.
    destruct (nodes (cl w) !! vc_caller x) as [s0|]; [|done]. simpl in Ea.
    destruct (nodes (cl w) !! vc_callee x) as [s1|]; [|done]. simpl in Ea. destruct (find_vote _ _); [|done]. simpl in Ea.
    destruct (at_node _ _ _) as [c1|] eqn:E1; [|done]. injection Ea as <-.
    apply at_node_inv in E1 as (s & b & s' & Hi & Ef & ->). simpl in *.
    eapply moves_run; eauto. eapply moves_answer; eauto. eapply small_after; eauto.
  - destruct (calls (cl w) !! k) as [x|]; [|done]. simpl in Ea. destruct (vc_state x); try done. injection Ea as <-.
    exists n. split; [apply rtc_refl|]. by destruct Ht.
Qed.

Lemma sim_command i x w w' n :
  start_command i x w = Some w' -> tracks w n -> small w' = true -> simulated w' n.
Proof.
  unfold start_command. intros E Ht Hw'. destruct (at_node _ _ _) as [c|] eqn:Ea; [|done]. injection E as <-.
  apply at_node_inv in Ea as (s & b & s' & Hi & Ef & ->). eapply moves_run; eauto. eapply moves_start; eauto.
  eapply small_after; eauto.
Qed.

Lemma sim_deliver i w w' n : deliver_turn i w = Some w' -> tracks w n -> simulated w' n.
Proof.
  unfold deliver_turn. intros E Ht. destruct (nodes (cl w) !! i) as [s|] eqn:Hi; [|done]. simpl in E.
  destruct (applier_turn _ s) as [[[ms go]|] s'| |] eqn:Ea; try done. injection E as <-.
  destruct (moves_run i s s' w n (calls (cl w)) Ht Hi (moves_apply _ _ _ _ _ Ea)) as (n' & Hr & [T1 T2 T3 T4]).
  exists n'. by split.
Qed.

(** ** The replicators *)

Record extends n n' : Prop := {
  ex_run : rtc net_step n n';
  ex_nodes : net_nodes n' = net_nodes n;
  ex_led : led n' = led n;
  ex_sent : sent n ⊆ sent n' }.

Lemma extends_refl n : extends n n.
Proof. constructor; [apply rtc_refl|done..]. Qed.
Lemma extends_trans n1 n2 n3 : extends n1 n2 -> extends n2 n3 -> extends n1 n3.
Proof. intros [A B C D] [A' B' C' D']. constructor; [by etrans|congruence..|set_solver]. Qed.

Lemma extend_send n a :
  net_step n (mkNet (net_nodes n) (a :: sent n) (led n)) -> is_int32 (ae_Term a) -> exists n', extends n n' /\ known n' a.
Proof.
  intros H Ha. eexists. split; [constructor; [by apply rtc_once|done|done|set_solver]|]. split; [set_solver|done].
Qed.

Lemma extend_relabel n t c a : known n a -> is_int32 t -> exists n', extends n n' /\ known n' (relabel t c a).
Proof. intros [H1 H2] Ht. destruct n as [ns net ld]. apply extend_send; [by apply net_relabel|done]. Qed.

Lemma small_int32 s : small_facts s -> is_int32 (term s).
Proof. intros [H _ _]. unfold is_int32. lia. Qed.

Lemma look_extends t calls p p' n i s :
  look t calls p s = Some p' -> pc_known n p -> net_nodes n !! i = Some s -> small_facts s ->
  exists n', extends n n' /\ pc_known n' p'.
Proof.
  intros E Hp Hi Hs. pose proof (small_int32 s Hs) as Ht. assert (is_int32 0) as H0 by (unfold is_int32; lia).
  assert (pc_args p' = None -> exists n', extends n n' /\ pc_known n' p') as Hq.
  { intros Hn. exists n. split; [apply extends_refl|]. intros a. by rewrite Hn. }
  assert (forall t c a, known n a -> is_int32 t -> pc_args p' = Some (relabel t c a) ->
    exists n', extends n n' /\ pc_known n' p') as Hr.
  { intros t' c a Ha Ht' Hn. destruct (extend_relabel n t' c a Ha Ht') as (n' & H1 & H2). exists n'. split; [done|].
    intros a'. rewrite Hn. by intros [= <-]. }
  destruct p; cbn [look] in E; try done; try (injection E as <-; apply Hq; repeat case_match; done).
  - unfold value in E. destruct (tryIndexLogTerm _ s) as [[mt []] s'| |] eqn:Et; try done; injection E as <-; [|by apply Hq].
    destruct (extend_send n (query_args s (l + (r - l) `quot` 2) mt)) as (n1 & X1 & K1);
      [destruct n; by eapply net_query; [..|apply Hs|]|done|].
    destruct (extend_relabel n1 0 0 _ K1 H0) as (n2 & X2 & K2). exists n2. split; [by eapply extends_trans|].
    by intros a [= <-].
  - apply Hq. destruct (live t s), (next >=? 0); by simplify_eq.
  - unfold value in E. destruct (entriesAfter next s) as [r s'| |] eqn:Et; try done. injection E as <-.
    destruct (extend_send n (replicate_args s r)) as (n1 & X1 & K1);
      [destruct n; by eapply net_send; [..|apply Hs|]|done|].
    destruct (extend_relabel n1 0 0 _ K1 H0) as (n2 & X2 & K2). exists n2. split; [by eapply extends_trans|].
    by intros a [= <-].
  - injection E as <-. by eapply (Hr (term s) _ args); [apply Hp| |].
  - injection E as <-. by eapply (Hr (ae_Term args) _ args); [apply Hp|apply Hp|].
  - injection E as <-. destruct (live t s); [|apply Hq; by destruct g].
    exists n. split; [apply extends_refl|]. intros a [= <-]. by apply Hp.
  - injection E as <-. by eapply (Hr (ae_Term args) _ args); [apply Hp|apply Hp|].
Qed.

Lemma tracks_extends w n n' : tracks w n -> extends n n' -> tracks w n'.
Proof.
  intros [T1 T2 T3 T4] [X1 X2 X3 X4]. constructor; [congruence..| |].
  - eapply Forall_impl; [exact T3|]. intros x. by apply known_more.
  - eapply Forall_impl; [exact T4|]. intros r Hr a Ha. eapply known_more; eauto.
Qed.

Lemma tracks_pc w n q p : tracks w n -> pc_known n p -> tracks (set_pc q p w) n.
Proof.
  intros [T1 T2 T3 T4] Hp. constructor; simpl; try done. by apply Forall_alter.
Qed.

Lemma repl_known w n q r : tracks w n -> repls w !! q = Some r -> pc_known n (rl_pc r).
Proof. intros Ht Hq. by apply (Forall_lookup_1 _ _ _ _ (tr_repls _ _ Ht) Hq). Qed.

Lemma sim_look q w w' n : repl_look q w = Some w' -> tracks w n -> small w = true -> simulated w' n.
Proof.
  unfold repl_look. intros E Ht Hw. destruct (repls w !! q) as [r|] eqn:Hq; [|done]. simpl in E.
  destruct (nodes (cl w) !! rl_leader r) as [s|] eqn:Hi; [|done]. simpl in E. destruct (may_look _ _ _); [|done].
  destruct (look _ _ _ _) as [p|] eqn:Ep; [|done]. injection E as <-.
  destruct (look_extends _ _ _ _ n (rl_leader r) s Ep) as (n' & X & K);
    [by eapply repl_known|by rewrite (tr_nodes _ _ Ht)|by eapply small_node|].
  exists n'. split; [apply X|]. apply tracks_pc; [by eapply tracks_extends|done].
Qed.

Lemma sim_try q w w' n : try_call q w = Some w' -> tracks w n -> simulated w' n.
Proof.
  unfold try_call. intros E Ht. destruct (repls w !! q) as [r|] eqn:Hq; [|done]. simpl in E.
  pose proof (repl_known _ _ _ _ Ht Hq) as K. destruct (rl_pc r); try done. injection E as <-.
  exists n. split; [apply rtc_refl|]. destruct Ht as [T1 T2 T3 T4]. constructor; simpl; try done.
  apply Forall_app. split; [done|]. constructor; [by apply K|done].
Qed.

Lemma Forall_same_args n (l : list attempt) k x f :
  Forall (fun x => known n (at_args x)) l -> l !! k = Some x -> Forall (fun x => known n (at_args x)) (<[k := set_flight f x]> l).
Proof. intros H Hk. apply Forall_insert; [done|]. simpl. by apply (Forall_lookup_1 _ _ _ _ H Hk). Qed.

Lemma sim_arrive k w w' n : arrive k w = Some w' -> tracks w n -> simulated w' n.
Proof.
  unfold arrive. intros E Ht. destruct (tries w !! k) as [x|] eqn:Hk; [|done]. simpl in E.
  destruct (repls w !! at_repl x) as [r|] eqn:Hq; [|done]. simpl in E. destruct (at_flight x); try done.
  destruct (at_node _ _ _) as [c|] eqn:Ea; [|done]. injection E as <-.
  apply at_node_inv in Ea as (s & b & s' & Hi & Ef & ->).
  pose proof (Forall_lookup_1 _ _ _ _ (tr_tries _ _ Ht) Hk) as [K1 K2].
  destruct n as [ns net ld]. destruct Ht as [T1 T2 T3 T4]. simpl in *. subst ns ld.
  exists (mkNet (<[Z.to_nat (rl_peer r) := s']> (nodes (cl w))) net (won w)).
  split; [by eapply rtc_once, net_deliver|]. constructor; simpl; try done. by apply Forall_same_args.
Qed.

Lemma comes_back_args c k reply p : pc_args (comes_back c k reply p) = pc_args p.
Proof. destruct p; simpl; try done; repeat case_match; done. Qed.

Lemma sim_return k ok w w' n : call_returns k ok w = Some w' -> tracks w n -> simulated w' n.
Proof.
  unfold call_returns. intros E Ht. destruct (tries w !! k) as [x|] eqn:Hk; [|done]. simpl in E.
  destruct (repls w !! at_repl x) as [r|] eqn:Hq; [|done]. simpl in E.
  destruct (call_finds _ _ _ _ _) as [reply|]; [|done]. injection E as <-.
  exists n. split; [apply rtc_refl|]. pose proof (repl_known _ _ _ _ Ht Hq) as K.
  destruct Ht as [T1 T2 T3 T4]. constructor; simpl; try done; [by apply Forall_same_args|].
  apply Forall_insert; [done|]. intros a. simpl. rewrite comes_back_args. apply K.
Qed.

Lemma moves_tried i (ev : Event Cmd) (p p' : repl_pc (Cmd := Cmd)) s s' :
  (tryPutEv ev true;; mret p) s = Done p' s' -> is_trans ev = false -> is_append ev = false -> small_facts s' ->
  p' = p /\ moves i s s'.
Proof.
  intros E Ht Ha Hs. apply bind_inv in E as (b & s1 & E1 & E2). injection E2 as <- <-. split; [done|]. by eapply try_moves.
Qed.

Lemma on_reply_moves i t peer g args reply p s s' n :
  on_reply t peer g args reply s = Done p s' -> known n args -> small_facts s' -> moves i s s' /\ pc_known n p.
Proof.
  intros E Ha Hs. unfold on_reply in E. rewrite bind_gets in E. destruct (live t s) eqn:Hl; simpl in E;
    [|injection E as <- <-; split; [by left|done]].
  assert (pc_known n (RRound g args)) as Hg by (by intros a [= <-]).
  destruct g as [l r prev m|next r].
  - destruct (EntryStatus_ reply); try (injection E as <- <-; split; [by left|done]).
    apply bind_inv in E as (u & s1 & E1 & E2). injection E2 as <- <-. split; [|done].
    apply moves_step. intros ns net ld Hi. apply bool_decide_eq_true in Hl. unfold lead in Hl.
    destruct (active (role s)) eqn:Hact; [|done]. simpl in Hl. case_bool_decide as Hk; [|done]. by eapply net_stale.
  - unfold on_append_reply in E.
    destruct (EntryStatus_ reply); simpl in E; try (injection E as <- <-; split; [by left|done]);
      try (eapply moves_tried in E as [-> ?]; done).
    destruct r as [[sn|] [se|]]; simpl in E; try done; try (injection E as <- <-; split; [by left|done]).
    destruct (0 <? length (Entries se))%nat; simpl in E; [by eapply moves_tried in E as [-> ?]|].
    injection E as <- <-. split; [by left|done].
Qed.

Lemma sim_reply q w w' n : repl_reply q w = Some w' -> tracks w n -> small w' = true -> simulated w' n.
Proof.
  unfold repl_reply. intros E Ht Hw'. destruct (repls w !! q) as [r|] eqn:Hq; [|done]. simpl in E.
  destruct (nodes (cl w) !! rl_leader r) as [s|] eqn:Hi; [|done]. simpl in E.
  pose proof (repl_known _ _ _ _ Ht Hq) as K. destruct (rl_pc r) as [| | | | | | | | | | | | |g args reply|]; try done.
  destruct (on_reply _ _ _ _ _ _) as [p s'| |] eqn:Eo; [|done..]. injection E as <-.
  assert (small_facts s') as Hs' by (by apply (small_after w (rl_leader r) s' (calls (cl w)) Hw')).
  destruct (on_reply_moves (rl_leader r) _ _ _ _ _ _ _ _ n Eo (K _ eq_refl) Hs') as [Hm Hp].
  destruct (moves_sent _ _ _ _ n (calls (cl w)) Ht Hi Hm) as (n' & H1 & H2 & H3). exists n'. split; [done|].
  apply tracks_pc; [done|]. intros a Ha. destruct (Hp a Ha). split; [by rewrite H3|done].
Qed.

(** ** Restarts *)

Lemma sim_restart i w w' n : restart_peer i w = Some w' -> tracks w n -> simulated w' n.
Proof.
  unfold restart_peer. intros E [T1 T2 T3 T4]. destruct (nodes (cl w) !! i) as [s|] eqn:Hi; [|done]. simpl in E.
  destruct (Make _ _ _ _) as [s' []| |] eqn:Em; [|done..]. injection E as <-. destruct n as [ns net ld]. simpl in *. subst ns ld.
  eexists. split; [by eapply rtc_once, net_restart|]. constructor; simpl; try done.
  apply Forall_fmap. eapply Forall_impl; [exact T4|]. intros r Hr a. simpl. unfold gone. case_decide; [done|]. apply Hr.
Qed.

Lemma sim_late k w w' n : late_vote k w = Some w' -> tracks w n -> small w' = true -> simulated w' n.
Proof.
  unfold late_vote. intros E Ht Hw'. destruct (late w !! k) as [[j args]|]; [|done]. simpl in E.
  destruct (at_node _ _ _) as [c|] eqn:Ea; [|done]. injection E as <-.
  apply at_node_inv in Ea as (s & b & s' & Hi & Ef & ->). simpl in *.
  eapply moves_run; eauto. eapply moves_ask; eauto. eapply small_after; eauto.
Qed.

(** * Runs *)

Lemma sys_step_sim w w' n : sys_step w w' -> tracks w n -> simulated w' n.
Proof.
  intros ([] & Hw & Hw' & E) Ht; simpl in E; eauto using sim_peers, sim_command, sim_deliver, sim_look, sim_try, sim_arrive,
    sim_return, sim_reply, sim_restart, sim_late.
Qed.

Lemma fresh_peers k c : fresh_cluster k = Some c -> new_peers (nodes c).
Proof.
  unfold fresh_cluster. destruct (mapM _ _) as [ns|] eqn:E; [|done]. intros [= <-] i s Hi. simpl in *.
  apply mapM_Some_1 in E. destruct (Forall2_lookup_r _ _ _ _ _ E Hi) as (x & _ & Hx).
  unfold fresh_node in Hx. destruct (Make _ _ _ _) as [s' []| |] eqn:Em; [|done..]. injection Hx as <-. by eauto.
Qed.

(** Every run of the goroutines is a run of the peers over a network that relays requests as it likes. *)
Lemma system_run k w0 w :
  start_system k = Some w0 -> rtc sys_step w0 w ->
  exists n, rtc net_step (mkNet (nodes (cl w0)) [] []) n /\ tracks w n.
Proof.
  intros E Hr. refine (rtc_ind_r (fun v => exists n, rtc net_step (mkNet (nodes (cl w0)) [] []) n /\ tracks v n) _ _ _ w Hr).
  - exists (mkNet (nodes (cl w0)) [] []). split; [apply rtc_refl|]. unfold start_system in E.
    destruct (fresh_cluster k); [|done]. injection E as <-. by constructor.
  - intros v1 v2 _ Hstep (n & H1 & H2). destruct (sys_step_sim _ _ _ Hstep H2) as (n' & H3 & H4).
    exists n'. split; [by etrans|done].
Qed.


(** A schedule whose states are all small. *)
Fixpoint checked_run (l : list (sys_action Cmd)) w : option (system Cmd) :=
  if small w then
    match l with
    | [] => Some w
    | a :: l => w' ← sys_exec a w; checked_run l w'
    end
  else None.

Lemma checked_small l w w' : checked_run l w = Some w' -> small w = true.
Proof. destruct l; simpl; by destruct (small w). Qed.

Lemma checked_steps l w w' : checked_run l w = Some w' -> rtc sys_step w w'.
Proof.
  revert w. induction l as [|a l IH]; intros w E; simpl in E; destruct (small w) eqn:Hw; try done.
  { injection E as <-. apply rtc_refl. }
  destruct (sys_exec a w) as [w1|] eqn:Ea; [|done]. simpl in E.
  eapply rtc_l; [|by apply IH]. exists a. split; [done|]. split; [by eapply checked_small|done].
Qed.
End simulation.

(** * A run that loses a committed command *)

Definition request (q k j : nat) : list (sys_action Z) := [Try q; Arrive k; Peers (Turn j); Return k true; Reply q].

(** Peer 0 leads term 1.  It sends its first entry to peer 1 in two tries, one of which is delayed; then
    command 10, which peer 1 confirms and the majority commits. *)
Definition commits_10 : list (sys_action Z) :=
  (Peers <$> [Turn 0; Turn 1; Turn 2; Fire 0; Turn 0; Turn 0; Ask 0 0; Turn 1; Answer 0; Turn 0; Turn 0]) ++
  repeat (Look 0) 8 ++ request 0 0 1 ++ repeat (Look 0) 7 ++
  [Try 0; Try 0; Arrive 1; Peers (Turn 1); Return 1 true; Command 0 10; Reply 0; Peers (Turn 0)] ++
  repeat (Look 0) 5 ++ request 0 3 1 ++ [Peers (Turn 0); Peers (Turn 0); Deliver 0; Deliver 0].

(** The delayed try arrives at peer 1, which then wins term 2 with the vote of peer 2 and commits command 20. *)
Definition commits_20 : list (sys_action Z) :=
  [Arrive 2; Peers (Turn 1)] ++
  (Peers <$> [Fire 1; Turn 1; Turn 1; Ask 1 6; Turn 2; Answer 1; Turn 1; Turn 1]) ++ [Command 1 20; Peers (Turn 1)] ++
  repeat (Look 3) 8 ++ request 3 4 2 ++ repeat (Look 3) 5 ++ request 3 5 2 ++ repeat (Look 3) 7 ++ request 3 6 2 ++
  [Peers (Turn 1); Deliver 1].

Definition start3 : system Z := mkSystem (mkCluster (default [] (mapM (fresh_node 3) (seq 0 3))) []) [] [] [] [] [] [] [].
Definition lost_run : system Z := default start3 (checked_run (commits_10 ++ commits_20) start3).
Definition told_commands : list (nat * Z * option Z) :=
  (fun x => (fst x, am_CommandIndex (snd x), RaftTypes.Command (snd x))) <$> told lost_run.

Lemma lost_one_leader : one_leader (won lost_run).
Proof.
  assert (won lost_run = [(1%nat, 2); (0%nat, 1)]) as -> by (vm_compute; reflexivity).
  intros i j t Hi Hj. set_solver.
Qed.
Lemma lost_steps : rtc sys_step start3 lost_run.
Proof. apply (checked_steps (commits_10 ++ commits_20)). vm_compute. reflexivity. Qed.

(** C38: Raft's promise fails even when every term has one leader: three peers from empty
    stores reach a state in which two of them have delivered different commands with
    the same index to their services.  A delayed second try of an AppendEntries request
    makes a follower drop an entry it has confirmed, and with it the majority. *)
Theorem committed_command_replaced :
  rtc sys_step start3 lost_run /\ start_system 3 = Some start3 /\ one_leader (won lost_run) /\
  told_commands = [(0%nat, 1, Some 10); (1%nat, 1, Some 20)].
Proof.
  split; [exact lost_steps|].
  split; [vm_compute; reflexivity|]. split; [|vm_compute; reflexivity].
  exact lost_one_leader.
Qed.

(** After command 10 is committed, peers 1 and 0 crash and restart; peer 1 then wins term 2. *)
Definition restarts : list (sys_action Z) :=
  [Restart 1; Peers (Turn 1); Arrive 2; Peers (Turn 1); Restart 0; Peers (Turn 0)] ++
  (Peers <$> [Fire 1; Turn 1; Turn 1; Ask 1 2; Turn 2; Answer 1; Turn 1; Turn 1]).
Definition restarted_run : system Z := default start3 (checked_run (commits_10 ++ restarts) start3).

Lemma restarted_one_leader : one_leader (won restarted_run).
Proof.
  assert (won restarted_run = [(1%nat, 2); (0%nat, 1)]) as -> by (vm_compute; reflexivity).
  intros i j t Hi Hj. set_solver.
Qed.
Lemma restarted_steps : rtc sys_step start3 restarted_run.
Proof. apply (checked_steps (commits_10 ++ restarts)). vm_compute. reflexivity. Qed.

