(* ===== verification/ElectionSafety.v ===== *)
(** Elections in a cluster with all its goroutines (raft/candidate.go, follower.go, leader.go, persist.go).

    A leader has the votes of a majority, its own included, and a peer gives its vote in a term to one
    candidate, also when it crashes and starts again.  So a term has two leaders only if some peer gives its
    vote in a term in which it stands, or stood, for election itself: startElection does not record
    the candidate's vote for itself. *)

From S2P Require Import Prelude BitVec RaftTypes Persist Logs LogsSpec ReplCounter Roles Gate Votes Election Cluster.
From S2P Require Import Replicator PeerLog PeerTurn PeerStore PeerVotes LogMatching RaftNet RaftNetTheorems.

Section election_safety.
Context {Cmd : Type} `{!Gob Cmd, !GobRegistered Cmd}.
Implicit Types s : Raft Cmd.
Implicit Types w : system Cmd.
Implicit Types cs : list vote_call.
Implicit Types gr : list (nat * Z * Z).
Implicit Types st : list (nat * Z).

(** * The invariant *)

(** The call was answered with a vote for [i] in term [T]. *)
Definition backs (i : nat) (T : Z) (c : vote_call) : bool :=
  bool_decide (vc_caller c = i) && (rv_Term (vc_args c) =? T) &&
  match vc_state c with Taken r => bool_decide (VoteStatus_ r = VOTE_GRANTED) | _ => false end.
Definition backers (i : nat) (T : Z) cs : gset nat := list_to_set (vc_callee <$> filter (fun c => backs i T c = true) cs).

Definition vote_in gr (c : vote_call) : Prop := (vc_callee c, CandidateID (vc_args c), rv_Term (vc_args c)) ∈ gr.

(** Peer [i], beside the calls, the votes given and the elections so far. *)
Record peer_inv (n : nat) cs gr st (i : nat) s : Prop := {
  pv_ok : peer_ok s;
  pv_self : (peers s, me s, majorN s) = (Z.of_nat n, Z.of_nat i, Z.quot (Z.of_nat n) 2 + 1);
  pv_tally : forall T, slots T s + pend T s <= Z.of_nat (size (backers i T cs));
  pv_asked : forall args r ch, RequestVoteEvent args r ch ∈ evCh s ->
    0 <= CandidateID args /\ exists c, cs !! ch = Some c /\ vc_callee c = i /\ vc_args c = args;
  pv_gave : forall ch r, OutVote ch r true ∈ outbox s -> VoteStatus_ r = VOTE_GRANTED ->
    exists c, cs !! ch = Some c /\ vc_callee c = i /\ vote_in gr c;
  pv_asks : forall j args, CallRequestVote j args ∈ outbox s -> CandidateID args = Z.of_nat i /\ j ∈ other_peers s;
  pv_kept : forall c T, (i, c, T) ∈ gr -> 0 <= c /\ vote_kept T c s;
  pv_agrees : store_agrees s;
  pv_saved : stored_term s < term s -> (i, term s) ∈ st;
  pv_stood : counting s = true -> (i, term s) ∈ st }.

Definition call_ok (n : nat) gr (c : vote_call) : Prop :=
  (vc_caller c < n)%nat -> CandidateID (vc_args c) = Z.of_nat (vc_caller c) /\ vc_callee c <> vc_caller c /\
    (vc_callee c < n)%nat /\ (forall r, vc_state c = Taken r -> VoteStatus_ r = VOTE_GRANTED -> vote_in gr c).

(** A goroutine has one call at most that is under way or was answered. *)
Definition one_answer (n : nat) cs : Prop :=
  forall k1 k2 c1 c2, cs !! k1 = Some c1 -> cs !! k2 = Some c2 -> (vc_caller c1 < n)%nat ->
    of_goroutine (vc_caller c1) (vc_callee c1) (rv_Term (vc_args c1)) c2 = true ->
    vc_state c1 <> Failed -> vc_state c2 <> Failed -> k1 = k2.

Definition quorum (n : nat) gr (i : nat) (T : Z) : Prop :=
  exists V : gset nat, (i ∉ V) /\ (forall v, v ∈ V -> (v < n)%nat /\ (v, Z.of_nat i, T) ∈ gr) /\
    Z.quot (Z.of_nat n) 2 + 1 <= 1 + Z.of_nat (size V).

Definition one_vote_each gr : Prop := forall v c c' T, (v, c, T) ∈ gr -> (v, c', T) ∈ gr -> c = c'.

Record votes_inv (n : nat) w : Prop := {
  vi_size : length (nodes (cl w)) = n;
  vi_peers : forall i s, nodes (cl w) !! i = Some s -> peer_inv n (calls (cl w)) (grants w) (stood w) i s;
  vi_calls : Forall (call_ok n (grants w)) (calls (cl w));
  vi_one : one_answer n (calls (cl w));
  vi_late : Forall (fun x => 0 <= CandidateID x.2) (late w);
  vi_each : one_vote_each (grants w);
  vi_won : forall i T, (i, T) ∈ won w -> (i, T) ∈ stood w /\ (i < n)%nat /\ quorum n (grants w) i T }.

(** No peer gives its vote in a term in which it stood for election. *)
Definition no_double_vote w : Prop := forall v c T, (v, c, T) ∈ grants w -> (v, T) ∉ stood w.

(** * Quorums meet *)

Lemma below_size (n : nat) (X : gset nat) : (forall v, v ∈ X -> (v < n)%nat) -> (size X <= n)%nat.
Proof.
  intros H. rewrite <- (size_set_seq (C := gset nat) 0 n) at 1. apply subseteq_size. intros v Hv.
  apply elem_of_set_seq. specialize (H v Hv). lia.
Qed.

Lemma quorums_meet n gr st i j T :
  one_vote_each gr -> (forall v c, (v, c, T) ∈ gr -> (v, T) ∉ st) -> (i, T) ∈ st -> (j, T) ∈ st -> (i < n)%nat -> (j < n)%nat ->
  quorum n gr i T -> quorum n gr j T -> i = j.
Proof.
  intros H1 H2 Hi Hj Hin Hjn (V & V1 & V2 & V3) (W & W1 & W2 & W3). destruct (decide (i = j)) as [|Hne]; [done|exfalso].
  assert (({[i]} ∪ V) ## ({[j]} ∪ W)) as Hd.
  { intros v. rewrite !elem_of_union, !elem_of_singleton. intros [->|Hv] [Hw|Hw].
    - done.
    - by apply (H2 i (Z.of_nat j) (proj2 (W2 i Hw))).
    - subst v. by apply (H2 j (Z.of_nat i) (proj2 (V2 j Hv))).
    - apply Hne, Nat2Z.inj. by apply (H1 v _ _ T (proj2 (V2 v Hv)) (proj2 (W2 v Hw))). }
  assert (size (({[i]} ∪ V) ∪ ({[j]} ∪ W)) <= n)%nat as Hs.
  { apply below_size. intros v. rewrite !elem_of_union, !elem_of_singleton. intros [[->|Hv]|[->|Hv]]; [done| |done|].
    - by apply V2.
    - by apply W2. }
  rewrite size_union in Hs by done. rewrite !size_union, !size_singleton in Hs by set_solver.
  pose proof (Z.quot_rem' (Z.of_nat n) 2). pose proof (Z.rem_bound_pos (Z.of_nat n) 2). lia.
Qed.

(** * Calls, votes and elections are added *)

(** The calls keep their places, callees and arguments. *)
Definition calls_grow cs cs' : Prop :=
  forall k c, cs !! k = Some c -> exists c', cs' !! k = Some c' /\ vc_callee c' = vc_callee c /\ vc_args c' = vc_args c.

Lemma calls_grow_refl cs : calls_grow cs cs.
Proof. intros k c H. eauto. Qed.
Lemma calls_grow_app cs l : calls_grow cs (cs ++ l).
Proof. intros k c H. exists c. split; [by apply lookup_app_l_Some|done]. Qed.
Lemma calls_grow_set cs k c x : cs !! k = Some c -> calls_grow cs (<[k := set_vc_state x c]> cs).
Proof.
  intros Hk k' c' H. destruct (decide (k' = k)) as [->|Hne].
  - exists (set_vc_state x c). rewrite list_lookup_insert_eq by (by eapply lookup_lt_Some). split; [done|]. by simplify_eq.
  - exists c'. by rewrite list_lookup_insert_ne by done.
Qed.

Lemma vote_in_grow gr gr' c c' :
  gr ⊆ gr' -> vc_callee c' = vc_callee c -> vc_args c' = vc_args c -> vote_in gr c -> vote_in gr' c'.
Proof. unfold vote_in. intros Hg -> ->. apply Hg. Qed.

(** For the peers that do not move. *)
Lemma peer_inv_grow n cs cs' gr gr' st st' i s :
  peer_inv n cs gr st i s -> calls_grow cs cs' -> (forall T, (size (backers i T cs) <= size (backers i T cs'))%nat) ->
  gr ⊆ gr' -> (forall c T, (i, c, T) ∈ gr' -> (i, c, T) ∈ gr) -> st ⊆ st' -> peer_inv n cs' gr' st' i s.
Proof.
  intros [A1 A2 A3 A4 A5 A6 A7 A8 A9 A10] Hc Hb Hg Hgi Hst. constructor; try done; try (by auto).
  - intros T. specialize (A3 T). specialize (Hb T). lia.
  - intros args r ch Hin. destruct (A4 args r ch Hin) as (H0 & c & H1 & H2 & H3). split; [done|].
    destruct (Hc ch c H1) as (c' & H4 & H5 & H6). exists c'. split; [done|]. split; congruence.
  - intros ch r Hin Hr. destruct (A5 ch r Hin Hr) as (c & H1 & H2 & H3). destruct (Hc ch c H1) as (c' & H4 & H5 & H6).
    exists c'. split; [done|]. split; [congruence|]. by eapply vote_in_grow.
Qed.

Lemma backers_app i T cs c : backs i T c = false -> backers i T (cs ++ [c]) = backers i T cs.
Proof. intros H. unfold backers. rewrite filter_app, fmap_app, filter_cons_False, filter_nil by (by rewrite H). by rewrite app_nil_r. Qed.

Lemma elem_of_backers i T cs v :
  v ∈ backers i T cs <-> exists k c, cs !! k = Some c /\ backs i T c = true /\ vc_callee c = v.
Proof.
  unfold backers. rewrite elem_of_list_to_set, list_elem_of_fmap. split.
  - intros (c & -> & [H1 H2]%list_elem_of_filter). apply list_elem_of_lookup_1 in H2 as [k H2]. eauto.
  - intros (k & c & H1 & H2 & <-). exists c. split; [done|]. apply list_elem_of_filter. split; [done|].
    by eapply list_elem_of_lookup_2.
Qed.

(** A call comes back. *)
Lemma backers_set i T cs k c x :
  cs !! k = Some c -> vc_state c = Waiting ->
  backers i T (<[k := set_vc_state x c]> cs) = (if backs i T (set_vc_state x c) then {[vc_callee c]} else ∅) ∪ backers i T cs.
Proof.
  intros Hk Hw. assert (backs i T c = false) as Hc by (unfold backs; rewrite Hw; apply andb_false_r).
  apply set_eq. intros v. rewrite elem_of_union, !elem_of_backers. split.
  - intros (k' & c' & H1 & H2 & H3). apply list_lookup_insert_Some in H1 as [(-> & <- & _)|[Hne H1]].
    + left. rewrite H2. simpl in H3. set_solver.
    + right. eauto.
  - intros [H|(k' & c' & H1 & H2 & H3)].
    + destruct (backs i T (set_vc_state x c)) eqn:E; [|set_solver]. exists k, (set_vc_state x c).
      rewrite list_lookup_insert_eq by (by eapply lookup_lt_Some). split; [done|]. split; [done|]. set_solver.
    + exists k', c'. rewrite list_lookup_insert_ne; [done|]. intros ->. congruence.
Qed.

Lemma backers_fresh n cs k c i T x :
  one_answer n cs -> cs !! k = Some c -> vc_state c = Waiting -> (i < n)%nat -> backs i T (set_vc_state x c) = true ->
  vc_callee c ∉ backers i T cs.
Proof.
  intros Ho Hk Hw Hi Hb. rewrite elem_of_backers. intros (k' & c' & H1 & H2 & H3).
  unfold backs in Hb, H2. simpl in Hb. rewrite !andb_true_iff, bool_decide_eq_true, Z.eqb_eq in Hb, H2.
  destruct Hb as [[B1 B2] _], H2 as [[D1 D2] D3]. assert (k = k') as <-.
  { apply (Ho k k' c c' Hk H1); [by rewrite B1| |by rewrite Hw|by intros E; rewrite E in D3].
    unfold of_goroutine. rewrite D1, H3, D2, B1, B2, Z.eqb_refl, !bool_decide_eq_true_2 by done. done. }
  simplify_eq. by rewrite Hw in D3.
Qed.

(** * Steps that have nothing to do with votes *)

Definition is_vote (ev : Event Cmd) : bool := match ev with RequestVoteEvent _ _ _ | VoteGrantEvent _ _ => true | _ => false end.
Definition vote_events s : list (Event Cmd) := filter (fun ev => is_vote ev = true) (evCh s).

Record idle s s' : Prop := {
  id_ok : peer_ok s -> peer_ok s';
  id_voice : same voice s s';
  id_kept : forall T c, vote_kept T c s -> vote_kept T c s';
  id_agrees : store_agrees s -> store_agrees s';
  id_settled : settled (term s) (stored_term s) s';
  id_events : vote_events s' = vote_events s;
  id_tally : forall T, slots T s' <= slots T s;
  id_counting : counting s' = true -> counting s = true /\ term s' = term s }.

Lemma idle_refl s : idle s s.
Proof. constructor; try done. by right. Qed.
Lemma idle_trans s1 s2 s3 : idle s1 s2 -> idle s2 s3 -> idle s1 s3.
Proof.
  intros [A1 A2 A3 A4 A5 A6 A7 A8] [B1 B2 B3 B4 B5 B6 B7 B8]. constructor; auto.
  - by etrans.
  - unfold settled in *. lia.
  - congruence.
  - intros T. specialize (A7 T). specialize (B7 T). lia.
  - intros H. destruct (B8 H) as [H1 H2]. destruct (A8 H1). split; [done|congruence].
Qed.

Lemma pend_votes T s : pend T s = count_if (is_yes T) (vote_events s).
Proof.
  unfold pend, vote_events. induction (evCh s) as [|ev q IH]; [done|]. rewrite count_if_cons, filter_cons.
  destruct ev; simpl; rewrite ?count_if_cons; simpl; lia.
Qed.
Lemma in_votes ev s : is_vote ev = true -> (ev ∈ evCh s <-> ev ∈ vote_events s).
Proof. intros H. unfold vote_events. rewrite list_elem_of_filter. naive_solver. Qed.

Lemma peer_inv_idle n cs gr st i s s' : peer_inv n cs gr st i s -> idle s s' -> peer_inv n cs gr st i s'.
Proof.
  intros [A1 A2 A3 A4 A5 A6 A7 A8 A9 A10] [B1 B2 B3 B4 B5 B6 B7 B8]. unfold same, voice in B2.
  injection B2 as C1 C2 C3 C4. constructor; auto.
  - congruence.
  - intros T. specialize (A3 T). specialize (B7 T). rewrite pend_votes, B6, <- pend_votes. lia.
  - intros args r ch. rewrite in_votes, B6, <- in_votes by done. apply A4.
  - by rewrite C4.
  - rewrite C4, (other_peers_voice s s') by congruence. done.
  - intros c T H. destruct (A7 c T H). auto.
  - destruct B5 as [H|[H1 H2]]; [lia|]. rewrite H1, H2. done.
  - intros H. destruct (B8 H) as [H1 ->]. auto.
Qed.

(** ** The idle steps *)

Lemma idle_frame s s' :
  (peer_ok s -> peer_ok s') -> same voice s s' -> same book s s' -> vote_events s' = vote_events s -> same tally_part s s' ->
  idle s s'.
Proof.
  intros H1 H2 H3 H4 H5. destruct (tally_same _ _ H5) as [H6 H7]. apply book_eqs in H3 as (E1 & E2 & E3 & E4).
  constructor; try done; unfold vote_kept, term_kept, store_agrees, settled; rewrite ?E1, ?E2, ?E3, ?E4; auto.
  - intros T. rewrite H6. lia.
  - by rewrite H7.
Qed.

Lemma idle_queued ev s : is_trans ev = false -> is_vote ev = false -> idle s (set_evCh (evCh s ++ [ev]) s).
Proof.
  intros Ht Hv. apply idle_frame; try done.
  - intros [Hg He]. split; [by apply queued_gate|]. intros Hd. by apply push_tally; auto.
  - unfold vote_events. simpl. rewrite filter_app, filter_cons_False, filter_nil, app_nil_r by (by rewrite Hv). done.
  - unfold same, tally_part. simpl. rewrite existsb_app. simpl. f_equal. f_equal. destruct ev; try done; by rewrite !orb_false_r.
Qed.

Lemma idle_try ev cur b s s' : tryPutEv ev cur s = Done b s' -> is_trans ev = false -> is_vote ev = false -> idle s s'.
Proof. intros E Ht Hv. rewrite (tryPutEv_run _ _ _ _ _ E). destruct b; [by apply idle_queued|apply idle_refl]. Qed.
Lemma idle_put ev u s s' : put_locked ev s = Done u s' -> is_trans ev = false -> is_vote ev = false -> idle s s'.
Proof. intros E Ht Hv. rewrite (put_locked_run _ _ _ _ E). by apply idle_queued. Qed.

Lemma idle_applier accept r s s' : applier_turn accept s = Done r s' -> idle s s'.
Proof.
  intros E. pose proof (frames_applier_turn accept s r s' E) as Fr. destruct (tally_same _ _ (tally_frames _ _ Fr)) as [H6 H7].
  assert (keeps (stable (settled (term s) (stored_term s))) (applier_turn (Cmd := Cmd) accept)) as Ks by apply settled_applier.
  constructor.
  - intros Hp. by eapply peer_step_ok; [|eapply peer_apply].
  - by apply (vo_frames _ (frames_applier_turn accept) s r s').
  - intros T c. apply (vote_applier T c accept _ _ _ E).
  - apply (agrees_applier accept _ _ _ E).
  - apply (Ks _ _ _ E). by right.
  - unfold vote_events. unfold same, outside_logs in Fr. by injection Fr as _ _ _ _ _ _ _ -> _ _.
  - intros T. rewrite H6. lia.
  - rewrite H7. intros Hc. split; [done|]. unfold same, outside_logs in Fr. by injection Fr.
Qed.

Lemma idle_fire b s s' : fire s = Done b s' -> idle s s'.
Proof.
  unfold fire. rewrite bind_gets. intros E.
  assert (forall d, (match d with Candidate v vs _ => Some (v, vs) | _ => None end)
      = (match data (role s) with Candidate v vs _ => Some (v, vs) | _ => None end) ->
    role_enum (mkRole (active (role s)) d) = role_enum (role s) -> idle s (set_role (mkRole (active (role s)) d) s)) as Ht.
  { intros d Hd Hk. apply idle_frame; try done.
    - intros [Hg He]. split; [apply (gate_in_part (role_enum (role s)) s); [|done]; unfold same, gate_part; simpl; by rewrite Hk|].
      intros H. apply (election_ok_box s); [|auto]. unfold same, ballot_box. simpl. by rewrite Hd.
    - unfold same, tally_part. simpl. f_equal. f_equal. destruct d, (data (role s)); by simplify_eq. }
  destruct (data (role s)) as [[[[]|] x]|v vs [[[]|] x]|rc] eqn:Ed; try (injection E as _ <-; by apply idle_refl).
  - unfold set_data in E. rewrite bind_modify in E. eapply idle_trans; [|by eapply idle_try].
    apply Ht; [done|unfold role_enum; by rewrite Ed].
  - unfold set_data in E. rewrite bind_modify in E. eapply idle_trans; [|by eapply idle_try].
    apply Ht; [done|unfold role_enum; by rewrite Ed].
Qed.

Lemma idle_stale u s s' :
  active (role s) = true -> role_enum (role s) = LEADER -> transRole followerFromLeader s = Done u s' -> idle s s'.
Proof.
  intros Ha Hk E. pose proof (transRole_inv _ _ _ _ E) as Es. rewrite Ha in Es. apply idle_frame.
  - intros Hp. by eapply peer_step_ok; [|eapply peer_stale].
  - by rewrite Es.
  - by rewrite Es.
  - rewrite Es. unfold vote_events. simpl. by rewrite filter_app, app_nil_r.
  - rewrite Es. unfold same, tally_part. simpl. rewrite existsb_app, orb_false_r. f_equal. f_equal. by destruct (data (role s)).
Qed.

(** * The steps of the system *)

(** One peer moves, and calls, votes and elections are added. *)
Lemma inv_moves n w w' i s s' :
  votes_inv n w -> nodes (cl w) !! i = Some s -> nodes (cl w') = <[i := s']> (nodes (cl w)) ->
  calls_grow (calls (cl w)) (calls (cl w')) ->
  (forall j T, j <> i -> (size (backers j T (calls (cl w))) <= size (backers j T (calls (cl w'))))%nat) ->
  grants w ⊆ grants w' -> (forall v c T, (v, c, T) ∈ grants w' -> v = i \/ (v, c, T) ∈ grants w) -> stood w ⊆ stood w' ->
  peer_inv n (calls (cl w')) (grants w') (stood w') i s' ->
  Forall (call_ok n (grants w')) (calls (cl w')) -> one_answer n (calls (cl w')) ->
  Forall (fun x => 0 <= CandidateID x.2) (late w') -> one_vote_each (grants w') ->
  (forall j T, (j, T) ∈ won w' -> (j, T) ∈ stood w' /\ (j < n)%nat /\ quorum n (grants w') j T) -> votes_inv n w'.
Proof.
  intros Hi Hs En Hc Hb Hg Hgi Hst Hp H1 H2 H3 H4 H5. constructor; try done.
  - rewrite En, length_insert. apply Hi.
  - intros j sj Hj. rewrite En in Hj. apply list_lookup_insert_Some in Hj as [(-> & -> & _)|[Hne Hj]]; [done|].
    eapply peer_inv_grow; [by apply (vi_peers _ _ Hi)|done|by auto|done| |done].
    intros c T Hin. by destruct (Hgi _ _ _ Hin) as [?|?].
Qed.

(** The peers and the calls alone. *)
Lemma inv_calls n w w' i s s' :
  votes_inv n w -> nodes (cl w) !! i = Some s -> nodes (cl w') = <[i := s']> (nodes (cl w)) ->
  calls_grow (calls (cl w)) (calls (cl w')) ->
  (forall j T, j <> i -> (size (backers j T (calls (cl w))) <= size (backers j T (calls (cl w'))))%nat) ->
  (grants w', stood w', won w', late w') = (grants w, stood w, won w, late w) ->
  peer_inv n (calls (cl w')) (grants w) (stood w) i s' ->
  Forall (call_ok n (grants w)) (calls (cl w')) -> one_answer n (calls (cl w')) -> votes_inv n w'.
Proof.
  intros Hi Hs En Hc Hb [= E1 E2 E3 E4] Hp H1 H2. apply (inv_moves n w w' i s s'); rewrite ?E1, ?E2, ?E3, ?E4; try done; try apply Hi.
  by right.
Qed.

Lemma inv_idle n w w' i s s' :
  votes_inv n w -> nodes (cl w) !! i = Some s -> idle s s' -> cl w' = mkCluster (<[i := s']> (nodes (cl w))) (calls (cl w)) ->
  (grants w', stood w', won w', late w') = (grants w, stood w, won w, late w) -> votes_inv n w'.
Proof.
  intros Hi Hs Hid Ec Eh. apply (inv_calls n w w' i s s'); rewrite ?Ec; try done.
  - apply calls_grow_refl.
  - eapply peer_inv_idle; [by apply (vi_peers _ _ Hi)|done].
  - apply Hi.
  - apply Hi.
Qed.

Lemma inv_same n w w' :
  votes_inv n w -> cl w' = cl w -> (grants w', stood w', won w', late w') = (grants w, stood w, won w, late w) -> votes_inv n w'.
Proof. intros [A B C D E F G] Ec [= E1 E2 E3 E4]. constructor; rewrite ?Ec, ?E1, ?E2, ?E3, ?E4; done. Qed.

(** ** A vote request reaches a peer *)

Lemma lookup_snoc_new {A} (l : list A) x k y : (l ++ [x]) !! k = Some y -> l !! k = Some y \/ (k = length l /\ y = x).
Proof.
  intros H. apply lookup_app_Some in H as [H|[H1 H2]]; [by left|]. right. apply list_lookup_singleton_Some in H2 as [H2 ->].
  split; [lia|done].
Qed.

(** The goroutine of [i] for [j] may make a call: it has none under way or answered. *)
Lemma may_call_spec i j t cs k c : may_call i j t cs = true -> cs !! k = Some c -> of_goroutine i j t c = true -> vc_state c = Failed.
Proof.
  unfold may_call. rewrite forallb_forall. intros H Hk Ho. apply list_elem_of_lookup_2, list_elem_of_In, H in Hk.
  rewrite Ho in Hk. simpl in Hk. by destruct (vc_state c).
Qed.

Lemma goroutine_sym c1 c2 :
  of_goroutine (vc_caller c1) (vc_callee c1) (rv_Term (vc_args c1)) c2 = true ->
  of_goroutine (vc_caller c2) (vc_callee c2) (rv_Term (vc_args c2)) c1 = true /\ vc_caller c2 = vc_caller c1.
Proof.
  unfold of_goroutine. rewrite !andb_true_iff, !bool_decide_eq_true, !Z.eqb_eq. intros [[-> ->] ->]. done.
Qed.

Lemma one_answer_app n cs c :
  one_answer n cs -> ((vc_caller c < n)%nat -> may_call (vc_caller c) (vc_callee c) (rv_Term (vc_args c)) cs = true) ->
  one_answer n (cs ++ [c]).
Proof.
  intros Ho Hm k1 k2 c1 c2 [H1|[-> ->]]%lookup_snoc_new [H2|[-> ->]]%lookup_snoc_new Hn Hg S1 S2; [by eapply Ho| | |done].
  - apply goroutine_sym in Hg as [Hg Hc]. destruct S1. eapply (may_call_spec _ _ _ cs k1 c1); [|done|exact Hg].
    apply Hm. by rewrite Hc.
  - destruct S2. eapply (may_call_spec _ _ _ cs k2 c2); eauto.
Qed.

Lemma RequestVote_run args r ch s b s' :
  RequestVote args r ch s = Done b s' -> s' = s \/ s' = set_evCh (evCh s ++ [RequestVoteEvent args r ch]) s.
Proof.
  unfold RequestVote. rewrite bind_gets. intros E. destruct (dead s); [injection E as _ <-; by left|].
  apply bind_inv in E as (u & s1 & E1 & E2). injection E2 as _ <-. right. by eapply put_locked_run.
Qed.

Lemma peer_asked n cs gr st j s s' b args r caller :
  peer_inv n cs gr st j s -> RequestVote args r (length cs) s = Done b s' -> 0 <= CandidateID args ->
  peer_inv n (cs ++ [mkVoteCall caller j args Waiting]) gr st j s'.
Proof.
  intros Hp E Hc. set (c := mkVoteCall caller j args Waiting).
  assert (peer_inv n (cs ++ [c]) gr st j s) as Hp'.
  { eapply peer_inv_grow; [exact Hp|apply calls_grow_app| |done|done|done]. intros T. rewrite backers_app; [done|].
    unfold backs. apply andb_false_r. }
  destruct (RequestVote_run _ _ _ _ _ _ E) as [->|Es]; [done|]. destruct Hp' as [A1 A2 A3 A4 A5 A6 A7 A8 A9 A10].
  assert (same tally_part s s') as Ht.
  { rewrite Es. unfold same, tally_part. simpl. by rewrite existsb_app, orb_false_r. }
  destruct (tally_same _ _ Ht) as [T1 T2].
  constructor; try (by rewrite Es); try (by rewrite T2, Es).
  - rewrite Es. destruct A1 as [Hg He]. split; [by apply queued_gate|]. intros Hd. apply push_tally; auto.
  - intros T. rewrite T1. replace (pend T s') with (pend T s); [done|]. rewrite Es. unfold pend. simpl.
    by rewrite count_if_app, count_if_cons, count_if_nil; simpl; rewrite Z.add_0_r.
  - intros args' r' ch. rewrite Es. simpl. intros [Hin|Hin%list_elem_of_singleton]%elem_of_app; [by eapply A4|]. injection Hin as -> -> ->.
    split; [done|]. exists c. split; [|done]. rewrite lookup_app_r by lia. by rewrite Nat.sub_diag.
Qed.

Lemma inv_ask n w w' j s s' b args caller :
  votes_inv n w -> nodes (cl w) !! j = Some s -> RequestVote args emptyVoteReply (length (calls (cl w))) s = Done b s' ->
  0 <= CandidateID args ->
  ((caller < n)%nat -> CandidateID args = Z.of_nat caller /\ j <> caller /\ (j < n)%nat /\ may_call caller j (rv_Term args) (calls (cl w)) = true) ->
  cl w' = mkCluster (<[j := s']> (nodes (cl w))) (calls (cl w) ++ [mkVoteCall caller j args Waiting]) ->
  (grants w', stood w', won w', late w') = (grants w, stood w, won w, late w) -> votes_inv n w'.
Proof.
  intros Hi Hs E Hc Hn Ec Eh. apply (inv_calls n w w' j s s'); rewrite ?Ec; try done.
  - apply calls_grow_app.
  - intros j' T _. simpl. rewrite backers_app; [done|]. unfold backs. apply andb_false_r.
  - simpl. eapply peer_asked; [by apply (vi_peers _ _ Hi)|exact E|done].
  - simpl. apply Forall_app. split; [apply Hi|]. constructor; [|done]. intros Hlt. simpl in *.
    destruct (Hn Hlt) as (H1 & H2 & H3 & _). done.
  - simpl. apply one_answer_app; [apply Hi|]. simpl. intros Hlt. by destruct (Hn Hlt) as (_ & _ & _ & H).
Qed.

(** ** A call comes back *)

Lemma find_vote_in ch out y : find_vote ch out = Some y ->
  exists r ok, OutVote ch r ok ∈ out /\ VoteStatus_ y = VoteStatus_ r /\ rvr_Responsed y = ok.
Proof.
  induction out as [|o out IH]; [done|]. destruct o; cbn [find_vote]; try (intros H; destruct (IH H) as (r & ok' & H1 & H2); exists r, ok'; split; [by right|done]).
  case_decide as Hc; [|intros H; destruct (IH H) as (r & ok' & H1 & H2); exists r, ok'; split; [by right|done]].
  intros [= <-]. subst. exists reply, ok. split; [by left|done].
Qed.

Lemma on_vote_reply_cases t r cur s b s' :
  on_vote_reply t true r cur s = Done b s' ->
  idle s s' \/ (rvr_Responsed r = true /\ VoteStatus_ r = VOTE_GRANTED /\ s' = set_evCh (evCh s ++ [VoteGrantEvent t (VoterID r)]) s).
Proof.
  unfold on_vote_reply. rewrite bind_gets. intros E. destruct (cur && active (role s)); [|injection E as _ <-; left; apply idle_refl].
  destruct (rvr_Responsed r) eqn:Hr; simpl in E; [|injection E as _ <-; left; apply idle_refl].
  destruct (VoteStatus_ r) eqn:Hv.
  - injection E as _ <-. left. apply idle_refl.
  - left. destruct (_ >? _); [by eapply idle_try|]. injection E as _ <-. apply idle_refl.
  - rewrite (tryPutEv_run _ _ _ _ _ E). destruct b; [by right|left; apply idle_refl].
  - left. by eapply idle_try.
Qed.

Lemma one_answer_set n cs k c x :
  one_answer n cs -> cs !! k = Some c -> vc_state c = Waiting -> one_answer n (<[k := set_vc_state x c]> cs).
Proof.
  intros Ho Hk Hw.
  assert (forall j d, <[k := set_vc_state x c]> cs !! j = Some d -> exists d0, cs !! j = Some d0 /\ vc_caller d = vc_caller d0 /\
    vc_callee d = vc_callee d0 /\ vc_args d = vc_args d0 /\ (vc_state d <> Failed -> vc_state d0 <> Failed)) as H.
  { intros j d Hj. apply list_lookup_insert_Some in Hj as [(<- & <- & _)|[_ Hj]]; [|by exists d].
    exists c. rewrite Hw. done. }
  intros k1 k2 c1 c2 (d1 & H1 & A1 & A2 & A3 & A4)%H (d2 & H2 & B1 & B2 & B3 & B4)%H Hn Hg S1 S2.
  apply (Ho k1 k2 d1 d2); auto; [by rewrite <- A1|]. unfold of_goroutine in *. by rewrite <- A1, <- A2, <- A3, <- B1, <- B2, <- B3.
Qed.

Lemma backers_set_grow i T cs k c x :
  cs !! k = Some c -> vc_state c = Waiting -> (size (backers i T cs) <= size (backers i T (<[k := set_vc_state x c]> cs)))%nat.
Proof. intros Hk Hw. rewrite (backers_set i T cs k c x Hk Hw). apply subseteq_size. set_solver. Qed.

(** The caller hears of a vote. *)
Lemma peer_granted n cs gr st i s k c r v :
  peer_inv n cs gr st i s -> one_answer n cs -> (i < n)%nat -> cs !! k = Some c -> vc_state c = Waiting -> vc_caller c = i ->
  VoteStatus_ r = VOTE_GRANTED ->
  peer_inv n (<[k := set_vc_state (Taken r) c]> cs) gr st i (set_evCh (evCh s ++ [VoteGrantEvent (rv_Term (vc_args c)) v]) s).
Proof.
  intros Hp Ho Hn Hk Hw Hc Hr. set (cs' := <[k := _]> cs). set (s' := set_evCh _ s).
  assert (peer_inv n cs' gr st i s) as Hp'.
  { eapply peer_inv_grow; [exact Hp|by apply calls_grow_set| |done|done|done]. intros T. by apply backers_set_grow. }
  assert (same tally_part s s') as Ht. { unfold same, tally_part, s'. simpl. by rewrite existsb_app, orb_false_r. }
  destruct (tally_same _ _ Ht) as [T1 T2]. destruct Hp' as [A1 A2 A3 A4 A5 A6 A7 A8 A9 A10].
  constructor; try done; try (by rewrite T2).
  - destruct A1 as [Hg He]. split; [by apply queued_gate|]. intros Hd. apply push_tally; auto.
  - intros T. rewrite T1. unfold s', pend. simpl. rewrite count_if_app, count_if_cons, count_if_nil. fold (pend T s). simpl.
    destruct (rv_Term (vc_args c) =? T) eqn:Et; [|specialize (A3 T); lia].
    assert (backs i T (set_vc_state (Taken r) c) = true) as Hb.
    { unfold backs. simpl. rewrite Et, !bool_decide_eq_true_2 by done. done. }
    unfold cs'. rewrite (backers_set _ _ _ _ _ _ Hk Hw), Hb, size_union, size_singleton.
    + pose proof (pv_tally _ _ _ _ _ _ Hp T). lia.
    + pose proof (backers_fresh n cs k c i T _ Ho Hk Hw Hn Hb). set_solver.
  - intros args' r' ch [Hin|Hin%list_elem_of_singleton]%elem_of_app; [by eapply A4|done].
Qed.

Lemma inv_answer n w w' k c i s s' sj r b :
  votes_inv n w -> calls (cl w) !! k = Some c -> vc_state c = Waiting -> vc_caller c = i -> nodes (cl w) !! i = Some s ->
  nodes (cl w) !! vc_callee c = Some sj -> find_vote k (outbox sj) = Some r ->
  on_vote_reply (rv_Term (vc_args c)) true r (is_current (vc_args c) s) s = Done b s' ->
  cl w' = mkCluster (<[i := s']> (nodes (cl w))) (<[k := set_vc_state (if rvr_Responsed r then Taken r else Failed) c]> (calls (cl w))) ->
  (grants w', stood w', won w', late w') = (grants w, stood w, won w, late w) -> votes_inv n w'.
Proof.
  intros Hi Hk Hw Hc Hs Hj Hf E Ec Eh. set (x := if rvr_Responsed r then Taken r else Failed) in *.
  assert (i < n)%nat as Hn by (rewrite <- (vi_size _ _ Hi); by eapply lookup_lt_Some).
  apply (inv_calls n w w' i s s'); rewrite ?Ec; try done; simpl.
  - by apply calls_grow_set.
  - intros j T _. by apply backers_set_grow.
  - pose proof (vi_peers _ _ Hi i s Hs) as Hp. destruct (on_vote_reply_cases _ _ _ _ _ _ E) as [Hid|(H1 & H2 & ->)].
    + eapply peer_inv_idle; [|exact Hid]. eapply peer_inv_grow; [exact Hp|by apply calls_grow_set| |done|done|done].
      intros T. by apply backers_set_grow.
    + unfold x. rewrite H1. by apply peer_granted; [|apply Hi|..].
  - apply Forall_insert; [apply Hi|]. intros Hlt. pose proof (Forall_lookup_1 _ _ _ _ (vi_calls _ _ Hi) Hk Hlt) as (H1 & H2 & H3 & H4).
    split; [done|]. split; [done|]. split; [done|]. intros r0. simpl. unfold x. intros Hx Hv.
    destruct (rvr_Responsed r) eqn:Hr; [injection Hx as <-|done]. destruct (find_vote_in _ _ _ Hf) as (r1 & ok & F1 & F2 & F3).
    rewrite Hr in F3. subst ok. destruct (pv_gave _ _ _ _ _ _ (vi_peers _ _ Hi _ _ Hj) k r1 F1) as (c' & G1 & _ & G2); [congruence|].
    by simplify_eq.
  - apply one_answer_set; [apply Hi|done|done].
Qed.

Lemma inv_lose n w w' k c :
  votes_inv n w -> calls (cl w) !! k = Some c -> vc_state c = Waiting ->
  cl w' = mkCluster (nodes (cl w)) (<[k := set_vc_state Failed c]> (calls (cl w))) ->
  (grants w', stood w', won w', late w') = (grants w, stood w, won w, late w) -> votes_inv n w'.
Proof.
  intros Hi Hk Hw Ec [= E1 E2 E3 E4]. constructor; rewrite ?Ec, ?E1, ?E2, ?E3, ?E4; simpl; try apply Hi.
  - intros i s Hs. eapply peer_inv_grow; [by apply (vi_peers _ _ Hi)|by apply calls_grow_set| |done|done|done].
    intros T. by apply backers_set_grow.
  - apply Forall_insert; [apply Hi|]. intros Hlt. destruct (Forall_lookup_1 _ _ _ _ (vi_calls _ _ Hi) Hk Hlt) as (H1 & H2 & H3 & _). done.
  - apply one_answer_set; [apply Hi|done|done].
Qed.

(** ** A turn of an event loop *)

Lemma gives_spec i cs out v c T :
  (v, c, T) ∈ gives i cs out <-> v = i /\ exists ch r x, OutVote ch r true ∈ out /\ VoteStatus_ r = VOTE_GRANTED /\
    cs !! ch = Some x /\ c = CandidateID (vc_args x) /\ T = rv_Term (vc_args x).
Proof.
  unfold gives. rewrite list_elem_of_omap. split.
  - intros (o & Ho & E). destruct o as [ch r []| | | | | | |]; try done. case_decide as Hr; [|done].
    destruct (cs !! ch) as [x|] eqn:Ex; [|done]. injection E as <- <- <-. split; [done|]. eauto 10.
  - intros (-> & ch & r & x & H1 & H2 & H3 & -> & ->). exists (OutVote ch r true). split; [done|].
    rewrite decide_True by done. by rewrite H3.
Qed.

Section turn.
Context (n : nat) (cs : list vote_call) (gr : list (nat * Z * Z)) (st : list (nat * Z)) (i : nat) (b : bool) (s s' : Raft Cmd).
Context (Hp : peer_inv n cs gr st i s) (Hq : queue_ok s) (Ht : 0 <= term s < 2147483647) (E : processor_turn s = Done b s').

Definition new_out : list Output := drop (length (outbox s)) (outbox s').
Definition gr_after : list (nat * Z * Z) := gives i cs new_out ++ gr.
Definition st_after : list (nat * Z) := stands i s' ++ st.

Context (Hh : forall v c T, (v, c, T) ∈ gr_after -> (v, T) ∉ st_after).

Lemma turn_gate : gate_ok s.
Proof. apply (pv_ok _ _ _ _ _ _ Hp). Qed.

Lemma turn_out : outbox s' = outbox s ++ new_out /\ (peers s', me s', majorN s') = (peers s, me s, majorN s) /\
  forall o, o ∈ new_out -> votes_of s s' o.
Proof.
  destruct (turn_says s Hq b s' E) as [H1 (new & H2 & H3)]. unfold new_out. rewrite H2, drop_app_length.
  split; [done|]. split; [done|]. by apply Forall_forall.
Qed.

(** A vote of this turn is for the request at the head of the queue. *)
Lemma turn_vote ch r : OutVote ch r true ∈ new_out -> VoteStatus_ r = VOTE_GRANTED ->
  exists x, cs !! ch = Some x /\ vc_callee x = i /\ 0 <= CandidateID (vc_args x) /\ given (vc_args x) s s'.
Proof.
  intros Hin Hr. destruct turn_out as (_ & _ & Hv). destruct (Hv _ Hin) as (args & r0 & rest & Hd & Eq & Hg).
  destruct (pv_asked _ _ _ _ _ _ Hp args r0 ch) as (Hc & x & H1 & H2 & H3); [rewrite Eq; by left|].
  exists x. split; [done|]. split; [done|]. subst args. auto.
Qed.

Lemma turn_grant v c T : (v, c, T) ∈ gives i cs new_out -> v = i /\ 0 <= c /\
  term s' = T /\ voteFor s' = c /\ (raised s s' \/ (same book s s' /\ c = voteFor s)).
Proof.
  intros [-> (ch & r & x & H1 & H2 & H3 & -> & ->)]%gives_spec. destruct (turn_vote ch r H1 H2) as (x' & G1 & _ & G3 & G4 & G5 & G6).
  simplify_eq. done.
Qed.

Lemma stands_in : stands_now s' -> (i, term s') ∈ st_after.
Proof. intros [Ha Hk]. unfold st_after, stands. unfold kind in Hk. rewrite Ha, Hk. by left. Qed.

Lemma turn_keeps_vote c T : (i, c, T) ∈ gr_after -> 0 <= c /\ vote_kept T c s'.
Proof.
  intros Hin. pose proof (Hh _ _ _ Hin) as Hno. unfold gr_after in Hin. apply elem_of_app in Hin as [Hin|Hin].
  - destruct (turn_grant _ _ _ Hin) as (_ & Hc & Et & Ev & H). split; [done|]. destruct H as [(H1 & H2 & H3)|[Hb Hv]].
    + unfold vote_kept, term_kept. lia.
    + apply book_eqs in Hb as (E1 & E2 & E3 & E4). destruct (pv_agrees _ _ _ _ _ _ Hp) as [A1 A2].
      assert (~ stored_term s < term s) as Hs.
      { intros H. apply Hno. unfold st_after. apply elem_of_app. right. rewrite <- Et, E1. by apply (pv_saved _ _ _ _ _ _ Hp). }
      unfold vote_kept, term_kept. rewrite E1, E2, E3, E4 in *. lia.
  - destruct (pv_kept _ _ _ _ _ _ Hp c T Hin) as [Hc Hk]. split; [done|]. by apply (vote_turn T c s turn_gate Hq Ht b).
Qed.

Lemma turn_one_vote : one_vote_each gr -> one_vote_each gr_after.
Proof.
  intros Ho. assert (forall v c c' T, (v, c, T) ∈ gives i cs new_out -> (v, c', T) ∈ gr -> c = c') as Hx.
  { intros v c c' T Hin Hold. destruct (turn_grant _ _ _ Hin) as (-> & Hc & Et & Ev & H).
    destruct (pv_kept _ _ _ _ _ _ Hp c' T Hold) as (Hc' & (K1 & K2) & K3 & _). destruct H as [(H1 & _)|[Hb Hv]]; [lia|].
    apply book_eqs in Hb as (E1 & E2 & _). lia. }
  intros v c c' T [H1|H1]%elem_of_app [H2|H2]%elem_of_app; [|by eapply Hx|symmetry; by eapply Hx|by eapply Ho].
  destruct (turn_grant _ _ _ H1) as (_ & _ & _ & <- & _). by destruct (turn_grant _ _ _ H2) as (_ & _ & _ & <- & _).
Qed.

Lemma peer_turned : peer_inv n cs gr_after st_after i s'.
Proof.
  destruct turn_out as (Eo & Es & Hv). destruct (turn_tally s turn_gate b s' E) as [T1 T2].
  assert (gr ⊆ gr_after) as Hg by (unfold gr_after; set_solver). assert (st ⊆ st_after) as Hs by (unfold st_after; set_solver).
  constructor.
  - eapply peer_step_ok; [apply Hp|by eapply peer_turn].
  - rewrite Es. apply Hp.
  - intros T. specialize (T1 T). pose proof (pv_tally _ _ _ _ _ _ Hp T). lia.
  - intros args r ch Hin. apply (pv_asked _ _ _ _ _ _ Hp args r ch).
    destruct (turn_others s b s' E) as [[_ ->]|(ev & rest & _ & Eq & Ers)]; [done|].
    assert (RequestVoteEvent args r ch ∈ others s') as Hin' by (by apply list_elem_of_filter).
    rewrite Ers in Hin'. apply list_elem_of_filter in Hin' as [_ Hin']. rewrite Eq. by right.
  - intros ch r Hin Hr. rewrite Eo in Hin. apply elem_of_app in Hin as [Hin|Hin].
    + destruct (pv_gave _ _ _ _ _ _ Hp ch r Hin Hr) as (c & H1 & H2 & H3). exists c. split; [done|]. split; [done|]. by apply Hg.
    + destruct (turn_vote ch r Hin Hr) as (x & H1 & H2 & _). exists x. split; [done|]. split; [done|]. unfold vote_in, gr_after.
      apply elem_of_app. left. rewrite H2. apply gives_spec. split; [done|]. eauto 10.
  - intros j args Hin. rewrite (other_peers_voice _ _ Es). rewrite Eo in Hin. apply elem_of_app in Hin as [Hin|Hin]; [by apply Hp|].
    destruct (Hv _ Hin) as [H1 H2]. split; [|done]. pose proof (pv_self _ _ _ _ _ _ Hp) as Hme. congruence.
  - apply turn_keeps_vote.
  - apply (agrees_turn s turn_gate Hq Ht b s' E), Hp.
  - intros Hlt. destruct (turn_saved s turn_gate Hq Ht b s' E) as [H|[H|[H1 H2]]]; [by apply stands_in|lia|].
    rewrite H1, H2 in *. by apply Hs, (pv_saved _ _ _ _ _ _ Hp).
  - intros Hc. destruct (T2 Hc) as [H|[H1 H2]]; [by apply stands_in|]. rewrite H2. by apply Hs, (pv_stood _ _ _ _ _ _ Hp).
Qed.

(** A peer that is elected has a quorum. *)
Lemma turn_won j T : Forall (call_ok n gr) cs -> (i < n)%nat -> (j, T) ∈ elected i s s' -> j = i /\ (i, T) ∈ st /\ quorum n gr i T.
Proof.
  intros Hcs Hn. unfold elected. destruct (lead s) eqn:Hl, (lead s') as [t|] eqn:Hl'; try (by intros ?%elem_of_nil).
  intros [= -> ->]%list_elem_of_singleton. split; [done|].
  destruct (turn_leads s t turn_gate Hl b s' E Hl') as (Hd & -> & rest & Eq).
  destruct (about_to_lead s rest (pv_ok _ _ _ _ _ _ Hp) Hd Eq) as [Hc Hm]. split; [by apply (pv_stood _ _ _ _ _ _ Hp)|].
  exists (backers i (term s) cs). pose proof (pv_self _ _ _ _ _ _ Hp) as [= _ _ Hmaj].
  assert (forall v, v ∈ backers i (term s) cs -> v <> i /\ (v < n)%nat /\ (v, Z.of_nat i, term s) ∈ gr) as Hb.
  { intros v (k & c & H1 & H2 & <-)%elem_of_backers. unfold backs in H2. rewrite !andb_true_iff, bool_decide_eq_true, Z.eqb_eq in H2.
    destruct H2 as [[B1 B2] B3]. destruct (Forall_lookup_1 _ _ _ _ Hcs H1) as (D1 & D2 & D3 & D4); [by rewrite B1|].
    rewrite B1 in D1, D2. split; [done|]. split; [done|]. destruct (vc_state c) as [| |r]; try done.
    specialize (D4 r eq_refl (proj1 (bool_decide_eq_true _) B3)). unfold vote_in in D4. by rewrite D1, B2 in D4. }
  split; [intros Hin; by destruct (Hb i Hin)|]. split; [intros v Hv; by apply Hb|].
  pose proof (pv_tally _ _ _ _ _ _ Hp (term s)) as Hta. pose proof (count_if_bounds (is_yes (term s)) (evCh s)) as Hpe. unfold pend in Hta. lia.
Qed.
End turn.

Lemma call_ok_grow n gr gr' c : gr ⊆ gr' -> call_ok n gr c -> call_ok n gr' c.
Proof.
  intros Hg H Hlt. destruct (H Hlt) as (H1 & H2 & H3 & H4). split; [done|]. split; [done|]. split; [done|].
  intros r E Hr. by apply Hg, (H4 r).
Qed.
Lemma quorum_grow n gr gr' i T : gr ⊆ gr' -> quorum n gr i T -> quorum n gr' i T.
Proof. intros Hg (V & H1 & H2 & H3). exists V. split; [done|]. split; [|done]. intros v Hv. destruct (H2 v Hv). auto. Qed.

Lemma inv_turn n i w w' : votes_inv n w -> turn_of i w = Some w' -> small w = true -> no_double_vote w' -> votes_inv n w'.
Proof.
  intros Hi E Hw Hh. unfold turn_of in E. destruct (nodes (cl w) !! i) as [s|] eqn:Hs; [|done]. cbn in E.
  unfold at_node in E. rewrite Hs in E. cbn in E. destruct (processor_turn s) as [b s'| |] eqn:Ep; [|done..]. cbn in E.
  rewrite list_lookup_insert_eq in E by (by eapply lookup_lt_Some). injection E as <-.
  destruct (small_node w i s Hw Hs) as [H1 _ H3]. pose proof (vi_peers _ _ Hi i s Hs) as Hp.
  assert (queue_ok s) as Hq by (by apply Forall_forall).
  assert (i < n)%nat as Hn by (rewrite <- (vi_size _ _ Hi); by eapply lookup_lt_Some).
  fold (new_out s s') in *. set (gr' := gives i (calls (cl w)) (new_out s s') ++ grants w) in *.
  assert (grants w ⊆ gr') as Hg by (unfold gr'; set_solver).
  apply (inv_moves n w _ i s s'); simpl; try done.
  - apply calls_grow_refl.
  - intros v c T [Hv|Hv]%elem_of_app; [left; by apply gives_spec in Hv as [-> _]|by right].
  - set_solver.
  - by apply (peer_turned n (calls (cl w)) (grants w) (stood w) i b s s' Hp Hq H1 Ep).
  - eapply Forall_impl; [apply Hi|]. intros c. by apply call_ok_grow.
  - apply Hi.
  - apply Hi.
  - by apply (turn_one_vote n (calls (cl w)) (grants w) (stood w) i b s s' Hp Hq Ep), Hi.
  - intros j T [Hj|Hj]%elem_of_app.
    + destruct (turn_won n _ _ _ i b s s' Hp Ep j T (vi_calls _ _ Hi) Hn Hj) as (-> & G1 & G2).
      split; [set_solver|]. split; [done|]. by eapply quorum_grow.
    + destruct (vi_won _ _ Hi j T Hj) as (G1 & G2 & G3). split; [set_solver|]. split; [done|]. by eapply quorum_grow.
Qed.

(** ** A restart *)

Lemma peer_restarted n cs cs' gr st i s s' :
  peer_inv n cs gr st i s -> Make (peers s) (me s) (persister s) tt = Done s' tt -> peer_inv n cs' gr st i s'.
Proof.
  intros Hp E. destruct (Make_ballot _ _ _ _ E) as (H1 & H2 & H3 & H4 & H5 & H6). injection H1 as M1 M2 M3 M4.
  assert (stored_term s' = stored_term s /\ stored_vote s' = stored_vote s) as [S1 S2] by (unfold stored_term, stored_vote; by rewrite H4).
  constructor.
  - by eapply Make_ok.
  - pose proof (pv_self _ _ _ _ _ _ Hp) as [= P1 P2 P3]. congruence.
  - intros T. rewrite slots_other by (by rewrite H3). unfold pend. rewrite H2. simpl. unfold count_if. simpl. lia.
  - intros args r ch. rewrite H2. by intros [=]%list_elem_of_singleton.
  - intros ch r. rewrite M4. by intros ?%elem_of_nil.
  - intros j args. rewrite M4. by intros ?%elem_of_nil.
  - intros c T Hin. destruct (pv_kept _ _ _ _ _ _ Hp c T Hin) as (K1 & K2 & K3 & K4). split; [done|].
    unfold vote_kept, term_kept in *. rewrite H5, H6, S1, S2. split; [lia|]. done.
  - unfold store_agrees. rewrite H5, H6. split; [lia|]. by right.
  - rewrite H5. lia.
  - intros Hc%counting_kind. congruence.
Qed.

Lemma vote_requests_in out j args : (j, args) ∈ vote_requests out -> exists p, CallRequestVote p args ∈ out.
Proof.
  induction out as [|o out IH]; [by intros ?%elem_of_nil|]. destruct o; simpl; try (intros H; destruct (IH H) as [p Hp]; exists p; by right).
  intros [[= -> ->]|H]%elem_of_cons; [eexists; by left|]. destruct (IH H) as [p Hp]. exists p. by right.
Qed.

Lemma backers_disown i j n T cs : i <> j -> j <> n -> backers j T (disown i n <$> cs) = backers j T cs.
Proof.
  intros Hij Hjn. apply set_eq. intros v. rewrite !elem_of_backers.
  assert (forall c, backs j T (disown i n c) = backs j T c /\ vc_callee (disown i n c) = vc_callee c) as H.
  { intros c. unfold disown. case_decide as Hc; [|done]. split; [|done]. unfold backs. simpl. rewrite Hc.
    by rewrite !bool_decide_eq_false_2 by congruence. }
  split.
  - intros (k & c' & (c & -> & H1)%list_lookup_fmap_Some & H2 & H3). destruct (H c) as [E1 E2]. exists k, c. rewrite <- E1, <- E2. done.
  - intros (k & c & H1 & H2 & H3). destruct (H c) as [E1 E2]. exists k, (disown i n c). rewrite list_lookup_fmap, H1, E1, E2. done.
Qed.

Lemma inv_restart n i w w' : votes_inv n w -> restart_peer i w = Some w' -> votes_inv n w'.
Proof.
  intros Hi E. unfold restart_peer in E. destruct (nodes (cl w) !! i) as [s|] eqn:Hs; [|done]. simpl in E.
  destruct (Make _ _ _ _) as [s' []| |] eqn:Em; [|done..]. injection E as <-. rewrite (vi_size _ _ Hi).
  assert (i < n)%nat as Hn by (rewrite <- (vi_size _ _ Hi); by eapply lookup_lt_Some).
  assert (calls_grow (calls (cl w)) (disown i n <$> calls (cl w))) as Hcg.
  { intros k c Hk. exists (disown i n c). rewrite list_lookup_fmap, Hk. split; [done|]. unfold disown. by case_decide. }
  pose proof (vi_peers _ _ Hi i s Hs) as Hp. constructor; simpl; try apply Hi.
  - rewrite length_insert. apply Hi.
  - intros j sj Hj. apply list_lookup_insert_Some in Hj as [(<- & <- & _)|[Hne Hj]]; [by eapply peer_restarted|].
    eapply peer_inv_grow; [by apply (vi_peers _ _ Hi)|done| |done|done|done]. intros T. rewrite backers_disown; [done|done|].
    intros ->. apply lookup_lt_Some in Hj. rewrite (vi_size _ _ Hi) in Hj. lia.
  - apply Forall_fmap. eapply Forall_impl; [apply Hi|]. intros c Hc. simpl. unfold disown. case_decide; [|done].
    intros Hlt. simpl in Hlt. lia.
  - intros k1 k2 d1 d2 (c1 & -> & H1)%list_lookup_fmap_Some (c2 & -> & H2)%list_lookup_fmap_Some. unfold disown.
    case_decide as D1; simpl; [lia|]. case_decide as D2; simpl; [|by apply (vi_one _ _ Hi)].
    intros Hlt Hg. apply goroutine_sym in Hg as [_ Hg]. simpl in Hg. lia.
  - apply Forall_app. split; [apply Hi|]. apply Forall_forall. intros [j args] [p Hin]%vote_requests_in.
    destruct (pv_asks _ _ _ _ _ _ Hp p args Hin) as [Hc _]. simpl. rewrite Hc. lia.
Qed.

(** ** Every step *)

Lemma other_peer n cs gr st i s j : peer_inv n cs gr st i s -> j ∈ other_peers s -> Z.to_nat j <> i /\ (Z.to_nat j < n)%nat.
Proof.
  intros Hp [H1 H2%elem_of_seqZ]%list_elem_of_filter. pose proof (pv_self _ _ _ _ _ _ Hp) as [= P1 P2 _]. lia.
Qed.

Lemma inv_peers n a w w' : votes_inv n w -> peers_do a w = Some w' -> small w = true -> no_double_vote w' -> votes_inv n w'.
Proof.
  intros Hi E Hw Hh. destruct a as [i|i|i k|k|k]; [by eapply inv_turn|..]; cbn [peers_do] in E;
    (destruct (act _ _) as [c|] eqn:Ea; [|done]); injection E as <-; cbn [act] in Ea.
  - apply at_node_inv in Ea as (s & b & s' & Hs & Ef & ->). by eapply inv_idle; [..|eapply idle_fire| |].
  - destruct (nodes (cl w) !! i) as [s0|] eqn:H0; [|done]. simpl in Ea. destruct (outbox s0 !! k) as [[]|] eqn:Ho; try done.
    destruct (may_call _ _ _ _) eqn:Hm; [|done]. destruct (at_node _ _ _) as [c1|] eqn:E1; [|done]. injection Ea as <-.
    apply at_node_inv in E1 as (s & b & s' & Hs & Ef & ->). simpl in *. apply list_elem_of_lookup_2 in Ho.
    pose proof (vi_peers _ _ Hi i s0 H0) as Hp. destruct (pv_asks _ _ _ _ _ _ Hp _ _ Ho) as [Hc Hj].
    destruct (other_peer _ _ _ _ _ _ _ Hp Hj) as [Hne Hlt].
    eapply (inv_ask n w); eauto. rewrite Hc. lia.
  - destruct (calls (cl w) !! k) as [x|] eqn:Hk; [|done]. simpl in Ea. destruct (vc_state x) eqn:Hx; try done.
    destruct (nodes (cl w) !! vc_caller x) as [s0|] eqn:H0; [|done]. simpl in Ea.
    destruct (nodes (cl w) !! vc_callee x) as [s1|] eqn:H1; [|done]. simpl in Ea. destruct (find_vote _ _) as [r|] eqn:Hf; [|done]. simpl in Ea.
    destruct (at_node _ _ _) as [c1|] eqn:E1; [|done]. injection Ea as <-.
    apply at_node_inv in E1 as (s & b & s' & Hs & Ef & ->). simplify_eq/=. by eapply (inv_answer n w).
  - destruct (calls (cl w) !! k) as [x|] eqn:Hk; [|done]. simpl in Ea. destruct (vc_state x) eqn:Hx; try done. injection Ea as <-.
    by eapply (inv_lose n w).
Qed.

Lemma idle_start x ch b s s' : Start (Some x) ch None s = Done b s' -> idle s s'.
Proof.
  unfold Start. rewrite bind_gets. intros E. destruct (dead s); [injection E as _ <-; apply idle_refl|].
  apply bind_inv in E as (u & s1 & E1 & E2). injection E2 as _ <-. by eapply idle_put.
Qed.

Lemma idle_append args r ch b s s' : AppendEntries args r ch s = Done b s' -> idle s s'.
Proof. intros E. destruct (AppendEntries_run _ _ _ _ _ _ E) as [-> | ->]; [apply idle_refl|by apply idle_queued]. Qed.

Lemma idle_tried (ev : Event Cmd) (p p' : repl_pc (Cmd := Cmd)) s s' :
  (tryPutEv ev true;; mret p) s = Done p' s' -> is_trans ev = false -> is_vote ev = false -> idle s s'.
Proof. intros E Ht Hv. apply bind_inv in E as (b & s1 & E1 & E2). injection E2 as <- <-. by eapply idle_try. Qed.

Lemma idle_reply t peer g args reply p s s' : on_reply t peer g args reply s = Done p s' -> idle s s'.
Proof.
  intros E. unfold on_reply in E. rewrite bind_gets in E. destruct (live t s) eqn:Hl; simpl in E;
    [|injection E as <- <-; apply idle_refl].
  destruct g as [l r prev m|next r].
  - destruct (EntryStatus_ reply); try (injection E as <- <-; apply idle_refl).
    apply bind_inv in E as (u & s1 & E1 & E2). injection E2 as <- <-. apply bool_decide_eq_true in Hl.
    destruct (lead_kind _ _ Hl) as (Hk & Ha & _). by eapply idle_stale.
  - unfold on_append_reply in E. destruct (EntryStatus_ reply); simpl in E; try (injection E as <- <-; apply idle_refl);
      try (exact (idle_tried _ _ _ _ _ E eq_refl eq_refl)).
    destruct r as [[sn|] [se|]]; simpl in E; try done; try (injection E as <- <-; apply idle_refl).
    destruct (0 <? length (Entries se))%nat; simpl in E; [exact (idle_tried _ _ _ _ _ E eq_refl eq_refl)|]. injection E as <- <-. apply idle_refl.
Qed.

Lemma inv_step n w w' : votes_inv n w -> sys_step w w' -> no_double_vote w' -> votes_inv n w'.
Proof.
  intros Hi (a & Hw & _ & E) Hh. destruct a as [a|i x|i|q|q|k|k ok|q|i|k]; cbn [sys_exec] in E.
  - by eapply inv_peers.
  - unfold start_command in E. destruct (at_node _ _ _) as [c|] eqn:Ea; [|done]. injection E as <-.
    apply at_node_inv in Ea as (s & b & s' & Hs & Ef & ->). by eapply inv_idle; [..|eapply idle_start| |].
  - unfold deliver_turn in E. destruct (nodes (cl w) !! i) as [s|] eqn:Hs; [|done]. simpl in E.
    destruct (applier_turn _ s) as [[[ms go]|] s'| |] eqn:Ea; try done. injection E as <-.
    by eapply inv_idle; [..|eapply idle_applier| |].
  - unfold repl_look in E. destruct (repls w !! q) as [r|]; [|done]. simpl in E. destruct (nodes (cl w) !! _); [|done]. simpl in E.
    destruct (may_look _ _ _); [|done]. destruct (look _ _ _ _); [|done]. injection E as <-. by apply (inv_same n w).
  - unfold try_call in E. destruct (repls w !! q) as [r|]; [|done]. simpl in E. destruct (rl_pc r); try done. injection E as <-.
    by apply (inv_same n w).
  - unfold arrive in E. destruct (tries w !! k) as [x|]; [|done]. simpl in E. destruct (repls w !! at_repl x) as [r|]; [|done]. simpl in E.
    destruct (at_flight x); try done. destruct (at_node _ _ _) as [c|] eqn:Ea; [|done]. injection E as <-.
    apply at_node_inv in Ea as (s & b & s' & Hs & Ef & ->). by eapply inv_idle; [..|eapply idle_append| |].
  - unfold call_returns in E. destruct (tries w !! k) as [x|]; [|done]. simpl in E. destruct (repls w !! at_repl x) as [r|]; [|done].
    simpl in E. destruct (call_finds _ _ _ _ _); [|done]. injection E as <-. by apply (inv_same n w).
  - unfold repl_reply in E. destruct (repls w !! q) as [r|]; [|done]. simpl in E. destruct (nodes (cl w) !! _) as [s|] eqn:Hs; [|done].
    simpl in E. destruct (rl_pc r); try done. destruct (on_reply _ _ _ _ _ _) as [p s'| |] eqn:Eo; [|done..]. injection E as <-.
    by eapply inv_idle; [..|eapply idle_reply| |].
  - by eapply inv_restart.
  - unfold late_vote in E. destruct (late w !! k) as [[j args]|] eqn:Hk; [|done]. simpl in E.
    destruct (at_node _ _ _) as [c|] eqn:Ea; [|done]. injection E as <-. apply at_node_inv in Ea as (s & b & s' & Hs & Ef & ->).
    pose proof (Forall_lookup_1 _ _ _ _ (vi_late _ _ Hi) Hk) as Hc. simpl in *.
    eapply (inv_ask n w); eauto. rewrite length_insert, (vi_size _ _ Hi). lia.
Qed.

(** * Runs *)

Lemma fresh_inv k c : fresh_cluster k = Some c -> votes_inv k (mkSystem c [] [] [] [] [] [] []).
Proof.
  unfold fresh_cluster. destruct (mapM _ _) as [ns|] eqn:E; [|done]. intros [= <-]. apply mapM_Some_1 in E.
  constructor; simpl; try done; [..|by intros i T ?%elem_of_nil].
  - apply Forall2_length in E. by rewrite length_seq in E.
  - intros i s Hs. destruct (Forall2_lookup_r _ _ _ _ _ E Hs) as (x & Hx & Em). apply lookup_seq in Hx as [-> _]. simpl in Em.
    unfold fresh_node in Em. destruct (Make _ _ _ _) as [s0 []| |] eqn:Ep; [|done..]. injection Em as ->.
    destruct (Make_ballot _ _ _ _ Ep) as (H1 & H2 & H3 & H4 & H5 & H6). injection H1 as M1 M2 M3 M4. constructor.
    + by eapply Make_ok.
    + congruence.
    + intros T. rewrite slots_other by (by rewrite H3). unfold pend. rewrite H2. unfold count_if. simpl. lia.
    + intros args r ch. rewrite H2. by intros [=]%list_elem_of_singleton.
    + intros ch r. rewrite M4. by intros ?%elem_of_nil.
    + intros j args. rewrite M4. by intros ?%elem_of_nil.
    + by intros c T ?%elem_of_nil.
    + unfold store_agrees. rewrite H5, H6. split; [lia|]. by right.
    + rewrite H5. lia.
    + intros Hc%counting_kind. congruence.
  - by intros v c c' T ?%elem_of_nil.
Qed.

Lemma history_grows w w' : sys_step w w' -> grants w ⊆ grants w' /\ stood w ⊆ stood w'.
Proof.
  intros (a & _ & _ & E). destruct a as [[i|i|i k|k|k]|i x|i|q|q|k|k ok|q|i|k]; cbn [sys_exec peers_do] in E;
    unfold turn_of, start_command, deliver_turn, repl_look, try_call, arrive, call_returns, repl_reply, restart_peer, late_vote in E;
    repeat (case_match || (apply bind_Some in E as (? & ? & E))); simplify_eq/=; set_solver.
Qed.

Lemma votes_run k w0 w : start_system k = Some w0 -> rtc sys_step w0 w -> no_double_vote w -> votes_inv k w.
Proof.
  intros E Hr. refine (rtc_ind_r (fun v => no_double_vote v -> votes_inv k v) w0 _ _ w Hr).
  - intros _. unfold start_system in E. destruct (fresh_cluster k) eqn:Ec; [|done]. injection E as <-. by apply fresh_inv.
  - intros v1 v2 _ Hstep IH Hh. destruct (history_grows _ _ Hstep) as [H1 H2]. apply (inv_step k v1); [|done|done].
    apply IH. intros v c T Hin Hst. apply (Hh v c T); auto.
Qed.

(** C7: Election safety, but for one mistake of the code: in any run of a cluster from empty stores, with lost, late and
    repeated requests, timeouts, and peers that crash and start again from their persisters, if no peer gives its vote in a term in
    which it stood for election itself, then no term has two leaders.  The grants that a candidate has
    counted come from different peers, and a peer gives its vote to one candidate per term, also across a restart. *)
Theorem one_leader_per_term k w0 w :
  start_system k = Some w0 -> rtc sys_step w0 w -> no_double_vote w -> one_leader (won w).
Proof.
  intros E Hr Hh i j T Hi Hj. destruct (votes_run k w0 w E Hr Hh) as [_ _ _ _ _ He Hw].
  destruct (Hw i T Hi) as (A1 & A2 & A3). destruct (Hw j T Hj) as (B1 & B2 & B3).
  apply (quorums_meet k (grants w) (stood w) i j T); [done|intros v c; apply Hh|done..].
Qed.
End election_safety.

(** Two elections, with restarts between them: peer 0 wins term 1 with the vote of peer 1, peer 1 term 2 with that of peer 2. *)
Lemma one_leader_per_term_witness :
  grants restarted_run = [(2%nat, 1, 2); (1%nat, 0, 1)] /\ won restarted_run = [(1%nat, 2); (0%nat, 1)] /\
  one_leader (won restarted_run).
Proof.
  assert (grants restarted_run = [(2%nat, 1, 2); (1%nat, 0, 1)]) as Hg by (vm_compute; reflexivity).
  split; [exact Hg|]. split; [vm_compute; reflexivity|].
  apply (one_leader_per_term 3 start3 restarted_run); [vm_compute; reflexivity|exact restarted_steps|].
  intros v c T. rewrite Hg. assert (remove_dups (stood restarted_run) = [(1%nat, 2); (0%nat, 1)]) as Hs by (vm_compute; reflexivity).
  rewrite <- (elem_of_remove_dups (stood restarted_run)), Hs, !elem_of_cons. intros Hv Ht.
  destruct Hv as [[= -> -> ->]|[[= -> -> ->]|[]%elem_of_nil]]; by destruct Ht as [[=]|[[=]|[]%elem_of_nil]].
Defined.
