(* ===== verification/KvSrv.v ===== *)
(** The single key/value server (kvsrv/server.go, client.go, common.go).

    The two [sync.Map]s are finite maps.  A handler runs in phases between
    which other handlers may run: syncRpcID, then LoadOrStore, then, when the
    key was there, the update under the value's own lock.  [Put] and [Append]
    compose the phases; [kv_step] interleaves the phases of any number of
    handlers.  RPC identifiers are uint32 and wrap. *)

From S2P Require Import Prelude.

(** * common.go, server.go: data *)

Record PutAppendArgs := mkPutAppendArgs { Key : string; Value : string; ClientID : Z; RpcID : Z }.
Record PutAppendReply := mkPutAppendReply { r_RpcID : Z; r_Value : string }.
Record SyncInfo := mkSyncInfo { s_RpcID : Z; LastValue : string }.
Record KVServer := mkKVServer { kv_data : gmap string string; clientsSync : gmap Z SyncInfo }.

Definition StartKVServer : KVServer := mkKVServer ∅ ∅.

Inductive kv_op : Type := OpPut | OpAppend.
#[export] Instance kv_op_eq_dec : EqDecision kv_op.
Proof. solve_decision. Defined.
#[export] Instance PutAppendArgs_eq_dec : EqDecision PutAppendArgs.
Proof. solve_decision. Defined.

Definition set_sync (c : Z) (i : SyncInfo) (kv : KVServer) : KVServer :=
  mkKVServer (kv_data kv) (<[c := i]> (clientsSync kv)).
Definition set_value (k v : string) (kv : KVServer) : KVServer :=
  mkKVServer (<[k := v]> (kv_data kv)) (clientsSync kv).

(** * server.go: handlers *)

(** Whether the operation is to be carried out, and the reply so far. *)
Definition syncRpcID (args : PutAppendArgs) (reply : PutAppendReply)
    : M KVServer (bool * PutAppendReply) :=
  kv ← gets (fun kv => kv);
  let info := default (mkSyncInfo 1 "") (clientsSync kv !! ClientID args) in
  modify (set_sync (ClientID args) info);;
  if s_RpcID info >? RpcID args then
    mret (false, mkPutAppendReply (to_uint32 (s_RpcID info - 1)) (LastValue info))
  else if s_RpcID info =? RpcID args then
    modify (set_sync (ClientID args) (mkSyncInfo (to_uint32 (s_RpcID info + 1)) (LastValue info)));;
    mret (true, mkPutAppendReply (s_RpcID info) (r_Value reply))
  else throw ExplicitPanic.

(** LoadOrStore: true when the key was there. *)
Definition load_or_store (k v : string) : M KVServer bool :=
  kv ← gets (fun kv => kv);
  match kv_data kv !! k with
  | Some _ => mret true
  | None => modify (set_value k v);; mret false
  end.

(** The update under the value's lock; the result is the reply. *)
Definition locked_update (op : kv_op) (args : PutAppendArgs) (reply : PutAppendReply)
    : M KVServer PutAppendReply :=
  kv ← gets (fun kv => kv);
  let old := default "" (kv_data kv !! Key args) in
  match op with
  | OpPut => modify (set_value (Key args) (Value args));; mret reply
  | OpAppend =>
      match clientsSync kv !! ClientID args with
      | Some info =>
          modify (set_sync (ClientID args) (mkSyncInfo (s_RpcID info) old));;
          modify (set_value (Key args) (old +:+ Value args));;
          mret (mkPutAppendReply (r_RpcID reply) old)
      | None => throw NilDereference
      end
  end.

Definition handle (op : kv_op) (args : PutAppendArgs) (reply : PutAppendReply)
    : M KVServer PutAppendReply :=
  r ← syncRpcID args reply;
  if (fst r : bool) then
    loaded ← load_or_store (Key args) (Value args);
    if (loaded : bool) then locked_update op args (snd r) else mret (snd r)
  else mret (snd r).

Definition Put := handle OpPut.
Definition Append := handle OpAppend.

Definition Get (key : string) : M KVServer string :=
  kv ← gets (fun kv => kv);
  mret (default ""%string (kv_data kv !! key)).

(** * client.go *)

Record Clerk := mkClerk { ck_id : Z; ck_rpcid : Z }.

(** [ClerkID.Add(1)]: the clerk and the counter after it. *)
Definition MakeClerk (counter : Z) : Clerk * Z :=
  let id := to_uint32 (counter + 1) in (mkClerk id 0, id).

(** What becomes of one Call: the request is lost, the request is executed and
    the reply is lost, or the reply arrives. *)
Inductive attempt : Type := RequestLost | ReplyLost | Answered.

Definition emptyReply : PutAppendReply := mkPutAppendReply 0 "".

(** The retry loop; [None] while no attempt was answered. *)
Fixpoint call_until (op : kv_op) (args : PutAppendArgs) (atts : list attempt)
    : M KVServer (option PutAppendReply) :=
  match atts with
  | [] => mret None
  | RequestLost :: atts => call_until op args atts
  | ReplyLost :: atts => handle op args emptyReply;; call_until op args atts
  | Answered :: _ => r ← handle op args emptyReply; mret (Some r)
  end.

Definition PutAppend (ck : Clerk) (key value : string) (op : kv_op) (atts : list attempt)
    : M KVServer (option (string * Clerk)) :=
  let args := mkPutAppendArgs key value (ck_id ck) (to_uint32 (ck_rpcid ck + 1)) in
  r ← call_until op args atts;
  mret ((fun r => (r_Value r, mkClerk (ck_id ck) (r_RpcID r))) <$> r).

Fixpoint get_until (key : string) (atts : list attempt) : M KVServer (option string) :=
  match atts with
  | [] => mret None
  | RequestLost :: atts => get_until key atts
  | ReplyLost :: atts => Get key;; get_until key atts
  | Answered :: _ => v ← Get key; mret (Some v)
  end.

(** * Specification: a map and operations on it *)

Definition apply_op (op : kv_op) (k v : string) (m : gmap string string) : gmap string string :=
  match op with
  | OpPut => <[k := v]> m
  | OpAppend => <[k := default "" (m !! k) +:+ v]> m
  end.

(** The identifier the server expects next from a client. *)
Definition expected (kv : KVServer) (c : Z) : Z :=
  match clientsSync kv !! c with Some info => s_RpcID info | None => 1 end.

(** The value remembered for a client's last Append. *)
Definition remembered (kv : KVServer) (c : Z) : string :=
  match clientsSync kv !! c with Some info => LastValue info | None => "" end.

Lemma syncRpcID_run args reply kv :
  let e := expected kv (ClientID args) in
  syncRpcID args reply kv =
  if e >? RpcID args then
    Done (false, mkPutAppendReply (to_uint32 (e - 1)) (remembered kv (ClientID args)))
      (set_sync (ClientID args) (mkSyncInfo e (remembered kv (ClientID args))) kv)
  else if e =? RpcID args then
    Done (true, mkPutAppendReply e (r_Value reply))
      (set_sync (ClientID args) (mkSyncInfo (to_uint32 (e + 1)) (remembered kv (ClientID args))) kv)
  else Panicked ExplicitPanic
    (set_sync (ClientID args) (mkSyncInfo e (remembered kv (ClientID args))) kv).
Proof.
  unfold syncRpcID, expected, remembered. rewrite bind_gets, bind_modify.
  assert (forall c i j kv, set_sync c i (set_sync c j kv) = set_sync c i kv) as Hss.
  { intros. unfold set_sync. simpl. by rewrite insert_insert_eq. }
  destruct (clientsSync kv !! ClientID args) as [[e l]|] eqn:E; cbn [default s_RpcID LastValue];
    (destruct (_ >? _); [done|]); (destruct (_ =? _); [|done]); by rewrite bind_modify, Hss.
Qed.

(** * Interleaved handlers *)

Inductive stage : Type := Synced | Loaded.
#[export] Instance stage_eq_dec : EqDecision stage.
Proof. solve_decision. Defined.

(** A handler that accepted its request and has not finished. *)
Record thread := mkThread {
  th_request : kv_op * PutAppendArgs; th_reply : PutAppendReply; th_stage : stage }.

(** The server, the handlers under way, and the requests that took effect, in
    that order. *)
Record kv_world := KW { server : KVServer; threads : list thread; history : list (kv_op * PutAppendArgs) }.

Inductive kv_step : kv_world -> kv_world -> Prop :=
  | kv_duplicate args r kv kv' ths h :
      syncRpcID args emptyReply kv = Done (false, r) kv' -> kv_step (KW kv ths h) (KW kv' ths h)
  | kv_begin op args r kv kv' ths h :
      0 < RpcID args < 2^32 - 1 ->
      syncRpcID args emptyReply kv = Done (true, r) kv' ->
      kv_step (KW kv ths h) (KW kv' (ths ++ [mkThread (op, args) r Synced]) h)
  | kv_stored q r kv kv' l l' h :
      load_or_store (Key (snd q)) (Value (snd q)) kv = Done false kv' ->
      kv_step (KW kv (l ++ mkThread q r Synced :: l') h) (KW kv' (l ++ l') (h ++ [q]))
  | kv_loaded q r kv kv' l l' h :
      load_or_store (Key (snd q)) (Value (snd q)) kv = Done true kv' ->
      kv_step (KW kv (l ++ mkThread q r Synced :: l') h) (KW kv' (l ++ mkThread q r Loaded :: l') h)
  | kv_updated q r r' kv kv' l l' h :
      locked_update (fst q) (snd q) r kv = Done r' kv' ->
      kv_step (KW kv (l ++ mkThread q r Loaded :: l') h) (KW kv' (l ++ l') (h ++ [q])).

Definition replay (h : list (kv_op * PutAppendArgs)) : gmap string string :=
  foldl (fun m q => apply_op (fst q) (Key (snd q)) (Value (snd q)) m) ∅ h.

(** The requests that were accepted. *)
Definition accepted (w : kv_world) : list (kv_op * PutAppendArgs) :=
  history w ++ (th_request <$> threads w).

Definition request_id (q : kv_op * PutAppendArgs) : Z * Z := (ClientID (snd q), RpcID (snd q)).

Record kv_inv (w : kv_world) : Prop := {
  kv_replay : kv_data (server w) = replay (history w);
  kv_keys : forall t, t ∈ threads w -> th_stage t = Loaded ->
    is_Some (kv_data (server w) !! Key (snd (th_request t)));
  kv_known : forall t, t ∈ threads w ->
    is_Some (clientsSync (server w) !! ClientID (snd (th_request t)));
  kv_once : NoDup (request_id <$> accepted w);
  kv_numbers : forall c i, (c, i) ∈ request_id <$> accepted w <-> 1 <= i < expected (server w) c }.

Lemma replay_snoc h q :
  replay (h ++ [q]) = apply_op (fst q) (Key (snd q)) (Value (snd q)) (replay h).
Proof. unfold replay. by rewrite foldl_app. Qed.

Lemma expected_set_sync kv c i c' :
  expected (set_sync c i kv) c' = if decide (c' = c) then s_RpcID i else expected kv c'.
Proof.
  unfold expected. simpl. case_decide as E; [subst; by rewrite lookup_insert_eq|].
  by rewrite lookup_insert_ne.
Qed.

Lemma known_set_sync kv c i c' :
  is_Some (clientsSync kv !! c') -> is_Some (clientsSync (set_sync c i kv) !! c').
Proof.
  intros H. simpl. destruct (decide (c' = c)) as [->|]; [rewrite lookup_insert_eq; by eexists|].
  by rewrite lookup_insert_ne.
Qed.

(** A finished handler moves its request from the threads to the history. *)
Lemma accepted_finish kv kv' q r st l l' h :
  accepted (KW kv' (l ++ l') (h ++ [q])) ≡ₚ accepted (KW kv (l ++ mkThread q r st :: l') h).
Proof.
  unfold accepted. simpl. rewrite !fmap_app, fmap_cons. simpl.
  rewrite <- app_assoc. simpl. apply Permutation_app_head, Permutation_middle.
Qed.

Lemma elem_of_skip {A} (x y : A) l l' : x ∈ l ++ l' -> x ∈ l ++ y :: l'.
Proof. rewrite !elem_of_app, elem_of_cons. intuition. Qed.

Lemma elem_of_middle {A} (x y : A) l l' : x ∈ l ++ y :: l' -> x = y \/ x ∈ l ++ l'.
Proof. rewrite !elem_of_app, elem_of_cons. intuition. Qed.

Lemma set_value_inv kv q r st l l' h v :
  kv_inv (KW kv (l ++ mkThread q r st :: l') h) ->
  <[Key (snd q) := v]> (kv_data kv)
  = apply_op (fst q) (Key (snd q)) (Value (snd q)) (kv_data kv) ->
  forall kv', kv_data kv' = <[Key (snd q) := v]> (kv_data kv) ->
    (forall c, expected kv' c = expected kv c) ->
    (forall c, is_Some (clientsSync kv !! c) -> is_Some (clientsSync kv' !! c)) ->
  kv_inv (KW kv' (l ++ l') (h ++ [q])).
Proof.
  intros [H1 H2 H3 H4 H5] Hv kv' Hd He Hc. simpl in *. constructor; simpl.
  - rewrite replay_snoc, <- H1. congruence.
  - intros t Ht Hl. rewrite Hd. destruct (decide (Key (snd (th_request t)) = Key (snd q))) as [->|Hne].
    + rewrite lookup_insert_eq. by eexists.
    + rewrite lookup_insert_ne by done. apply H2; [by apply elem_of_skip|done].
  - intros t Ht. apply Hc, H3. by apply elem_of_skip.
  - by rewrite (accepted_finish kv).
  - intros c i. rewrite (accepted_finish kv kv' q r st), He. apply H5.
Qed.

Lemma fresh_kv_inv : kv_inv (KW StartKVServer [] []).
Proof.
  constructor; try done.
  - by intros t []%elem_of_nil.
  - by intros t []%elem_of_nil.
  - constructor.
  - intros c i. unfold expected. simpl. rewrite lookup_empty. split; [by intros []%elem_of_nil|lia].
Qed.

Lemma sync_only_inv kv ths h c i :
  kv_inv (KW kv ths h) -> s_RpcID i = expected kv c -> kv_inv (KW (set_sync c i kv) ths h).
Proof.
  intros [H1 H2 H3 H4 H5] Hi. simpl in *. constructor; simpl; try done.
  - intros t Ht. apply known_set_sync. auto.
  - intros c' j. rewrite expected_set_sync, H5. by case_decide as E; [rewrite Hi, E|].
Qed.

Lemma accepted_begin kv kv' q r st ths h :
  accepted (KW kv' (ths ++ [mkThread q r st]) h) = accepted (KW kv ths h) ++ [q].
Proof. unfold accepted. simpl. by rewrite fmap_app, app_assoc. Qed.

Lemma begin_inv kv ths h op args r i :
  kv_inv (KW kv ths h) -> 0 < RpcID args -> expected kv (ClientID args) = RpcID args ->
  s_RpcID i = RpcID args + 1 ->
  kv_inv (KW (set_sync (ClientID args) i kv) (ths ++ [mkThread (op, args) r Synced]) h).
Proof.
  intros [H1 H2 H3 H4 H5] Hpos He Hi. simpl in *. constructor; simpl; try done.
  - intros t [Ht|Ht%list_elem_of_singleton]%elem_of_app Hl; [by apply H2|by subst].
  - intros t [Ht|Ht%list_elem_of_singleton]%elem_of_app; [by apply known_set_sync, H3|].
    subst. simpl. rewrite lookup_insert_eq. by eexists.
  - rewrite (accepted_begin kv), fmap_app.
    apply NoDup_app. split; [done|]. split; [|apply NoDup_singleton].
    intros [c j] Hin Hn%list_elem_of_singleton. apply H5 in Hin. injection Hn as -> ->. simpl in Hin. lia.
  - intros c j.
    rewrite (accepted_begin kv), fmap_app, elem_of_app, H5, expected_set_sync. simpl.
    rewrite list_elem_of_singleton.
    unfold request_id. simpl. case_decide as E; split.
    + intros [Hj|[= Ec Ej]]; subst; lia.
    + intros Hj. subst c. destruct (decide (j = RpcID args)) as [->|]; [by right|left; lia].
    + intros [Hj|[= Ec Ej]]; [done|congruence].
    + by left.
Qed.

Lemma kv_step_inv w w' : kv_inv w -> kv_step w w' -> kv_inv w'.
Proof.
  intros Hi Hs. destruct Hs as [args r kv kv' ths h E|op args r kv kv' ths h Hb E|q r kv kv' l l' h E
    |q r kv kv' l l' h E|q r r' kv kv' l l' h E].
  - rewrite syncRpcID_run in E. destruct (_ >? _); [|destruct (_ =? _)]; simplify_eq.
    by apply sync_only_inv.
  - rewrite syncRpcID_run in E. destruct (_ >? _); [by simplify_eq|].
    destruct (_ =? _) eqn:Ee; [|done]. apply Z.eqb_eq in Ee. simplify_eq.
    apply begin_inv; [done|lia|done|]. simpl. rewrite Ee. apply to_uint32_small. lia.
  - unfold load_or_store in E. rewrite bind_gets in E.
    destruct (kv_data kv !! _) as [v|] eqn:Ed; [done|]. rewrite bind_modify in E. injection E as <-.
    eapply (set_value_inv kv q r Synced l l' h (Value (snd q))); try done.
    unfold apply_op. destruct (fst q); [done|]. by rewrite Ed.
  - unfold load_or_store in E. rewrite bind_gets in E.
    destruct (kv_data kv !! _) as [v|] eqn:Ed; [|done]. injection E as <-.
    destruct Hi as [H1 H2 H3 H4 H5]. unfold accepted in *. simpl in *.
    rewrite !fmap_app, !fmap_cons in *. simpl in *. constructor; unfold accepted; simpl;
      rewrite ?fmap_app, ?fmap_cons; try done.
    + intros t [->|Ht]%elem_of_middle Hl; [simpl; by eexists|].
      apply H2; [by apply elem_of_skip|done].
    + intros t [->|Ht]%elem_of_middle; [|by apply H3, elem_of_skip].
      apply (H3 (mkThread q r Synced)). apply elem_of_app. right. by left.
  - unfold locked_update in E. rewrite bind_gets in E. destruct (fst q) eqn:Eq.
    + rewrite bind_modify in E. injection E as _ <-.
      eapply (set_value_inv kv q r Loaded l l' h (Value (snd q))); try done. by rewrite Eq.
    + destruct (clientsSync kv !! _) as [i|] eqn:Ei; [|done].
      rewrite !bind_modify in E. injection E as _ <-.
      eapply (set_value_inv kv q r Loaded l l' h); try done; [by rewrite Eq| |].
      * intros c. change (expected (set_sync (ClientID (snd q)) (mkSyncInfo (s_RpcID i)
          (default ""%string (kv_data kv !! Key (snd q)))) kv) c = expected kv c).
        rewrite expected_set_sync. case_decide as Ec; [|done]. subst c. unfold expected. by rewrite Ei.
      * intros c Hc. by apply (known_set_sync kv).
Qed.

(** Every handler under way can take its next step. *)
Lemma kv_thread_runs kv l t l' h :
  kv_inv (KW kv (l ++ t :: l') h) -> exists w', kv_step (KW kv (l ++ t :: l') h) w'.
Proof.
  intros Hi. assert (t ∈ l ++ t :: l') as Hin by (apply elem_of_app; right; by left).
  pose proof (kv_keys _ Hi t Hin) as Hk. destruct (kv_known _ Hi t Hin) as [i Hn].
  destruct t as [q r [|]]; simpl in *.
  - destruct (load_or_store (Key (snd q)) (Value (snd q)) kv) as [[] kv'|p s|s] eqn:E.
    + eexists. by eapply kv_loaded.
    + eexists. by eapply kv_stored.
    + unfold load_or_store in E. rewrite bind_gets in E. by destruct (kv_data kv !! _).
    + unfold load_or_store in E. rewrite bind_gets in E. by destruct (kv_data kv !! _).
  - destruct (locked_update (fst q) (snd q) r kv) as [r' kv'|p s|s] eqn:E.
    + eexists. by eapply kv_updated.
    + unfold locked_update in E. rewrite bind_gets, Hn in E. by destruct (fst q).
    + unfold locked_update in E. rewrite bind_gets, Hn in E. by destruct (fst q).
Qed.

(** * A handler run by itself, and the clerk *)

(** What the server answers to an operation that it carries out. *)
Definition op_answer (op : kv_op) (k : string) (m : gmap string string) : string :=
  match op with OpPut => ""%string | OpAppend => default ""%string (m !! k) end.

(** What it remembers for the client's retries. *)
Definition op_memory (op : kv_op) (k : string) (m : gmap string string) (last : string) : string :=
  match op, m !! k with OpAppend, Some v => v | _, _ => last end.

Lemma handle_new op args kv :
  let c := ClientID args in
  RpcID args = expected kv c -> 0 < RpcID args < 2^32 - 1 ->
  exists kv', handle op args emptyReply kv
      = Done (mkPutAppendReply (RpcID args) (op_answer op (Key args) (kv_data kv))) kv' /\
    kv_data kv' = apply_op op (Key args) (Value args) (kv_data kv) /\
    expected kv' c = RpcID args + 1 /\
    remembered kv' c = op_memory op (Key args) (kv_data kv) (remembered kv c).
Proof.
  intros c He Hb. subst c. unfold handle. unfold mbind at 1, M_bind at 1. rewrite syncRpcID_run.
  rewrite <- He, Z.gtb_ltb, Z.ltb_irrefl, Z.eqb_refl. cbn [fst snd].
  rewrite to_uint32_small by lia. set (i := mkSyncInfo (RpcID args + 1) (remembered kv (ClientID args))).
  unfold load_or_store. unfold mbind at 1, M_bind at 1. rewrite bind_gets. cbn [kv_data set_sync].
  destruct (kv_data kv !! Key args) as [v|] eqn:Ed.
  - cbn [mret M_ret]. unfold locked_update. rewrite bind_gets. cbn [kv_data set_sync clientsSync].
    rewrite Ed. cbn [default]. destruct op.
    + rewrite bind_modify. eexists. split; [reflexivity|]. split; [done|].
      unfold expected, remembered, op_memory. simpl. by rewrite lookup_insert_eq.
    + rewrite lookup_insert_eq, !bind_modify.
      unfold op_answer, apply_op, op_memory, expected, remembered. rewrite Ed.
      eexists. split; [reflexivity|]. simpl. by rewrite lookup_insert_eq.
  - rewrite bind_modify. cbn [mret M_ret].
    unfold op_answer, apply_op, op_memory, expected, remembered. rewrite Ed.
    exists (set_value (Key args) (Value args) (set_sync (ClientID args) i kv)). simpl.
    rewrite lookup_insert_eq. by destruct op.
Qed.

Lemma handle_old op args kv :
  let c := ClientID args in
  RpcID args < expected kv c <= 2^32 ->
  0 <= RpcID args ->
  exists kv', handle op args emptyReply kv
      = Done (mkPutAppendReply (expected kv c - 1) (remembered kv c)) kv' /\
    kv_data kv' = kv_data kv /\ expected kv' c = expected kv c /\ remembered kv' c = remembered kv c.
Proof.
  intros c He H0. subst c. unfold handle. unfold mbind at 1, M_bind at 1. rewrite syncRpcID_run.
  rewrite Z.gtb_ltb, (proj2 (Z.ltb_lt _ _)) by lia. cbn [fst snd]. rewrite to_uint32_small by lia.
  eexists. split; [reflexivity|]. split; [done|].
  unfold expected, remembered. simpl. by rewrite lookup_insert_eq.
Qed.

(** Whether a reply was lost before one arrived; [None] when none does. *)
Fixpoint answered_after_loss (lost : bool) (atts : list attempt) : option bool :=
  match atts with
  | [] => None
  | RequestLost :: atts => answered_after_loss lost atts
  | ReplyLost :: atts => answered_after_loss true atts
  | Answered :: _ => Some lost
  end.

(** The clerk's counter is one behind what the server expects from it. *)
Definition in_sync (ck : Clerk) (kv : KVServer) : Prop :=
  0 <= ck_rpcid ck /\ expected kv (ck_id ck) = ck_rpcid ck + 1.

Lemma call_again op args atts kv lost' b :
  let c := ClientID args in
  expected kv c = RpcID args + 1 -> 0 < RpcID args < 2^32 - 1 ->
  answered_after_loss lost' atts = Some b ->
  exists kv', call_until op args atts kv
      = Done (Some (mkPutAppendReply (RpcID args) (remembered kv c))) kv' /\
    kv_data kv' = kv_data kv /\ expected kv' c = RpcID args + 1.
Proof.
  intros c He Hb. revert kv He lost'. induction atts as [|a atts IH]; intros kv He lost'; [done|].
  destruct (handle_old op args kv) as (kv1 & E & Hd & He1 & Hm1); [fold c; lia|lia|].
  fold c in E, Hd, He1, Hm1. rewrite He in E.
  replace (RpcID args + 1 - 1) with (RpcID args) in E by lia.
  destruct a; cbn [answered_after_loss call_until]; intros Ha.
  - by eapply IH.
  - rewrite (bind_done _ _ _ _ _ E).
    destruct (IH kv1 ltac:(lia) true Ha) as (kv2 & E2 & Hd2 & He2).
    exists kv2. rewrite E2, Hm1. split; [done|]. split; [congruence|done].
  - rewrite (bind_done _ _ _ _ _ E). exists kv1. split; [done|]. split; [done|]. lia.
Qed.

Lemma PutAppend_run ck key value op atts kv lost :
  in_sync ck kv -> ck_rpcid ck < 2^32 - 2 -> answered_after_loss false atts = Some lost ->
  exists kv' v, let ck' := mkClerk (ck_id ck) (ck_rpcid ck + 1) in
    PutAppend ck key value op atts kv = Done (Some (v, ck')) kv' /\
    kv_data kv' = apply_op op key value (kv_data kv) /\ in_sync ck' kv' /\
    v = if lost then op_memory op key (kv_data kv) (remembered kv (ck_id ck))
        else op_answer op key (kv_data kv).
Proof.
  intros [H0 He] Hb Ha. unfold PutAppend. rewrite to_uint32_small by lia.
  set (args := mkPutAppendArgs key value (ck_id ck) (ck_rpcid ck + 1)).
  enough (exists kv' v, call_until op args atts kv
      = Done (Some (mkPutAppendReply (ck_rpcid ck + 1) v)) kv' /\
    kv_data kv' = apply_op op key value (kv_data kv) /\ expected kv' (ck_id ck) = ck_rpcid ck + 2 /\
    v = if lost then op_memory op key (kv_data kv) (remembered kv (ck_id ck))
        else op_answer op key (kv_data kv)) as (kv' & v & E & Hd & He' & Hv).
  { exists kv', v. rewrite (bind_done _ _ _ _ _ E). simpl. split; [done|]. split; [done|].
    split; [split; simpl; lia|done]. }
  destruct (handle_new op args kv) as (kv1 & E & Hd & He1 & Hm); [done|simpl; lia|]. simpl in *.
  induction atts as [|a atts IH]; [done|]. destruct a; cbn [answered_after_loss call_until] in *.
  - by apply IH.
  - rewrite (bind_done _ _ _ _ _ E).
    destruct (call_again op args atts kv1 true lost) as (kv2 & E2 & Hd2 & He2); [simpl; lia|simpl; lia|done|].
    assert (lost = true) as ->.
    { clear -Ha. induction atts as [|[] atts IH]; simpl in *; [done|auto|auto|congruence]. }
    simpl in *. rewrite E2, Hm. eexists kv2, _. split; [done|]. split; [congruence|]. split; [lia|done].
  - injection Ha as <-. rewrite (bind_done _ _ _ _ _ E). eexists kv1, _.
    split; [reflexivity|]. split; [done|]. split; [lia|done].
Qed.

(** * Theorems *)


(** A clerk's Put or Append has the effect of one operation on the data however
    many requests and replies were lost before one got through, and clerk and
    server stay in step.  The value returned is the old value when no reply was
    lost; after a lost reply it is what the server remembered, which is the
    value of this operation only for an Append to a key that existed. *)
Theorem clerk_op_once ck key value op atts kv lost :
  in_sync ck kv -> ck_rpcid ck < 2^32 - 2 -> answered_after_loss false atts = Some lost ->
  exists kv' v, let ck' := mkClerk (ck_id ck) (ck_rpcid ck + 1) in
    PutAppend ck key value op atts kv = Done (Some (v, ck')) kv' /\
    kv_data kv' = apply_op op key value (kv_data kv) /\ in_sync ck' kv' /\
    v = if lost then op_memory op key (kv_data kv) (remembered kv (ck_id ck))
        else op_answer op key (kv_data kv).
Proof. apply PutAppend_run. Qed.

(** A session of one clerk: two Appends to the key a; the second's first
    reply, and the reply to an Append to the new key b, are lost. *)
Definition stale_session : M KVServer (option string * option string) :=
  let ck := fst (MakeClerk 0) in
  PutAppend ck "a" "x" OpAppend [Answered];;
  r1 ← PutAppend (mkClerk 1 1) "a" "y" OpAppend [ReplyLost; Answered];
  r2 ← PutAppend (mkClerk 1 2) "b" "z" OpAppend [RequestLost; ReplyLost; Answered];
  mret (fst <$> r1, fst <$> r2).

(** A retried Append to a key that did not exist answers with the value of the
    client's earlier Append to another key: here x, the old value of a, instead
    of the empty string. *)
Theorem retried_append_stale_value :
  exists kv, stale_session StartKVServer = Done (Some "x"%string, Some "x"%string) kv /\
    kv_data kv = {["a" := "xy"; "b" := "z"]}%string.
Proof. eexists. split; vm_compute; reflexivity. Qed.

(** ** Instances *)

Definition kv_demo_args : PutAppendArgs := mkPutAppendArgs "a" "x" 7 1.
Definition kv_demo_synced : KVServer := mkKVServer ∅ {[7 := mkSyncInfo 2 ""]}.
Definition kv_demo_done : KVServer := mkKVServer {["a"%string := "x"%string]} {[7 := mkSyncInfo 2 ""]}.

Lemma kv_demo_run :
  rtc kv_step (KW StartKVServer [] []) (KW kv_demo_done [] [(OpAppend, kv_demo_args)]).
Proof.
  eapply rtc_l.
  { apply (kv_begin OpAppend kv_demo_args (mkPutAppendReply 1 "") StartKVServer kv_demo_synced [] []);
      vm_compute; intuition congruence. }
  eapply rtc_l; [|apply rtc_refl].
  apply (kv_stored (OpAppend, kv_demo_args) (mkPutAppendReply 1 "") kv_demo_synced kv_demo_done [] [] []).
  vm_compute. reflexivity.
Qed.


Lemma clerk_op_once_witness :
  exists kv' v, let ck' := mkClerk 7 2 in
    PutAppend (mkClerk 7 1) "a" "y" OpAppend [RequestLost; ReplyLost; Answered] kv_demo_done
      = Done (Some (v, ck')) kv' /\
    kv_data kv' = apply_op OpAppend "a" "y" (kv_data kv_demo_done) /\ in_sync ck' kv' /\
    v = op_memory OpAppend "a" (kv_data kv_demo_done) (remembered kv_demo_done 7).
Proof.
  apply (clerk_op_once (mkClerk 7 1) "a" "y" OpAppend [RequestLost; ReplyLost; Answered] kv_demo_done true);
    [vm_compute; intuition congruence|reflexivity|reflexivity].
Defined.
