(* ===== verification/KvRaft.v ===== *)
(** The key/value service on Raft (kvraft/common.go, applier.go, server.go,
    client.go).

    A handler started for an RPC has a number; its reply object and its channel
    are cells of the server under that number, since the applier writes to them
    through the pointers in startedCmds.  The handler waits for its channel
    between [startOp] and [await_op].  The sync.Map of the server holds values of
    any type: what kv.put stores is a string, what kv.get expects a pointer to a
    Value.  What Raft's Start returned and what it delivers are arguments. *)

From stdpp Require Import sorting.
From S2P Require Import Prelude RaftTypes.

(** * common.go *)

Inductive OpResult : Type := OP_DEFAULT | OP_SUCCESS | OP_FAIL | OP_UNSYNC.
#[export] Instance OpResult_eq_dec : EqDecision OpResult.
Proof. solve_decision. Defined.

Inductive OpArgs : Type :=
  | GetArgs (Key : string)
  | KrPutAppendArgs (Key Value : string).

Record RpcArgs := mkRpcArgs { ra_ClientID : Z; ra_RpcID : Z; ra_OpArgs : OpArgs }.
Record KrReply := mkKrReply { rr_OpRes : OpResult; rr_RpcID : Z; rr_OpReply : option string }.

Inductive Op : Type := GetOp | PutOp (Key Value : string) | AppendOp (Key Value : string).

Record CmdEntry := mkCmdEntry { ce_clientID : Z; ce_rpcID : Z; ce_op : Op }.

(** [ci_handler]: whose channel and reply. *)
Record CmdInfo := mkCmdInfo {
  ci_cmdIndex : Z; ci_clientID : Z; ci_rpcID : Z; ci_handler : nat; ci_args : option RpcArgs }.

(** * server.go: data *)

Record KrSyncInfo := mkKrSyncInfo { lastRpcID : Z; lastValue : string }.

(** What is stored under a key: a plain string or a pointer to a Value. *)
Inductive stored : Type := PlainString (s : string) | ValuePtr (s : string).

Record KrServer := mkKrServer {
  kr_dead : bool;
  syncInfo : gmap Z KrSyncInfo;
  startedCmds : list CmdInfo;
  kr_data : gmap string stored;
  kr_replies : gmap nat KrReply;
  kr_chans : gmap nat (list bool) }.

Definition emptyKrReply : KrReply := mkKrReply OP_DEFAULT 0 None.

Definition StartKrServer : KrServer := mkKrServer false ∅ [] ∅ ∅ ∅.

Definition set_syncInfo x s :=
  mkKrServer (kr_dead s) x (startedCmds s) (kr_data s) (kr_replies s) (kr_chans s).
Definition set_startedCmds x s :=
  mkKrServer (kr_dead s) (syncInfo s) x (kr_data s) (kr_replies s) (kr_chans s).
Definition set_kr_data x s :=
  mkKrServer (kr_dead s) (syncInfo s) (startedCmds s) x (kr_replies s) (kr_chans s).
Definition set_kr_reply h x s :=
  mkKrServer (kr_dead s) (syncInfo s) (startedCmds s) (kr_data s) (<[h := x]> (kr_replies s)) (kr_chans s).
Definition set_kr_chan h x s :=
  mkKrServer (kr_dead s) (syncInfo s) (startedCmds s) (kr_data s) (kr_replies s) (<[h := x]> (kr_chans s)).

Definition reply_of (h : nat) (s : KrServer) : KrReply := default emptyKrReply (kr_replies s !! h).
Definition chan_of (h : nat) (s : KrServer) : list bool := default [] (kr_chans s !! h).

(** * applier.go *)

Definition kr_get (key : string) : M KrServer string :=
  s ← gets (fun s => s);
  match kr_data s !! key with
  | None => mret ""
  | Some (ValuePtr v) => mret v
  | Some (PlainString _) => throw TypeAssertion
  end.

Definition kr_put (key value : string) : M KrServer unit :=
  modify (fun s => set_kr_data (<[key := PlainString value]> (kr_data s)) s).

Definition kr_append (key value : string) : M KrServer string :=
  s ← gets (fun s => s);
  match kr_data s !! key with
  | None => modify (set_kr_data (<[key := PlainString value]> (kr_data s)));; mret ""
  | Some (ValuePtr old) => modify (set_kr_data (<[key := ValuePtr (old +:+ value)]> (kr_data s)));; mret old
  | Some (PlainString _) => throw TypeAssertion
  end.

(** [cmdInfo.ch <- b]: capacity 1. *)
Definition notify (h : nat) (b : bool) : M KrServer unit :=
  chan_send 1 (chan_of h) (set_kr_chan h) b.

Definition set_result (h : nat) (r : OpResult) : M KrServer unit :=
  modify (fun s => let p := reply_of h s in
    set_kr_reply h (mkKrReply r (rr_RpcID p) (rr_OpReply p)) s).
Definition set_value_reply (h : nat) (v : string) : M KrServer unit :=
  modify (fun s => let p := reply_of h s in
    set_kr_reply h (mkKrReply (rr_OpRes p) (rr_RpcID p) (Some v)) s).

(** The type assertion on the command of a message. *)
Definition cmd_entry (m : ApplyMsg CmdEntry) : M KrServer CmdEntry :=
  match Command m with Some e => mret e | None => throw TypeAssertion end.

Definition checkMyStarted (m : ApplyMsg CmdEntry) : M KrServer (option CmdInfo) :=
  s ← gets (fun s => s);
  match startedCmds s with
  | [] => mret None
  | cmdInfo :: rest =>
      cmdEntry ← cmd_entry m;
      assert (ci_cmdIndex cmdInfo >=? am_CommandIndex m);;
      if ci_cmdIndex cmdInfo >? am_CommandIndex m then mret None
      else
        modify (set_startedCmds rest);;
        if (ci_clientID cmdInfo =? ce_clientID cmdEntry) && (ci_rpcID cmdInfo =? ce_rpcID cmdEntry)
        then mret (Some cmdInfo)
        else
          set_result (ci_handler cmdInfo) OP_FAIL;;
          notify (ci_handler cmdInfo) false;;
          mret None
  end.

(** One turn of the applier goroutine; installSnapshot is empty. *)
Definition kr_apply (m : ApplyMsg CmdEntry) : M KrServer unit :=
  if SnapshotValid m then mret tt
  else
    assert (CommandValid m);;
    if am_CommandIndex m =? NOOP_INDEX then mret tt
    else
      cmdEntry ← cmd_entry m;
      cmdInfo ← checkMyStarted m;
      match ce_op cmdEntry with
      | GetOp =>
          match cmdInfo with
          | None => mret tt
          | Some ci =>
              set_result (ci_handler ci) OP_SUCCESS;;
              match ci_args ci with
              | None => throw NilDereference
              | Some args =>
                  match ra_OpArgs args with
                  | KrPutAppendArgs _ _ => throw TypeAssertion
                  | GetArgs key =>
                      v ← kr_get key;
                      set_value_reply (ci_handler ci) v;;
                      notify (ci_handler ci) true
                  end
              end
          end
      | PutOp key value =>
          kr_put key value;;
          match cmdInfo with
          | None => mret tt
          | Some ci => set_result (ci_handler ci) OP_SUCCESS;; notify (ci_handler ci) true
          end
      | AppendOp key value =>
          old ← kr_append key value;
          match cmdInfo with
          | None => mret tt
          | Some ci =>
              set_result (ci_handler ci) OP_SUCCESS;;
              set_value_reply (ci_handler ci) old;;
              notify (ci_handler ci) true
          end
      end.

(** * server.go: handlers *)

Definition checkSync (clientID rpcID : Z) (h : nat) : M KrServer bool :=
  s ← gets (fun s => s);
  match syncInfo s !! clientID with
  | None => modify (set_syncInfo (<[clientID := mkKrSyncInfo 1 ""]> (syncInfo s)));; mret true
  | Some actual =>
      if negb (lastRpcID actual =? rpcID) then
        modify (fun s => set_kr_reply h
          (mkKrReply OP_UNSYNC (lastRpcID actual - 1) (rr_OpReply (reply_of h s))) s);;
        mret false
      else mret true
  end.

(** Up to the wait; [start] is what Raft's Start returned: index, term, ok.
    True when the handler goes on to wait. *)
Definition startOp (args : RpcArgs) (h : nat) (start : Z * Z * bool) : M KrServer bool :=
  ok ← checkSync (ra_ClientID args) (ra_RpcID args) h;
  if negb ok then mret false
  else
    let '(index, _, ok) := start in
    if negb ok then set_result h OP_FAIL;; mret false
    else
      modify (set_kr_chan h []);;
      modify (fun s => set_startedCmds (startedCmds s ++
        [mkCmdInfo index (ra_ClientID args) (ra_RpcID args) h None]) s);;
      mret true.

(** [<- ch], and the return with the reply. *)
Definition await_op (h : nat) : M KrServer KrReply := fun s =>
  match chan_of h s with
  | [] => Blocked s
  | _ :: l => Done (reply_of h s) (set_kr_chan h l s)
  end.

(** The command that Get puts in the log, whatever its arguments. *)
Definition get_command (args : RpcArgs) : CmdEntry := mkCmdEntry (ra_ClientID args) (ra_RpcID args) GetOp.
Definition KrGet (args : RpcArgs) (h : nat) (start : Z * Z * bool) : M KrServer bool := startOp args h start.

(** The Put and Append handlers are empty. *)
Definition KrPut (reply : OpResult) : M KrServer OpResult := mret reply.
Definition KrAppend (reply : OpResult) : M KrServer OpResult := mret reply.

Definition KrKill : M KrServer unit :=
  modify (fun s => mkKrServer true (syncInfo s) (startedCmds s) (kr_data s) (kr_replies s) (kr_chans s)).
Definition kr_killed : M KrServer bool := gets kr_dead.

(** * client.go *)

Record KrClerk := mkKrClerk { kc_id : Z; kc_rpcID : Z }.

(** [ClerkID.Add(1)], a uint32: the clerk and the counter after it. *)
Definition MakeKrClerk (counter : Z) : KrClerk * Z :=
  let id := to_uint32 (counter + 1) in (mkKrClerk id 0, id).

Record GetStateReply := mkGetStateReply { gs_Term : Z; gs_IsLeader : bool }.
(** The RPC passes on what Raft's GetState returns. *)
Definition KrGetState (st : Z * bool) : GetStateReply := mkGetStateReply (fst st) (snd st).

(** The replies of one round that arrive before the timer, in order; the state
    is ldIdx and ldTerm. *)
Definition leader_reply (ld : Z * Z) (r : Z * GetStateReply) : Z * Z :=
  if gs_IsLeader (snd r) && (gs_Term (snd r) >? snd ld) then (fst r, gs_Term (snd r)) else ld.

Fixpoint findLeader (rounds : list (list (Z * GetStateReply))) (ld : Z * Z) : option (Z * Z) :=
  if fst ld <? 0 then
    match rounds with
    | [] => None
    | replies :: rounds => findLeader rounds (foldl leader_reply ld replies)
    end
  else Some ld.

(** The replies that the leaders found give, in order; the accepted arguments
    and the reply, or [None] while none succeeded. *)
Fixpoint clerk_call (args : RpcArgs) (replies : list KrReply) : M KrClerk (option (RpcArgs * KrReply)) :=
  match replies with
  | [] => mret None
  | reply :: replies =>
      match rr_OpRes reply with
      | OP_DEFAULT => throw LogFatal
      | OP_SUCCESS => mret (Some (args, reply))
      | OP_FAIL => clerk_call args replies
      | OP_UNSYNC =>
          modify (fun ck => mkKrClerk (kc_id ck) (rr_RpcID reply + 1));;
          clerk_call (mkRpcArgs (ra_ClientID args) (rr_RpcID reply + 1) (ra_OpArgs args)) replies
      end
  end.

Definition next_rpcID : M KrClerk KrClerk :=
  modify (fun ck => mkKrClerk (kc_id ck) (kc_rpcID ck + 1));; gets (fun ck => ck).

Definition clerk_Get (key : string) (replies : list KrReply) : M KrClerk (option string) :=
  ck ← next_rpcID;
  r ← clerk_call (mkRpcArgs (kc_id ck) (kc_rpcID ck) (GetArgs key)) replies;
  match r with
  | None => mret None
  | Some (_, reply) =>
      match rr_OpReply reply with Some v => mret (Some v) | None => throw TypeAssertion end
  end.

(** Shared by Put and Append; the request goes to KVServer.Get as well. *)
Definition clerk_PutAppend (key value : string) (replies : list KrReply) : M KrClerk (option unit) :=
  ck ← next_rpcID;
  r ← clerk_call (mkRpcArgs (kc_id ck) (kc_rpcID ck) (KrPutAppendArgs key value)) replies;
  mret (match r with Some _ => Some tt | None => None end).

(** The third argument of PutAppend is not used. *)
Definition clerk_Put (key value : string) (replies : list KrReply) : M KrClerk (option unit) :=
  clerk_PutAppend key value replies.
Definition clerk_Append (key value : string) (replies : list KrReply) : M KrClerk (option unit) :=
  clerk_PutAppend key value replies.

(** * The commands started on a server *)

(** After [last] was applied: the commands wait for later indexes, in order,
    each with a handler of its own that was not told anything yet. *)
Record started_inv (last : Z) (s : KrServer) : Prop := {
  st_later : Forall (fun ci => last < ci_cmdIndex ci) (startedCmds s);
  st_order : StronglySorted (fun a b => ci_cmdIndex a < ci_cmdIndex b) (startedCmds s);
  st_handlers : NoDup (ci_handler <$> startedCmds s);
  st_waiting : Forall (fun ci => chan_of (ci_handler ci) s = []) (startedCmds s) }.

Lemma chan_of_set h l s h' : chan_of h' (set_kr_chan h l s) = if decide (h' = h) then l else chan_of h' s.
Proof.
  unfold chan_of. simpl. case_decide as E; [by rewrite E, lookup_insert_eq|by rewrite lookup_insert_ne].
Qed.
Lemma reply_of_set h r s h' : reply_of h' (set_kr_reply h r s) = if decide (h' = h) then r else reply_of h' s.
Proof.
  unfold reply_of. simpl. case_decide as E; [by rewrite E, lookup_insert_eq|by rewrite lookup_insert_ne].
Qed.

Lemma notify_run h b s : chan_of h s = [] -> notify h b s = Done tt (set_kr_chan h [b] s).
Proof. intros E. unfold notify, chan_send. rewrite E. rewrite decide_True by (simpl; lia). done. Qed.

(** Dropping the head of the queue. *)
Lemma started_inv_tail last ci cs s :
  startedCmds s = ci :: cs -> started_inv last s ->
  started_inv (ci_cmdIndex ci) (set_startedCmds cs s) /\ Forall (fun c => ci_handler c <> ci_handler ci) cs.
Proof.
  intros E [H1 H2 H3 H4]. rewrite E in *. apply StronglySorted_inv in H2 as [H2 H2'].
  rewrite fmap_cons in H3. apply NoDup_cons in H3 as [H3 H3']. apply Forall_cons in H4 as [_ H4]. split.
  - by constructor.
  - apply Forall_forall. intros c Hc Eh. apply H3. rewrite <- Eh. by apply list_elem_of_fmap_2.
Qed.

(** What the applier tells the handler of the first command. *)
Inductive verdict : Type := NotYet | Mine (ci : CmdInfo) | Replaced (ci : CmdInfo).

Definition verdict_of (s : KrServer) (index : Z) (e : CmdEntry) : verdict :=
  match startedCmds s with
  | [] => NotYet
  | ci :: _ =>
      if decide (ci_cmdIndex ci = index) then
        if decide (ci_clientID ci = ce_clientID e /\ ci_rpcID ci = ce_rpcID e) then Mine ci else Replaced ci
      else NotYet
  end.

Definition after_verdict (v : verdict) (s : KrServer) : KrServer :=
  match v with
  | NotYet => s
  | Mine _ => set_startedCmds (tail (startedCmds s)) s
  | Replaced ci =>
      let p := reply_of (ci_handler ci) s in
      set_kr_chan (ci_handler ci) [false]
        (set_kr_reply (ci_handler ci) (mkKrReply OP_FAIL (rr_RpcID p) (rr_OpReply p))
          (set_startedCmds (tail (startedCmds s)) s))
  end.

Lemma checkMyStarted_run last s m e :
  started_inv last s -> am_CommandIndex m = last + 1 -> Command m = Some e ->
  checkMyStarted m s =
    Done (match verdict_of s (last + 1) e with Mine ci => Some ci | _ => None end)
         (after_verdict (verdict_of s (last + 1) e) s).
Proof.
  intros Hinv Hi He. unfold checkMyStarted, verdict_of. rewrite bind_gets.
  destruct (startedCmds s) as [|ci cs] eqn:E; [done|]. unfold cmd_entry. rewrite He, bind_ret.
  pose proof (st_later _ _ Hinv) as Hlater. rewrite E in Hlater. apply Forall_cons in Hlater as [Hlater _].
  rewrite Hi. replace (ci_cmdIndex ci >=? last + 1) with true by lia. rewrite bind_assert.
  case_decide as Ei.
  - replace (ci_cmdIndex ci >? last + 1) with false by lia. rewrite bind_modify.
    case_decide as Em.
    + destruct Em as [-> ->]. rewrite !Z.eqb_refl. simpl. by rewrite E.
    + replace ((ci_clientID ci =? ce_clientID e) && (ci_rpcID ci =? ce_rpcID e)) with false by lia.
      unfold set_result. rewrite bind_modify. cbv beta zeta. simpl after_verdict. rewrite E.
      assert (chan_of (ci_handler ci) s = []) as Hch.
      { pose proof (st_waiting _ _ Hinv) as Hw. rewrite E in Hw. by apply Forall_cons in Hw as [? _]. }
      erewrite bind_done; [|by apply notify_run]. done.
  - replace (ci_cmdIndex ci >? last + 1) with true by lia. done.
Qed.

Lemma started_inv_later last s :
  started_inv last s -> (forall ci cs, startedCmds s = ci :: cs -> ci_cmdIndex ci <> last + 1) ->
  started_inv (last + 1) s.
Proof.
  intros [H1 H2 H3 H4] Hne. constructor; try done. destruct (startedCmds s) as [|ci cs]; [done|].
  specialize (Hne _ _ eq_refl). apply Forall_cons in H1 as [H1 _].
  apply StronglySorted_inv in H2 as [_ H2]. constructor; [lia|].
  eapply Forall_impl; [exact H2|]. simpl. lia.
Qed.

Lemma after_verdict_inv last s e :
  started_inv last s -> started_inv (last + 1) (after_verdict (verdict_of s (last + 1) e) s).
Proof.
  intros Hinv. unfold verdict_of. destruct (startedCmds s) as [|ci cs] eqn:E.
  { simpl. apply started_inv_later; [done|]. by rewrite E. }
  destruct (started_inv_tail _ _ _ _ E Hinv) as [Htail Hne].
  case_decide as Ei; [rewrite <- Ei; case_decide as Em|].
  - simpl. by rewrite E.
  - simpl. rewrite E. destruct Htail as [H1 H2 H3 H4]. constructor; try done.
    simpl in *. rewrite Forall_forall in *. intros c Hc. specialize (H4 c Hc). specialize (Hne c Hc).
    rewrite chan_of_set, decide_False by done. exact H4.
  - simpl. apply started_inv_later; [done|]. rewrite E. by intros ? ? [= <- <-].
Qed.

(** * Theorems *)


(** All clients are recorded with request 1, for ever. *)
Definition sync_inv (s : KrServer) : Prop := map_Forall (fun _ i => lastRpcID i = 1) (syncInfo s).

(** The server never moves on from request 1 of a client: after the first
    contact it takes only requests numbered 1, and one with another number is
    answered so that the clerk sends it again as number 1.  So client and
    request number do not tell two operations of a client apart. *)
Theorem rpc_ids_stay_one s args h start known :
  sync_inv s -> syncInfo s !! ra_ClientID args = Some known ->
  exists b s', startOp args h start s = Done b s' /\ sync_inv s' /\ syncInfo s' = syncInfo s /\
    (b = true -> ra_RpcID args = 1) /\
    (ra_RpcID args <> 1 ->
     rr_OpRes (reply_of h s') = OP_UNSYNC /\
     forall replies ck, clerk_call args (reply_of h s' :: replies) ck =
       clerk_call (mkRpcArgs (ra_ClientID args) 1 (ra_OpArgs args)) replies (mkKrClerk (kc_id ck) 1)).
Proof.
  intros Hs Hk. pose proof (Hs _ _ Hk) as H1. simpl in H1.
  unfold startOp, checkSync. destruct (Z.eqb_spec (lastRpcID known) (ra_RpcID args)) as [E|E].
  - destruct start as [[index term] [|]]; eexists _, _; (split;
      [unfold mbind, M_bind, gets; simpl; rewrite Hk; simpl; rewrite (proj2 (Z.eqb_eq _ _) E); reflexivity|]);
      simpl; (split; [exact Hs|]); (split; [done|]); (split; [lia|]); lia.
  - eexists _, _. split.
    { unfold mbind, M_bind, gets. simpl. rewrite Hk. simpl. rewrite (proj2 (Z.eqb_neq _ _) E). reflexivity. }
    simpl. split; [exact Hs|]. split; [done|]. split; [done|]. intros _.
    unfold reply_of at 1. simpl. rewrite lookup_insert_eq. split; [done|]. intros replies ck.
    unfold reply_of. simpl. rewrite lookup_insert_eq. simpl. rewrite H1. done.
Qed.

(** A Get that is accepted brings its server down: when its command is
    applied, the applier reads the arguments through a pointer that startOp
    never sets. *)
Theorem clerk_get_crashes_server s args h index term m :
  startedCmds s = [] -> syncInfo s !! ra_ClientID args = None -> index <> NOOP_INDEX ->
  SnapshotValid m = false -> CommandValid m = true -> am_CommandIndex m = index ->
  Command m = Some (get_command args) ->
  exists s1 s2, KrGet args h (index, term, true) s = Done true s1 /\
    kr_apply m s1 = Panicked NilDereference s2.
Proof.
  intros Hst Hsync Hi Hm1 Hm2 Hm3 Hm4. eexists _, _. split.
  { unfold KrGet, startOp, checkSync, mbind, M_bind, gets. simpl. rewrite Hsync. reflexivity. }
  unfold kr_apply. rewrite Hm1, Hm2, bind_assert, Hm3.
  rewrite (proj2 (Z.eqb_neq _ _) Hi). unfold cmd_entry. rewrite Hm4, bind_ret.
  unfold checkMyStarted, mbind, M_bind, gets. simpl. rewrite Hst. simpl.
  unfold cmd_entry. rewrite Hm4, Hm3. simpl.
  replace (index >=? index) with true by lia. replace (index >? index) with false by lia.
  simpl. rewrite !Z.eqb_refl. simpl. reflexivity.
Qed.

Lemma findLeader_fold ld replies :
  0 <= snd ld ->
  snd ld <= snd (foldl leader_reply ld replies) /\
  Forall (fun r => gs_IsLeader (snd r) = true -> gs_Term (snd r) <= snd (foldl leader_reply ld replies)) replies /\
  (foldl leader_reply ld replies = ld \/
   exists r, r ∈ replies /\ gs_IsLeader (snd r) = true /\
     foldl leader_reply ld replies = (fst r, gs_Term (snd r))).
Proof.
  revert ld. induction replies as [|r replies IH]; intros ld Hld; simpl; [split_and!; [lia|done|by left]|].
  assert (snd ld <= snd (leader_reply ld r) /\
    (gs_IsLeader (snd r) = true -> gs_Term (snd r) <= snd (leader_reply ld r)) /\
    (leader_reply ld r = ld \/ (gs_IsLeader (snd r) = true /\ leader_reply ld r = (fst r, gs_Term (snd r)))))
    as (H1 & H2 & H3).
  { unfold leader_reply. destruct (gs_IsLeader r.2), (Z.gtb_spec (gs_Term r.2) ld.2); simpl; split_and!;
      try lia; try done; auto. }
  destruct (IH (leader_reply ld r)) as (I1 & I2 & I3); [lia|]. split_and!; [lia| |].
  - constructor; [|done]. intros Hl. specialize (H2 Hl). lia.
  - destruct I3 as [I3|(r' & Hr' & Hl & I3)]; [rewrite I3; destruct H3 as [->|[Hl ->]]; [by left|]|].
    + right. exists r. split; [by left|done].
    + right. exists r'. split; [by right|done].
Qed.

(** findLeader returns once a round brings a server that says it leads in a
    positive term, and the server it returns says so and has the highest term of
    the servers that said so in that round. *)
Theorem findLeader_highest rounds replies :
  Forall (Forall (fun r => gs_IsLeader (snd r) = false)) rounds ->
  Forall (fun r => 0 <= fst r) replies ->
  (exists r, r ∈ replies /\ gs_IsLeader (snd r) = true /\ 0 < gs_Term (snd r)) ->
  exists i t, findLeader (rounds ++ [replies]) (-1, 0) = Some (i, t) /\
    (i, mkGetStateReply t true) ∈ replies /\
    Forall (fun r => gs_IsLeader (snd r) = true -> gs_Term (snd r) <= t) replies.
Proof.
  intros Hr Hids (r0 & Hr0 & Hl0 & Ht0). induction Hr as [|replies' rounds Hrep _ IH].
  - destruct (findLeader_fold (-1, 0) replies) as (H1 & H2 & H3); [done|].
    destruct H3 as [E|(r & Hin & Hl & E)].
    + rewrite E in H2. rewrite Forall_forall in H2. specialize (H2 _ Hr0 Hl0). simpl in H2. lia.
    + exists (fst r), (gs_Term (snd r)). simpl. rewrite E. rewrite Forall_forall in Hids.
      specialize (Hids r Hin). simpl. replace (fst r <? 0) with false by lia. split; [done|].
      rewrite E in H2. split; [|done]. destruct r as [i [t l]]. simpl in *. by subst l.
  - simpl. assert (foldl leader_reply (-1, 0) replies' = (-1, 0)) as ->; [|exact IH].
    clear -Hrep. induction Hrep as [|r l Hl _ IH]; [done|]. simpl. unfold leader_reply at 2.
    by rewrite Hl.
Qed.

(** * Instances *)

Definition put_message (index : Z) (e : CmdEntry) : ApplyMsg CmdEntry :=
  mkApplyMsg true (Some e) index false [] 0 0.

(** Client 1 waits for index 4 and client 2 for index 6. *)
Definition two_waiting : KrServer :=
  set_startedCmds [mkCmdInfo 4 1 1 0 None; mkCmdInfo 6 2 1 1 None] StartKrServer.

Lemma two_waiting_inv : started_inv 3 two_waiting.
Proof.
  constructor; [repeat constructor|repeat constructor| |repeat constructor].
  apply NoDup_cons. split; [by intros ?%list_elem_of_singleton|apply NoDup_singleton].
Qed.


(** Client 7 was here before. *)
Definition known_client : KrServer := set_syncInfo {[7 := mkKrSyncInfo 1 ""]} StartKrServer.

Lemma rpc_ids_stay_one_witness :
  exists s', startOp (mkRpcArgs 7 2 (GetArgs "k")) 0 (5, 1, true) known_client = Done false s' /\
    rr_OpRes (reply_of 0 s') = OP_UNSYNC.
Proof.
  destruct (rpc_ids_stay_one known_client (mkRpcArgs 7 2 (GetArgs "k")) 0 (5, 1, true) (mkKrSyncInfo 1 ""))
    as (b & s' & E & _ & _ & Hb & Hu).
  - unfold sync_inv. simpl. apply map_Forall_singleton. reflexivity.
  - reflexivity.
  - simpl in *. exists s'. destruct b; [specialize (Hb eq_refl); discriminate Hb|].
    split; [exact E|]. apply Hu. discriminate.
Defined.

Lemma clerk_get_crashes_server_witness :
  exists s1 s2, KrGet (mkRpcArgs 7 1 (GetArgs "k")) 0 (1, 1, true) StartKrServer = Done true s1 /\
    kr_apply (put_message 1 (mkCmdEntry 7 1 GetOp)) s1 = Panicked NilDereference s2.
Proof.
  apply (clerk_get_crashes_server StartKrServer (mkRpcArgs 7 1 (GetArgs "k")) 0 1 1
    (put_message 1 (mkCmdEntry 7 1 GetOp))); try reflexivity. discriminate.
Defined.

Lemma findLeader_highest_witness :
  exists i t, findLeader [[(1, mkGetStateReply 2 false)];
                          [(0, mkGetStateReply 2 true); (2, mkGetStateReply 3 true)]] (-1, 0) = Some (i, t) /\
    Forall (fun r => gs_IsLeader (snd r) = true -> gs_Term (snd r) <= t)
      [(0, mkGetStateReply 2 true); (2, mkGetStateReply 3 true)].
Proof.
  destruct (findLeader_highest [[(1, mkGetStateReply 2 false)]]
    [(0, mkGetStateReply 2 true); (2, mkGetStateReply 3 true)]) as (i & t & E & _ & H).
  - repeat constructor.
  - repeat constructor; simpl; lia.
  - exists (0, mkGetStateReply 2 true). split; [left|]. split; [reflexivity|]. simpl. lia.
  - exists i, t. split; [exact E|exact H].
Defined.
