(* ===== verification/MrCoordinator.v ===== *)
(** The MapReduce coordinator (mr/coordinator.go, task.go, cworker.go, rpc.go).

    A handler holds the lock of the worker it serves from start to end, and
    the task container and the stage have locks of their own that are held
    around each access, so a handler is one step here; [expire] is the timer of
    a worker that was not heard of in time.  Worker identifiers, reduce
    identifiers and the two counters are uint16. *)

From S2P Require Import Prelude.

(** * Data *)

Inductive StageEnum : Type := MAPPING | MAP_WAITING | REDUCING | REDUCE_WAITING | DONE.
#[export] Instance StageEnum_eq_dec : EqDecision StageEnum.
Proof. solve_decision. Defined.

Inductive TaskEnum : Type := MAP_TASK | REDUCE_TASK.
#[export] Instance TaskEnum_eq_dec : EqDecision TaskEnum.
Proof. solve_decision. Defined.

Inductive TaskStatus : Type := TASK_TODO | TASK_PROCESSING | TASK_DONE.
#[export] Instance TaskStatus_eq_dec : EqDecision TaskStatus.
Proof. solve_decision. Defined.

Inductive Task : Type :=
  | MapTask (file : string) (status : TaskStatus)
  | ReduceTask (reduceID : Z) (status : TaskStatus).
#[export] Instance Task_eq_dec : EqDecision Task.
Proof. solve_decision. Defined.

Definition Type_ (t : Task) : TaskEnum :=
  match t with MapTask _ _ => MAP_TASK | ReduceTask _ _ => REDUCE_TASK end.
Definition Status (t : Task) : TaskStatus :=
  match t with MapTask _ st | ReduceTask _ st => st end.
Definition SetStatus (st : TaskStatus) (t : Task) : Task :=
  match t with MapTask f _ => MapTask f st | ReduceTask i _ => ReduceTask i st end.

Inductive RpcReply : Type :=
  | WorkerInfo (WorkerID R : Z)
  | MapTaskRpc (File : string)
  | ReduceTaskRpc (ReduceID : Z)
  | NoMoreTaskRpc
  | NoopTaskRpc
  | OkReply
  | InvalidWorker.

(** [workers] maps a worker to the task it carries. *)
Record Coordinator := mkCoordinator {
  files : list string;
  unfinishedMappingCount : Z;
  workingStage : StageEnum;
  tasks : list Task;
  nReduce : Z;
  unfinishedReducingCount : Z;
  workerIDAcc : Z;
  workers : gmap Z (option Task) }.

Definition set_mapping (n : Z) (c : Coordinator) : Coordinator :=
  mkCoordinator (files c) n (workingStage c) (tasks c) (nReduce c) (unfinishedReducingCount c)
    (workerIDAcc c) (workers c).
Definition set_stage (st : StageEnum) (c : Coordinator) : Coordinator :=
  mkCoordinator (files c) (unfinishedMappingCount c) st (tasks c) (nReduce c)
    (unfinishedReducingCount c) (workerIDAcc c) (workers c).
Definition set_tasks (ts : list Task) (c : Coordinator) : Coordinator :=
  mkCoordinator (files c) (unfinishedMappingCount c) (workingStage c) ts (nReduce c)
    (unfinishedReducingCount c) (workerIDAcc c) (workers c).
Definition set_reducing (n : Z) (c : Coordinator) : Coordinator :=
  mkCoordinator (files c) (unfinishedMappingCount c) (workingStage c) (tasks c) (nReduce c) n
    (workerIDAcc c) (workers c).
Definition set_idacc (n : Z) (c : Coordinator) : Coordinator :=
  mkCoordinator (files c) (unfinishedMappingCount c) (workingStage c) (tasks c) (nReduce c)
    (unfinishedReducingCount c) n (workers c).
Definition set_workers (w : gmap Z (option Task)) (c : Coordinator) : Coordinator :=
  mkCoordinator (files c) (unfinishedMappingCount c) (workingStage c) (tasks c) (nReduce c)
    (unfinishedReducingCount c) (workerIDAcc c) w.

(** * task.go: the task container *)

Definition AddTask (t : Task) : M Coordinator unit := modify (fun c => set_tasks (tasks c ++ [t]) c).

Definition TakeTask : M Coordinator (option Task) :=
  c ← gets (fun c => c);
  match tasks c with
  | [] => mret None
  | t :: ts => modify (set_tasks ts);; mret (Some t)
  end.

Definition releaseMapTasks (fs : list string) : M Coordinator unit :=
  for_each fs (fun f => AddTask (MapTask f TASK_TODO)).

Definition releaseReduceTasks (n : Z) : M Coordinator unit :=
  for_each (seqZ 0 n) (fun i => AddTask (ReduceTask i TASK_TODO)).

Definition taskToRpc (t : Task) : RpcReply :=
  match t with MapTask f _ => MapTaskRpc f | ReduceTask i _ => ReduceTaskRpc i end.

(** The container of a task is the coordinator's one. *)
Definition releaseTask (t : Task) : M Coordinator unit := AddTask t.

(** * cworker.go: the workers *)

Definition addWorker (id : Z) : M Coordinator unit :=
  modify (fun c => set_workers (<[id := None]> (workers c)) c).

Definition release (task : option Task) : M Coordinator unit :=
  match task with Some t => releaseTask t | None => mret tt end.

Definition removeWorker (id : Z) : M Coordinator unit :=
  c ← gets (fun c => c);
  match workers c !! id with
  | None => mret tt
  | Some task => release task;; modify (fun c => set_workers (delete id (workers c)) c)
  end.

Definition hasWorker (id : Z) : M Coordinator bool :=
  gets (fun c => bool_decide (is_Some (workers c !! id))).

(** The worker's task; [None] when there is no such worker.  The timer is
    reset, so the worker does not expire soon. *)
Definition getLockedWorker (id : Z) : M Coordinator (option (option Task)) :=
  gets (fun c => workers c !! id).

Definition tickWorker (id : Z) : M Coordinator bool := hasWorker id.

Definition set_worker_task (id : Z) (t : option Task) : M Coordinator unit :=
  modify (fun c => set_workers (<[id := t]> (workers c)) c).

(** * coordinator.go: the handlers *)

Definition RegisterWorker : M Coordinator RpcReply :=
  modify (fun c => set_idacc (to_uint32 (workerIDAcc c + 1)) c);;
  c ← gets (fun c => c);
  let newWorkerID := to_uint16 (workerIDAcc c) in
  addWorker newWorkerID;;
  mret (WorkerInfo newWorkerID (nReduce c)).

Definition GetTask (id : Z) : M Coordinator RpcReply :=
  st ← gets workingStage;
  if bool_decide (st = DONE) then mret NoMoreTaskRpc else
  cworker ← getLockedWorker id;
  match cworker with
  | None => mret InvalidWorker
  | Some (Some _) => throw ExplicitPanic
  | Some None =>
      newTask ← TakeTask;
      match newTask with
      | None => mret NoopTaskRpc
      | Some t => set_worker_task id (Some t);; mret (taskToRpc t)
      end
  end.

Definition in_stage (a b : StageEnum) (st : StageEnum) : bool :=
  bool_decide (st = a) || bool_decide (st = b).

Definition FinishTask (id : Z) : M Coordinator RpcReply :=
  cworker ← getLockedWorker id;
  match cworker with
  | None => mret InvalidWorker
  | Some None => throw ExplicitPanic
  | Some (Some t) =>
      st ← gets workingStage;
      match Type_ t with
      | MAP_TASK =>
          if negb (in_stage MAPPING MAP_WAITING st) then throw ExplicitPanic else
          modify (fun c => set_mapping (to_uint16 (unfinishedMappingCount c - 1)) c);;
          c ← gets (fun c => c);
          when (unfinishedMappingCount c =? 0)
            (releaseReduceTasks (nReduce c);; modify (set_stage REDUCING))
      | REDUCE_TASK =>
          if negb (in_stage REDUCING REDUCE_WAITING st) then throw ExplicitPanic else
          modify (fun c => set_reducing (to_uint16 (unfinishedReducingCount c - 1)) c);;
          c ← gets (fun c => c);
          when (unfinishedReducingCount c =? 0) (modify (set_stage DONE))
      end;;
      set_worker_task id None;;
      mret OkReply
  end.

Definition HeartBeat (id : Z) : M Coordinator RpcReply :=
  ok ← tickWorker id;
  mret (if (ok : bool) then OkReply else InvalidWorker).

(** The timer of worker [id] fires. *)
Definition expire (id : Z) : M Coordinator unit := removeWorker id.

Definition Done_ : M Coordinator bool := gets (fun c => bool_decide (workingStage c = DONE)).

Definition MakeCoordinator (fs : list string) (n : Z) : Coordinator :=
  let c := mkCoordinator fs (to_uint16 (lenZ fs)) MAPPING [] (to_uint16 n) (to_uint16 n) 0 ∅ in
  match releaseMapTasks fs c with Done _ c' => c' | Panicked _ c' => c' | Blocked c' => c' end.

(** * Tasks are conserved *)

(** The tasks that workers carry, and all that are not finished. *)
Definition held (w : gmap Z (option Task)) : list Task := omap (fun p => snd p) (map_to_list w).
Definition remaining (c : Coordinator) : list Task := tasks c ++ held (workers c).

Definition map_tasks (fs : list string) : list Task := (fun f => MapTask f TASK_TODO) <$> fs.
Definition reduce_tasks (n : Z) : list Task := (fun i => ReduceTask i TASK_TODO) <$> seqZ 0 n.

Lemma held_insert w id o : held (<[id := o]> w) ≡ₚ option_list o ++ held (delete id w).
Proof.
  unfold held. rewrite <- insert_delete_eq.
  rewrite map_to_list_insert by apply lookup_delete_eq. simpl. by destruct o.
Qed.

Lemma held_delete w id o : w !! id = Some o -> held w ≡ₚ option_list o ++ held (delete id w).
Proof. intros E. rewrite <- held_insert. by rewrite insert_id. Qed.

Lemma held_fresh w id : w !! id = None -> held (delete id w) = held w.
Proof. intros E. by rewrite delete_id. Qed.

Lemma addTasks_run {A} (f : A -> Task) l c :
  for_each l (fun x => AddTask (f x)) c = Done tt (set_tasks (tasks c ++ (f <$> l)) c).
Proof.
  revert c. induction l as [|x l IH]; intros c.
  - simpl. rewrite app_nil_r. by destruct c.
  - cbn [for_each]. rewrite (bind_done (AddTask (f x)) _ c tt _ eq_refl), IH. simpl. by rewrite <- app_assoc.
Qed.

Lemma releaseReduceTasks_run n c :
  releaseReduceTasks n c = Done tt (set_tasks (tasks c ++ reduce_tasks n) c).
Proof. apply addTasks_run. Qed.

(** ** The job, and the steps of the system *)

(** The coordinator and the tasks finished so far. *)
Record mr_world := MW { coord : Coordinator; finished : list Task }.

(** A worker identifier is used once while fewer than 2^16 workers registered. *)
Inductive mr_step : mr_world -> mr_world -> Prop :=
  | mr_register r c c' fin :
      workerIDAcc c + 1 < 2^16 -> RegisterWorker c = Done r c' -> mr_step (MW c fin) (MW c' fin)
  | mr_get id r c c' fin : GetTask id c = Done r c' -> mr_step (MW c fin) (MW c' fin)
  | mr_finish id t c c' fin :
      workers c !! id = Some (Some t) -> FinishTask id c = Done OkReply c' ->
      mr_step (MW c fin) (MW c' (fin ++ [t]))
  | mr_finish_invalid id c c' fin :
      FinishTask id c = Done InvalidWorker c' -> mr_step (MW c fin) (MW c' fin)
  | mr_heartbeat id r c c' fin : HeartBeat id c = Done r c' -> mr_step (MW c fin) (MW c' fin)
  | mr_expire id u c c' fin : expire id c = Done u c' -> mr_step (MW c fin) (MW c' fin).

(** What is finished and what remains, stage by stage. *)
Definition accounts (fs : list string) (n : Z) (c : Coordinator) (fin : list Task) : Prop :=
  match workingStage c with
  | MAPPING =>
      fin ++ remaining c ≡ₚ map_tasks fs /\ unfinishedMappingCount c = lenZ (remaining c) /\
      remaining c <> [] /\ unfinishedReducingCount c = n
  | REDUCING =>
      fin ++ remaining c ≡ₚ map_tasks fs ++ reduce_tasks n /\
      Forall (fun t => Type_ t = REDUCE_TASK) (remaining c) /\
      unfinishedReducingCount c = lenZ (remaining c) /\ remaining c <> []
  | DONE => fin ≡ₚ map_tasks fs ++ reduce_tasks n /\ remaining c = []
  | _ => False
  end.

Record mr_inv (fs : list string) (n : Z) (w : mr_world) : Prop := {
  mr_nReduce : nReduce (coord w) = n;
  mr_acc : 0 <= workerIDAcc (coord w) < 2^16;
  mr_ids : forall id, is_Some (workers (coord w) !! id) -> id <= workerIDAcc (coord w);
  mr_accounts : accounts fs n (coord w) (finished w) }.

Lemma accounts_perm fs n c c' fin :
  workingStage c' = workingStage c -> unfinishedMappingCount c' = unfinishedMappingCount c ->
  unfinishedReducingCount c' = unfinishedReducingCount c -> remaining c' ≡ₚ remaining c ->
  accounts fs n c fin -> accounts fs n c' fin.
Proof.
  unfold accounts. intros -> -> -> Hp.
  assert (remaining c = [] <-> remaining c' = []) as He.
  { split; intros E; rewrite E in Hp.
    - by apply Permutation_nil_r in Hp. 
    - by apply Permutation_nil_l in Hp. }
  assert (lenZ (remaining c') = lenZ (remaining c)) as Hl by (by rewrite Hp).
  destruct (workingStage c); try done.
  - intros (H1 & H2 & H3 & H4). split; [by rewrite Hp|]. rewrite Hl, <- He. done.
  - intros (H1 & H2 & H3 & H4). split; [by rewrite Hp|]. split; [by rewrite Hp|]. rewrite Hl, <- He. done.
  - by rewrite He.
Qed.

(** Carrying out or giving back a task. *)
Lemma remaining_insert c id o o' :
  workers c !! id = Some o ->
  option_list o ++ remaining (set_workers (<[id := o']> (workers c)) c)
  ≡ₚ option_list o' ++ remaining c.
Proof.
  intros E. unfold remaining. simpl. rewrite held_insert, (held_delete _ _ _ E).
  etrans; [apply Permutation_app_swap_app|]. etrans; [|apply Permutation_app_swap_app].
  apply Permutation_app_head, Permutation_app_swap_app.
Qed.

Lemma mr_inv_keep fs n c c' fin :
  mr_inv fs n (MW c fin) ->
  nReduce c' = nReduce c -> workerIDAcc c' = workerIDAcc c ->
  (forall id, is_Some (workers c' !! id) -> is_Some (workers c !! id)) ->
  workingStage c' = workingStage c -> unfinishedMappingCount c' = unfinishedMappingCount c ->
  unfinishedReducingCount c' = unfinishedReducingCount c -> remaining c' ≡ₚ remaining c ->
  mr_inv fs n (MW c' fin).
Proof.
  intros [H1 H2 H3 H4] E1 E2 Hw Es Em Er Hp. simpl in *. constructor; simpl.
  - congruence.
  - by rewrite E2.
  - intros id Hid. rewrite E2. auto.
  - by eapply accounts_perm.
Qed.

Lemma insert_known c id o o' :
  workers c !! id = Some o ->
  forall j, is_Some (workers (set_workers (<[id := o']> (workers c)) c) !! j) -> is_Some (workers c !! j).
Proof.
  intros E j. simpl. destruct (decide (j = id)) as [->|]; [rewrite E; by eexists|].
  by rewrite lookup_insert_ne.
Qed.

Lemma register_inv fs n r c c' fin :
  mr_inv fs n (MW c fin) -> workerIDAcc c + 1 < 2^16 -> RegisterWorker c = Done r c' ->
  mr_inv fs n (MW c' fin).
Proof.
  intros [H1 H2 H3 H4] Hb E. simpl in *. unfold RegisterWorker in E.
  rewrite bind_modify, bind_gets in E. cbn [workerIDAcc set_idacc] in E.
  rewrite to_uint32_small, to_uint16_small in E by lia. unfold addWorker in E.
  rewrite bind_modify in E. injection E as _ <-. simpl.
  assert (workers c !! (workerIDAcc c + 1) = None) as Hf.
  { apply eq_None_not_Some. intros H%H3. lia. }
  constructor; simpl; [done|lia| |].
  - intros id. destruct (decide (id = workerIDAcc c + 1)) as [->|]; [lia|].
    rewrite lookup_insert_ne by done. intros H%H3. lia.
  - eapply accounts_perm; [..|exact H4]; try done.
    unfold remaining. simpl. by rewrite held_insert, held_fresh.
Qed.

(** GetTask, on every branch. *)
Definition get_effect (id : Z) (c : Coordinator) : outcome Coordinator RpcReply :=
  if bool_decide (workingStage c = DONE) then Done NoMoreTaskRpc c else
  match workers c !! id with
  | None => Done InvalidWorker c
  | Some (Some _) => Panicked ExplicitPanic c
  | Some None =>
      match tasks c with
      | [] => Done NoopTaskRpc c
      | t :: ts => Done (taskToRpc t) (set_workers (<[id := Some t]> (workers c)) (set_tasks ts c))
      end
  end.

Lemma GetTask_run id c : GetTask id c = get_effect id c.
Proof.
  unfold GetTask, get_effect, getLockedWorker, TakeTask. rewrite bind_gets.
  case_bool_decide; [done|]. rewrite bind_gets. destruct (workers c !! id) as [[t|]|]; [done| |done].
  unfold mbind at 1, M_bind at 1. rewrite bind_gets. by destruct (tasks c).
Qed.

Lemma get_inv fs n id r c c' fin :
  mr_inv fs n (MW c fin) -> GetTask id c = Done r c' -> mr_inv fs n (MW c' fin).
Proof.
  intros Hi. rewrite GetTask_run. unfold get_effect. case_bool_decide; [by intros [= _ <-]|].
  destruct (workers c !! id) as [[t|]|] eqn:Ew; [done| |by intros [= _ <-]].
  destruct (tasks c) as [|t ts] eqn:Et; [by intros [= _ <-]|]. intros [= _ <-].
  apply (mr_inv_keep _ _ _ _ _ Hi); try done.
  - apply (insert_known c id None (Some t) Ew).
  - unfold remaining. simpl. rewrite held_insert, (held_delete _ _ _ Ew), Et. simpl.
    by rewrite <- Permutation_middle.
Qed.

Lemma expire_inv fs n id u c c' fin :
  mr_inv fs n (MW c fin) -> expire id c = Done u c' -> mr_inv fs n (MW c' fin).
Proof.
  intros Hi E. unfold expire, removeWorker in E. rewrite bind_gets in E.
  destruct (workers c !! id) as [o|] eqn:Ew; [|by injection E as _ <-].
  assert (c' = set_workers (delete id (workers c)) (set_tasks (tasks c ++ option_list o) c)) as ->.
  { destruct o; simpl in E; [by injection E as _ <-|].
    injection E as _ <-. destruct c; simpl. by rewrite app_nil_r. }
  apply (mr_inv_keep _ _ _ _ _ Hi); try done.
  - intros j. simpl. destruct (decide (j = id)) as [->|]; [rewrite Ew; by eexists|].
    by rewrite lookup_delete_ne.
  - unfold remaining. simpl. by rewrite (held_delete _ _ _ Ew), app_assoc.
Qed.

(** What FinishTask does to the coordinator when the stage fits the task. *)
Definition finish_effect (t : Task) (c : Coordinator) : Coordinator :=
  match Type_ t with
  | MAP_TASK =>
      let c1 := set_mapping (to_uint16 (unfinishedMappingCount c - 1)) c in
      if unfinishedMappingCount c1 =? 0
      then set_stage REDUCING (set_tasks (tasks c ++ reduce_tasks (nReduce c)) c1) else c1
  | REDUCE_TASK =>
      let c1 := set_reducing (to_uint16 (unfinishedReducingCount c - 1)) c in
      if unfinishedReducingCount c1 =? 0 then set_stage DONE c1 else c1
  end.

Definition stage_fits (t : Task) (st : StageEnum) : bool :=
  match Type_ t with
  | MAP_TASK => in_stage MAPPING MAP_WAITING st
  | REDUCE_TASK => in_stage REDUCING REDUCE_WAITING st
  end.

Lemma FinishTask_run id t c :
  workers c !! id = Some (Some t) ->
  FinishTask id c =
  if stage_fits t (workingStage c)
  then Done OkReply (set_workers (<[id := None]> (workers c)) (finish_effect t c))
  else Panicked ExplicitPanic c.
Proof.
  intros Ew. unfold FinishTask, getLockedWorker, stage_fits, finish_effect. rewrite bind_gets, Ew, bind_gets.
  unfold mbind at 1, M_bind at 1. destruct (Type_ t).
  - destruct (in_stage _ _ _); [|done]. cbn [negb]. rewrite bind_modify, bind_gets.
    cbn [unfinishedMappingCount set_mapping]. destruct (_ =? 0); [|done]. cbn [when].
    by rewrite (bind_done _ _ _ _ _ (releaseReduceTasks_run _ _)).
  - destruct (in_stage _ _ _); [|done]. cbn [negb]. rewrite bind_modify, bind_gets.
    cbn [unfinishedReducingCount set_reducing]. by destruct (_ =? 0).
Qed.

Section job.
Context (fs : list string) (n : Z).
Context (Hfs : 0 < lenZ fs < 2^16) (Hn : 0 < n < 2^16).

Lemma carried_remaining c id t : workers c !! id = Some (Some t) -> t ∈ remaining c.
Proof.
  intros E. unfold remaining. rewrite elem_of_app. right.
  rewrite (held_delete _ _ _ E). by left.
Qed.

Lemma map_task_type t : t ∈ map_tasks fs -> Type_ t = MAP_TASK.
Proof. unfold map_tasks. by intros (f & -> & _)%list_elem_of_fmap. Qed.

Lemma reduce_tasks_type : Forall (fun t => Type_ t = REDUCE_TASK) (reduce_tasks n).
Proof. apply Forall_forall. unfold reduce_tasks. by intros t (i & -> & _)%list_elem_of_fmap. Qed.

Lemma reduce_tasks_length : lenZ (reduce_tasks n) = n.
Proof. unfold reduce_tasks. rewrite length_fmap, length_seqZ. lia. Qed.

(** A carried task always fits the stage. *)
Lemma carried_fits c fin id t :
  mr_inv fs n (MW c fin) -> workers c !! id = Some (Some t) -> stage_fits t (workingStage c) = true.
Proof.
  intros [_ _ _ H4] E. simpl in *. pose proof (carried_remaining _ _ _ E) as Hin.
  unfold accounts, stage_fits in *. destruct (workingStage c); try done.
  - destruct H4 as (Hp & _). rewrite (map_task_type t); [done|].
    rewrite <- Hp. apply elem_of_app. by right.
  - destruct H4 as (_ & Hall & _). rewrite Forall_forall in Hall. by rewrite (Hall t Hin).
  - destruct H4 as [_ Hnil]. rewrite Hnil in Hin. by apply elem_of_nil in Hin.
Qed.

Lemma one_less (l l' : list Task) (t : Task) :
  t :: l' ≡ₚ l -> lenZ l = 1 + lenZ l' /\ (l' = [] <-> lenZ l = 1).
Proof.
  intros H%Permutation_length. simpl in H. split; [lia|]. split; [by intros ->; simpl in *; lia|].
  intros E. apply nil_length_inv. lia.
Qed.

Lemma moved (fin l l' rest : list Task) (t : Task) :
  t :: l' ≡ₚ l -> fin ++ l ≡ₚ rest -> (fin ++ [t]) ++ l' ≡ₚ rest.
Proof. intros H1 H2. rewrite <- app_assoc. simpl. by rewrite H1. Qed.

Lemma finish_map_accounts c fin t w' :
  workingStage c = MAPPING -> Type_ t = MAP_TASK -> nReduce c = n ->
  t :: remaining (set_workers w' c) ≡ₚ remaining c -> accounts fs n c fin ->
  accounts fs n (set_workers w' (finish_effect t c)) (fin ++ [t]).
Proof.
  intros Es Et Hr Hrem H. unfold accounts in H. rewrite Es in H. destruct H as (Hp & Hc & Hne & Hred).
  destruct (one_less _ _ _ Hrem) as [Hlen Hnil]. pose proof (moved _ _ _ _ _ Hrem Hp) as Hm.
  assert (lenZ (remaining c) <= lenZ fs) as Hle.
  { pose proof (Permutation_length Hp) as Hl. unfold map_tasks in Hl.
    rewrite length_app, length_fmap in Hl. lia. }
  unfold finish_effect. rewrite Et. cbn [unfinishedMappingCount set_mapping].
  rewrite Hc, to_uint16_small by lia. destruct (lenZ (remaining c) - 1 =? 0) eqn:E0.
  - assert (remaining (set_workers w' c) = []) as Hnil' by (apply Hnil; lia).
    rewrite Hnil', app_nil_r in Hm. unfold remaining in Hnil'. simpl in Hnil'.
    apply app_eq_nil in Hnil' as [Ht Hh].
    unfold accounts, remaining. simpl. rewrite Ht, Hh, Hr, app_nil_r. simpl.
    split; [by rewrite Hm|]. split; [apply reduce_tasks_type|].
    rewrite reduce_tasks_length. split; [done|].
    intros E%(f_equal (fun l => lenZ l)). rewrite reduce_tasks_length in E. simpl in E. lia.
  - unfold accounts. simpl. rewrite Es. split; [exact Hm|].
    change (remaining (set_workers w' (set_mapping (lenZ (remaining c) - 1) c)))
      with (remaining (set_workers w' c)).
    split; [lia|]. split; [|done]. intros E. apply Hnil in E. lia.
Qed.

Abbreviation is_reduce := (fun t => bool_decide (Type_ t = REDUCE_TASK)).

Lemma count_reduce l : Forall (fun t => Type_ t = REDUCE_TASK) l -> count_if is_reduce l = lenZ l.
Proof. induction 1 as [|x l Hx _ IH]; [done|]. rewrite count_if_cons, Hx, IH. simpl. lia. Qed.

Lemma count_map fs' : count_if is_reduce (map_tasks fs') = 0.
Proof. induction fs' as [|f fs' IH]; [done|]. simpl. by rewrite count_if_cons, IH. Qed.

(** At most [n] reduce tasks remain. *)
Lemma reducing_bound fin l :
  fin ++ l ≡ₚ map_tasks fs ++ reduce_tasks n -> Forall (fun t => Type_ t = REDUCE_TASK) l -> lenZ l <= n.
Proof.
  intros Hp Hall. apply (count_if_Permutation is_reduce) in Hp.
  rewrite !count_if_app, count_map, (count_reduce l Hall), (count_reduce _ reduce_tasks_type) in Hp.
  rewrite reduce_tasks_length in Hp. pose proof (count_if_bounds is_reduce fin). lia.
Qed.

Lemma finish_reduce_accounts c fin t w' :
  workingStage c = REDUCING -> Type_ t = REDUCE_TASK ->
  t :: remaining (set_workers w' c) ≡ₚ remaining c -> accounts fs n c fin ->
  accounts fs n (set_workers w' (finish_effect t c)) (fin ++ [t]).
Proof.
  intros Es Et Hrem H. unfold accounts in H. rewrite Es in H. destruct H as (Hp & Hall & Hc & Hne).
  destruct (one_less _ _ _ Hrem) as [Hlen Hnil]. pose proof (moved _ _ _ _ _ Hrem Hp) as Hm.
  assert (lenZ (remaining c) < 2^16) as Hle.
  { pose proof (reducing_bound _ _ Hp Hall). lia. }
  unfold finish_effect. rewrite Et. cbn [unfinishedReducingCount set_reducing].
  rewrite Hc, to_uint16_small by lia. destruct (lenZ (remaining c) - 1 =? 0) eqn:E0.
  - assert (remaining (set_workers w' c) = []) as Hnil' by (apply Hnil; lia).
    unfold accounts. simpl. rewrite Hnil', app_nil_r in Hm. by split.
  - unfold accounts. simpl. rewrite Es. split; [exact Hm|].
    change (remaining (set_workers w' (set_reducing (lenZ (remaining c) - 1) c)))
      with (remaining (set_workers w' c)).
    split; [|split; [lia|intros E; apply Hnil in E; lia]].
    rewrite <- Hrem in Hall. by apply Forall_cons in Hall as [_ ?].
Qed.

Lemma finish_inv c c' fin id t :
  mr_inv fs n (MW c fin) -> workers c !! id = Some (Some t) ->
  FinishTask id c = Done OkReply c' -> mr_inv fs n (MW c' (fin ++ [t])).
Proof.
  intros Hi Ew E. pose proof (carried_fits _ _ _ _ Hi Ew) as Hfit.
  rewrite (FinishTask_run _ _ _ Ew), Hfit in E. injection E as <-.
  pose proof (remaining_insert c id (Some t) None Ew) as Hrem. simpl in Hrem.
  destruct Hi as [H1 H2 H3 H4]. simpl in *.
  assert (nReduce (finish_effect t c) = n /\ workerIDAcc (finish_effect t c) = workerIDAcc c) as [E1 E2].
  { unfold finish_effect. destruct (Type_ t); simpl; by destruct (_ =? 0). }
  constructor; simpl; [done|by rewrite E2| |].
  - intros j. rewrite E2. destruct (decide (j = id)) as [->|]; [intros _; apply H3; by rewrite Ew|].
    rewrite lookup_insert_ne by done. apply H3.
  - unfold stage_fits in Hfit. destruct (Type_ t) eqn:Et, (workingStage c) eqn:Es; try done;
      try (unfold accounts in H4; by rewrite Es in H4).
    + by apply finish_map_accounts.
    + by apply finish_reduce_accounts.
Qed.

Lemma mr_step_inv w w' : mr_inv fs n w -> mr_step w w' -> mr_inv fs n w'.
Proof.
  intros Hi Hs. destruct Hs as [r c c' fin Hb E|id r c c' fin E|id t c c' fin Ew E|id c c' fin E
    |id r c c' fin E|id u c c' fin E].
  - by eapply register_inv.
  - by eapply get_inv.
  - by eapply finish_inv.
  - unfold FinishTask, getLockedWorker in E. rewrite bind_gets in E.
    destruct (workers c !! id) as [[t|]|] eqn:Ew; [|done|by injection E as <-].
    exfalso. pose proof (FinishTask_run id t c Ew) as R. unfold FinishTask, getLockedWorker in R.
    rewrite bind_gets, Ew in R. rewrite R in E. by destruct (stage_fits _ _).
  - unfold HeartBeat, tickWorker, hasWorker in E. rewrite bind_gets in E. by injection E as _ <-.
  - by eapply expire_inv.
Qed.

Lemma Make_inv : mr_inv fs n (MW (MakeCoordinator fs n) []).
Proof.
  unfold MakeCoordinator, releaseMapTasks. rewrite addTasks_run. simpl.
  constructor; simpl; [by rewrite to_uint16_small by lia|done| |].
  - intros id. rewrite lookup_empty. by intros [].
  - unfold accounts, remaining, held. simpl. rewrite map_to_list_empty, app_nil_r. simpl.
    fold (map_tasks fs). assert (length (map_tasks fs) = length fs) as Hl by apply length_fmap.
    rewrite Hl, !to_uint16_small by lia. split; [done|]. split; [done|]. split; [|done].
    intros E. rewrite E in Hl. simpl in Hl. lia.
Qed.

(** How many FinishTask calls the job still needs. *)
Definition work_left (c : Coordinator) : Z :=
  match workingStage c with
  | MAPPING => lenZ (remaining c) + nReduce c
  | _ => lenZ (remaining c)
  end.

Lemma work_accounts w : mr_inv fs n w -> lenZ (finished w) + work_left (coord w) = lenZ fs + n.
Proof.
  intros [H1 _ _ H4]. unfold accounts, work_left in *.
  assert (length (map_tasks fs) = length fs) as Hl by apply length_fmap.
  pose proof reduce_tasks_length as Hr.
  destruct (workingStage (coord w)); try done; destruct H4 as [Hp%Permutation_length H4].
  - rewrite length_app in Hp. lia.
  - rewrite !length_app in Hp. lia.
  - rewrite H4. simpl. rewrite length_app in Hp. lia.
Qed.

Lemma work_done w : mr_inv fs n w -> work_left (coord w) = 0 <-> workingStage (coord w) = DONE.
Proof.
  intros [H1 _ _ H4]. unfold accounts, work_left in *.
  destruct (workingStage (coord w)); try done.
  - split; [lia|done].
  - destruct H4 as (_ & _ & _ & Hne). split; [|done]. destruct (remaining (coord w)); [done|]. simpl. lia.
  - destruct H4 as [_ ->]. done.
Qed.

(** If only reduce tasks remain, every map task is finished. *)
Lemma maps_finished fin l :
  fin ++ l ≡ₚ map_tasks fs ++ reduce_tasks n -> Forall (fun t => Type_ t = REDUCE_TASK) l ->
  map_tasks fs ⊆+ fin.
Proof.
  intros Hp Hall. apply (filter_Permutation (fun t => Type_ t = MAP_TASK)) in Hp.
  rewrite !filter_app in Hp.
  rewrite (filter_none _ l), (filter_none _ (reduce_tasks n)), (filter_every _ (map_tasks fs)),
    !app_nil_r in Hp.
  - rewrite <- Hp. apply sublist_submseteq, sublist_filter.
  - apply Forall_forall. apply map_task_type.
  - eapply Forall_impl; [apply reduce_tasks_type|]. by intros t ->.
  - eapply Forall_impl; [exact Hall|]. by intros t ->.
Qed.
End job.

(** * Theorems *)

Lemma mr_reachable fs n w :
  0 < lenZ fs < 2^16 -> 0 < n < 2^16 -> rtc mr_step (MW (MakeCoordinator fs n) []) w -> mr_inv fs n w.
Proof.
  intros Hfs Hn Hr. pose proof (Make_inv fs n Hfs Hn) as Hi.
  induction Hr as [|w1 w2 w3 H12 _ IH]; [done|]. apply IH. by eapply mr_step_inv.
Qed.

(** C10: Whatever the workers do and whichever of them expire, no task is lost, repeated
    or done early: while maps are under way what is finished and what remains
    are the files of the job, each once; reduce tasks appear only when every
    map is finished; and when the coordinator says the job is done, every file
    was mapped and every reduce identifier reduced, each exactly once. *)
Theorem tasks_conserved fs n w :
  0 < lenZ fs < 2^16 -> 0 < n < 2^16 -> rtc mr_step (MW (MakeCoordinator fs n) []) w ->
  accounts fs n (coord w) (finished w) /\
  (workingStage (coord w) = DONE -> finished w ≡ₚ map_tasks fs ++ reduce_tasks n).
Proof.
  intros Hfs Hn Hr. destruct (mr_reachable _ _ _ Hfs Hn Hr) as [_ _ _ H]. split; [done|].
  unfold accounts in H. intros E. rewrite E in H. apply H.
Qed.

(** A reduce task is handed out only after every map task was finished. *)
Theorem reduce_after_all_maps fs n w id i c' :
  0 < lenZ fs < 2^16 -> 0 < n < 2^16 -> rtc mr_step (MW (MakeCoordinator fs n) []) w ->
  GetTask id (coord w) = Done (ReduceTaskRpc i) c' ->
  map_tasks fs ⊆+ finished w.
Proof.
  intros Hfs Hn Hr E. destruct (mr_reachable _ _ _ Hfs Hn Hr) as [_ _ _ H].
  rewrite GetTask_run in E. unfold get_effect in E. case_bool_decide; [done|].
  destruct (workers (coord w) !! id) as [[t|]|] eqn:Ew; [done| |done].
  destruct (tasks (coord w)) as [|[f st|j st] ts] eqn:Et; [done|done|].
  assert (ReduceTask j st ∈ remaining (coord w)) as Hin.
  { unfold remaining. rewrite Et. apply elem_of_app. left. by left. }
  unfold accounts in H. destruct (workingStage (coord w)); try done.
  - destruct H as (Hp & _). assert (ReduceTask j st ∈ map_tasks fs) as Hm.
    { rewrite <- Hp. apply elem_of_app. by right. }
    by apply map_task_type in Hm.
  - destruct H as (Hp & Hall & _). by apply (maps_finished fs n (finished w) (remaining (coord w))).
Qed.

(** A worker that carries a task can always finish it: FinishTask answers Ok, never
    with a stage mismatch, and brings the job one call closer to its end; the
    calls done and the calls left always add up to files plus reduce tasks, and
    none are left exactly when the job is done. *)
Theorem finish_makes_progress fs n w :
  0 < lenZ fs < 2^16 -> 0 < n < 2^16 -> rtc mr_step (MW (MakeCoordinator fs n) []) w ->
  lenZ (finished w) + work_left (coord w) = lenZ fs + n /\
  (work_left (coord w) = 0 <-> workingStage (coord w) = DONE) /\
  forall id t, workers (coord w) !! id = Some (Some t) ->
    exists c', FinishTask id (coord w) = Done OkReply c' /\
      work_left c' = work_left (coord w) - 1.
Proof.
  intros Hfs Hn Hr. pose proof (mr_reachable _ _ _ Hfs Hn Hr) as Hi.
  split; [by apply work_accounts|]. split; [by eapply work_done|].
  intros id t Ew. destruct w as [c fin]. simpl in *.
  pose proof (FinishTask_run id t c Ew) as E. rewrite (carried_fits fs n c fin id t Hi Ew) in E.
  eexists. split; [exact E|].
  pose proof (finish_inv fs n Hfs Hn c _ fin id t Hi Ew E) as Hi'.
  pose proof (work_accounts fs n Hn _ Hi) as H1. pose proof (work_accounts fs n Hn _ Hi') as H2.
  simpl in *. rewrite length_app in H2. simpl in H2. lia.
Qed.

(** Nothing is queued and nothing is carried while nothing was released. *)
Definition idle (w : mr_world) : Prop :=
  workingStage (coord w) = MAPPING /\ tasks (coord w) = [] /\
  forall id t, workers (coord w) !! id <> Some (Some t).

Lemma idle_step w w' : idle w -> mr_step w w' -> idle w'.
Proof.
  intros (Hs & Ht & Hw) Hstep.
  destruct Hstep as [r c c' fin Hb E|id r c c' fin E|id t c c' fin Ew E|id c c' fin E
    |id r c c' fin E|id u c c' fin E]; simpl in *.
  - unfold RegisterWorker, addWorker in E. rewrite bind_modify, bind_gets, bind_modify in E.
    injection E as _ <-. split; [done|]. split; [done|]. simpl. intros j t.
    rewrite lookup_insert. case_decide; [done|apply Hw].
  - rewrite GetTask_run in E. unfold get_effect in E. rewrite Hs, Ht in E.
    rewrite bool_decide_false in E by done.
    destruct (workers c !! id) as [[t|]|] eqn:Ew; [done|by injection E as _ <-..].
  - by destruct (Hw id t).
  - unfold FinishTask, getLockedWorker in E. rewrite bind_gets in E.
    destruct (workers c !! id) as [[t|]|] eqn:Ew; [by destruct (Hw id t)|done|by injection E as <-].
  - unfold HeartBeat, tickWorker, hasWorker in E. rewrite bind_gets in E. by injection E as _ <-.
  - unfold expire, removeWorker in E. rewrite bind_gets in E.
    destruct (workers c !! id) as [[t|]|] eqn:Ew; [by destruct (Hw id t)| |by injection E as _ <-].
    cbn [release] in E. rewrite bind_ret in E. injection E as _ <-. split; [done|]. split; [done|].
    simpl. intros j t. rewrite lookup_delete. case_decide; [done|apply Hw].
Qed.

(** A job without input files is never done: no map task will ever finish, so the
    coordinator stays in the mapping stage. *)
Theorem empty_job_never_done n w :
  rtc mr_step (MW (MakeCoordinator [] n) []) w -> workingStage (coord w) = MAPPING.
Proof.
  intros Hr. enough (idle w) as H by apply H.
  assert (idle (MW (MakeCoordinator [] n) [])) as Hi.
  { split; [done|]. split; [done|]. intros id t. simpl. by rewrite lookup_empty. }
  induction Hr as [|w1 w2 w3 H12 _ IH]; [done|]. apply IH. by eapply idle_step.
Qed.

(** ** Instances *)

(** One file and one reduce task; worker 1 registers, maps, finishes and is asked
    to reduce. *)
Definition job0 : Coordinator := MakeCoordinator ["in"%string] 1.
Definition after {A} (m : M Coordinator A) (c : Coordinator) : Coordinator :=
  match m c with Done _ c' => c' | Panicked _ c' => c' | Blocked c' => c' end.
Definition job1 : Coordinator := after RegisterWorker job0.
Definition job2 : Coordinator := after (GetTask 1) job1.
Definition job3 : Coordinator := after (FinishTask 1) job2.
Definition job4 : Coordinator := after (GetTask 1) job3.
Definition map_in : Task := MapTask "in" TASK_TODO.

Lemma job_run2 : rtc mr_step (MW job0 []) (MW job2 []).
Proof.
  eapply rtc_l; [apply (mr_register (WorkerInfo 1 1) job0 job1); vm_compute; reflexivity|].
  eapply rtc_l; [apply (mr_get 1 (MapTaskRpc "in") job1 job2); vm_compute; reflexivity|]. apply rtc_refl.
Qed.

Lemma job_run3 : rtc mr_step (MW job0 []) (MW job3 [map_in]).
Proof.
  etrans; [exact job_run2|]. eapply rtc_l; [|apply rtc_refl].
  apply (mr_finish 1 map_in job2 job3 []); vm_compute; reflexivity.
Qed.

Lemma tasks_conserved_witness :
  accounts ["in"%string] 1 job3 [map_in] /\
  (workingStage job3 = DONE -> [map_in] ≡ₚ map_tasks ["in"%string] ++ reduce_tasks 1).
Proof. apply (tasks_conserved ["in"%string] 1 (MW job3 [map_in])); [done|done|exact job_run3]. Defined.

Lemma reduce_after_all_maps_witness : map_tasks ["in"%string] ⊆+ [map_in].
Proof.
  apply (reduce_after_all_maps ["in"%string] 1 (MW job3 [map_in]) 1 0 job4);
    [done|done|exact job_run3|vm_compute; reflexivity].
Defined.

Lemma finish_makes_progress_witness :
  0 + work_left job2 = 2 /\ (work_left job2 = 0 <-> workingStage job2 = DONE) /\
  forall id t, workers job2 !! id = Some (Some t) ->
    exists c', FinishTask id job2 = Done OkReply c' /\ work_left c' = work_left job2 - 1.
Proof. apply (finish_makes_progress ["in"%string] 1 (MW job2 [])); [done|done|exact job_run2]. Defined.

Lemma empty_job_never_done_witness :
  workingStage (after RegisterWorker (MakeCoordinator [] 1)) = MAPPING.
Proof.
  apply (empty_job_never_done 1 (MW (after RegisterWorker (MakeCoordinator [] 1)) [])).
  eapply rtc_l; [|apply rtc_refl].
  apply (mr_register (WorkerInfo 1 1) (MakeCoordinator [] 1)); vm_compute; reflexivity.
Defined.
