(* ===== verification/MrWorker.v ===== *)
(** The MapReduce worker (mr/worker.go) and the sequential reference
    (main/mrsequential.go).

    The directory the workers share holds the intermediate files mr-W-R, one
    per worker and reduce identifier, and the output files mr-out-R; a file is
    the list of the records written to it.  The map and reduce functions, which
    a plugin provides, are parameters.  sort.Sort is not stable: [sort] is any
    function with its contract, [sort_ok]; [sortByKey] is one. *)

From Stdlib Require Ascii String.
From Stdlib Require Import Sorting.Sorted.
From S2P Require Import Prelude MrCoordinator.

(** * ihash: FNV-1a on 32 bits *)

Definition fnv_offset : Z := 2166136261.
Definition fnv_prime : Z := 16777619.

Definition fnv_byte (h b : Z) : Z := to_uint32 (Z.lxor h b * fnv_prime).

Fixpoint bytes_of (s : string) : list Z :=
  match s with
  | EmptyString => []
  | String a s => Z.of_N (Ascii.N_of_ascii a) :: bytes_of s
  end.

Definition sum32 (key : string) : Z := foldl fnv_byte fnv_offset (bytes_of key).

Definition ihash (key : string) : Z := Z.land (sum32 key) 2147483647.

Lemma sum32_range key : 0 <= sum32 key < 2^32.
Proof.
  unfold sum32. generalize (bytes_of key). intros l.
  assert (0 <= fnv_offset < 2^32) as H by (unfold fnv_offset; lia). revert H.
  generalize fnv_offset. induction l as [|b l IH]; intros h H; [done|].
  simpl. apply IH. apply Z.mod_pos_bound. lia.
Qed.

Lemma ihash_range key : 0 <= ihash key < 2^31.
Proof.
  unfold ihash. replace 2147483647 with (Z.ones 31) by done. rewrite Z.land_ones by lia.
  apply Z.mod_pos_bound. lia.
Qed.

(** * The shared directory *)

Record KeyValue := mkKV { kv_Key : string; kv_Value : string }.
#[export] Instance KeyValue_eq_dec : EqDecision KeyValue.
Proof. solve_decision. Defined.

Record Directory := mkDirectory {
  inputs : gmap string string;
  mids : gmap (Z * Z) (list KeyValue);
  outs : gmap Z (list (string * string)) }.

Definition set_mids (m : gmap (Z * Z) (list KeyValue)) (d : Directory) : Directory :=
  mkDirectory (inputs d) m (outs d).
Definition set_outs (o : gmap Z (list (string * string))) (d : Directory) : Directory :=
  mkDirectory (inputs d) (mids d) o.

(** os.Create truncates. *)
Definition createOrRemoveOld (w r : Z) : M Directory unit :=
  modify (fun d => set_mids (<[(w, r) := []]> (mids d)) d).

Definition append_mid (w r : Z) (kvs : list KeyValue) : M Directory unit :=
  d ← gets (fun d => d);
  match mids d !! (w, r) with
  | Some old => modify (set_mids (<[(w, r) := old ++ kvs]> (mids d)))
  | None => throw ExplicitPanic
  end.

(** sort.Sort(ByKey): a permutation in which no record is less than an earlier
    one. *)
Definition key_sorted : list KeyValue -> Prop :=
  StronglySorted (fun x y => String.ltb (kv_Key y) (kv_Key x) = false).
Definition sort_ok (sort : list KeyValue -> list KeyValue) : Prop :=
  forall l, sort l ≡ₚ l /\ key_sorted (sort l).

(** Inserting before the first record with a greater key. *)
Fixpoint insertByKey (kv : KeyValue) (l : list KeyValue) : list KeyValue :=
  match l with
  | [] => [kv]
  | x :: l => if String.ltb (kv_Key kv) (kv_Key x) then kv :: x :: l else x :: insertByKey kv l
  end.
Definition sortByKey (l : list KeyValue) : list KeyValue := foldr insertByKey [] l.

Section worker.
Context (sort : list KeyValue -> list KeyValue).
Context (mapf : string -> string -> list KeyValue) (reducef : string -> list string -> string).

(** * doMapWork *)

Definition partition_of (R : Z) (kv : KeyValue) : Z := to_uint16 (Z.rem (ihash (kv_Key kv)) R).

(** The loop that fills reduceList. *)
Fixpoint fill {S} (R : Z) (kva : list KeyValue) (reduceList : list (list KeyValue))
    : M S (list (list KeyValue)) :=
  match kva with
  | [] => mret reduceList
  | kv :: kva =>
      if R =? 0 then throw DivideByZero else
      l ← go_index reduceList (partition_of R kv);
      rl ← go_update reduceList (partition_of R kv) (l ++ [kv]);
      fill R kva rl
  end.

(** The writes; finishedMapping is a call to the coordinator. *)
Definition doMapWork (w R : Z) (file : string) : M Directory unit :=
  d ← gets (fun d => d);
  match inputs d !! file with
  | None => throw LogFatal
  | Some content =>
      rl ← fill R (mapf file content) (replicate (Z.to_nat R) []);
      for_each (seqZ 0 R) (fun r =>
        kvs ← go_index rl r;
        append_mid w r kvs)
  end.

(** * doReduceTask *)

(** The inner loop: the records at the front with key [k], and the rest. *)
Fixpoint take_key (k : string) (l : list KeyValue) : list string * list KeyValue :=
  match l with
  | [] => ([], [])
  | kv :: l' =>
      if String.eqb k (kv_Key kv)
      then let '(vs, rest) := take_key k l' in (kv_Value kv :: vs, rest)
      else ([], l)
  end.

(** The outer loop; [fuel] is at least the number of records. *)
Fixpoint reduce_loop (fuel : nat) (l : list KeyValue) : option (list (string * list string)) :=
  match l with
  | [] => Some []
  | kv :: l' =>
      match fuel with
      | O => None
      | S fuel =>
          let '(vs, rest) := take_key (kv_Key kv) l' in
          match reduce_loop fuel rest with
          | Some groups => Some ((kv_Key kv, kv_Value kv :: vs) :: groups)
          | None => None
          end
      end
  end.

Definition reduce_out (l : list KeyValue) : option (list (string * string)) :=
  match reduce_loop (length l) l with
  | Some groups => Some (map (fun g => (fst g, reducef (fst g) (snd g))) groups)
  | None => None
  end.

(** The records of the intermediate files for [r], in the order of the
    directory. *)
Definition intermediate (r : Z) (d : Directory) : list KeyValue :=
  map_to_list (mids d) ≫= (fun f => if snd (fst f) =? r then snd f else []).

Definition doReduceTask (r : Z) : M Directory unit :=
  d ← gets (fun d => d);
  match reduce_out (sort (intermediate r d)) with
  | Some out => modify (set_outs (<[r := out]> (outs d)))
  | None => block
  end.

(** * start: what a worker does with an answer of the coordinator *)

Inductive WorkerResult : Type := WORKER_RESTAET | WORKER_DONE.

(** [None] when the loop goes on. *)
Definition on_task (w R : Z) (reply : RpcReply) : M Directory (option WorkerResult) :=
  match reply with
  | InvalidWorker => mret (Some WORKER_RESTAET)
  | MapTaskRpc file => doMapWork w R file;; mret None
  | ReduceTaskRpc r => doReduceTask r;; mret None
  | NoMoreTaskRpc => mret (Some WORKER_DONE)
  | OkReply | NoopTaskRpc | WorkerInfo _ _ => mret None
  end.

(** The intermediate files are created before the first task. *)
Definition start_files (w R : Z) : M Directory unit :=
  for_each (seqZ 0 R) (fun r => createOrRemoveOld w r).

(** * main/mrsequential.go *)

(** The output file: all files are mapped and everything is reduced at once. *)
Definition mrsequential (fs : list string) : M Directory (list (string * string)) :=
  d ← gets (fun d => d);
  match mapM (fun f => mapf f <$> inputs d !! f) fs with
  | None => throw LogFatal
  | Some kvas =>
      match reduce_out (sort (concat kvas)) with
      | Some out => mret out
      | None => block
      end
  end.
End worker.

(** * Grouping *)

Lemma string_ltb_total a b : String.ltb a b = false -> String.ltb b a = false -> a = b.
Proof.
  unfold String.ltb. intros H1 H2. apply String.compare_eq_iff.
  rewrite (String.compare_antisym a b) in *. by destruct (String.compare b a).
Qed.

(** The values of a key, in order. *)
Definition values_of (k : string) (l : list KeyValue) : list string :=
  kv_Value <$> filter (fun kv => kv_Key kv = k) l.

Lemma values_of_app k l1 l2 : values_of k (l1 ++ l2) = values_of k l1 ++ values_of k l2.
Proof. unfold values_of. by rewrite filter_app, fmap_app. Qed.

Lemma values_of_cons k kv l :
  values_of k (kv :: l) = if decide (kv_Key kv = k) then kv_Value kv :: values_of k l else values_of k l.
Proof. unfold values_of. rewrite filter_cons. by case_decide. Qed.

Lemma values_of_perm k l l' : l ≡ₚ l' -> values_of k l ≡ₚ values_of k l'.
Proof. intros H. unfold values_of. by rewrite H. Qed.

Lemma take_key_spec k l vs rest :
  take_key k l = (vs, rest) ->
  l = map (mkKV k) vs ++ rest /\ (forall x rest', rest = x :: rest' -> kv_Key x <> k).
Proof.
  revert vs rest. induction l as [|[k' v'] l IH]; intros vs rest; simpl.
  { intros [= <- <-]. done. }
  destruct (String.eqb_spec k k') as [->|Hne].
  - destruct (take_key k' l) as [vs' rest'] eqn:E. intros [= <- <-].
    destruct (IH _ _ eq_refl) as [-> H]. done.
  - intros [= <- <-]. split; [done|]. by intros x rest' [= <- <-].
Qed.

(** In a sorted list the records of the first key are all at the front. *)
Lemma key_run_complete kv same rest :
  key_sorted (kv :: map (mkKV (kv_Key kv)) same ++ rest) ->
  (forall x rest', rest = x :: rest' -> kv_Key x <> kv_Key kv) ->
  key_sorted rest /\ values_of (kv_Key kv) rest = [].
Proof.
  intros Hs Hhead. apply StronglySorted_inv in Hs as [Hs Hall]. apply Forall_app in Hall as [_ Hall].
  assert (key_sorted rest) as Hr.
  { clear -Hs. induction (map (mkKV (kv_Key kv)) same) as [|x l IH]; [done|].
    apply StronglySorted_inv in Hs as [Hs _]. auto. }
  split; [done|]. unfold values_of. rewrite filter_none; [done|].
  destruct rest as [|x rest]; [done|]. pose proof (Hhead x rest eq_refl) as Hx.
  apply Forall_cons in Hall as [Hkx _]. apply StronglySorted_inv in Hr as [_ Hxr].
  constructor; [done|]. eapply Forall_impl; [exact Hxr|]. intros y Hxy Hy.
  apply Hx. simpl in Hxy, Hkx. rewrite <- Hy in *. by apply string_ltb_total.
Qed.

Lemma values_of_run k same rest :
  values_of k (map (mkKV k) same ++ rest) = same ++ values_of k rest.
Proof.
  rewrite values_of_app. f_equal. induction same as [|v l IH]; [done|]. simpl.
  rewrite values_of_cons, decide_True by done. simpl. by f_equal.
Qed.

Lemma values_of_other k k' same rest :
  k <> k' -> values_of k (map (mkKV k') same ++ rest) = values_of k rest.
Proof.
  intros Hne. rewrite values_of_app. replace (values_of k (map (mkKV k') same)) with (@nil string); [done|].
  induction same as [|v l IH]; [done|]. simpl. by rewrite values_of_cons, decide_False.
Qed.

(** The loop makes one group per key, with all the values of the key. *)
Lemma reduce_loop_spec fuel l :
  key_sorted l -> (length l <= fuel)%nat ->
  exists groups, reduce_loop fuel l = Some groups /\
    NoDup (map fst groups) /\
    forall k vs, (k, vs) ∈ groups <-> vs = values_of k l /\ vs <> [].
Proof.
  revert l. induction fuel as [|fuel IH]; intros l Hs Hf.
  { destruct l; [|simpl in Hf; lia]. exists []. split; [done|]. split; [constructor|].
    intros k vs. split; [by intros []%elem_of_nil|by intros [-> []]]. }
  destruct l as [|kv l].
  { exists []. split; [done|]. split; [constructor|].
    intros k vs. split; [by intros []%elem_of_nil|by intros [-> []]]. }
  cbn [reduce_loop]. destruct (take_key (kv_Key kv) l) as [same rest] eqn:E.
  destruct (take_key_spec _ _ _ _ E) as [-> Hhead].
  destruct (key_run_complete _ _ _ Hs Hhead) as [Hr Hnone].
  destruct (IH rest Hr) as (groups & -> & Hnd & Hg).
  { simpl in Hf. rewrite length_app in Hf. lia. }
  exists ((kv_Key kv, kv_Value kv :: same) :: groups). split; [done|].
  assert (forall vs, (kv_Key kv, vs) ∈ groups -> False) as Hfresh.
  { intros vs H%Hg. rewrite Hnone in H. destruct H as [-> []]. done. }
  split.
  - simpl. constructor; [|done]. intros ((k & vs) & Ek & Hin)%list_elem_of_fmap.
    simpl in Ek. subst k. by eapply Hfresh.
  - intros k vs. rewrite elem_of_cons, Hg, values_of_cons. case_decide as Ek.
    + subst k. rewrite values_of_run, Hnone, app_nil_r. split.
      * intros [[= ->]|[-> []]]; [done|done].
      * intros [-> _]. by left.
    + rewrite values_of_other by done. split; [|by right].
      intros [[= -> _]|H]; [done|exact H].
Qed.

(** One line per key that occurs. *)
Lemma reduce_out_spec reducef l :
  key_sorted l ->
  exists out, reduce_out reducef l = Some out /\ NoDup (map fst out) /\
    forall k o, (k, o) ∈ out <-> values_of k l <> [] /\ o = reducef k (values_of k l).
Proof.
  intros Hs. destruct (reduce_loop_spec (length l) l Hs) as (groups & E & Hnd & Hg); [done|].
  unfold reduce_out. rewrite E. eexists. split; [reflexivity|]. split.
  - by rewrite map_map.
  - intros k o. rewrite list_elem_of_fmap. split.
    + intros ((k' & vs) & [= -> ->] & [-> Hne]%Hg). done.
    + intros [Hne ->]. exists (k, values_of k l). split; [done|]. by apply Hg.
Qed.

(** * Partitioning *)

Lemma partition_range R kv : 0 < R < 2^16 -> 0 <= partition_of R kv < R.
Proof.
  intros HR. unfold partition_of. pose proof (ihash_range (kv_Key kv)).
  rewrite Z.rem_mod_nonneg by lia. pose proof (Z.mod_pos_bound (ihash (kv_Key kv)) R).
  rewrite to_uint16_small by lia. lia.
Qed.

Definition in_part (R r : Z) (kv : KeyValue) : Prop := partition_of R kv = r.
#[export] Instance in_part_dec R r kv : Decision (in_part R r kv).
Proof. unfold in_part. apply _. Defined.

Lemma fill_run {S} R kva rl (s : S) :
  0 < R < 2^16 -> length rl = Z.to_nat R ->
  exists rl', fill R kva rl s = Done rl' s /\
    forall r old, nthZ rl r = Some old -> nthZ rl' r = Some (old ++ filter (in_part R r) kva).
Proof.
  intros HR. revert rl. induction kva as [|kv kva IH]; intros rl Hl.
  { exists rl. split; [done|]. intros r old ->. by rewrite filter_nil, app_nil_r. }
  cbn [fill]. destruct (R =? 0) eqn:E0; [lia|]. pose proof (partition_range R kv HR) as Hp.
  destruct (nthZ_in_range rl (partition_of R kv)) as [l0 Hl0]; [lia|].
  rewrite (bind_done _ _ _ _ _ (go_index_ok _ _ _ _ Hl0)).
  erewrite bind_done; [|apply go_update_ok; lia].
  destruct (IH (<[Z.to_nat (partition_of R kv) := l0 ++ [kv]]> rl)) as (rl' & E & H).
  { by rewrite length_insert. }
  exists rl'. split; [exact E|]. intros r old Hr.
  destruct (decide (in_part R r kv)) as [Hin|Hout].
  - rewrite filter_cons_True by done. unfold in_part in Hin. subst r. rewrite Hl0 in Hr.
    injection Hr as <-. rewrite (cons_middle kv l0), app_assoc. apply H. unfold nthZ. rewrite decide_True by lia.
    apply list_lookup_insert_eq. lia.
  - rewrite filter_cons_False by done. apply H. rewrite <- Hr. unfold nthZ. case_decide; [|done].
    apply list_lookup_insert_ne. unfold in_part in Hout. lia.
Qed.

Lemma fill_length {S} R kva rl (s : S) rl' s' :
  fill R kva rl s = Done rl' s' -> length rl' = length rl.
Proof.
  revert rl. induction kva as [|kv kva IH]; intros rl; cbn [fill]; [by intros [= <- _]|].
  destruct (R =? 0); [done|]. unfold mbind, M_bind, go_index, go_update.
  destruct (nthZ rl _); [|done]. cbn. intros H%IH. by rewrite length_insert in H.
Qed.

(** * The intermediate files *)

Lemma mids_insert (m : gmap (Z * Z) (list KeyValue)) i x :
  map_to_list (<[i := x]> m) ≡ₚ (i, x) :: map_to_list (delete i m).
Proof. rewrite <- insert_delete_eq. by rewrite map_to_list_insert by apply lookup_delete_eq. Qed.

Lemma intermediate_append d w r old kvs r' :
  mids d !! (w, r) = Some old ->
  intermediate r' (set_mids (<[(w, r) := old ++ kvs]> (mids d)) d)
  ≡ₚ intermediate r' d ++ (if r =? r' then kvs else []).
Proof.
  intros E. unfold intermediate. simpl. rewrite mids_insert.
  rewrite <- (insert_id (mids d) (w, r) old E) at 2. rewrite mids_insert. simpl.
  destruct (r =? r'); [|by rewrite app_nil_r].
  rewrite <- !app_assoc. apply Permutation_app_head, Permutation_app_comm.
Qed.

(** Nothing but the content of intermediate files changed. *)
Definition same_files (d d' : Directory) : Prop :=
  inputs d' = inputs d /\ outs d' = outs d /\
  forall i, is_Some (mids d !! i) <-> is_Some (mids d' !! i).

Lemma same_files_refl d : same_files d d.
Proof. done. Qed.
Lemma same_files_trans d1 d2 d3 : same_files d1 d2 -> same_files d2 d3 -> same_files d1 d3.
Proof. intros (H1 & H2 & H3) (H4 & H5 & H6). split; [congruence|]. split; [congruence|].
  intros i. by rewrite H3.
Qed.

Definition has_files (w R : Z) (d : Directory) : Prop :=
  forall r, 0 <= r < R -> is_Some (mids d !! (w, r)).

(** The loop that writes one file per reduce identifier. *)
Lemma writes_run w R rl rs d :
  has_files w R d -> lenZ rl = R -> Forall (fun r => 0 <= r < R) rs ->
  exists d', for_each rs (fun r => kvs ← go_index rl r; append_mid w r kvs) d = Done tt d' /\
    same_files d d' /\
    forall r', intermediate r' d' ≡ₚ intermediate r' d ++
      (rs ≫= fun r => if r =? r' then default [] (nthZ rl r) else []).
Proof.
  intros Hf Hl Hall. revert d Hf. induction Hall as [|r rs Hr _ IH]; intros d Hf.
  { exists d. split; [done|]. split; [done|]. intros r'. simpl. by rewrite app_nil_r. }
  destruct (nthZ_in_range rl r) as [kvs Hk]; [lia|]. destruct (Hf r Hr) as [old Ho].
  cbn [for_each]. set (d1 := set_mids (<[(w, r) := old ++ kvs]> (mids d)) d).
  assert ((kvs ← go_index rl r; append_mid w r kvs) d = Done tt d1) as E1.
  { rewrite (bind_done _ _ _ _ _ (go_index_ok _ _ _ _ Hk)). unfold append_mid.
    by rewrite bind_gets, Ho. }
  rewrite (bind_done _ _ _ _ _ E1).
  assert (same_files d d1) as Hs.
  { split; [done|]. split; [done|]. intros i. simpl. rewrite lookup_insert.
    case_decide; [subst; rewrite Ho; split; by eexists|done]. }
  destruct (IH d1) as (d2 & E2 & Hs2 & Hp2). { intros r0 Hr0. by apply Hs, Hf. }
  exists d2. split; [exact E2|]. split; [by eapply same_files_trans|].
  intros r'. rewrite Hp2. unfold d1. rewrite (intermediate_append d w r old kvs r' Ho).
  simpl. rewrite Hk. simpl. by rewrite <- app_assoc.
Qed.

Lemma bind_at {A} (f : Z -> list A) rs r' :
  NoDup rs -> r' ∈ rs -> (rs ≫= fun r => if r =? r' then f r else []) = f r'.
Proof.
  induction 1 as [|r rs Hr Hnd IH]; [by intros []%elem_of_nil|].
  intros [->|Hin]%elem_of_cons; simpl.
  - rewrite Z.eqb_refl. rewrite <- (app_nil_r (f r)) at 2. f_equal. clear -Hr.
    induction rs as [|x rs IH]; [done|]. apply not_elem_of_cons in Hr as [Hne Hr]. simpl.
    rewrite (proj2 (Z.eqb_neq _ _)) by done. auto.
  - destruct (r =? r') eqn:E; [apply Z.eqb_eq in E; by subst|]. simpl. auto.
Qed.

Lemma doMapWork_run mapf w R f content d :
  0 < R < 2^16 -> inputs d !! f = Some content -> has_files w R d ->
  exists d', doMapWork mapf w R f d = Done tt d' /\ same_files d d' /\
    forall r, 0 <= r < R ->
      intermediate r d' ≡ₚ intermediate r d ++ filter (in_part R r) (mapf f content).
Proof.
  intros HR Hin Hf. unfold doMapWork. rewrite bind_gets, Hin.
  destruct (fill_run R (mapf f content) (replicate (Z.to_nat R) []) d HR) as (rl & E & H).
  { by rewrite length_replicate. }
  assert (forall r, 0 <= r < R -> nthZ rl r = Some (filter (in_part R r) (mapf f content))) as Hrl.
  { intros r Hr. apply (H r []). unfold nthZ. rewrite decide_True by lia.
    apply lookup_replicate. split; [done|lia]. }
  assert (lenZ rl = R) as Hlen.
  { pose proof (fill_length _ _ _ _ _ _ E) as Hl. rewrite length_replicate in Hl. lia. }
  rewrite (bind_done _ _ _ _ _ E).
  destruct (writes_run w R rl (seqZ 0 R) d Hf Hlen) as (d' & E' & Hs & Hp).
  { apply Forall_forall. intros r Hr%elem_of_seqZ. lia. }
  exists d'. split; [exact E'|]. split; [done|]. intros r Hr. rewrite Hp.
  rewrite (bind_at (fun r => default [] (nthZ rl r))); [by rewrite Hrl|apply NoDup_seqZ|].
  apply elem_of_seqZ. lia.
Qed.

(** * The whole job against the sequential program *)

Section job.
Context (sort : list KeyValue -> list KeyValue) (Hsort : sort_ok sort).
Context (mapf : string -> string -> list KeyValue) (reducef : string -> list string -> string).
Context (R : Z) (HR : 0 < R < 2^16).

(** Map work done by workers, and the reduce tasks. *)
Definition do_maps (jobs : list (Z * string)) : M Directory unit :=
  for_each jobs (fun j => doMapWork mapf (fst j) R (snd j)).
Definition do_reduces (rs : list Z) : M Directory unit :=
  for_each rs (fun r => doReduceTask sort reducef r).

(** All that the map function emits for the files. *)
Definition emitted (jobs : list (Z * string)) (d : Directory) : list KeyValue :=
  jobs ≫= fun j => match inputs d !! snd j with Some c => mapf (snd j) c | None => [] end.

Definition job_ready (jobs : list (Z * string)) (d : Directory) : Prop :=
  Forall (fun j => is_Some (inputs d !! snd j) /\ has_files (fst j) R d) jobs.

Lemma do_maps_run jobs d :
  job_ready jobs d ->
  exists d', do_maps jobs d = Done tt d' /\ same_files d d' /\
    forall r, 0 <= r < R ->
      intermediate r d' ≡ₚ intermediate r d ++ filter (in_part R r) (emitted jobs d).
Proof.
  revert d. induction jobs as [|[w f] jobs IH]; intros d Hready.
  { exists d. split; [done|]. split; [done|]. intros r _. unfold emitted. simpl. by rewrite filter_nil, app_nil_r. }
  apply Forall_cons in Hready as [[[c Hc] Hf] Hrest]. simpl in *.
  destruct (doMapWork_run mapf w R f c d HR Hc Hf) as (d1 & E1 & Hs1 & H1).
  destruct Hs1 as (Si & So & Sm).
  destruct (IH d1) as (d2 & E2 & Hs2 & H2).
  { eapply Forall_impl; [exact Hrest|]. intros j [Hi Hj]. rewrite Si. split; [done|].
    intros r Hr. by apply Sm, Hj. }
  exists d2. unfold do_maps in *. cbn [for_each]. rewrite (bind_done _ _ _ _ _ E1).
  split; [exact E2|]. split; [by eapply same_files_trans; [|exact Hs2]|].
  intros r Hr. rewrite (H2 r Hr), (H1 r Hr). unfold emitted. simpl. rewrite Si, Hc, filter_app.
  by rewrite app_assoc.
Qed.

(** What a key's partition holds. *)
Lemma values_in_part k r l :
  values_of k (filter (in_part R r) l) = if decide (partition_of R (mkKV k "") = r) then values_of k l else [].
Proof.
  induction l as [|kv l IH]; [by rewrite filter_nil; case_decide|].
  assert (kv_Key kv = k -> partition_of R kv = partition_of R (mkKV k "")) as Hk by (by intros <-).
  rewrite (values_of_cons k kv l). destruct (decide (in_part R r kv)) as [E1|E1].
  - rewrite filter_cons_True, values_of_cons, IH by done. unfold in_part in E1.
    destruct (decide (kv_Key kv = k)) as [E2|E2]; [specialize (Hk E2)|]; case_decide; congruence.
  - rewrite filter_cons_False, IH by done. unfold in_part in E1.
    destruct (decide (kv_Key kv = k)) as [E2|E2]; [specialize (Hk E2)|]; case_decide; congruence.
Qed.

Lemma doReduceTask_run r d :
  exists out, doReduceTask sort reducef r d = Done tt (set_outs (<[r := out]> (outs d)) d) /\
    NoDup (map fst out) /\
    forall k o, (k, o) ∈ out <->
      values_of k (sort (intermediate r d)) <> [] /\
      o = reducef k (values_of k (sort (intermediate r d))).
Proof.
  destruct (reduce_out_spec reducef (sort (intermediate r d))) as (out & E & Hnd & Ho); [apply Hsort|].
  exists out. unfold doReduceTask. rewrite bind_gets, E. done.
Qed.

Lemma do_reduces_run rs d :
  NoDup rs ->
  exists d', do_reduces rs d = Done tt d' /\ mids d' = mids d /\
    (forall r, r ∉ rs -> outs d' !! r = outs d !! r) /\
    forall r, r ∈ rs -> exists out, outs d' !! r = Some out /\ NoDup (map fst out) /\
      forall k o, (k, o) ∈ out <->
        values_of k (sort (intermediate r d)) <> [] /\
        o = reducef k (values_of k (sort (intermediate r d))).
Proof.
  revert d. induction rs as [|r rs IH]; intros d Hnd.
  { exists d. split; [done|]. split; [done|]. split; [done|]. by intros r []%elem_of_nil. }
  apply NoDup_cons in Hnd as [Hr Hnd]. destruct (doReduceTask_run r d) as (out & E1 & Hout).
  destruct (IH (set_outs (<[r := out]> (outs d)) d) Hnd) as (d2 & E2 & Hm & Hother & Hrs).
  exists d2. unfold do_reduces in *. cbn [for_each]. rewrite (bind_done _ _ _ _ _ E1).
  split; [exact E2|]. split; [exact Hm|]. split.
  - intros r' [Hne Hn]%not_elem_of_cons. rewrite Hother by done. simpl. by rewrite lookup_insert_ne.
  - intros r' [->|Hin]%elem_of_cons; [|by apply Hrs].
    exists out. rewrite Hother by done. simpl. by rewrite lookup_insert_eq.
Qed.

Lemma read_all jobs d :
  Forall (fun j => is_Some (inputs d !! snd j)) jobs ->
  exists kvas, mapM (fun f => mapf f <$> inputs d !! f) (map snd jobs) = Some kvas /\
    concat kvas = emitted jobs d.
Proof.
  induction 1 as [|[w f] jobs [c Hc] _ (kvas & E & Hk)]; [by exists []|].
  exists (mapf f c :: kvas). simpl in Hc. split.
  - simpl. rewrite Hc. simpl. by rewrite E.
  - unfold emitted in *. simpl. rewrite Hc, Hk. done.
Qed.

(** The lines of all output files. *)
Definition all_out (d : Directory) : list (string * string) :=
  seqZ 0 R ≫= fun r => default [] (outs d !! r).

Context (Hreduce : forall k vs vs', vs ≡ₚ vs' -> reducef k vs = reducef k vs').

(** The line for a key in a reduce task's file. *)
Lemma line_in_part l r l0 k o :
  l0 ≡ₚ filter (in_part R r) l ->
  (values_of k (sort l0) <> [] /\ o = reducef k (values_of k (sort l0))) <->
  partition_of R (mkKV k "") = r /\ values_of k l <> [] /\ o = reducef k (values_of k l).
Proof.
  intros Hp. assert (values_of k (sort l0) ≡ₚ if decide (partition_of R (mkKV k "") = r)
    then values_of k l else []) as Hv.
  { rewrite <- values_in_part. apply values_of_perm. etrans; [apply Hsort|exact Hp]. }
  case_decide as Er.
  - rewrite (Hreduce k _ _ Hv). split; intros H; (split; [|try apply H]).
    + done.
    + split; [|apply H]. intros E. rewrite E in Hv. destruct H as [H _]. apply H.
      by apply Permutation_nil_r in Hv.
    + destruct H as (_ & H & _). intros E. rewrite E in Hv. apply H. by apply Permutation_nil_l in Hv.
  - apply Permutation_nil_r in Hv. rewrite Hv. split; [by intros [[] _]|by intros [? _]].
Qed.

(** Output files with the right lines are the output of one reduction. *)
Lemma all_out_sequential l d out :
  (forall r, 0 <= r < R -> exists out_r, outs d !! r = Some out_r /\ NoDup (map fst out_r) /\
     forall k o, (k, o) ∈ out_r <-> partition_of R (mkKV k "") = r /\ values_of k l <> [] /\
       o = reducef k (values_of k l)) ->
  reduce_out reducef (sort l) = Some out -> all_out d ≡ₚ out.
Proof.
  intros Hl Eo. destruct (reduce_out_spec reducef (sort l)) as (out' & Eo' & Hnd & Ho); [apply Hsort|].
  rewrite Eo in Eo'. injection Eo' as <-.
  assert (forall r k o, 0 <= r < R -> (k, o) ∈ default [] (outs d !! r) <->
    partition_of R (mkKV k "") = r /\ values_of k l <> [] /\ o = reducef k (values_of k l)) as Hline.
  { intros r k o Hr. destruct (Hl r Hr) as (out_r & -> & _ & Hr2). apply Hr2. }
  apply NoDup_Permutation.
  - unfold all_out. apply NoDup_bind; [|intros r Hr%elem_of_seqZ|apply NoDup_seqZ].
    + intros r1 r2 [k o] Hr1%elem_of_seqZ Hr2%elem_of_seqZ [E _]%Hline [E' _]%Hline; lia.
    + destruct (Hl r) as (out_r & E & Hn & _); [lia|]. rewrite E. simpl. by apply NoDup_fmap_1 in Hn.
  - by apply NoDup_fmap_1 in Hnd.
  - intros [k o]. unfold all_out. rewrite list_elem_of_bind, Ho.
    assert (values_of k (sort l) ≡ₚ values_of k l) as Hv by (apply values_of_perm, Hsort).
    rewrite (Hreduce k _ _ Hv). split.
    + intros (r & Hin & Hr%elem_of_seqZ). apply Hline in Hin as (_ & Hne & ->); [|lia].
      split; [|done]. intros E. rewrite E in Hv. by apply Permutation_nil_l in Hv.
    + intros [Hne ->]. pose proof (partition_range R (mkKV k "") HR) as Hp.
      exists (partition_of R (mkKV k "")). split; [|apply elem_of_seqZ; lia].
      apply Hline; [lia|]. split; [done|]. split; [|done].
      intros E. rewrite E in Hv. by apply Permutation_nil_r in Hv.
Qed.

(** The sequential program, on the files of some jobs. *)
Lemma mrsequential_run jobs d :
  Forall (fun j => is_Some (inputs d !! snd j)) jobs ->
  exists out, mrsequential sort mapf reducef (map snd jobs) d = Done out d /\
    reduce_out reducef (sort (emitted jobs d)) = Some out.
Proof.
  intros Hin. destruct (read_all jobs d Hin) as (kvas & Ek & Hk).
  destruct (reduce_out_spec reducef (sort (emitted jobs d))) as (out & Eo & _); [apply Hsort|].
  exists out. split; [|done]. unfold mrsequential. by rewrite bind_gets, Ek, Hk, Eo.
Qed.
End job.

(** * Theorems *)

(** A parallel job writes what the sequential program writes: when every file of
    the job was mapped once, by whichever workers, into files that were empty,
    and every reduce task was done, the lines of the output files together are
    the lines of mrsequential for the same files, for a reduce function that
    does not depend on the order of its values.  Every loop ends. *)
Theorem mapreduce_equals_sequential sort mapf reducef R jobs d :
  sort_ok sort -> 0 < R < 2^16 -> (forall k vs vs', vs ≡ₚ vs' -> reducef k vs = reducef k vs') ->
  job_ready R jobs d -> (forall r, intermediate r d = []) ->
  exists d1 d2 out, do_maps mapf R jobs d = Done tt d1 /\
    do_reduces sort reducef (seqZ 0 R) d1 = Done tt d2 /\
    mrsequential sort mapf reducef (map snd jobs) d = Done out d /\
    all_out R d2 ≡ₚ out.
Proof.
  intros Hsort HR Hreduce Hready Hempty.
  destruct (do_maps_run mapf R HR jobs d Hready) as (d1 & E1 & _ & H1).
  destruct (do_reduces_run sort Hsort reducef (seqZ 0 R) d1 (NoDup_seqZ 0 R)) as (d2 & E2 & _ & _ & H2).
  destruct (mrsequential_run sort Hsort mapf reducef jobs d) as (out & Es & Eo).
  { eapply Forall_impl; [exact Hready|]. by intros j [? _]. }
  exists d1, d2, out. do 3 (split; [done|]).
  apply (all_out_sequential sort Hsort reducef R HR Hreduce (emitted mapf jobs d)); [|done].
  intros r Hr. destruct (H2 r) as (out_r & E & Hnd & Hout); [apply elem_of_seqZ; lia|].
  exists out_r. split; [done|]. split; [done|]. intros k o. rewrite Hout.
  apply line_in_part; [done|done|]. rewrite (H1 r Hr), Hempty. done.
Qed.

(** The reduce loop ends and makes one group per distinct key, with all the values
    of the key: the inner loop stops at the first other key, and in a sorted
    list the key does not come back. *)
Lemma reduce_groups_keys l :
  key_sorted l ->
  exists groups, reduce_loop (length l) l = Some groups /\ NoDup (map fst groups) /\
    forall k vs, (k, vs) ∈ groups <-> vs = values_of k l /\ vs <> [].
Proof. intros H. by apply reduce_loop_spec. Qed.

(** Partitioning by ihash loses nothing and separates keys: the records of a key
    all go to one reduce task, whose number is below R, and to no other. *)
Lemma partition_keeps_keys R k r l :
  0 < R < 2^16 -> 0 <= r < R ->
  0 <= partition_of R (mkKV k "") < R /\
  values_of k (filter (in_part R r) l)
  = if decide (partition_of R (mkKV k "") = r) then values_of k l else [].
Proof. intros HR Hr. split; [by apply partition_range|apply values_in_part]. Qed.

(** ** A worker that expires *)

(** A map function that emits each file's content once, and the word count's
    reduce function on up to nine values. *)
Definition word_map (_ content : string) : list KeyValue := [mkKV content "1"].
Definition word_count (_ : string) (vs : list string) : string :=
  String (Ascii.ascii_of_nat (48 + length vs)) EmptyString.

Definition word_dir : Directory := mkDirectory {["in" := "a"]}%string ∅ ∅.

(** Worker 1 maps the file and expires before it reports; worker 2 gets the task
    again; then the reduce task is done. *)
Definition expired_run : M Directory unit :=
  start_files 1 1;; start_files 2 1;;
  doMapWork word_map 1 1 "in";;
  doMapWork word_map 2 1 "in";;
  doReduceTask sortByKey word_count 0.


(** ** Instances *)

Lemma not_ltb_le a b : String.ltb b a = false <-> String.le a b.
Proof.
  unfold String.le, String.leb, String.ltb. rewrite (String.compare_antisym b a).
  by destruct (String.compare a b); simpl; split.
Qed.

Lemma insertByKey_sorted kv l : key_sorted l -> key_sorted (insertByKey kv l) .
Proof.
  induction 1 as [|x l Hs IH Hx]; [by repeat constructor|]. simpl.
  destruct (String.ltb (kv_Key kv) (kv_Key x)) eqn:E.
  - assert (String.le (kv_Key kv) (kv_Key x)) as Hle.
    { destruct (total String.le (kv_Key kv) (kv_Key x)) as [H|H]; [done|].
      apply not_ltb_le in H. congruence. }
    constructor; [by constructor|]. constructor; [by apply not_ltb_le|].
    eapply Forall_impl; [exact Hx|]. intros y Hy. apply not_ltb_le. apply not_ltb_le in Hy.
    by transitivity (kv_Key x).
  - constructor; [exact IH|]. assert (insertByKey kv l ≡ₚ kv :: l) as Hp.
    { clear. induction l as [|y l IH]; [done|]. simpl. destruct (String.ltb _ _); [done|].
      rewrite IH. apply Permutation_swap. }
    rewrite Hp. by constructor.
Qed.

Lemma sortByKey_ok : sort_ok sortByKey.
Proof.
  intros l. induction l as [|kv l [Hp Hs]]; [split; [done|constructor]|]. split.
  - simpl. rewrite <- Hp at 2. generalize (sortByKey l). intros l'.
    induction l' as [|x l' IH]; [done|]. simpl. destruct (String.ltb _ _); [done|].
    rewrite IH. apply Permutation_swap.
  - by apply insertByKey_sorted.
Qed.

Lemma word_count_perm k vs vs' : vs ≡ₚ vs' -> word_count k vs = word_count k vs'.
Proof. intros H. unfold word_count. by rewrite H. Qed.

(** Two workers with empty intermediate files for two reduce tasks. *)
Definition word_dir2 : Directory :=
  mkDirectory {["in1" := "a"; "in2" := "b"; "in3" := "a"]}%string
    {[(1, 0) := []; (1, 1) := []; (2, 0) := []; (2, 1) := []]} ∅.
Definition word_jobs : list (Z * string) := [(1, "in1"); (2, "in2"); (1, "in3")]%string.

Lemma word_ready : job_ready 2 word_jobs word_dir2.
Proof.
  assert (forall w, w = 1 \/ w = 2 -> has_files w 2 word_dir2) as Hf.
  { intros w Hw r Hr. assert (r = 0 \/ r = 1) as [-> | ->] by lia; destruct Hw as [-> | ->]; by eexists. }
  repeat constructor; simpl; try (by eexists); apply Hf; auto.
Qed.

Lemma word_empty r : intermediate r word_dir2 = [].
Proof.
  assert (Forall (fun f => snd f = []) (map_to_list (mids word_dir2))) as H
    by (vm_compute; repeat constructor).
  unfold intermediate. induction H as [|x l Hx _ IH]; [done|]. rewrite bind_cons, Hx, IH. by case_bool.
Qed.

Lemma mapreduce_equals_sequential_witness :
  exists d1 d2 out, do_maps word_map 2 word_jobs word_dir2 = Done tt d1 /\
    do_reduces sortByKey word_count (seqZ 0 2) d1 = Done tt d2 /\
    mrsequential sortByKey word_map word_count (map snd word_jobs) word_dir2 = Done out word_dir2 /\
    all_out 2 d2 ≡ₚ out.
Proof.
  apply (mapreduce_equals_sequential sortByKey word_map word_count 2 word_jobs word_dir2);
    [exact sortByKey_ok|done|exact word_count_perm|exact word_ready|].
  exact word_empty.
Defined.
