(* ===== verification/MrThreads.v ===== *)
(** The MapReduce coordinator as its goroutines run it (mr/coordinator.go,
    mr/cworker.go, mr/task.go): the handlers of the RPCs, the timers of the workers and
    Done, interleaved at every acquisition and release of a lock and every access
    to what the locks protect.

    The locks are groupLock, a RWMutex whose waiting writer keeps new readers
    out; the lock of each CWorker; stageLock; and the lock of the task container.
    A lock remembers the goroutine that took it.  What they protect is the
    [Coordinator] of MrCoordinator, whose handlers are one step each; a CWorker is known
    by its identifier, which is used once while fewer than 2^16 workers registered. *)

From S2P Require Import Prelude MrCoordinator.

Record shared := mkShared {
  co : Coordinator;
  group_w : option nat;   (* groupLock: the writer, which holds it or waits for the readers *)
  group_r : gset nat;     (* groupLock: the readers *)
  stageLock : option nat;
  contLock : option nat;
  cwLock : gmap Z nat }.

Definition set_co c (s : shared) : shared := mkShared c (group_w s) (group_r s) (stageLock s) (contLock s) (cwLock s).
Definition set_group_w o (s : shared) : shared := mkShared (co s) o (group_r s) (stageLock s) (contLock s) (cwLock s).
Definition set_group_r r (s : shared) : shared := mkShared (co s) (group_w s) r (stageLock s) (contLock s) (cwLock s).
Definition set_stageLock o (s : shared) : shared := mkShared (co s) (group_w s) (group_r s) o (contLock s) (cwLock s).
Definition set_contLock o (s : shared) : shared := mkShared (co s) (group_w s) (group_r s) (stageLock s) o (cwLock s).
Definition set_cwLock l (s : shared) : shared := mkShared (co s) (group_w s) (group_r s) (stageLock s) (contLock s) l.

(** * The locks *)

Definition on_co {A} (m : M Coordinator A) : M shared A := fun s =>
  match m (co s) with
  | Done a c => Done a (set_co c s)
  | Panicked p c => Panicked p (set_co c s)
  | Blocked c => Blocked (set_co c s)
  end.

(** groupLock.Lock: first the writer announces itself, then it waits for the readers. *)
Definition announce (i : nat) : M shared unit :=
  w ← gets group_w; match w with None => modify (set_group_w (Some i)) | Some _ => block end.
Definition enter : M shared unit :=
  r ← gets group_r; if decide (r = ∅) then mret tt else block.
Definition group_unlock : M shared unit := modify (set_group_w None).
Definition rlock (i : nat) : M shared unit :=
  w ← gets group_w;
  match w with None => modify (fun s => set_group_r ({[i]} ∪ group_r s) s) | Some _ => block end.
Definition runlock (i : nat) : M shared unit := modify (fun s => set_group_r (group_r s ∖ {[i]}) s).

Definition lock_stage (i : nat) : M shared unit :=
  l ← gets stageLock; match l with None => modify (set_stageLock (Some i)) | Some _ => block end.
Definition unlock_stage : M shared unit := modify (set_stageLock None).
Definition lock_cont (i : nat) : M shared unit :=
  l ← gets contLock; match l with None => modify (set_contLock (Some i)) | Some _ => block end.
Definition unlock_cont : M shared unit := modify (set_contLock None).
Definition lock_cw (i : nat) (id : Z) : M shared unit :=
  l ← gets cwLock; match l !! id with None => modify (set_cwLock (<[id := i]> l)) | Some _ => block end.
Definition unlock_cw (id : Z) : M shared unit := modify (fun s => set_cwLock (delete id (cwLock s)) s).

(** What a client of the group could hold a worker with; nothing calls them. *)
Definition lockWorker (i : nat) (id : Z) : M shared bool :=
  rlock i;; b ← on_co (hasWorker id);
  if (b : bool) then lock_cw i id;; runlock i;; mret true else runlock i;; mret false.
Definition unlockWorker (i : nat) (id : Z) : M shared bool :=
  rlock i;; b ← on_co (hasWorker id);
  if (b : bool) then
    l ← gets cwLock; match l !! id with None => throw UnlockOfUnlocked | Some _ => unlock_cw id;; runlock i;; mret true end
  else runlock i;; mret false.

(** The task of a CWorker the goroutine has a pointer to. *)
Definition cw_task (id : Z) : M shared (option Task) :=
  s ← gets (fun s => s); match workers (co s) !! id with Some o => mret o | None => block end.

(** * The goroutines *)

Inductive handler : Type := HGet | HFinish.
Inductive answer : Type := Reply (r : RpcReply) | IsDone (b : bool) | Expired.

(** What a goroutine does next. *)
Inductive pc : Type :=
  (* RegisterWorker, addWorker *)
  | PRegister | PAddLock (id : Z) | PAddWait (id : Z) | PAdd (id : Z) | PAddUnlock (id : Z)
  (* GetTask: the stage *)
  | PGet (id : Z) | PGetStage (id : Z) | PGetDone | PGetUnlock (id : Z)
  (* getLockedWorker *)
  | PFind (h : handler) (id : Z) | PLook (h : handler) (id : Z) | PMissing
  | PWait (h : handler) (id : Z) | PFound (h : handler) (id : Z)
  (* GetTask: the task *)
  | PCarries (id : Z) | PTakeLock (id : Z) | PTake (id : Z) | PTakeUnlock (id : Z) (o : option Task)
  | PGive (id : Z) (o : option Task) | PGetEnd (id : Z) (r : RpcReply)
  (* FinishTask *)
  | PFinish (id : Z) | PStage (id : Z) (t : Task) | PCount (id : Z) (t : Task)
  | PReduceLock (id : Z) (t : Task) | PReduce (id : Z) (t : Task) | PReduceUnlock (id : Z) (t : Task)
  | PSetStage (id : Z) (t : Task) | PStageUnlock (id : Z) (t : Task) | PClear (id : Z) (t : Task) | PFinishEnd (id : Z)
  (* HeartBeat, tickWorker *)
  | PTick (id : Z) | PTickLook (id : Z) | PTickMissing | PTickWait (id : Z) | PTickReset (id : Z) | PTickEnd
  (* removeWorker *)
  | PRemove (id : Z) | PRemoveWait (id : Z) | PRemoveLook (id : Z) | PRemoveCw (id : Z) | PRelease (id : Z)
  | PAddTaskLock (id : Z) (t : Task) | PAddTask (id : Z) (t : Task) | PAddTaskUnlock (id : Z)
  | PReleased (id : Z) | PDelete (id : Z) | PRemoveEnd
  (* Done *)
  | PDone | PDoneRead | PDoneEnd (b : bool)
  | PRet (a : answer).

(** The next step of goroutine [i]. *)
Definition turn (i : nat) (p : pc) : M shared pc :=
  match p with
  | PRegister =>
      on_co (modify (fun c => set_idacc (to_uint32 (workerIDAcc c + 1)) c));;
      c ← gets co; mret (PAddLock (to_uint16 (workerIDAcc c)))
  | PAddLock id => announce i;; mret (PAddWait id)
  | PAddWait id => enter;; mret (PAdd id)
  (* the new CWorker has a lock of its own *)
  | PAdd id => on_co (addWorker id);; unlock_cw id;; mret (PAddUnlock id)
  | PAddUnlock id => group_unlock;; c ← gets co; mret (PRet (Reply (WorkerInfo id (nReduce c))))

  | PGet id => lock_stage i;; mret (PGetStage id)
  | PGetStage id =>
      st ← on_co (gets workingStage);
      mret (if bool_decide (st = DONE) then PGetDone else PGetUnlock id)
  | PGetDone => unlock_stage;; mret (PRet (Reply NoMoreTaskRpc))
  | PGetUnlock id => unlock_stage;; mret (PFind HGet id)

  | PFind h id => rlock i;; mret (PLook h id)
  | PLook h id => b ← on_co (hasWorker id); mret (if (b : bool) then PWait h id else PMissing)
  | PMissing => runlock i;; mret (PRet (Reply InvalidWorker))
  | PWait h id => lock_cw i id;; mret (PFound h id)
  | PFound h id => runlock i;; mret (match h with HGet => PCarries id | HFinish => PFinish id end)

  | PCarries id =>
      o ← cw_task id; match o with Some _ => throw ExplicitPanic | None => mret (PTakeLock id) end
  | PTakeLock id => lock_cont i;; mret (PTake id)
  | PTake id => o ← on_co TakeTask; mret (PTakeUnlock id o)
  | PTakeUnlock id o => unlock_cont;; mret (PGive id o)
  | PGive id None => mret (PGetEnd id NoopTaskRpc)
  | PGive id (Some t) => on_co (set_worker_task id (Some t));; mret (PGetEnd id (taskToRpc t))
  | PGetEnd id r => unlock_cw id;; mret (PRet (Reply r))

  | PFinish id =>
      o ← cw_task id; match o with Some t => mret (PStage id t) | None => throw ExplicitPanic end
  | PStage id t => lock_stage i;; mret (PCount id t)
  | PCount id t =>
      st ← on_co (gets workingStage);
      match Type_ t with
      | MAP_TASK =>
          if negb (in_stage MAPPING MAP_WAITING st) then throw ExplicitPanic else
          on_co (modify (fun c => set_mapping (to_uint16 (unfinishedMappingCount c - 1)) c));;
          c ← gets co;
          mret (if unfinishedMappingCount c =? 0 then PReduceLock id t else PStageUnlock id t)
      | REDUCE_TASK =>
          if negb (in_stage REDUCING REDUCE_WAITING st) then throw ExplicitPanic else
          on_co (modify (fun c => set_reducing (to_uint16 (unfinishedReducingCount c - 1)) c));;
          c ← gets co;
          on_co (when (unfinishedReducingCount c =? 0) (modify (set_stage DONE)));;
          mret (PStageUnlock id t)
      end
  | PReduceLock id t => lock_cont i;; mret (PReduce id t)
  | PReduce id t => c ← gets co; on_co (releaseReduceTasks (nReduce c));; mret (PReduceUnlock id t)
  | PReduceUnlock id t => unlock_cont;; mret (PSetStage id t)
  | PSetStage id t => on_co (modify (set_stage REDUCING));; mret (PStageUnlock id t)
  | PStageUnlock id t => unlock_stage;; mret (PClear id t)
  | PClear id t => on_co (set_worker_task id None);; mret (PFinishEnd id)
  | PFinishEnd id => unlock_cw id;; mret (PRet (Reply OkReply))

  | PTick id => rlock i;; mret (PTickLook id)
  | PTickLook id => b ← on_co (hasWorker id); mret (if (b : bool) then PTickWait id else PTickMissing)
  | PTickMissing => runlock i;; mret (PRet (Reply InvalidWorker))
  | PTickWait id => lock_cw i id;; mret (PTickReset id)
  | PTickReset id => unlock_cw id;; mret PTickEnd
  | PTickEnd => runlock i;; mret (PRet (Reply OkReply))

  | PRemove id => announce i;; mret (PRemoveWait id)
  | PRemoveWait id => enter;; mret (PRemoveLook id)
  | PRemoveLook id => b ← on_co (hasWorker id); mret (if (b : bool) then PRemoveCw id else PRemoveEnd)
  | PRemoveCw id => lock_cw i id;; mret (PRelease id)
  | PRelease id =>
      o ← cw_task id; mret (match o with Some t => PAddTaskLock id t | None => PReleased id end)
  | PAddTaskLock id t => lock_cont i;; mret (PAddTask id t)
  | PAddTask id t => on_co (AddTask t);; mret (PAddTaskUnlock id)
  | PAddTaskUnlock id => unlock_cont;; mret (PReleased id)
  | PReleased id => on_co (set_worker_task id None);; mret (PDelete id)
  (* the CWorker goes, with its lock *)
  | PDelete id => on_co (modify (fun c => set_workers (delete id (workers c)) c));; unlock_cw id;; mret PRemoveEnd
  | PRemoveEnd => group_unlock;; mret (PRet Expired)

  | PDone => lock_stage i;; mret PDoneRead
  | PDoneRead => b ← on_co Done_; mret (PDoneEnd b)
  | PDoneEnd b => unlock_stage;; mret (PRet (IsDone b))
  | PRet _ => block
  end.

(** * The machine *)

Record machine := mkMachine { sh : shared; thr : gmap nat pc }.

(** A call of a handler or of Done, or a timer that fires. *)
Inductive request : Type :=
  | RegisterCall | GetCall (id : Z) | FinishCall (id : Z) | HeartBeatCall (id : Z) | DoneCall | TimerFires (id : Z).

Definition first_pc (r : request) : pc :=
  match r with
  | RegisterCall => PRegister
  | GetCall id => PGet id
  | FinishCall id => PFind HFinish id
  | HeartBeatCall id => PTick id
  | DoneCall => PDone
  | TimerFires id => PRemove id
  end.

Inductive maction : Type := Spawn (i : nat) (r : request) | Go (i : nat).

Definition go (i : nat) : M machine unit := fun m =>
  match thr m !! i with
  | None => Blocked m
  | Some p =>
      match turn i p (sh m) with
      | Done p' s => Done tt (mkMachine s (<[i := p']> (thr m)))
      | Panicked e s => Panicked e (mkMachine s (thr m))
      | Blocked s => Blocked (mkMachine s (thr m))
      end
  end.

Definition mexec (a : maction) : M machine unit :=
  match a with
  | Spawn i r =>
      m ← gets (fun m => m);
      match thr m !! i with
      | None => modify (fun m => mkMachine (sh m) (<[i := first_pc r]> (thr m)))
      | Some _ => block
      end
  | Go i => go i
  end.

(** The step does not use up the identifiers. *)
Definition spare_id (a : maction) (m : machine) : bool :=
  match a with
  | Go i => match thr m !! i with Some PRegister => workerIDAcc (co (sh m)) + 1 <? 2^16 | _ => true end
  | Spawn _ _ => true
  end.

Definition mstep (m m' : machine) : Prop := exists a, spare_id a m = true /\ mexec a m = Done tt m'.

Definition boot_machine (fs : list string) (n : Z) : machine :=
  mkMachine (mkShared (MakeCoordinator fs n) None ∅ None None ∅) ∅.

Fixpoint mrun (l : list maction) : M machine unit :=
  match l with
  | [] => mret tt
  | a :: l => b ← gets (spare_id a); if (b : bool) then mexec a;; mrun l else block
  end.
