(* ===== verification/MrThreadsProof.v ===== *)
(** The coordinator's goroutines refine its one-step handlers: the invariant that relates
    a state of the machine to a state of MrCoordinator.

    A handler takes effect at one of its steps: FinishTask where it counts the task
    or, for the last map task, where it queues the reduce tasks; GetTask where it takes a
    task from the queue; removeWorker where it gives the task back; RegisterWorker where
    it draws the identifier.  Around that step, the locks the goroutine holds hide the
    difference between the two states. *)

From S2P Require Import Prelude MrCoordinator MrThreads.

(** * Who holds what *)

Definition announces (p : pc) : bool :=
  match p with
  | PAddWait _ | PAdd _ | PAddUnlock _ | PRemoveWait _ | PRemoveLook _ | PRemoveCw _ | PRelease _ | PAddTaskLock _ _
  | PAddTask _ _ | PAddTaskUnlock _ | PReleased _ | PDelete _ | PRemoveEnd => true
  | _ => false
  end.

Definition entered (p : pc) : bool :=
  match p with PAddWait _ | PRemoveWait _ => false | _ => announces p end.

Definition reads (p : pc) : bool :=
  match p with
  | PLook _ _ | PMissing | PWait _ _ | PFound _ _ | PTickLook _ | PTickMissing | PTickWait _ | PTickReset _ | PTickEnd => true
  | _ => false
  end.

Definition holds_stage (p : pc) : bool :=
  match p with
  | PGetStage _ | PGetDone | PGetUnlock _ | PCount _ _ | PReduceLock _ _ | PReduce _ _ | PReduceUnlock _ _
  | PSetStage _ _ | PStageUnlock _ _ | PDoneRead | PDoneEnd _ => true
  | _ => false
  end.

Definition holds_cont (p : pc) : bool :=
  match p with
  | PTake _ | PTakeUnlock _ _ | PReduce _ _ | PReduceUnlock _ _ | PAddTask _ _ | PAddTaskUnlock _ => true
  | _ => false
  end.

Definition holds_cw (p : pc) : option Z :=
  match p with
  | PFound _ id | PCarries id | PTakeLock id | PTake id | PTakeUnlock id _ | PGive id _ | PGetEnd id _
  | PFinish id | PStage id _ | PCount id _ | PReduceLock id _ | PReduce id _ | PReduceUnlock id _
  | PSetStage id _ | PStageUnlock id _ | PClear id _ | PFinishEnd id | PTickReset id
  | PRelease id | PAddTaskLock id _ | PAddTask id _ | PAddTaskUnlock id | PReleased id | PDelete id => Some id
  | _ => None
  end.

(** The worker the goroutine has found and whose lock it waits for. *)
Definition waits_cw (p : pc) : option Z :=
  match p with PWait _ id | PTickWait id | PRemoveCw id => Some id | _ => None end.

(** The identifier that is drawn and not yet in the group. *)
Definition pending (p : pc) : option Z :=
  match p with PAddLock id | PAddWait id | PAdd id => Some id | _ => None end.

(** A lock's owner is the goroutine that is where the lock is held. *)
Definition owner_ok (o : option nat) (ts : gmap nat pc) (h : pc -> bool) : Prop :=
  forall i, o = Some i <-> exists p, ts !! i = Some p /\ h p = true.

Definition readers_ok (r : gset nat) (ts : gmap nat pc) : Prop :=
  forall i, i ∈ r <-> exists p, ts !! i = Some p /\ reads p = true.

Definition at_cw (id : Z) (p : pc) : bool := bool_decide (holds_cw p = Some id).

(** * What a goroutine knows *)

(** The entry of the worker it has locked, in the machine and in MrCoordinator. *)
Definition entry_rel (p : pc) (e ge : option (option Task)) : Prop :=
  match p with
  | PTakeLock _ | PTake _ => e = Some None /\ ge = Some None
  | PTakeUnlock _ o | PGive _ o => e = Some None /\ ge = Some o
  | PStage _ t | PCount _ t | PReduceLock _ t | PReduce _ t | PAddTaskLock _ t | PAddTask _ t =>
      e = Some (Some t) /\ ge = Some (Some t)
  | PReduceUnlock _ t | PSetStage _ t | PStageUnlock _ t | PClear _ t => e = Some (Some t) /\ ge = Some None
  | PAddTaskUnlock _ | PReleased _ | PDelete _ => is_Some e /\ ge = None
  | _ => is_Some e /\ ge = e
  end.

Definition counts (c : Coordinator) : Z * Z * StageEnum :=
  (unfinishedMappingCount c, unfinishedReducingCount c, workingStage c).

(** What stageLock protects. *)
Definition stage_rel (p : pc) (c g : Coordinator) : Prop :=
  match p with
  | PReduceLock _ t | PReduce _ t =>
      Type_ t = MAP_TASK /\ to_uint16 (unfinishedMappingCount g - 1) = 0 /\
      counts c = (0, unfinishedReducingCount g, workingStage g)
  | PReduceUnlock _ _ | PSetStage _ _ =>
      workingStage g = REDUCING /\ counts (set_stage REDUCING c) = counts g
  | _ => counts c = counts g
  end.

Record fact (p : pc) (c g : Coordinator) : Prop := {
  f_entry : forall id, holds_cw p = Some id -> entry_rel p (workers c !! id) (workers g !! id);
  f_stage : holds_stage p = true -> stage_rel p c g;
  f_waits : forall id, waits_cw p = Some id -> is_Some (workers c !! id);
  f_pending : forall id, pending p = Some id ->
    workers c !! id = None /\ workers g !! id = Some None /\ id <= workerIDAcc c }.

(** * The invariant *)

(** What is the same in both states at any time. *)
Definition constants (c : Coordinator) : list string * Z * Z * list Task :=
  (files c, nReduce c, workerIDAcc c, tasks c).

Record sim (m : machine) (g : Coordinator) : Prop := {
  s_group : owner_ok (group_w (sh m)) (thr m) announces;
  s_readers : readers_ok (group_r (sh m)) (thr m);
  s_entered : forall i p, thr m !! i = Some p -> entered p = true -> group_r (sh m) = ∅;
  s_stage : owner_ok (stageLock (sh m)) (thr m) holds_stage;
  s_cont : owner_ok (contLock (sh m)) (thr m) holds_cont;
  s_cw : forall id, owner_ok (cwLock (sh m) !! id) (thr m) (at_cw id);
  s_constants : constants (co (sh m)) = constants g;
  s_facts : forall i p, thr m !! i = Some p -> fact p (co (sh m)) g;
  s_pending : forall i j p q id,
    thr m !! i = Some p -> thr m !! j = Some q -> pending p = Some id -> pending q = Some id -> i = j;
  s_bound : forall id, is_Some (workers (co (sh m)) !! id) -> id <= workerIDAcc (co (sh m));
  s_free : forall id o, workers (co (sh m)) !! id = Some o -> cwLock (sh m) !! id = None -> workers g !! id = Some o;
  s_absent : forall id, workers (co (sh m)) !! id = None ->
    workers g !! id = None \/ exists i p, thr m !! i = Some p /\ pending p = Some id;
  s_counts : stageLock (sh m) = None -> counts (co (sh m)) = counts g }.

(** ** A lock from one step to the next *)

Definition moves (i : nat) (o o' : option nat) (b b' : bool) : Prop :=
  (o' = o /\ b' = b) \/ (o = None /\ o' = Some i /\ b' = true) \/ (b = true /\ o' = None /\ b' = false).

Definition moves_readers (i : nat) (r r' : gset nat) (b b' : bool) : Prop :=
  (r' = r /\ b' = b) \/ (r' = {[i]} ∪ r /\ b' = true) \/ (r' = r ∖ {[i]} /\ b' = false).

Lemma at_thread (ts : gmap nat pc) i p (h : pc -> bool) :
  ts !! i = Some p -> (exists q, ts !! i = Some q /\ h q = true) <-> h p = true.
Proof. intros ->. split; [by intros (q & [= <-] & ?)|eauto]. Qed.

Lemma owner_ok_moves o o' ts h i p p' :
  owner_ok o ts h -> ts !! i = Some p -> moves i o o' (h p) (h p') -> owner_ok o' (<[i := p']> ts) h.
Proof.
  intros Ho Hi Hm j. destruct (decide (j = i)) as [->|Hne].
  - rewrite (at_thread _ _ p') by apply lookup_insert_eq. specialize (Ho i). rewrite (at_thread _ _ p) in Ho by done.
    destruct Hm as [[-> ->]|[(-> & -> & ->)|(E1 & -> & ->)]]; [done|done|]. split; done.
  - rewrite lookup_insert_ne by done. destruct Hm as [[-> E]|[(-> & -> & E)|(E1 & -> & E)]]; [apply Ho|..];
      rewrite <- (Ho j).
    + split; [by intros [= ->]|done].
    + assert (o = Some i) as -> by (apply Ho; eauto). split; [done|by intros [= ->]].
Qed.

Lemma readers_ok_moves r r' ts i p p' :
  readers_ok r ts -> ts !! i = Some p -> moves_readers i r r' (reads p) (reads p') ->
  readers_ok r' (<[i := p']> ts).
Proof.
  intros Ho Hi Hm j. specialize (Ho j). destruct (decide (j = i)) as [->|Hne].
  - rewrite (at_thread _ _ p') by apply lookup_insert_eq. rewrite (at_thread _ _ p) in Ho by done.
    destruct Hm as [[-> ->]|[[-> ->]|[-> ->]]]; [done|set_solver..].
  - rewrite lookup_insert_ne by done. rewrite <- Ho. destruct Hm as [[-> E]|[[-> E]|[-> E]]]; set_solver.
Qed.

Lemma owner_unique o ts h i j p q :
  owner_ok o ts h -> ts !! i = Some p -> h p = true -> ts !! j = Some q -> h q = true -> i = j.
Proof.
  intros Ho Hi Hp Hj Hq. assert (o = Some i) as E1 by (apply Ho; eauto).
  assert (o = Some j) as E2 by (apply Ho; eauto). congruence.
Qed.

Record locks_move (i : nat) (s s' : shared) (p p' : pc) : Prop := {
  lm_group : moves i (group_w s) (group_w s') (announces p) (announces p');
  lm_readers : moves_readers i (group_r s) (group_r s') (reads p) (reads p');
  lm_entered : entered p' = true -> announces p = true /\ (entered p = true \/ group_r s = ∅);
  lm_reader : group_r s' ⊆ group_r s \/ group_w s = None;
  lm_stage : moves i (stageLock s) (stageLock s') (holds_stage p) (holds_stage p');
  lm_cont : moves i (contLock s) (contLock s') (holds_cont p) (holds_cont p');
  lm_cw : forall id, moves i (cwLock s !! id) (cwLock s' !! id) (at_cw id p) (at_cw id p') }.

(** What a step may change: the entry of the worker the goroutine holds or adds,
    and the counts while it holds stageLock. *)
Record data_moves (p p' : pc) (c c' g g' : Coordinator) : Prop := {
  dm_constants : constants c' = constants g';
  dm_acc : workerIDAcc c <= workerIDAcc c';
  dm_co : forall id, holds_cw p <> Some id -> pending p <> Some id -> workers c' !! id = workers c !! id;
  dm_g : forall id, holds_cw p <> Some id -> pending p <> Some id ->
    workers g' !! id = workers g !! id \/ (workerIDAcc c < id /\ pending p' = Some id);
  dm_some : forall id, is_Some (workers c !! id) -> is_Some (workers c' !! id) \/ entered p = true;
  dm_counts : holds_stage p = true \/ (counts c' = counts c /\ counts g' = counts g);
  dm_leave_cw : forall id, holds_cw p = Some id -> holds_cw p' <> Some id -> workers c' !! id = workers g' !! id;
  dm_leave_pending : forall id, pending p = Some id -> pending p' <> Some id -> workers c' !! id = workers g' !! id;
  dm_pending : forall id, pending p' = Some id -> pending p = Some id \/ workerIDAcc c < id;
  dm_leave_stage : holds_stage p = true -> holds_stage p' = false -> counts c' = counts g' }.

Lemma entry_some p id e ge : holds_cw p = Some id -> entry_rel p e ge -> is_Some e.
Proof. destruct p; simpl; intros Hp [H _]; subst; done || by eexists. Qed.

Lemma stage_rel_counts p c g c' g' :
  counts c' = counts c -> counts g' = counts g -> stage_rel p c g -> stage_rel p c' g'.
Proof.
  destruct c, g, c', g'. unfold counts. simpl. intros [= -> -> ->] [= -> -> ->].
  destruct p; simpl; auto.
Qed.

Lemma waits_how p id : waits_cw p = Some id -> reads p = true \/ entered p = true.
Proof. destruct p; simpl; auto; done. Qed.

Lemma entered_announces p : entered p = true -> announces p = true.
Proof. by destruct p. Qed.

(** The facts of the other goroutines. *)
Section others.
Context (s s' : shared) (ts : gmap nat pc) (g g' : Coordinator) (i : nat) (p p' : pc).
Context (Hs : sim (mkMachine s ts) g) (Hi : ts !! i = Some p).
Context (Hl : locks_move i s s' p p') (Hd : data_moves p p' (co s) (co s') g g').

Lemma held_some j q id : ts !! j = Some q -> holds_cw q = Some id -> is_Some (workers (co s) !! id).
Proof. intros Hj Hq. eapply entry_some; [done|]. by eapply f_entry; [apply (s_facts _ _ Hs j)|]. Qed.

Lemma held_once j q id : ts !! j = Some q -> holds_cw q = Some id -> holds_cw p = Some id -> j = i.
Proof.
  intros Hj Hq Hp. eapply (owner_unique _ ts (at_cw id)); [apply (s_cw _ _ Hs)|done| |done|];
    by apply bool_decide_eq_true_2.
Qed.

Lemma pending_absent j q id : ts !! j = Some q -> pending q = Some id -> workers (co s) !! id = None.
Proof. intros Hj Hq. by eapply f_pending; [apply (s_facts _ _ Hs j)|]. Qed.

(** A worker that another goroutine holds or adds is not touched. *)
Lemma untouched j q id :
  ts !! j = Some q -> j <> i -> holds_cw q = Some id \/ pending q = Some id ->
  workers (co s') !! id = workers (co s) !! id /\ workers g' !! id = workers g !! id.
Proof.
  intros Hj Hne Hq.
  assert (holds_cw p <> Some id) as H1.
  { intros Hp. destruct Hq as [Hq|Hq]; [by apply Hne, (held_once j q id)|].
    apply (held_some i) in Hp; [|done]. rewrite (pending_absent j q id) in Hp by done. by destruct Hp. }
  assert (pending p <> Some id) as H2.
  { intros Hp. destruct Hq as [Hq|Hq]; [|by apply Hne, (s_pending _ _ Hs j i q p id)].
    apply (held_some j) in Hq; [|done]. rewrite (pending_absent i p id) in Hq by done. by destruct Hq. }
  split; [by apply (dm_co _ _ _ _ _ _ Hd)|]. destruct (dm_g _ _ _ _ _ _ Hd id H1 H2) as [|[H3 _]]; [done|].
  assert (id <= workerIDAcc (co s)); [|lia]. destruct Hq as [Hq|Hq].
  - apply (s_bound _ _ Hs). by eapply held_some.
  - by eapply (f_pending q); [apply (s_facts _ _ Hs j)|].
Qed.

Lemma entered_alone j q : ts !! j = Some q -> j <> i -> reads q = true \/ entered q = true -> entered p = false.
Proof.
  intros Hj Hne Hq. destruct (entered p) eqn:Hp; [|done]. destruct Hq as [Hq|Hq].
  - pose proof (s_entered _ _ Hs i p Hi Hp) as E. assert (j ∈ group_r s) as H by (apply (s_readers _ _ Hs); eauto).
    simpl in E. rewrite E in H. set_solver.
  - destruct Hne. eapply (owner_unique _ ts announces); [apply (s_group _ _ Hs)|done| |done|]; by apply entered_announces.
Qed.

Lemma other_fact j q : ts !! j = Some q -> j <> i -> fact q (co s') g'.
Proof.
  intros Hj Hne. pose proof (s_facts _ _ Hs j q Hj) as [F1 F2 F3 F4]. simpl in *. constructor.
  - intros id Hq. destruct (untouched j q id) as [-> ->]; eauto.
  - intros Hq. destruct (dm_counts _ _ _ _ _ _ Hd) as [Hp|[E1 E2]].
    + destruct Hne. by eapply (owner_unique _ ts holds_stage); [apply (s_stage _ _ Hs)|..].
    + eapply stage_rel_counts; eauto.
  - intros id Hq. destruct (dm_some _ _ _ _ _ _ Hd id) as [|Hp]; [auto|done|].
    rewrite (entered_alone j q Hj Hne) in Hp; [done|by eapply waits_how].
  - intros id Hq. destruct (F4 id Hq) as (H1 & H2 & H3). destruct (untouched j q id) as [-> ->]; [eauto..|].
    pose proof (dm_acc _ _ _ _ _ _ Hd). split_and!; [done..|lia].
Qed.

Lemma entered_update j q : <[i := p']> ts !! j = Some q -> entered q = true -> group_r s' = ∅.
Proof.
  intros Hj Hq.
  assert (group_r s = ∅ /\ group_w s <> None) as [E1 E2].
  { destruct (decide (j = i)) as [->|Hne].
    - rewrite lookup_insert_eq in Hj. injection Hj as <-. destruct (lm_entered _ _ _ _ _ Hl Hq) as [H1 H2].
      assert (group_w s = Some i) as -> by (apply (s_group _ _ Hs); eauto). split; [|done].
      destruct H2 as [H2|]; [|done]. by apply (s_entered _ _ Hs i p).
    - rewrite lookup_insert_ne in Hj by done. split; [by apply (s_entered _ _ Hs j q)|].
      assert (group_w s = Some j) as ->; [|done]. apply (s_group _ _ Hs). eauto using entered_announces. }
  destruct (lm_reader _ _ _ _ _ Hl) as [H|H]; [set_solver|done].
Qed.

(** The worker [id], with respect to the goroutine that moves. *)
Lemma worker_cases id :
  (holds_cw p = Some id \/ pending p = Some id) \/
  (workers (co s') !! id = workers (co s) !! id /\
   (workers g' !! id = workers g !! id \/ (workerIDAcc (co s) < id /\ pending p' = Some id))).
Proof.
  destruct (decide (holds_cw p = Some id)); [eauto|]. destruct (decide (pending p = Some id)); [eauto|].
  right. split; [by apply (dm_co _ _ _ _ _ _ Hd)|by apply (dm_g _ _ _ _ _ _ Hd)].
Qed.

Lemma moved_worker id :
  holds_cw p = Some id \/ pending p = Some id -> holds_cw p' <> Some id -> pending p' <> Some id ->
  workers (co s') !! id = workers g' !! id.
Proof.
  intros [H|H] H1 H2; [by apply (dm_leave_cw _ _ _ _ _ _ Hd)|by apply (dm_leave_pending _ _ _ _ _ _ Hd)].
Qed.

Lemma bound_update id : is_Some (workers (co s') !! id) -> id <= workerIDAcc (co s').
Proof.
  intros H. pose proof (dm_acc _ _ _ _ _ _ Hd) as Ha. enough (id <= workerIDAcc (co s)) by lia.
  destruct (worker_cases id) as [[Hp|Hp]|[E _]].
  - apply (s_bound _ _ Hs). by apply (held_some i p).
  - by eapply (f_pending p); [apply (s_facts _ _ Hs i)|].
  - rewrite E in H. by apply (s_bound _ _ Hs).
Qed.

Lemma free_update id o :
  fact p' (co s') g' -> workers (co s') !! id = Some o -> cwLock s' !! id = None -> workers g' !! id = Some o.
Proof.
  intros F Ho Hf. pose proof (lm_cw _ _ _ _ _ Hl id) as Hm. rewrite Hf in Hm. unfold at_cw in Hm.
  assert (holds_cw p' <> Some id) as Hp'.
  { intros E. destruct Hm as [[H1 H2]|[(_ & ? & _)|(_ & _ & H2)]]; [|done|by apply bool_decide_eq_false in H2].
    rewrite (bool_decide_eq_true_2 _ E) in H2. symmetry in H2. apply bool_decide_eq_true in H2.
    assert (cwLock s !! id = Some i) as E'; [|simpl in *; congruence].
    apply (s_cw _ _ Hs id). exists p. split; [done|]. by apply bool_decide_eq_true_2. }
  assert (pending p' <> Some id) as Hq'.
  { intros E. destruct (f_pending _ _ _ F id E) as (H & _). congruence. }
  destruct (decide (holds_cw p = Some id)) as [Hp|Hp]; [by rewrite <- (moved_worker id) by eauto|].
  destruct (worker_cases id) as [Hp1|[E [E'|[_ ?]]]]; [by rewrite <- (moved_worker id)| |done].
  rewrite E'. apply (s_free _ _ Hs); simpl; [by rewrite <- E|].
  destruct Hm as [[H1 _]|[(H1 & _)|(H1 & _)]]; [done|done|by apply bool_decide_eq_true in H1].
Qed.

Lemma absent_update id :
  fact p' (co s') g' -> workers (co s') !! id = None ->
  workers g' !! id = None \/ exists j q, <[i := p']> ts !! j = Some q /\ pending q = Some id.
Proof.
  intros F Hn. destruct (decide (pending p' = Some id)) as [Hp'|Hp'].
  { right. exists i, p'. by rewrite lookup_insert_eq. }
  assert (holds_cw p' <> Some id) as Hq'.
  { intros E. pose proof (entry_some _ _ _ _ E (f_entry _ _ _ F id E)) as H. rewrite Hn in H. by destruct H. }
  destruct (decide (holds_cw p = Some id \/ pending p = Some id)) as [Hp|Hp].
  { left. by rewrite <- (moved_worker id). }
  destruct (worker_cases id) as [?|[E [E'|[_ ?]]]]; [done| |done].
  rewrite E in Hn. destruct (s_absent _ _ Hs id Hn) as [Hg|(j & q & Hj & Hq)]; [left; congruence|].
  right. exists j, q. split; [|done]. rewrite lookup_insert_ne; [done|]. intros ->. simpl in Hj. naive_solver.
Qed.

Lemma pending_update j k q r id :
  <[i := p']> ts !! j = Some q -> <[i := p']> ts !! k = Some r -> pending q = Some id -> pending r = Some id -> j = k.
Proof.
  assert (forall l t, ts !! l = Some t -> l <> i -> pending t = Some id -> pending p' = Some id -> False) as Hx.
  { intros l t Hlt Hne Ht Hp. destruct (dm_pending _ _ _ _ _ _ Hd id Hp) as [H|H].
    - by apply Hne, (s_pending _ _ Hs l i t p id).
    - destruct (f_pending _ _ _ (s_facts _ _ Hs l t Hlt) id Ht) as (_ & _ & H'). simpl in H'. lia. }
  intros [[-> ->]|[Hji Hj]]%lookup_insert_Some [[-> ->]|[Hki Hk]]%lookup_insert_Some Hq Hr; [done|..].
  - by destruct (Hx k r).
  - by destruct (Hx j q).
  - by apply (s_pending _ _ Hs j k q r id).
Qed.

Lemma counts_update : stageLock s' = None -> counts (co s') = counts g'.
Proof.
  intros Hf. pose proof (lm_stage _ _ _ _ _ Hl) as Hm. rewrite Hf in Hm.
  destruct (holds_stage p) eqn:Hp.
  - destruct Hm as [[H1 H2]|[(H1 & ? & H3)|(H1 & H2 & H3)]]; [|done|by apply (dm_leave_stage _ _ _ _ _ _ Hd)].
    assert (stageLock s = Some i) as E by (apply (s_stage _ _ Hs); eauto). congruence.
  - destruct (dm_counts _ _ _ _ _ _ Hd) as [?|[-> ->]]; [congruence|]. apply (s_counts _ _ Hs). simpl.
    by destruct Hm as [[H1 H2]|[(H1 & ? & H3)|(H1 & H2 & H3)]].
Qed.

Lemma sim_update : fact p' (co s') g' -> sim (mkMachine s' (<[i := p']> ts)) g'.
Proof.
  intros F. constructor; simpl.
  - eapply owner_ok_moves; [apply (s_group _ _ Hs)|done|apply (lm_group _ _ _ _ _ Hl)].
  - eapply readers_ok_moves; [apply (s_readers _ _ Hs)|done|apply (lm_readers _ _ _ _ _ Hl)].
  - apply entered_update.
  - eapply owner_ok_moves; [apply (s_stage _ _ Hs)|done|apply (lm_stage _ _ _ _ _ Hl)].
  - eapply owner_ok_moves; [apply (s_cont _ _ Hs)|done|apply (lm_cont _ _ _ _ _ Hl)].
  - intros id. eapply owner_ok_moves; [apply (s_cw _ _ Hs)|done|apply (lm_cw _ _ _ _ _ Hl)].
  - apply (dm_constants _ _ _ _ _ _ Hd).
  - intros j q [[-> ->]|[Hne Hj]]%lookup_insert_Some; [done|]. by apply (other_fact j q).
  - intros j k q r id. apply pending_update.
  - apply bound_update.
  - intros id o. by apply free_update.
  - intros id. by apply absent_update.
  - apply counts_update.
Qed.
End others.
