(* ===== verification/MrThreadsSim.v ===== *)
(** The coordinator's goroutines refine its one-step handlers: every step of the
    machine keeps the invariant, the handlers taking effect along the way. *)

From S2P Require Import Prelude MrCoordinator MrThreads MrThreadsProof.

(** * The locks at a step *)

Lemma moves_same i o b : moves i o o b b.
Proof. by left. Qed.
Lemma moves_take i o : o = None -> moves i o (Some i) false true.
Proof. intros ->. right. by left. Qed.
Lemma moves_drop i o : moves i o None true false.
Proof. right. by right. Qed.
Lemma readers_same i r b : moves_readers i r r b b.
Proof. by left. Qed.
Lemma readers_take i r : moves_readers i r ({[i]} ∪ r) false true.
Proof. right. by left. Qed.
Lemma readers_drop i r : moves_readers i r (r ∖ {[i]}) true false.
Proof. right. by right. Qed.

Lemma cw_same i (l : gmap Z nat) p p' : holds_cw p' = holds_cw p -> forall id, moves i (l !! id) (l !! id) (at_cw id p) (at_cw id p').
Proof. intros E id. unfold at_cw. rewrite E. apply moves_same. Qed.

Lemma cw_take i (l : gmap Z nat) p p' k :
  l !! k = None -> holds_cw p = None -> holds_cw p' = Some k ->
  forall id, moves i (l !! id) (<[k := i]> l !! id) (at_cw id p) (at_cw id p').
Proof.
  intros Hl Hp Hp' id. unfold at_cw. rewrite Hp, Hp'. destruct (decide (id = k)) as [->|Hne].
  - rewrite lookup_insert_eq, Hl, (bool_decide_eq_true_2 (Some k = Some k)) by done. by apply moves_take.
  - rewrite lookup_insert_ne, (bool_decide_eq_false_2 (Some k = Some id)) by congruence. apply moves_same.
Qed.

Lemma cw_drop i (l : gmap Z nat) p p' k :
  holds_cw p = Some k -> holds_cw p' = None ->
  forall id, moves i (l !! id) (delete k l !! id) (at_cw id p) (at_cw id p').
Proof.
  intros Hp Hp' id. unfold at_cw. rewrite Hp, Hp'. destruct (decide (id = k)) as [->|Hne].
  - rewrite lookup_delete_eq, (bool_decide_eq_true_2 (Some k = Some k)) by done. by apply moves_drop.
  - rewrite lookup_delete_ne, (bool_decide_eq_false_2 (Some k = Some id)) by congruence. apply moves_same.
Qed.

Create HintDb mr_locks.
#[export] Hint Resolve moves_same moves_take moves_drop readers_same readers_take readers_drop : mr_locks.

Ltac locks :=
  constructor; simpl;
  lazymatch goal with
  | |- forall id, moves _ _ (delete _ _ !! id) _ _ => by apply cw_drop
  | |- forall id, moves _ _ (<[_ := _]> _ !! id) _ _ => by apply cw_take
  | |- forall id, moves _ _ _ _ _ => by apply cw_same
  | |- _ \/ group_w _ = None => try (by right); left; set_solver
  | |- _ => eauto with mr_locks
  end; try done.

(** What is found in a free lock. *)
Lemma free_entry s ts g id :
  sim (mkMachine s ts) g -> is_Some (workers (co s) !! id) -> cwLock s !! id = None ->
  is_Some (workers (co s) !! id) /\ workers g !! id = workers (co s) !! id.
Proof. intros Hs [o E] Hf. split; [by eexists|]. rewrite E. by apply (s_free _ _ Hs). Qed.

Lemma free_counts s ts g : sim (mkMachine s ts) g -> stageLock s = None -> counts (co s) = counts g.
Proof. intros Hs. apply (s_counts _ _ Hs). Qed.

#[export] Hint Resolve free_entry free_counts : mr_locks.

(** The facts after a step that leaves the data as it is. *)
Ltac facts :=
  intros [F1 F2 F3 F4]; constructor; simpl in *; intros; simplify_eq; repeat case_bool_decide; try destruct (F1 _ eq_refl) as [? ?];
  simplify_eq; eauto with mr_locks; try (split; congruence); try congruence;
  try (split; [by eexists|congruence]).

(** * A step that leaves the data as it is *)

Lemma data_quiet p p' c g :
  constants c = constants g -> fact p c g -> pending p' = pending p ->
  (forall id, holds_cw p = Some id -> holds_cw p' = None -> forall e ge, entry_rel p e ge -> e = ge) ->
  (holds_stage p = true -> holds_stage p' = false -> stage_rel p c g -> counts c = counts g) ->
  holds_cw p' = holds_cw p \/ holds_cw p' = None \/ holds_cw p = None ->
  data_moves p p' c c g g.
Proof.
  intros Hc F Hp Hcw Hst Hh. constructor; auto; [lia|..].
  - intros id H1 H2. assert (holds_cw p' = None) as H by (destruct Hh as [Hh|[Hh|Hh]]; congruence).
    apply (Hcw id H1 H). by apply (f_entry _ _ _ F).
  - intros id H1 H2. congruence.
  - intros id H1. left. congruence.
  - intros H1 H2. apply Hst; [done..|]. by apply (f_stage _ _ _ F).
Qed.

(** What a step of a goroutine does, by computation. *)
Ltac turn_inv E :=
  unfold turn, announce, enter, group_unlock, rlock, runlock, lock_stage, unlock_stage, lock_cont, unlock_cont, lock_cw,
    unlock_cw, cw_task, on_co, hasWorker, Done_, TakeTask, AddTask, set_worker_task, addWorker, mbind, M_bind, mret, M_ret,
    gets, modify, throw, block, when in E; simpl in E; repeat case_match;
  repeat match goal with H : mret _ _ = Done _ _ |- _ => injection H as ? ? end; simplify_eq/=.

Lemma turn_reduce i id t s :
  turn i (PReduce id t) s = Done (PReduceUnlock id t) (set_co (set_tasks (tasks (co s) ++ reduce_tasks (nReduce (co s))) (co s)) s).
Proof.
  cbn [turn]. rewrite bind_gets. unfold on_co, mbind, M_bind. by rewrite releaseReduceTasks_run.
Qed.

Section step.
Context (fs : list string) (n : Z) (Hfs : 0 < lenZ fs < 2^16) (Hn : 0 < n < 2^16).

(** One step of the machine is none or one of MrCoordinator. *)
Definition refines (m' : machine) (w : mr_world) : Prop :=
  exists w', rtc mr_step w w' /\ sim m' (coord w').

Lemma quiet_refines s s' ts w i p p' :
  sim (mkMachine s ts) (coord w) -> ts !! i = Some p -> locks_move i s s' p p' -> co s' = co s ->
  pending p' = pending p ->
  (forall id, holds_cw p = Some id -> holds_cw p' = None -> forall e ge, entry_rel p e ge -> e = ge) ->
  (holds_stage p = true -> holds_stage p' = false -> stage_rel p (co s) (coord w) -> counts (co s) = counts (coord w)) ->
  holds_cw p' = holds_cw p \/ holds_cw p' = None \/ holds_cw p = None ->
  (fact p (co s) (coord w) -> fact p' (co s) (coord w)) ->
  refines (mkMachine s' (<[i := p']> ts)) w.
Proof.
  intros Hs Hi Hl Hc Hp Hcw Hst Hh Hf. exists w. split; [apply rtc_refl|].
  pose proof (s_facts _ _ Hs i p Hi) as F. simpl in F.
  apply (sim_update s s' ts _ _ i p p' Hs Hi Hl); rewrite Hc; [|auto].
  apply data_quiet; auto. apply (s_constants _ _ Hs).
Qed.

Ltac quiet :=
  eapply quiet_refines;
  [eassumption|eassumption|locks; eauto|reflexivity|reflexivity
  |let H := fresh in simpl; intros ? ? ? ? ? H; first [done|destruct H; congruence]
  |simpl; intros; done
  |simpl; auto
  |facts].

(** ** A step on the worker the goroutine holds *)

Lemma own_refines s s' ts w w' i p p' id :
  sim (mkMachine s ts) (coord w) -> ts !! i = Some p -> rtc mr_step w w' -> locks_move i s s' p p' ->
  holds_cw p = Some id -> pending p = None -> pending p' = None -> waits_cw p' = None ->
  constants (co s') = constants (coord w') -> workerIDAcc (co s') = workerIDAcc (co s) ->
  (forall j, j <> id -> workers (co s') !! j = workers (co s) !! j /\ workers (coord w') !! j = workers (coord w) !! j) ->
  (holds_cw p' = Some id /\ entry_rel p' (workers (co s') !! id) (workers (coord w') !! id) \/
   holds_cw p' = None /\ entered p = true /\ workers (co s') !! id = workers (coord w') !! id) ->
  (holds_stage p = true \/ counts (co s') = counts (co s) /\ counts (coord w') = counts (coord w)) ->
  (holds_stage p = true -> holds_stage p' = false -> counts (co s') = counts (coord w')) ->
  (holds_stage p' = true -> stage_rel p' (co s') (coord w')) ->
  refines (mkMachine s' (<[i := p']> ts)) w.
Proof.
  intros Hs Hi Hr Hl Hp Hpp Hpp' Hw' Hc Ha Hj He Hst Hst1 Hst2. exists w'. split; [done|].
  assert (forall j, Some id <> Some j -> j <> id) as Hne by (intros j ? ->; done).
  apply (sim_update s s' ts (coord w) (coord w') i p p' Hs Hi Hl); constructor; rewrite ?Hp, ?Hpp, ?Hpp', ?Hw'; try done.
  - lia.
  - intros j Hij _. by apply Hj, Hne.
  - intros j Hij _. left. by apply Hj, Hne.
  - intros j H. destruct (decide (j = id)) as [->|Hij]; [|left; by rewrite (proj1 (Hj j Hij))].
    destruct He as [[E1 E2]|(_ & E & _)]; [|by right]. left. by eapply entry_some.
  - intros j [= <-] H. by destruct He as [[E1 E2]|(_ & _ & E)].
  - intros j H. destruct He as [[E1 E2]|(E & _)]; [|congruence]. rewrite E1 in H. by injection H as <-.
Qed.

(** The steps at which a handler takes effect. *)
Lemma get_effect_step w id t ts :
  mr_inv fs n w -> workers (coord w) !! id = Some None -> tasks (coord w) = t :: ts ->
  mr_step w (MW (set_workers (<[id := Some t]> (workers (coord w))) (set_tasks ts (coord w))) (finished w)).
Proof.
  intros [_ _ _ Ha] Hw Ht. destruct w as [g fin]. simpl in *. apply (mr_get id (taskToRpc t)).
  rewrite GetTask_run. unfold get_effect. rewrite Hw, Ht, bool_decide_false; [done|].
  intros E. unfold accounts, remaining in Ha. rewrite E, Ht in Ha. by destruct Ha.
Qed.

Lemma finish_effect_step w id t :
  mr_inv fs n w -> workers (coord w) !! id = Some (Some t) ->
  mr_step w (MW (set_workers (<[id := None]> (workers (coord w))) (finish_effect t (coord w))) (finished w ++ [t])).
Proof.
  intros Hi Hw. destruct w as [g fin]. simpl in *. apply (mr_finish id t); [done|].
  by rewrite (FinishTask_run _ _ _ Hw), (carried_fits fs n g fin id t).
Qed.

Lemma expire_effect_step w id o :
  workers (coord w) !! id = Some o ->
  mr_step w (MW (set_workers (delete id (workers (coord w))) (set_tasks (tasks (coord w) ++ option_list o) (coord w)))
    (finished w)).
Proof.
  intros Hw. destruct w as [g fin]. simpl in *. apply (mr_expire id tt). unfold expire, removeWorker.
  rewrite bind_gets, Hw. destruct o; [done|]. simpl. rewrite app_nil_r. by destruct g.
Qed.
(** A state that differs in the entry of one worker. *)
Lemma other_insert (m : gmap Z (option Task)) id o j : j <> id -> <[id := o]> m !! j = m !! j.
Proof. intros H. by apply lookup_insert_ne. Qed.
Lemma other_delete (m : gmap Z (option Task)) id j : j <> id -> delete id m !! j = m !! j.
Proof. intros H. by apply lookup_delete_ne. Qed.
Hint Resolve other_insert other_delete : mr_locks.

Section at_worker.
Context (s : shared) (ts : gmap nat pc) (w : mr_world) (i : nat) (id : Z).
Context (Hs : sim (mkMachine s ts) (coord w)) (Hw : mr_inv fs n w).

Lemma the_entry p : ts !! i = Some p -> holds_cw p = Some id ->
  entry_rel p (workers (co s) !! id) (workers (coord w) !! id).
Proof. intros Hi Hp. by apply (f_entry _ _ _ (s_facts _ _ Hs i p Hi)). Qed.

Lemma the_stage p : ts !! i = Some p -> holds_stage p = true -> stage_rel p (co s) (coord w).
Proof. intros Hi Hp. by apply (f_stage _ _ _ (s_facts _ _ Hs i p Hi)). Qed.

(** With the effect on the worker known, what remains of [own_refines] is computed. *)
Ltac own w' :=
  eapply (own_refines s _ ts w w' i _ _ id Hs);
  [eassumption|try apply rtc_refl; try (apply rtc_once; done)|locks|reflexivity|reflexivity|reflexivity|reflexivity
  |try (pose proof (s_constants _ _ Hs) as K; unfold constants in *; simpl in *; congruence)|try reflexivity
  |intros; simpl; auto with mr_locks|try (left; split; [reflexivity|simpl])|simpl; auto|simpl; try done|simpl; try done].

Lemma take_refines t l :
  ts !! i = Some (PTake id) -> tasks (co s) = t :: l ->
  refines (mkMachine (set_co (set_tasks l (co s)) s) (<[i := PTakeUnlock id (Some t)]> ts)) w.
Proof.
  intros Hi Ht. destruct (the_entry _ Hi eq_refl) as [E1 E2].
  assert (tasks (coord w) = t :: l) as Ht' by (pose proof (s_constants _ _ Hs); unfold constants in *; simpl in *; congruence).
  pose proof (get_effect_step w id t l Hw E2 Ht') as Hstep.
  own (MW (set_workers (<[id := Some t]> (workers (coord w))) (set_tasks l (coord w))) (finished w)).
  by rewrite lookup_insert_eq.
Qed.

(** The task of the worker is stored. *)
Lemma store_refines p p' o :
  ts !! i = Some p -> holds_cw p = Some id -> holds_cw p' = Some id -> pending p = None -> pending p' = None ->
  waits_cw p' = None -> holds_stage p = false -> holds_stage p' = false -> holds_cont p' = holds_cont p ->
  announces p' = announces p -> entered p' = entered p -> reads p' = reads p ->
  (entry_rel p (workers (co s) !! id) (workers (coord w) !! id) -> entry_rel p' (Some o) (workers (coord w) !! id)) ->
  refines (mkMachine (set_co (set_workers (<[id := o]> (workers (co s))) (co s)) s) (<[i := p']> ts)) w.
Proof.
  intros Hi Hp Hp' H1 H2 H3 H4 H5 H6 H7 H8 H9 He.
  eapply (own_refines s _ ts w w i p p' id Hs Hi); try done; simpl; rewrite ?H4, ?H5; try done.
  - constructor; simpl; rewrite ?H4, ?H5, ?H6, ?H7, ?H8, ?H9; eauto with mr_locks.
    + intros Hen. split; [by apply entered_announces|by left].
    + apply cw_same. congruence.
  - apply (s_constants _ _ Hs).
  - auto with mr_locks.
  - left. split; [done|]. rewrite lookup_insert_eq. apply He. by apply the_entry.
  - auto.
Qed.

Lemma delete_refines :
  ts !! i = Some (PDelete id) ->
  refines (mkMachine (set_cwLock (delete id (cwLock s)) (set_co (set_workers (delete id (workers (co s))) (co s)) s))
    (<[i := PRemoveEnd]> ts)) w.
Proof.
  intros Hi. destruct (the_entry _ Hi eq_refl) as [E1 E2]. own w. right. simpl. by rewrite lookup_delete_eq.
Qed.

(** FinishTask takes effect: the entry is cleared, and the counts are as in MrCoordinator. *)
Lemma finish_refines s' t p p' :
  ts !! i = Some p -> holds_cw p = Some id -> workers (coord w) !! id = Some (Some t) ->
  locks_move i s s' p p' -> pending p = None -> pending p' = None -> waits_cw p' = None ->
  holds_stage p = true -> holds_stage p' = true -> holds_cw p' = Some id ->
  workers (co s') = workers (co s) -> constants (co s') = constants (finish_effect t (coord w)) ->
  workerIDAcc (co s') = workerIDAcc (co s) ->
  entry_rel p' (workers (co s) !! id) (Some None) -> stage_rel p' (co s') (finish_effect t (coord w)) ->
  refines (mkMachine s' (<[i := p']> ts)) w.
Proof.
  intros Hi Hp Ht Hl H1 H2 H3 H4 H5 H6 Hwk Hc Ha He Hst.
  pose proof (finish_effect_step w id t Hw Ht) as Hstep.
  eapply (own_refines s s' ts w _ i p p' id Hs Hi (rtc_once _ _ Hstep)); try done; simpl; rewrite ?Hwk; try done.
  - intros j Hj. by rewrite lookup_insert_ne.
  - left. by rewrite lookup_insert_eq.
  - by left.
  - congruence.
Qed.

Lemma reduce_refines t :
  ts !! i = Some (PReduce id t) ->
  refines (mkMachine (set_co (set_tasks (tasks (co s) ++ reduce_tasks (nReduce (co s))) (co s)) s)
    (<[i := PReduceUnlock id t]> ts)) w.
Proof.
  intros Hi. destruct (the_entry _ Hi eq_refl) as [E1 E2]. destruct (the_stage _ Hi eq_refl) as (T & Z & K).
  pose proof (s_constants _ _ Hs) as K'. unfold constants, counts in *. simpl in *.
  assert (finish_effect t (coord w) = set_stage REDUCING
    (set_tasks (tasks (coord w) ++ reduce_tasks (nReduce (coord w))) (set_mapping 0 (coord w)))) as Ef
    by (unfold finish_effect; rewrite T; simpl; by rewrite Z).
  eapply (finish_refines _ t); [eassumption|try done..]; try (by locks); rewrite ?Ef; unfold constants, stage_rel, counts; simpl;
    try congruence. split; [done|congruence].
Qed.

(** FinishTask counts the task. *)
Lemma count_map_refines t :
  ts !! i = Some (PCount id t) -> Type_ t = MAP_TASK ->
  let k := to_uint16 (unfinishedMappingCount (co s) - 1) in
  refines (mkMachine (set_co (set_mapping k (co s)) s)
    (<[i := if k =? 0 then PReduceLock id t else PStageUnlock id t]> ts)) w.
Proof.
  intros Hi T k. destruct (the_entry _ Hi eq_refl) as [E1 E2]. pose proof (the_stage _ Hi eq_refl) as K.
  pose proof (s_constants _ _ Hs) as K'. unfold stage_rel, constants, counts in *. simpl in *.
  assert (k = to_uint16 (unfinishedMappingCount (coord w) - 1)) as Hk by (unfold k; congruence).
  destruct (k =? 0) eqn:Z.
  - assert (k = 0) as Z' by lia. own w; try done. intros _. unfold counts. simpl. rewrite Z' in *. split_and!; congruence.
  - assert (finish_effect t (coord w) = set_mapping k (coord w)) as Ef
      by (unfold finish_effect; rewrite T; simpl; by rewrite <- Hk, Z).
    eapply (finish_refines _ t); [eassumption|try done..]; try (by locks); rewrite ?Ef; unfold constants, stage_rel, counts; simpl;
      congruence.
Qed.

Lemma count_reduce_refines t :
  ts !! i = Some (PCount id t) -> Type_ t = REDUCE_TASK ->
  let c1 := set_reducing (to_uint16 (unfinishedReducingCount (co s) - 1)) (co s) in
  refines (mkMachine (set_co (if unfinishedReducingCount c1 =? 0 then set_stage DONE c1 else c1) s)
    (<[i := PStageUnlock id t]> ts)) w.
Proof.
  intros Hi T c1. destruct (the_entry _ Hi eq_refl) as [E1 E2]. pose proof (the_stage _ Hi eq_refl) as K.
  pose proof (s_constants _ _ Hs) as K'. unfold stage_rel, constants, counts in *. simpl in *.
  injection K as K1 K2 K3. injection K' as K4 K5 K6 K7.
  assert (finish_effect t (coord w) =
    let c2 := set_reducing (to_uint16 (unfinishedReducingCount (co s) - 1)) (coord w) in
    if unfinishedReducingCount c2 =? 0 then set_stage DONE c2 else c2) as Ef
    by (unfold finish_effect; by rewrite T, <- K2).
  eapply (finish_refines _ t); [eassumption|try done..]; try (by locks); rewrite ?Ef; unfold c1, constants, stage_rel, counts; simpl;
    by destruct (_ =? 0); simpl; congruence.
Qed.

(** removeWorker takes effect. *)
Lemma removal_refines s' p p' o :
  ts !! i = Some p -> holds_cw p = Some id -> workers (co s) !! id = Some o -> workers (coord w) !! id = Some o ->
  locks_move i s s' p p' -> pending p = None -> pending p' = None -> waits_cw p' = None ->
  holds_stage p = false -> holds_stage p' = false -> holds_cw p' = Some id ->
  (forall e, is_Some e -> entry_rel p' e None) ->
  co s' = set_tasks (tasks (co s) ++ option_list o) (co s) ->
  refines (mkMachine s' (<[i := p']> ts)) w.
Proof.
  intros Hi Hp He Hg Hl H1 H2 H3 H4 H5 H6 Hrel Hc. pose proof (s_constants _ _ Hs) as K. unfold constants in K.
  pose proof (expire_effect_step w id o Hg) as Hstep.
  eapply (own_refines s s' ts w _ i p p' id Hs Hi (rtc_once _ _ Hstep)); try done; rewrite ?Hc; simpl;
    rewrite ?H4, ?H5; try done.
  - unfold constants. simpl. simpl in K. congruence.
  - intros j Hj. by rewrite lookup_delete_ne.
  - left. split; [done|]. rewrite lookup_delete_eq. apply Hrel. by eexists.
  - by right.
Qed.
End at_worker.

(** ** RegisterWorker *)

Lemma register_refines s ts w i :
  sim (mkMachine s ts) (coord w) -> mr_inv fs n w -> ts !! i = Some PRegister -> workerIDAcc (co s) + 1 < 2^16 ->
  let k := workerIDAcc (co s) + 1 in
  refines (mkMachine (set_co (set_idacc k (co s)) s) (<[i := PAddLock k]> ts)) w.
Proof.
  intros Hs Hw Hi Hb k. pose proof (s_constants _ _ Hs) as K. unfold constants in K. simpl in K.
  destruct Hw as [_ Ha Hids _]. assert (workerIDAcc (coord w) = workerIDAcc (co s)) as Hacc by congruence.
  set (g' := set_workers (<[k := None]> (workers (coord w))) (set_idacc k (coord w))).
  assert (mr_step w (MW g' (finished w))) as Hstep.
  { destruct w as [g fin]. simpl in *. apply (mr_register (WorkerInfo k (nReduce g))); [lia|].
    unfold RegisterWorker, addWorker. rewrite bind_modify, bind_gets. simpl.
    rewrite to_uint32_small, to_uint16_small by lia. unfold g', k. by rewrite <- Hacc. }
  exists (MW g' (finished w)). split; [by apply rtc_once|].
  assert (workers (co s) !! k = None) as Hk.
  { apply eq_None_not_Some. intros H%(s_bound _ _ Hs). simpl in H. unfold k in H. lia. }
  eapply (sim_update s _ ts (coord w) _ i PRegister (PAddLock k) Hs Hi).
  - locks.
  - constructor; simpl; try done; auto.
    + unfold constants. simpl. congruence.
    + unfold k. lia.
    + intros id _ _. destruct (decide (id = k)) as [->|Hne]; [right; unfold k; split; [lia|done]|].
      left. by apply lookup_insert_ne.
    + intros id [= <-]. right. unfold k. lia.
  - constructor; simpl; try done. intros id [= <-]. rewrite lookup_insert_eq. split_and!; [done..|lia].
Qed.

Lemma add_refines s ts w i id :
  sim (mkMachine s ts) (coord w) -> ts !! i = Some (PAdd id) ->
  refines (mkMachine (set_cwLock (delete id (cwLock s)) (set_co (set_workers (<[id := None]> (workers (co s))) (co s)) s))
    (<[i := PAddUnlock id]> ts)) w.
Proof.
  intros Hs Hi. exists w. split; [apply rtc_refl|].
  destruct (f_pending _ _ _ (s_facts _ _ Hs i _ Hi) id eq_refl) as (H1 & H2 & H3). simpl in *.
  assert (cwLock s !! id = None) as Hf.
  { destruct (cwLock s !! id) as [j|] eqn:E; [|done]. apply (s_cw _ _ Hs) in E as (q & Hj & Hq).
    apply bool_decide_eq_true in Hq. pose proof (held_some _ _ _ Hs j q id Hj Hq) as H. rewrite H1 in H. by destruct H. }
  rewrite (delete_id (cwLock s)) by done.
  eapply (sim_update s _ ts (coord w) _ i (PAdd id) (PAddUnlock id) Hs Hi).
  - locks.
  - constructor; simpl; try done; auto.
    + apply (s_constants _ _ Hs).
    + intros j _ Hj. apply lookup_insert_ne. congruence.
    + intros j [= <-] _. by rewrite lookup_insert_eq.
  - constructor; simpl; done.
Qed.
Lemma step_refines m m' w i :
  sim m (coord w) -> mr_inv fs n w -> spare_id (Go i) m = true -> go i m = Done tt m' -> refines m' w.
Proof.
  destruct m as [s ts]. intros Hs Hw Hspare E. unfold go, spare_id in *. simpl in *.
  destruct (ts !! i) as [p|] eqn:Hi; [|done]. destruct (turn i p s) as [p' s'| |] eqn:Et; simplify_eq.
  destruct p; try (turn_inv Et; quiet; fail).
  - turn_inv Et. apply Z.ltb_lt in Hspare. rewrite to_uint32_small, to_uint16_small; [by eapply register_refines|..];
      destruct Hw as [_ Ha _ _]; pose proof (s_constants _ _ Hs) as K; unfold constants in K; simpl in K; simplify_eq K; lia.
  - turn_inv Et. by apply add_refines.
  - turn_inv Et; [quiet|by eapply take_refines].
  - turn_inv Et; [|quiet]. eapply store_refines; try done. simpl. intros [_ ->]. done.
  - turn_inv Et.
    1-2: match goal with H : Type_ ?t = _ |- _ => pose proof (count_map_refines _ _ _ _ _ Hs Hw t Hi H) as R end;
      match goal with H : (_ =? 0) = _ |- _ => simpl in R; rewrite H in R; exact R end.
    1-2: match goal with H : Type_ ?t = _ |- _ => pose proof (count_reduce_refines _ _ _ _ _ Hs Hw t Hi H) as R end;
      match goal with H : (_ =? 0) = _ |- _ => simpl in R; rewrite H in R; exact R end.
  - rewrite turn_reduce in Et. injection Et as <- <-. by apply reduce_refines.
  - turn_inv Et. destruct (the_entry _ _ _ _ _ Hs _ Hi eq_refl) as [E1 E2], (the_stage _ _ _ _ Hs _ Hi eq_refl) as [K1 K2].
    eapply (own_refines _ _ _ _ _ _ _ _ id Hs Hi (rtc_refl _ _)); try done; try (by locks); simpl; auto.
    apply (s_constants _ _ Hs).
  - turn_inv Et. eapply store_refines; try done. simpl. intros [_ ->]. done.
  - turn_inv Et; [quiet|]. destruct (the_entry _ _ _ _ _ Hs _ Hi eq_refl) as [E1 E2]. simpl in E2.
    eapply (removal_refines _ _ _ _ _ Hs _ _ (PReleased id) None Hi); try done; [congruence|locks|]. simpl. rewrite app_nil_r. by destruct (co _).
  - turn_inv Et. destruct (the_entry _ _ _ _ _ Hs _ Hi eq_refl) as [E1 E2].
    eapply (removal_refines _ _ _ _ _ Hs _ _ _ (Some t) Hi); try done. locks.
  - turn_inv Et. eapply store_refines; try done. simpl. intros [_ ->]. split; [by eexists|done].
  - turn_inv Et. by apply delete_refines.
Qed.
End step.
