(* ===== verification/MrThreadsTheorems.v ===== *)
(** The theorems on the coordinator's goroutines: they refine the one-step handlers of
    MrCoordinator, and never wait for each other for ever. *)

From S2P Require Import Prelude MrCoordinator MrThreads MrThreadsProof MrThreadsSim.

(** * From the start *)

Lemma owner_spawn o ts h i p : owner_ok o ts h -> ts !! i = None -> h p = false -> owner_ok o (<[i := p]> ts) h.
Proof.
  intros Ho Hi Hp j. rewrite (Ho j). destruct (decide (j = i)) as [->|Hne]; [|by rewrite lookup_insert_ne].
  rewrite lookup_insert_eq, Hi. naive_solver congruence.
Qed.

Lemma first_pc_idle r :
  let p := first_pc r in
  announces p = false /\ reads p = false /\ entered p = false /\ holds_stage p = false /\ holds_cont p = false /\
  holds_cw p = None /\ waits_cw p = None /\ pending p = None.
Proof. by destruct r. Qed.

Lemma spawn_sim s ts g i r :
  sim (mkMachine s ts) g -> ts !! i = None -> sim (mkMachine s (<[i := first_pc r]> ts)) g.
Proof.
  intros Hs Hi. destruct (first_pc_idle r) as (H1 & H2 & H3 & H4 & H5 & H6 & H7 & H8).
  destruct Hs as [A B C D E F G H I J K L N]. simpl in *.
  constructor; simpl; try (by apply owner_spawn); try done.
  - intros j. rewrite (B j). destruct (decide (j = i)) as [->|Hne]; [|by rewrite lookup_insert_ne].
    rewrite lookup_insert_eq, Hi. naive_solver congruence.
  - intros j q [[<- <-]|[_ Hj]]%lookup_insert_Some; [congruence|eauto].
  - intros id. apply owner_spawn; [done..|]. unfold at_cw. rewrite H6. by apply bool_decide_eq_false_2.
  - intros j q [[<- <-]|[_ Hj]]%lookup_insert_Some; [|eauto]. constructor; congruence.
  - intros j k q q' id [[<- <-]|[_ Hj]]%lookup_insert_Some [[<- <-]|[_ Hk]]%lookup_insert_Some Hq Hq'; [done|congruence..|eauto].
  - intros id Hid. destruct (L id Hid) as [|(j & q & Hj & Hq)]; [by left|]. right. exists j, q. split; [|done].
    rewrite lookup_insert_ne; [done|]. congruence.
Qed.

Lemma boot_sim fs n : sim (boot_machine fs n) (MakeCoordinator fs n).
Proof.
  constructor; simpl; try done.
  - intros i. rewrite lookup_empty. naive_solver.
  - intros i. rewrite lookup_empty. set_solver.
  - intros i. rewrite lookup_empty. naive_solver.
  - intros i. rewrite lookup_empty. naive_solver.
  - intros id i. rewrite !lookup_empty. naive_solver.
  - intros id. unfold MakeCoordinator, releaseMapTasks. rewrite addTasks_run. simpl. rewrite lookup_empty. by intros [].
  - intros id Hid. by left.
Qed.

Section reachable.
Context (fs : list string) (n : Z) (Hfs : 0 < lenZ fs < 2^16) (Hn : 0 < n < 2^16).

Abbreviation start := (MW (MakeCoordinator fs n) []).

Lemma mstep_refines m m' w : sim m (coord w) -> mr_inv fs n w -> mstep m m' -> refines m' w.
Proof.
  intros Hs Hw [[i r|i] [Hspare E]]; [|by apply (step_refines fs n Hfs Hn m m' w i)].
  destruct m as [s ts]. unfold mexec in E. rewrite bind_gets in E. simpl in E.
  destruct (ts !! i) eqn:Hi; [done|]. injection E as <-. exists w. split; [apply rtc_refl|]. by apply spawn_sim.
Qed.

Lemma run_refines m m' w :
  sim m (coord w) -> rtc mr_step start w -> rtc mstep m m' -> exists w', rtc mr_step start w' /\ sim m' (coord w').
Proof.
  intros Hs Hw Hr. revert w Hs Hw. induction Hr as [m|m m1 m2 Hstep _ IH]; intros w Hs Hw; [eauto|].
  destruct (mstep_refines _ _ _ Hs (mr_reachable _ _ _ Hfs Hn Hw) Hstep) as (w' & Hr' & Hs').
  apply (IH w'); [done|]. by etrans.
Qed.

Lemma machine_refines m :
  rtc mstep (boot_machine fs n) m -> exists w, rtc mr_step start w /\ mr_inv fs n w /\ sim m (coord w).
Proof.
  intros Hr. destruct (run_refines _ _ start (boot_sim fs n) (rtc_refl _ _) Hr) as (w & H1 & H2).
  exists w. split_and!; [done| |done]. by apply mr_reachable.
Qed.
End reachable.

(** * At rest *)

Definition returned (p : pc) : bool := match p with PRet _ => true | _ => false end.
Definition at_rest (m : machine) : Prop := map_Forall (fun _ p => returned p = true) (thr m).

Lemma owner_free o ts h : owner_ok o ts h -> (forall i p, ts !! i = Some p -> h p = false) -> o = None.
Proof.
  intros Ho Hf. destruct o as [i|]; [|done]. destruct (proj1 (Ho i) eq_refl) as (p & Hi & Hp).
  rewrite (Hf i p Hi) in Hp. done.
Qed.

Lemma rest_equal m g : sim m g -> at_rest m -> co (sh m) = g.
Proof.
  intros Hs Hr. assert (forall i p, thr m !! i = Some p -> holds_stage p = false /\ holds_cw p = None /\ pending p = None) as Hq.
  { intros i p Hi. pose proof (Hr i p Hi). by destruct p. }
  assert (workers (co (sh m)) = workers g) as Hw.
  { apply map_eq. intros id. destruct (workers (co (sh m)) !! id) as [o|] eqn:E.
    - symmetry. apply (s_free _ _ Hs); [done|]. eapply owner_free; [apply (s_cw _ _ Hs)|].
      intros i p Hi. apply bool_decide_eq_false_2. by rewrite (proj1 (proj2 (Hq i p Hi))).
    - destruct (s_absent _ _ Hs id E) as [|(i & p & Hi & Hp)]; [done|].
      by rewrite (proj2 (proj2 (Hq i p Hi))) in Hp. }
  assert (stageLock (sh m) = None) as Hl.
  { eapply owner_free; [apply (s_stage _ _ Hs)|]. intros i p Hi. by apply (Hq i p). }
  pose proof (s_counts _ _ Hs Hl) as K1. pose proof (s_constants _ _ Hs) as K2.
  unfold counts, constants in *. destruct (co (sh m)), g. simpl in *. congruence.
Qed.

(** * No deadlock *)

(** The lock a goroutine waits for. *)
Inductive waiting : Type := ForGroup | ForReaders | ForWorker (id : Z) | ForStage | ForContainer | ForNothing.

Definition waits (p : pc) : waiting :=
  match p with
  | PAddLock _ | PRemove _ | PFind _ _ | PTick _ => ForGroup
  | PAddWait _ | PRemoveWait _ => ForReaders
  | PWait _ id | PTickWait id | PRemoveCw id => ForWorker id
  | PGet _ | PStage _ _ | PDone => ForStage
  | PTakeLock _ | PReduceLock _ _ | PAddTaskLock _ _ => ForContainer
  | _ => ForNothing
  end.

Definition available (s : shared) (x : waiting) : Prop :=
  match x with
  | ForGroup => group_w s = None
  | ForReaders => group_r s = ∅
  | ForWorker id => cwLock s !! id = None
  | ForStage => stageLock s = None
  | ForContainer => contLock s = None
  | ForNothing => True
  end.

(** The panics are those of a worker that asks for a task while it carries one, or
    finishes without one. *)
Definition misused (p : pc) (s : shared) : Prop :=
  (exists id t, p = PCarries id /\ workers (co s) !! id = Some (Some t)) \/
  (exists id, p = PFinish id /\ workers (co s) !! id = Some None).

Definition moving (i : nat) (m : machine) : Prop := (exists m', go i m = Done tt m') \/ exists e m', go i m = Panicked e m'.

Section progress.
Context (fs : list string) (n : Z) (m : machine) (w : mr_world).
Context (Hs : sim m (coord w)) (Hw : mr_inv fs n w).

Lemma panic_misuse i p e s : thr m !! i = Some p -> turn i p (sh m) = Panicked e s -> misused p (sh m).
Proof.
  intros Hi Et. pose proof (s_facts _ _ Hs i p Hi) as F. destruct p; try (by turn_inv Et).
  - turn_inv Et. left. eauto.
  - turn_inv Et. right. eauto.
  - exfalso. destruct (f_entry _ _ _ F id eq_refl) as [E1 E2]. pose proof (f_stage _ _ _ F eq_refl) as K.
    simpl in K. injection K as K1 K2 K3. destruct w as [g fin]. simpl in *.
    pose proof (carried_fits fs n g fin id t Hw E2) as Hfit. unfold stage_fits in Hfit. rewrite <- K3 in Hfit.
    turn_inv Et; match goal with H : negb _ = true |- _ => by rewrite Hfit in H end.
  - by rewrite turn_reduce in Et.
Qed.

Lemma available_moves i p :
  thr m !! i = Some p -> returned p = false -> available (sh m) (waits p) -> moving i m.
Proof.
  intros Hi Hp Ha. unfold moving, go. rewrite Hi.
  destruct (turn i p (sh m)) as [p' s'|e s'|s'] eqn:Et; [by eauto|by eauto|]. exfalso.
  assert (forall id, holds_cw p = Some id -> is_Some (workers (co (sh m)) !! id)) as Hh.
  { intros id Hid. destruct m as [s ts]. by eapply held_some. }
  destruct p; simpl in Hp, Ha, Hh; try done; try (turn_inv Et; done).
  - destruct (Hh _ eq_refl) as [o E]. turn_inv Et; congruence.
  - destruct (Hh _ eq_refl) as [o E]. turn_inv Et; congruence.
  - by rewrite turn_reduce in Et.
  - destruct (Hh _ eq_refl) as [o E]. turn_inv Et; congruence.
Qed.

(** The locks are taken in one order: groupLock, a worker's, stageLock, the container's. *)
Lemma holds_cont_waits p : holds_cont p = true -> returned p = false /\ waits p = ForNothing.
Proof. by destruct p. Qed.
Lemma holds_stage_waits p : holds_stage p = true -> returned p = false /\ (waits p = ForContainer \/ waits p = ForNothing).
Proof. destruct p; simpl; auto; done. Qed.
Lemma holds_cw_waits p id :
  holds_cw p = Some id -> returned p = false /\ (waits p = ForStage \/ waits p = ForContainer \/ waits p = ForNothing).
Proof. destruct p; simpl; auto; done. Qed.
Lemma reads_waits p : reads p = true -> returned p = false /\ waits p <> ForGroup /\ waits p <> ForReaders.
Proof. by destruct p. Qed.
Lemma announces_waits p : announces p = true -> returned p = false /\ waits p <> ForGroup.
Proof. by destruct p. Qed.

(** Among the goroutines that hold the innermost lock, one can go on. *)
Lemma some_moves i p :
  thr m !! i = Some p -> returned p = false -> exists j, moving j m.
Proof.
  intros Hi Hp.
  destruct (contLock (sh m)) as [j|] eqn:Ec.
  { apply (s_cont _ _ Hs) in Ec as (q & Hj & Hq). destruct (holds_cont_waits q Hq) as [H1 H2].
    exists j. eapply available_moves; eauto. by rewrite H2. }
  destruct (stageLock (sh m)) as [j|] eqn:Es.
  { apply (s_stage _ _ Hs) in Es as (q & Hj & Hq). destruct (holds_stage_waits q Hq) as [H1 H2].
    exists j. eapply available_moves; eauto. by destruct H2 as [-> | ->]. }
  destruct (decide (cwLock (sh m) = ∅)) as [El|(id & j & El)%map_choose].
  2: { apply (s_cw _ _ Hs) in El as (q & Hj & Hq). apply bool_decide_eq_true in Hq.
    destruct (holds_cw_waits q id Hq) as [H1 H2]. exists j. eapply available_moves; eauto.
    by destruct H2 as [-> |[-> | ->]]. }
  destruct (decide (group_r (sh m) = ∅)) as [Er|(j & Hjr)%set_choose_L].
  2: { apply (s_readers _ _ Hs) in Hjr as (q & Hj & Hq). destruct (reads_waits q Hq) as (H1 & H2 & H3).
    exists j. eapply available_moves; eauto. destruct (waits q); simpl; try done. by rewrite El, lookup_empty. }
  destruct (group_w (sh m)) as [j|] eqn:Eg.
  - apply (s_group _ _ Hs) in Eg as (q & Hj & Hq). destruct (announces_waits q Hq) as (H1 & H2).
    exists j. eapply available_moves; eauto. destruct (waits q); simpl; try done. by rewrite El, lookup_empty.
  - exists i. eapply available_moves; eauto. destruct (waits p); simpl; try done. by rewrite El, lookup_empty.
Qed.
End progress.

(** * Every call returns *)

(** The steps a goroutine still makes, at most. *)
Definition steps_left (p : pc) : nat :=
  match p with
  | PRet _ => 0
  | PAddUnlock _ | PGetDone | PMissing | PGetEnd _ _ | PFinishEnd _ | PTickMissing | PTickEnd | PRemoveEnd | PDoneEnd _ => 1
  | PAdd _ | PGive _ _ | PClear _ _ | PTickReset _ | PDelete _ | PDoneRead => 2
  | PAddWait _ | PTakeUnlock _ _ | PStageUnlock _ _ | PTickWait _ | PReleased _ | PDone => 3
  | PAddLock _ | PTake _ | PSetStage _ _ | PTickLook _ | PAddTaskUnlock _ => 4
  | PRegister | PTakeLock _ | PReduceUnlock _ _ | PTick _ | PAddTask _ _ => 5
  | PCarries _ | PReduce _ _ | PAddTaskLock _ _ => 6
  | PReduceLock _ _ | PRelease _ => 7
  | PCount _ _ | PRemoveCw _ => 8
  | PStage _ _ | PRemoveLook _ => 9
  | PFinish _ | PRemoveWait _ => 10
  | PFound _ _ | PRemove _ => 11
  | PWait _ _ => 12 | PLook _ _ => 13 | PFind _ _ => 14 | PGetUnlock _ => 15 | PGetStage _ => 16 | PGet _ => 17
  end.

Definition all_left (m : machine) : nat := list_sum ((fun x => steps_left (snd x)) <$> map_to_list (thr m)).

Lemma turn_left i p s p' s' : turn i p s = Done p' s' -> (steps_left p' < steps_left p)%nat.
Proof.
  intros Et. destruct p; turn_inv Et; simpl; lia.
Qed.

Lemma left_insert s ts i p : ts !! i = None ->
  all_left (mkMachine s (<[i := p]> ts)) = (steps_left p + all_left (mkMachine s ts))%nat.
Proof.
  intros Hi. unfold all_left. simpl.
  by rewrite map_to_list_insert.
Qed.

Lemma go_left i m m' : go i m = Done tt m' -> (all_left m' < all_left m)%nat.
Proof.
  destruct m as [s ts]. unfold go. simpl. destruct (ts !! i) as [p|] eqn:Hi; [|done].
  destruct (turn i p s) as [p' s'| |] eqn:Et; [|done..]. intros [= <-]. apply turn_left in Et.
  rewrite <- insert_delete_eq, left_insert by apply lookup_delete_eq.
  assert (all_left (mkMachine s ts) = steps_left p + all_left (mkMachine s (delete i ts)))%nat as ->.
  { rewrite <- (left_insert s (delete i ts) i p) by apply lookup_delete_eq. by rewrite insert_delete_id. }
  unfold all_left in *. simpl. lia.
Qed.

(** * The theorems *)

(** C15: the coordinator with its locks does what its handlers do one at a time:
    however the goroutines of the RPCs, of the workers' timers and of Done
    interleave, there is a run of the one-step handlers with the same queue of tasks and
    the same identifiers, with the same stage and counts whenever stageLock is free and
    the same task for every worker whose lock is free; and when no call is
    under way, the two coordinators are equal. *)
Theorem coordinator_threads_refine fs n m :
  0 < lenZ fs < 2^16 -> 0 < n < 2^16 -> rtc mstep (boot_machine fs n) m ->
  exists w, rtc mr_step (MW (MakeCoordinator fs n) []) w /\
    tasks (co (sh m)) = tasks (coord w) /\ workerIDAcc (co (sh m)) = workerIDAcc (coord w) /\
    (stageLock (sh m) = None -> counts (co (sh m)) = counts (coord w)) /\
    (forall id o, workers (co (sh m)) !! id = Some o -> cwLock (sh m) !! id = None -> workers (coord w) !! id = Some o) /\
    (at_rest m -> co (sh m) = coord w).
Proof.
  intros Hfs Hn Hr. destruct (machine_refines fs n Hfs Hn m Hr) as (w & H1 & _ & Hs). exists w.
  pose proof (s_constants _ _ Hs) as K. unfold constants in K.
  split_and!; [done|congruence|congruence|apply (s_counts _ _ Hs)|apply (s_free _ _ Hs)|by apply rest_equal].
Qed.

(** C16: the coordinator's goroutines never deadlock and every call returns: as long
    as one of them has not returned, one can make a step; every step brings the calls under way closer to their end; and the only panics are of
    a worker that asks for a task while it carries one or finishes one it does not
    carry, never of a task that does not fit the stage. *)
Theorem coordinator_never_deadlocks fs n m :
  0 < lenZ fs < 2^16 -> 0 < n < 2^16 -> rtc mstep (boot_machine fs n) m ->
  (~ at_rest m -> exists i, moving i m) /\
  (forall i m', go i m = Done tt m' -> (all_left m' < all_left m)%nat) /\
  (forall i e m', go i m = Panicked e m' -> exists p, thr m !! i = Some p /\ misused p (sh m)).
Proof.
  intros Hfs Hn Hr. destruct (machine_refines fs n Hfs Hn m Hr) as (w & _ & Hw & Hs). split_and!.
  - intros Hrest. apply map_not_Forall in Hrest as (i & p & Hi & Hp); [|apply _].
    eapply some_moves; eauto. by destruct (returned p).
  - intros i m'. apply go_left.
  - intros i e m' E. unfold go in E. destruct (thr m !! i) as [p|] eqn:Hi; [|done].
    destruct (turn i p (sh m)) as [| |] eqn:Et; [done| |done]. exists p. split; [done|]. by eapply panic_misuse.
Qed.

(** ** Instances *)

Lemma mrun_steps l m m' : mrun l m = Done tt m' -> rtc mstep m m'.
Proof.
  revert m. induction l as [|a l IH]; intros m E; [injection E as <-; apply rtc_refl|].
  cbn [mrun] in E. rewrite bind_gets in E. destruct (spare_id a m) eqn:Ha; [|done].
  apply bind_inv in E as ([] & m1 & E1 & E2). eapply rtc_l; [by exists a|]. by apply IH.
Qed.

(** Worker 1 registers, takes the only map task and finishes it; when the reduce tasks are
    queued and the stage is not yet set, worker 2 takes one of them. *)
Definition early_reduce : list maction :=
  [Spawn 0 RegisterCall] ++ repeat (Go 0) 5 ++ [Spawn 1 RegisterCall] ++ repeat (Go 1) 5 ++
  [Spawn 2 (GetCall 1)] ++ repeat (Go 2) 13 ++ [Spawn 3 (GetCall 2)] ++ repeat (Go 3) 3 ++
  [Spawn 4 (FinishCall 1)] ++ repeat (Go 4) 10 ++ repeat (Go 3) 10.

Definition early_machine : machine :=
  match mrun early_reduce (boot_machine ["in"%string] 1) with Done _ m => m | _ => boot_machine ["in"%string] 1 end.

Lemma early_steps : rtc mstep (boot_machine ["in"%string] 1) early_machine.
Proof. apply (mrun_steps early_reduce). vm_compute. reflexivity. Qed.

Lemma coordinator_threads_refine_witness :
  rtc mstep (boot_machine ["in"%string] 1) early_machine /\
  workingStage (co (sh early_machine)) = MAPPING /\
  workers (co (sh early_machine)) !! 2 = Some (Some (ReduceTask 0 TASK_TODO)) /\
  exists w, rtc mr_step (MW (MakeCoordinator ["in"%string] 1) []) w /\
    workers (coord w) !! 2 = Some (Some (ReduceTask 0 TASK_TODO)).
Proof.
  split; [exact early_steps|]. split; [vm_compute; reflexivity|]. split; [vm_compute; reflexivity|].
  assert (0 < lenZ ["in"%string] < 2^16) as H1 by (simpl; lia). assert (0 < 1 < 2^16) as H2 by lia.
  destruct (coordinator_threads_refine ["in"%string] 1 early_machine H1 H2 early_steps) as (w & Hw & _ & _ & _ & Hf & _).
  exists w. split; [exact Hw|]. apply Hf; vm_compute; reflexivity.
Defined.

Lemma coordinator_never_deadlocks_witness :
  rtc mstep (boot_machine ["in"%string] 1) early_machine /\ ~ at_rest early_machine /\ exists i, moving i early_machine.
Proof.
  assert (~ at_rest early_machine) as Hr.
  { intros H. specialize (H 4%nat (PSetStage 1 (MapTask "in" TASK_TODO)) eq_refl). discriminate H. }
  split; [exact early_steps|]. split; [exact Hr|].
  assert (0 < lenZ ["in"%string] < 2^16) as H1 by (simpl; lia). assert (0 < 1 < 2^16) as H2 by lia.
  destruct (coordinator_never_deadlocks ["in"%string] 1 early_machine H1 H2 early_steps) as (Hm & _).
  apply Hm. exact Hr.
Defined.

(** * lockWorker and unlockWorker *)

(** A goroutine that holds a worker while removeWorker begins cannot give it back: unlockWorker waits for the
    group's lock, and removeWorker, which has it, for the worker's. *)
Theorem unlockWorker_deadlocks i j id s s1 s2 :
  lockWorker i id s = Done true s1 -> announce j s1 = Done tt s2 ->
  unlockWorker i id s2 = Blocked s2 /\ lock_cw j id s2 = Blocked s2.
Proof.
  intros E1 E2.
  assert (exists k, cwLock s1 !! id = Some k) as [k Hk].
  { unfold lockWorker in E1. apply bind_inv in E1 as (? & t1 & _ & E1). apply bind_inv in E1 as ([] & t2 & _ & E1).
    - apply bind_inv in E1 as (? & t3 & E3 & E1). unfold lock_cw in E3. rewrite bind_gets in E3.
      destruct (cwLock t2 !! id) eqn:E; [done|]. injection E3 as _ <-.
      injection E1 as <-. exists i. simpl. by rewrite lookup_insert_eq.
    - apply bind_inv in E1 as (? & ? & ? & ?). done. }
  unfold announce in E2. rewrite bind_gets in E2. destruct (group_w s1) eqn:Ew; [done|]. injection E2 as <-.
  split; [done|]. unfold lock_cw. rewrite bind_gets. simpl. by rewrite Hk.
Qed.

(** Worker 1 is registered and locked, and expires. *)
Lemma unlockWorker_deadlocks_witness :
  exists s s1 s2, lockWorker 7 1 s = Done true s1 /\ announce 8 s1 = Done tt s2 /\ unlockWorker 7 1 s2 = Blocked s2.
Proof.
  destruct (mrun ([Spawn 0 RegisterCall] ++ repeat (Go 0) 5) (boot_machine ["in"%string] 1)) as [u m|p m|m] eqn:E;
    [|vm_compute in E; discriminate E..].
  destruct (lockWorker 7 1 (sh m)) as [[] s1|p s1|s1] eqn:E1;
    [|vm_compute in E; injection E as _ <-; vm_compute in E1; discriminate E1..].
  destruct (announce 8 s1) as [[] s2|p s2|s2] eqn:E2;
    [|vm_compute in E; injection E as _ <-; vm_compute in E1; injection E1 as <-; vm_compute in E2; discriminate E2..].
  exists (sh m), s1, s2. split; [exact E1|]. split; [exact E2|]. exact (proj1 (unlockWorker_deadlocks 7 8 1 _ _ _ E1 E2)).
Defined.
