(* ===== verification/MrJob.v ===== *)
(** A whole MapReduce job: workers and the coordinator together (mr/worker.go,
    mr/coordinator.go).

    Each worker process is a thread at a point of MRWorker.start; a turn of a
    thread is what it does up to its next RPC.  The work on a task is one turn: a
    map task writes the files of its own worker, which nobody reads before the
    worker reported, and a reduce task reads files that do not change any more.
    Workers may register at any time and take turns in any order.  Expiry is not
    a step here: no worker is taken for dead. *)

From S2P Require Import Prelude MrCoordinator MrWorker.

(** * The system *)

(** Where a worker is in start: after its registration, before GetTask, with a
    task, with its work done, at the end. *)
Inductive wstate : Type :=
  | W_Starting
  | W_Asking
  | W_Working (reply : RpcReply)
  | W_Reporting (reply : RpcReply)
  | W_Exited (result : WorkerResult).

(** [th_R] is the R of its WorkerInfo. *)
Record thread := mkThread { th_R : Z; th_state : wstate }.

Record job_world := JW { jw_coord : Coordinator; jw_dir : Directory; jw_threads : gmap Z thread }.

Definition on_coord {A} (m : M Coordinator A) : M job_world A := fun w =>
  match m (jw_coord w) with
  | Done a c => Done a (JW c (jw_dir w) (jw_threads w))
  | Panicked p c => Panicked p (JW c (jw_dir w) (jw_threads w))
  | Blocked c => Blocked (JW c (jw_dir w) (jw_threads w))
  end.
Definition on_dir {A} (m : M Directory A) : M job_world A := fun w =>
  match m (jw_dir w) with
  | Done a d => Done a (JW (jw_coord w) d (jw_threads w))
  | Panicked p d => Panicked p (JW (jw_coord w) d (jw_threads w))
  | Blocked d => Blocked (JW (jw_coord w) d (jw_threads w))
  end.
Definition set_thread (id : Z) (t : thread) : M job_world unit :=
  modify (fun w => JW (jw_coord w) (jw_dir w) (<[id := t]> (jw_threads w))).

Section system.
Context (sort : list KeyValue -> list KeyValue).
Context (mapf : string -> string -> list KeyValue) (reducef : string -> list string -> string).

(** The switch on the reply to GetTask. *)
Definition after_get (reply : RpcReply) : wstate :=
  match reply with
  | InvalidWorker => W_Exited WORKER_RESTAET
  | MapTaskRpc _ | ReduceTaskRpc _ => W_Working reply
  | NoMoreTaskRpc => W_Exited WORKER_DONE
  | OkReply | NoopTaskRpc | WorkerInfo _ _ => W_Asking
  end.

Definition do_task (id R : Z) (reply : RpcReply) : M Directory unit :=
  match reply with
  | MapTaskRpc file => doMapWork mapf id R file
  | ReduceTaskRpc r => doReduceTask sort reducef r
  | _ => mret tt
  end.

(** The registration at the beginning of start. *)
Definition start_worker : M job_world unit :=
  reply ← on_coord RegisterWorker;
  match reply with
  | WorkerInfo id R => set_thread id (mkThread R W_Starting)
  | _ => throw LogFatal
  end.

(** finishedMapping and finishedReducing: the callers ignore the answer. *)
Definition finishedTask (id : Z) : M job_world RpcReply := on_coord (FinishTask id).
Definition sendHeartBeat (id : Z) : M job_world RpcReply := on_coord (HeartBeat id).

Definition thread_turn (id : Z) : M job_world unit :=
  w ← gets (fun w => w);
  match jw_threads w !! id with
  | None => block
  | Some (mkThread R st) =>
      match st with
      | W_Starting => on_dir (start_files id R);; set_thread id (mkThread R W_Asking)
      | W_Asking => reply ← on_coord (GetTask id); set_thread id (mkThread R (after_get reply))
      | W_Working reply => on_dir (do_task id R reply);; set_thread id (mkThread R (W_Reporting reply))
      | W_Reporting _ => finishedTask id;; set_thread id (mkThread R W_Asking)
      | W_Exited _ => block
      end
  end.

(** A process that exits with WORKER_RESTAET calls start again: a registration. *)
Inductive job_step : job_world -> job_world -> Prop :=
  | job_start w w' :
      workerIDAcc (jw_coord w) + 1 < 2^16 -> start_worker w = Done tt w' -> job_step w w'
  | job_turn id w w' : thread_turn id w = Done tt w' -> job_step w w'
  | job_beat id w w' r : sendHeartBeat id w = Done r w' -> job_step w w'.

Definition start_job (fs : list string) (n : Z) (d : Directory) : job_world :=
  JW (MakeCoordinator fs n) d ∅.
End system.

(** * The invariant *)

(** The reply that goes with a task. *)
Definition carries (o : option Task) (st : wstate) : Prop :=
  match st with
  | W_Starting | W_Asking => o = None
  | W_Working reply | W_Reporting reply => exists t, o = Some t /\ taskToRpc t = reply
  | W_Exited _ => o = None
  end.

Definition reporting (ths : gmap Z thread) : list RpcReply :=
  omap (fun p => match th_state (snd p) with W_Reporting r => Some r | _ => None end) (map_to_list ths).

Definition reports (t : option thread) : list RpcReply :=
  match t with Some (mkThread _ (W_Reporting r)) => [r] | _ => [] end.

Lemma reporting_insert ths id t :
  reporting (<[id := t]> ths) ++ reports (ths !! id) ≡ₚ reporting ths ++ reports (Some t).
Proof.
  unfold reporting. rewrite <- insert_delete_eq.
  rewrite map_to_list_insert by apply lookup_delete_eq. simpl.
  destruct (ths !! id) as [t'|] eqn:E.
  - rewrite <- (map_to_list_delete ths id t' E). simpl.
    destruct t as [R []], t' as [R' []]; simpl; rewrite ?app_nil_r; try done;
      rewrite <- ?Permutation_cons_append; try done. apply Permutation_swap.
  - rewrite delete_id by done. destruct t as [R []]; simpl; rewrite ?app_nil_r; try done.
    apply Permutation_cons_append.
Qed.

(** The map work in a list of finished work, by worker and file. *)
Definition maps_of (worked : list (Z * RpcReply)) : list (Z * string) :=
  omap (fun p => match snd p with MapTaskRpc f => Some (fst p, f) | _ => None end) worked.

Lemma on_coord_done {A} (m : M Coordinator A) w a c :
  m (jw_coord w) = Done a c -> on_coord m w = Done a (JW c (jw_dir w) (jw_threads w)).
Proof. intros E. unfold on_coord. by rewrite E. Qed.
Lemma on_dir_done {A} (m : M Directory A) w a d :
  m (jw_dir w) = Done a d -> on_dir m w = Done a (JW (jw_coord w) d (jw_threads w)).
Proof. intros E. unfold on_dir. by rewrite E. Qed.

(** Creating the files of a worker that has none. *)
Lemma start_files_run id rs d :
  NoDup rs -> (forall r, r ∈ rs -> mids d !! (id, r) = None) ->
  exists d', for_each rs (fun r => createOrRemoveOld id r) d = Done tt d' /\
    inputs d' = inputs d /\ outs d' = outs d /\
    (forall r, intermediate r d' ≡ₚ intermediate r d) /\
    forall i r, is_Some (mids d' !! (i, r)) <-> is_Some (mids d !! (i, r)) \/ (i = id /\ r ∈ rs).
Proof.
  revert d. induction rs as [|r rs IH]; intros d Hnd Hfree.
  { exists d. do 4 (split; [done|]). intros i r. split; [by left|].
    intros [?|[_ []%elem_of_nil]]; done. }
  apply NoDup_cons in Hnd as [Hr Hnd].
  destruct (IH (set_mids (<[(id, r) := []]> (mids d)) d) Hnd) as (d' & E & Hi & Ho & Hm & Hf).
  { intros r' Hr'. simpl. rewrite lookup_insert_ne by (intros [= ->]; done). apply Hfree. by right. }
  exists d'. split; [exact E|]. do 2 (split; [done|]). split.
  - intros r'. rewrite Hm. unfold intermediate. simpl.
    rewrite map_to_list_insert by (apply Hfree; by left). simpl. by destruct (r =? r').
  - intros i r'. rewrite Hf. simpl. rewrite lookup_insert, elem_of_cons. case_decide as Ek.
    + injection Ek as <- <-. split; [|by left; eexists]. intros _. right. auto.
    + split; [tauto|]. intros [?|[-> [->|?]]]; [by left|done|by right].
Qed.

Section job.
Context (sort : list KeyValue -> list KeyValue) (Hsort : sort_ok sort).
Context (mapf : string -> string -> list KeyValue) (reducef : string -> list string -> string).
Context (Hreduce : forall k vs vs', vs ≡ₚ vs' -> reducef k vs = reducef k vs').
Context (fs : list string) (n : Z) (d0 : Directory).
Context (Hfs : 0 < lenZ fs < 2^16) (Hn : 0 < n < 2^16).
Context (Hinputs : Forall (fun f => is_Some (inputs d0 !! f)) fs) (Hclean : mids d0 = ∅).

(** Everything the map function emits for the job. *)
Definition job_output : list KeyValue := emitted mapf ((fun f => (0, f)) <$> fs) d0.

(** The line of a key in the file of reduce task [r]. *)
Definition right_lines (r : Z) (out : list (string * string)) : Prop :=
  NoDup (map fst out) /\
  forall k o, (k, o) ∈ out <->
    partition_of n (mkKV k "") = r /\ values_of k job_output <> [] /\ o = reducef k (values_of k job_output).

Record job_inv (w : job_world) (fin : list Task) (worked : list (Z * RpcReply)) : Prop := {
  ji_coord : mr_inv fs n (MW (jw_coord w) fin);
  ji_threads : forall id th, jw_threads w !! id = Some th ->
    th_R th = n /\ (th_state th <> W_Starting -> has_files id n (jw_dir w)) /\
    exists o, workers (jw_coord w) !! id = Some o /\ carries o (th_state th);
  ji_workers : forall id, is_Some (workers (jw_coord w) !! id) -> is_Some (jw_threads w !! id);
  ji_files : forall id r, is_Some (mids (jw_dir w) !! (id, r)) ->
    exists th, jw_threads w !! id = Some th /\ th_state th <> W_Starting;
  ji_inputs : inputs (jw_dir w) = inputs d0;
  ji_worked : snd <$> worked ≡ₚ (taskToRpc <$> fin) ++ reporting (jw_threads w);
  ji_mids : forall r, 0 <= r < n ->
    intermediate r (jw_dir w) ≡ₚ filter (in_part n r) (emitted mapf (maps_of worked) d0);
  ji_outs : forall r, ReduceTaskRpc r ∈ snd <$> worked ->
    exists out, outs (jw_dir w) !! r = Some out /\ right_lines r out }.

Lemma start_job_inv : job_inv (start_job fs n d0) [] [].
Proof.
  constructor; unfold start_job; cbn [jw_coord jw_dir jw_threads].
  - by apply Make_inv.
  - intros id th. by rewrite lookup_empty.
  - unfold MakeCoordinator, releaseMapTasks. rewrite addTasks_run. simpl. intros id [? H].
    by rewrite lookup_empty in H.
  - intros id r [? H]. by rewrite Hclean, lookup_empty in H.
  - done.
  - unfold reporting. by rewrite map_to_list_empty.
  - intros r _. unfold intermediate. by rewrite Hclean, map_to_list_empty.
  - by intros r []%elem_of_nil.
Qed.

(** ** Registration *)

Lemma RegisterWorker_run c :
  0 <= workerIDAcc c -> workerIDAcc c + 1 < 2^16 ->
  RegisterWorker c = Done (WorkerInfo (workerIDAcc c + 1) (nReduce c))
    (set_workers (<[workerIDAcc c + 1 := None]> (workers c)) (set_idacc (workerIDAcc c + 1) c)).
Proof.
  intros H0 H. unfold RegisterWorker. rewrite bind_modify, bind_gets. cbn [workerIDAcc set_idacc].
  rewrite to_uint32_small, to_uint16_small by lia. done.
Qed.

Lemma reporting_same ths id t :
  reports (ths !! id) = [] -> reports (Some t) = [] -> reporting (<[id := t]> ths) ≡ₚ reporting ths.
Proof.
  intros H1 H2. pose proof (reporting_insert ths id t) as H. by rewrite H1, H2, !app_nil_r in H.
Qed.

Lemma start_worker_inv w w' fin worked :
  job_inv w fin worked -> workerIDAcc (jw_coord w) + 1 < 2^16 -> start_worker w = Done tt w' ->
  job_inv w' fin worked.
Proof.
  intros Hi Hb E. pose proof (ji_coord _ _ _ Hi) as Hc. pose proof (mr_acc _ _ _ Hc) as Hacc.
  simpl in Hacc. set (id := workerIDAcc (jw_coord w) + 1).
  assert (workers (jw_coord w) !! id = None) as Hfree.
  { apply eq_None_not_Some. intros H%(mr_ids _ _ _ Hc). simpl in H. lia. }
  assert (jw_threads w !! id = None) as Hnew.
  { destruct (jw_threads w !! id) as [th|] eqn:Eth; [|done].
    destruct (ji_threads _ _ _ Hi _ _ Eth) as (_ & _ & o & Ho & _). congruence. }
  pose proof (RegisterWorker_run (jw_coord w) (proj1 Hacc) Hb) as R.
  pose proof (register_inv _ _ _ _ _ _ Hc Hb R) as Hc'.
  unfold start_worker in E. rewrite (bind_done _ _ _ _ _ (on_coord_done _ w _ _ R)) in E.
  injection E as <-. pose proof (mr_nReduce _ _ _ Hc) as HR. simpl in HR. rewrite HR. destruct Hi. simpl in *. fold id in Hc' |- *.
  constructor; simpl; try done.
  - intros i th. rewrite lookup_insert. case_decide as Ei.
    + subst i. intros [= <-]. split; [done|]. split; [done|]. exists None. by rewrite lookup_insert_eq.
    + intros H. rewrite lookup_insert_ne by done. by apply ji_threads0.
  - intros i. rewrite !lookup_insert. case_decide; [done|apply ji_workers0].
  - intros i r Hm. destruct (ji_files0 _ _ Hm) as (th & Hth & Hne). exists th.
    rewrite lookup_insert_ne by congruence. done.
  - rewrite reporting_same; [done|by rewrite Hnew|done].
Qed.

(** ** The turns of a worker *)

(** A thread moves on without touching its report. *)
Lemma thread_moves w fin worked id th st' c' :
  job_inv w fin worked -> jw_threads w !! id = Some th ->
  th_state th <> W_Starting -> st' <> W_Starting ->
  reports (Some th) = [] -> reports (Some (mkThread n st')) = [] ->
  mr_inv fs n (MW c' fin) ->
  (forall i, i <> id -> workers c' !! i = workers (jw_coord w) !! i) ->
  (exists o, workers c' !! id = Some o /\ carries o st') ->
  job_inv (JW c' (jw_dir w) (<[id := mkThread n st']> (jw_threads w))) fin worked.
Proof.
  intros Hi Hth Hst Hst' Hr Hr' Hc Hother [o [Ho Hcar]]. destruct Hi. constructor; simpl; try done.
  - intros i th'. rewrite lookup_insert. case_decide as Ei.
    + subst i. intros [= <-]. split; [done|]. split; [|by exists o].
      intros _. by apply (ji_threads0 _ _ Hth).
    + intros H. destruct (ji_threads0 _ _ H) as (H1 & H2 & H3). rewrite Hother by done. done.
  - intros i H. rewrite lookup_insert. case_decide as Ei; [by eexists|].
    rewrite Hother in H by done. by apply ji_workers0.
  - intros i r Hm. destruct (ji_files0 _ _ Hm) as (th' & Hth' & Hne).
    destruct (decide (i = id)) as [->|Hni]; [exists (mkThread n st'); by rewrite lookup_insert_eq|].
    exists th'. by rewrite lookup_insert_ne.
  - rewrite reporting_same; [done|by rewrite Hth|done].
Qed.

Lemma ask_inv w fin worked id R :
  job_inv w fin worked -> jw_threads w !! id = Some (mkThread R W_Asking) ->
  exists w', thread_turn sort mapf reducef id w = Done tt w' /\ job_inv w' fin worked /\
    (workingStage (jw_coord w) <> DONE -> tasks (jw_coord w) <> [] ->
     exists r, jw_threads w' !! id = Some (mkThread n (W_Working r))).
Proof.
  intros Hi Hth. destruct (ji_threads _ _ _ Hi _ _ Hth) as (HR & Hfiles & o & Ho & Hcar).
  simpl in HR, Hcar. subst R o.
  assert (exists r c', GetTask id (jw_coord w) = Done r c' /\
    (forall i, i <> id -> workers c' !! i = workers (jw_coord w) !! i) /\
    (exists o, workers c' !! id = Some o /\ carries o (after_get r)) /\
    (workingStage (jw_coord w) <> DONE -> tasks (jw_coord w) <> [] -> after_get r = W_Working r))
    as (r & c' & E & Hother & Hnew & Hwork).
  { rewrite GetTask_run. unfold get_effect. rewrite Ho. case_bool_decide.
    { eexists _, _. split; [done|]. split; [done|]. split; [by exists None|done]. }
    destruct (tasks (jw_coord w)) as [|t ts].
    { eexists _, _. split; [done|]. split; [done|]. split; [by exists None|done]. }
    eexists _, _. split; [done|]. split; [intros i Hne; simpl; by rewrite lookup_insert_ne|].
    split; [|by destruct t]. exists (Some t). split; [apply lookup_insert_eq|]. destruct t; simpl; eauto. }
  eexists. split.
  { unfold thread_turn. rewrite bind_gets, Hth. erewrite bind_done; [|by apply on_coord_done].
    reflexivity. }
  simpl. split.
  - eapply thread_moves; try done; [by destruct r|by destruct r|].
    eapply get_inv; [apply (ji_coord _ _ _ Hi)|exact E].
  - intros H1 H2. exists r. by rewrite lookup_insert_eq, (Hwork H1 H2).
Qed.

Lemma thread_files w fin worked id R r :
  job_inv w fin worked -> jw_threads w !! id = Some (mkThread R W_Starting) ->
  mids (jw_dir w) !! (id, r) = None.
Proof.
  intros Hi Hth. apply eq_None_not_Some. intros Hm.
  destruct (ji_files _ _ _ Hi _ _ Hm) as (th & Hth' & Hne). rewrite Hth in Hth'. by injection Hth' as <-.
Qed.

Lemma files_inv w fin worked id R :
  job_inv w fin worked -> jw_threads w !! id = Some (mkThread R W_Starting) ->
  exists w', thread_turn sort mapf reducef id w = Done tt w' /\ job_inv w' fin worked /\
    jw_threads w' !! id = Some (mkThread n W_Asking) /\ jw_coord w' = jw_coord w.
Proof.
  intros Hi Hth. destruct (ji_threads _ _ _ Hi _ _ Hth) as (HR & _ & o & Ho & Hcar). simpl in HR. subst R.
  destruct (start_files_run id (seqZ 0 n) (jw_dir w) (NoDup_seqZ 0 n)) as (d' & E & Hin & Hout & Hm & Hf).
  { intros r _. by eapply thread_files. }
  eexists. split.
  { unfold thread_turn. rewrite bind_gets, Hth. erewrite bind_done; [|by apply on_dir_done]. reflexivity. }
  split; [|split; [by apply lookup_insert_eq|done]]. destruct Hi. constructor; simpl; try done.
  - intros i th'. rewrite lookup_insert. case_decide as Ei.
    + subst i. intros [= <-]. split; [done|]. split; [|by exists o]. intros _ r Hr. apply Hf. right.
      split; [done|]. apply elem_of_seqZ. lia.
    + intros H. destruct (ji_threads0 _ _ H) as (H1 & H2 & H3). split; [done|]. split; [|done].
      intros Hne r Hr. apply Hf. left. by apply H2.
  - intros i H. rewrite lookup_insert. case_decide; [by eexists|]. by apply ji_workers0.
  - intros i r H. destruct (decide (i = id)) as [->|Hne].
    + exists (mkThread n W_Asking). by rewrite lookup_insert_eq.
    + apply Hf in H as [H|[? _]]; [|done]. destruct (ji_files0 _ _ H) as (th & Hth' & Hs).
      exists th. by rewrite lookup_insert_ne.
  - congruence.
  - rewrite reporting_same; [done|by rewrite Hth|done].
  - intros r Hr. rewrite Hm. by apply ji_mids0.
  - by rewrite Hout.
Qed.

(** *** Work on a task *)

Definition files_of (l : list RpcReply) : list string :=
  omap (fun r => match r with MapTaskRpc f => Some f | _ => None end) l.

Lemma files_of_app l1 l2 : files_of (l1 ++ l2) = files_of l1 ++ files_of l2.
Proof. apply omap_app. Qed.
#[local] Instance files_of_perm : Proper ((≡ₚ) ==> (≡ₚ)) files_of.
Proof. intros l l' H. unfold files_of. by rewrite H. Qed.
Lemma files_of_maps : files_of (taskToRpc <$> map_tasks fs) = fs.
Proof. clear. unfold map_tasks, files_of. induction fs as [|f l IH]; [done|]. csimpl. by rewrite IH. Qed.
Lemma files_of_reduces ts : Forall (fun t => Type_ t = REDUCE_TASK) ts -> files_of (taskToRpc <$> ts) = [].
Proof. induction 1 as [|[f st|r st] ts Ht _ IH]; done. Qed.

Lemma maps_of_files worked : snd <$> maps_of worked = files_of (snd <$> worked).
Proof.
  induction worked as [|[i r] l IH]; [done|]. unfold maps_of, files_of in *. csimpl.
  destruct r; csimpl; by rewrite ?IH.
Qed.

Lemma emitted_perm jobs jobs' :
  snd <$> jobs ≡ₚ snd <$> jobs' -> emitted mapf jobs d0 ≡ₚ emitted mapf jobs' d0.
Proof.
  intros H. assert (forall l, emitted mapf l d0 = (snd <$> l) ≫= fun f =>
    match inputs d0 !! f with Some c => mapf f c | None => [] end) as E.
  { intros l. unfold emitted. induction l as [|x l IH]; [done|]. csimpl. by rewrite IH. }
  rewrite !E. by rewrite H.
Qed.

Lemma reporting_carried w fin worked r :
  job_inv w fin worked -> r ∈ reporting (jw_threads w) ->
  exists t, t ∈ remaining (jw_coord w) /\ taskToRpc t = r.
Proof.
  intros Hi ([id [R st]] & Hin & Hr)%list_elem_of_omap. apply elem_of_map_to_list in Hin.
  destruct (ji_threads _ _ _ Hi _ _ Hin) as (_ & _ & o & Ho & Hcar). simpl in *.
  destruct st; try done. injection Hr as ->. destruct Hcar as (t & -> & Ht). exists t.
  split; [by eapply carried_remaining|done].
Qed.

(** Once only reduce tasks remain, every file was mapped. *)
Lemma maps_complete w fin worked :
  job_inv w fin worked -> fin ++ remaining (jw_coord w) ≡ₚ map_tasks fs ++ reduce_tasks n ->
  Forall (fun t => Type_ t = REDUCE_TASK) (remaining (jw_coord w)) ->
  emitted mapf (maps_of worked) d0 ≡ₚ job_output.
Proof.
  intros Hi Hp Hall. apply emitted_perm. rewrite maps_of_files, (ji_worked _ _ _ Hi), files_of_app.
  apply (fmap_Permutation taskToRpc), files_of_perm in Hp. rewrite !fmap_app, !files_of_app in Hp.
  rewrite (files_of_reduces _ Hall), (files_of_reduces _ (reduce_tasks_type n)), files_of_maps, !app_nil_r in Hp.
  rewrite Hp. rewrite <- list_fmap_compose, list_fmap_id.
  replace (files_of (reporting (jw_threads w))) with (@nil string); [by rewrite app_nil_r|].
  symmetry. apply elem_of_nil_inv. intros f (r & Hr & Ef)%list_elem_of_omap.
  destruct (reporting_carried _ _ _ _ Hi Hr) as (t & Ht & Er). rewrite Forall_forall in Hall.
  specialize (Hall t Ht). destruct t; [done|]. simpl in Er. by subst r.
Qed.

Lemma emitted_snoc worked id r :
  emitted mapf (maps_of (worked ++ [(id, r)])) d0 =
  emitted mapf (maps_of worked) d0 ++
    match r with
    | MapTaskRpc f => match inputs d0 !! f with Some c => mapf f c | None => [] end
    | _ => []
    end.
Proof.
  unfold maps_of, emitted. rewrite omap_app, bind_app. f_equal. destruct r; csimpl; by rewrite ?app_nil_r.
Qed.

(** The thread has done its task: what is left to show is about the files. *)
Lemma work_done_inv w fin worked id reply d' :
  job_inv w fin worked -> jw_threads w !! id = Some (mkThread n (W_Working reply)) ->
  inputs d' = inputs d0 ->
  (forall i, is_Some (mids d' !! i) <-> is_Some (mids (jw_dir w) !! i)) ->
  (forall r, 0 <= r < n -> intermediate r d' ≡ₚ
     filter (in_part n r) (emitted mapf (maps_of (worked ++ [(id, reply)])) d0)) ->
  (forall r, ReduceTaskRpc r ∈ (snd <$> worked) ++ [reply] ->
     exists out, outs d' !! r = Some out /\ right_lines r out) ->
  job_inv (JW (jw_coord w) d' (<[id := mkThread n (W_Reporting reply)]> (jw_threads w))) fin
    (worked ++ [(id, reply)]).
Proof.
  intros Hi Hth Hin Hm Hmids Houts. destruct (ji_threads _ _ _ Hi _ _ Hth) as (_ & Hfiles & o & Ho & Hcar).
  destruct Hi. constructor; simpl; try done.
  - intros i th'. rewrite lookup_insert. case_decide as Ei.
    + subst i. intros [= <-]. split; [done|]. split; [|by exists o]. intros _ r Hr. by apply Hm, Hfiles.
    + intros H. destruct (ji_threads0 _ _ H) as (H1 & H2 & H3). split; [done|]. split; [|done].
      intros Hne r Hr. by apply Hm, H2.
  - intros i H. rewrite lookup_insert. case_decide; [by eexists|]. by apply ji_workers0.
  - intros i r H%Hm. destruct (ji_files0 _ _ H) as (th & Hth' & Hs).
    destruct (decide (i = id)) as [->|Hne];
      [exists (mkThread n (W_Reporting reply)); by rewrite lookup_insert_eq|].
    exists th. by rewrite lookup_insert_ne.
  - rewrite fmap_app, ji_worked0. simpl. pose proof (reporting_insert (jw_threads w) id (mkThread n (W_Reporting reply))) as H.
    rewrite Hth in H. simpl in H. rewrite app_nil_r in H. by rewrite H, app_assoc.
  - by rewrite fmap_app.
Qed.


(** A map task that is carried is one of the job's files. *)
Lemma carried_map c fin id f st :
  mr_inv fs n (MW c fin) -> workers c !! id = Some (Some (MapTask f st)) -> f ∈ fs.
Proof.
  intros [_ _ _ H] E. simpl in *. pose proof (carried_remaining _ _ _ E) as Hin.
  assert (MapTask f st ∈ map_tasks fs) as (g & [= -> _] & Hg)%list_elem_of_fmap; [|done].
  unfold accounts in H. destruct (workingStage c); try done.
  - destruct H as (Hp & _). rewrite <- Hp. apply elem_of_app. by right.
  - destruct H as (_ & Hall & _). rewrite Forall_forall in Hall. by apply Hall in Hin.
  - destruct H as [_ E']. rewrite E' in Hin. by apply elem_of_nil in Hin.
Qed.

(** While a reduce task is carried only reduce tasks remain. *)
Lemma carried_reduce c fin id r st :
  mr_inv fs n (MW c fin) -> workers c !! id = Some (Some (ReduceTask r st)) ->
  0 <= r < n /\ fin ++ remaining c ≡ₚ map_tasks fs ++ reduce_tasks n /\
  Forall (fun t => Type_ t = REDUCE_TASK) (remaining c).
Proof.
  intros [_ _ _ H] E. simpl in *. pose proof (carried_remaining _ _ _ E) as Hin.
  unfold accounts in H. destruct (workingStage c); try done.
  - destruct H as (Hp & _). assert (ReduceTask r st ∈ map_tasks fs) as Hm
      by (rewrite <- Hp; apply elem_of_app; by right). by apply map_task_type in Hm.
  - destruct H as (Hp & Hall & _). split; [|done].
    assert (ReduceTask r st ∈ map_tasks fs ++ reduce_tasks n) as Hm
      by (rewrite <- Hp; apply elem_of_app; by right).
    apply elem_of_app in Hm as [Hm|Hm]; [by apply map_task_type in Hm|].
    apply list_elem_of_fmap in Hm as (i & [= -> _] & Hr%elem_of_seqZ). lia.
  - destruct H as [_ E']. rewrite E' in Hin. by apply elem_of_nil in Hin.
Qed.

Lemma work_inv w fin worked id R reply :
  job_inv w fin worked -> jw_threads w !! id = Some (mkThread R (W_Working reply)) ->
  exists w', thread_turn sort mapf reducef id w = Done tt w' /\
    job_inv w' fin (worked ++ [(id, reply)]) /\ jw_threads w' !! id = Some (mkThread n (W_Reporting reply)).
Proof.
  intros Hi Hth. destruct (ji_threads _ _ _ Hi _ _ Hth) as (HR & Hfiles & o & Ho & Hcar).
  simpl in *. subst R. destruct Hcar as (t & -> & Ht). pose proof (ji_coord _ _ _ Hi) as Hc.
  enough (exists d', do_task sort mapf reducef id n reply (jw_dir w) = Done tt d' /\
    inputs d' = inputs (jw_dir w) /\ (forall i, is_Some (mids d' !! i) <-> is_Some (mids (jw_dir w) !! i)) /\
    (forall r, 0 <= r < n -> intermediate r d' ≡ₚ
       filter (in_part n r) (emitted mapf (maps_of (worked ++ [(id, reply)])) d0)) /\
    (forall r, ReduceTaskRpc r ∈ (snd <$> worked) ++ [reply] ->
       exists out, outs d' !! r = Some out /\ right_lines r out)) as (d' & E & H1 & H2 & H3 & H4).
  { eexists. split.
    - unfold thread_turn. rewrite bind_gets, Hth. erewrite bind_done; [|by apply on_dir_done]. reflexivity.
    - split; [|by apply lookup_insert_eq]. apply (work_done_inv _ _ _ _ _ _ Hi Hth); [|done..].
      etrans; [exact H1|apply (ji_inputs _ _ _ Hi)]. }
  pose proof (ji_outs _ _ _ Hi) as Houts. rewrite emitted_snoc.
  assert (forall r, ReduceTaskRpc r ∈ (snd <$> worked) ++ [reply] ->
    ReduceTaskRpc r ∈ snd <$> worked \/ reply = ReduceTaskRpc r) as Hsplit.
  { intros r [H|H]%elem_of_app; [by left|]. right. by apply list_elem_of_singleton in H. }
  destruct t as [f st|r st]; simpl in Ht; subst reply.
  - pose proof (carried_map _ _ _ _ _ Hc Ho) as Hf. rewrite Forall_forall in Hinputs.
    destruct (Hinputs f Hf) as [content Hcont]. rewrite Hcont.
    destruct (doMapWork_run mapf id n f content (jw_dir w) Hn) as (d' & E & (S1 & S2 & S3) & Hm);
      [by rewrite (ji_inputs _ _ _ Hi)|by apply Hfiles|].
    exists d'. split; [exact E|]. split; [done|]. split; [intros i; by rewrite S3|]. split.
    + intros r Hr. rewrite (Hm r Hr), (ji_mids _ _ _ Hi r Hr), filter_app. done.
    + intros r [Hr|?]%Hsplit; [|done]. rewrite S2. by apply Houts.
  - destruct (carried_reduce _ _ _ _ _ Hc Ho) as (Hr & Hp & Hall).
    destruct (doReduceTask_run sort Hsort reducef r (jw_dir w)) as (out & E & Hnd & Hout).
    eexists. split; [exact E|]. split; [done|]. split; [done|]. split.
    + intros r' Hr'. rewrite app_nil_r. by apply (ji_mids _ _ _ Hi).
    + intros r' Hr'%Hsplit. simpl. rewrite lookup_insert. case_decide as Er.
      * subst r'. exists out. split; [done|]. split; [done|]. intros k o. rewrite Hout.
        apply (line_in_part sort Hsort reducef n Hreduce). rewrite (ji_mids _ _ _ Hi r Hr).
        by rewrite (maps_complete _ _ _ Hi Hp Hall).
      * destruct Hr' as [Hr'|[= ->]]; [by apply Houts|done].
Qed.

Lemma report_inv w fin worked id R reply :
  job_inv w fin worked -> jw_threads w !! id = Some (mkThread R (W_Reporting reply)) ->
  exists w' t, thread_turn sort mapf reducef id w = Done tt w' /\ job_inv w' (fin ++ [t]) worked /\
    jw_threads w' !! id = Some (mkThread n W_Asking).
Proof.
  intros Hi Hth. destruct (ji_threads _ _ _ Hi _ _ Hth) as (HR & Hfiles & o & Ho & Hcar).
  simpl in *. subst R. destruct Hcar as (t & -> & Ht). pose proof (ji_coord _ _ _ Hi) as Hc.
  pose proof (FinishTask_run id t _ Ho) as E. rewrite (carried_fits fs n _ fin id t Hc Ho) in E.
  pose proof (finish_inv fs n Hfs Hn _ _ fin id t Hc Ho E) as Hc'.
  eexists _, t. split.
  { unfold thread_turn. rewrite bind_gets, Hth. erewrite bind_done; [|by apply on_coord_done]. reflexivity. }
  simpl. assert (workers (finish_effect t (jw_coord w)) = workers (jw_coord w)) as Ew.
  { unfold finish_effect. destruct (Type_ t); simpl; by destruct (_ =? 0). }
  split; [|by apply lookup_insert_eq]. destruct Hi. constructor; simpl; try done.
  - intros i th'. rewrite lookup_insert. case_decide as Ei.
    + subst i. intros [= <-]. split; [done|]. split; [by intros _; apply Hfiles|]. exists None.
      by rewrite lookup_insert_eq.
    + intros H. destruct (ji_threads0 _ _ H) as (H1 & H2 & H3). rewrite lookup_insert_ne by done. done.
  - intros i. rewrite !lookup_insert. case_decide; [done|]. apply ji_workers0.
  - intros i r H. destruct (ji_files0 _ _ H) as (th & Hth' & Hs).
    destruct (decide (i = id)) as [->|Hne]; [exists (mkThread n W_Asking); by rewrite lookup_insert_eq|].
    exists th. by rewrite lookup_insert_ne.
  - rewrite ji_worked0, fmap_app, <- app_assoc. apply Permutation_app_head.
    pose proof (reporting_insert (jw_threads w) id (mkThread n W_Asking)) as H. rewrite Hth in H.
    simpl in H. rewrite app_nil_r in H. rewrite <- H. simpl. rewrite Ht. by rewrite <- Permutation_cons_append.
Qed.

(** ** Runs *)

Definition live (th : thread) : Prop := match th_state th with W_Exited _ => False | _ => True end.
#[local] Instance live_dec th : Decision (live th).
Proof. unfold live. destruct (th_state th); apply _. Defined.

Lemma turn_inv w fin worked id th :
  job_inv w fin worked -> jw_threads w !! id = Some th -> live th ->
  exists w' fin' worked', thread_turn sort mapf reducef id w = Done tt w' /\ job_inv w' fin' worked'.
Proof.
  intros Hi Hth Hl. destruct th as [R []]; [| | | |done].
  - destruct (files_inv _ _ _ _ _ Hi Hth) as (w' & E & Hi' & _). eauto.
  - destruct (ask_inv _ _ _ _ _ Hi Hth) as (w' & E & Hi' & _). eauto.
  - destruct (work_inv _ _ _ _ _ _ Hi Hth) as (w' & E & Hi' & _). eauto.
  - destruct (report_inv _ _ _ _ _ _ Hi Hth) as (w' & t & E & Hi' & _). eauto.
Qed.

Lemma job_step_inv w w' fin worked :
  job_inv w fin worked -> job_step sort mapf reducef w w' ->
  exists fin' worked', job_inv w' fin' worked'.
Proof.
  intros Hi Hs. revert Hi. destruct Hs as [w1 w2 Hb E|id w1 w2 E|id w1 w2 r E]; intros Hi.
  - eexists _, _. exact (start_worker_inv _ _ _ _ Hi Hb E).
  - destruct (jw_threads w1 !! id) as [th|] eqn:Hth;
      [|unfold thread_turn in E; by rewrite bind_gets, Hth in E].
    destruct (decide (live th)) as [Hl|Hl].
    + destruct (turn_inv _ _ _ _ _ Hi Hth Hl) as (w3 & fin' & worked' & E' & Hi'). rewrite E in E'.
      injection E' as <-. eauto.
    + exfalso. unfold thread_turn in E. rewrite bind_gets, Hth in E. destruct th as [R []]; try done; by apply Hl.
  - unfold sendHeartBeat, on_coord, HeartBeat, tickWorker, hasWorker in E. rewrite bind_gets in E. simpl in E.
    injection E as _ <-. exists fin, worked. destruct w1. exact Hi.
Qed.

Lemma job_reachable w :
  rtc (job_step sort mapf reducef) (start_job fs n d0) w -> exists fin worked, job_inv w fin worked.
Proof.
  intros Hr. assert (exists fin worked, job_inv (start_job fs n d0) fin worked) as Hi
    by (eexists _, _; apply start_job_inv).
  induction Hr as [|w1 w2 w3 H12 _ IH]; [done|]. destruct Hi as (fin & worked & Hi). apply IH.
  by eapply job_step_inv.
Qed.

(** ** Completion *)

(** Some live worker can finish one more task. *)
Definition finishes (w : job_world) (fin : list Task) : Prop :=
  exists w' t worked id th, rtc (job_step sort mapf reducef) w w' /\
    job_inv w' (fin ++ [t]) worked /\ jw_threads w' !! id = Some th /\ live th.

Lemma finishes_turn id w w' fin :
  thread_turn sort mapf reducef id w = Done tt w' -> finishes w' fin -> finishes w fin.
Proof.
  intros E (w2 & t & worked & i & th & Hr & H). exists w2, t, worked, i, th. split; [|done].
  eapply rtc_l; [by eapply job_turn|exact Hr].
Qed.

Lemma reporting_finishes w fin worked id R reply :
  job_inv w fin worked -> jw_threads w !! id = Some (mkThread R (W_Reporting reply)) -> finishes w fin.
Proof.
  intros Hi Hth. destruct (report_inv _ _ _ _ _ _ Hi Hth) as (w' & t & E & Hi' & Hth').
  exists w', t, worked, id, (mkThread n W_Asking). split; [|done]. by eapply rtc_once, job_turn.
Qed.

Lemma working_finishes w fin worked id R reply :
  job_inv w fin worked -> jw_threads w !! id = Some (mkThread R (W_Working reply)) -> finishes w fin.
Proof.
  intros Hi Hth. destruct (work_inv _ _ _ _ _ _ Hi Hth) as (w1 & E & Hi1 & Hth1).
  eapply finishes_turn; [exact E|]. by eapply reporting_finishes.
Qed.

Lemma asking_finishes w fin worked id R :
  job_inv w fin worked -> workingStage (jw_coord w) <> DONE -> tasks (jw_coord w) <> [] ->
  jw_threads w !! id = Some (mkThread R W_Asking) -> finishes w fin.
Proof.
  intros Hi Hst Hts Hth. destruct (ask_inv _ _ _ _ _ Hi Hth) as (w1 & E & Hi1 & Hw1).
  destruct (Hw1 Hst Hts) as [r Hth1]. eapply finishes_turn; [exact E|]. by eapply working_finishes.
Qed.

Lemma finish_one w fin worked id0 th0 :
  job_inv w fin worked -> workingStage (jw_coord w) <> DONE ->
  jw_threads w !! id0 = Some th0 -> live th0 -> finishes w fin.
Proof.
  intros Hi Hst Hth0 Hl. destruct (held (workers (jw_coord w))) as [|t l] eqn:Hheld.
  - assert (tasks (jw_coord w) <> []) as Hts.
    { intros E. pose proof (mr_accounts _ _ _ (ji_coord _ _ _ Hi)) as Ha. unfold accounts in Ha. simpl in Ha.
      assert (remaining (jw_coord w) = []) as E' by (unfold remaining; by rewrite E, Hheld).
      rewrite E' in Ha. destruct (workingStage (jw_coord w)); try done.
      - by destruct Ha as (_ & _ & ? & _).
      - by destruct Ha as (_ & _ & _ & ?). }
    destruct th0 as [R []]; [| | | |done].
    + destruct (files_inv _ _ _ _ _ Hi Hth0) as (w1 & E & Hi1 & Hth1 & Hc).
      eapply finishes_turn; [exact E|]. eapply asking_finishes; [done|by rewrite Hc..|done].
    + by eapply asking_finishes.
    + by eapply working_finishes.
    + by eapply reporting_finishes.
  - assert (t ∈ held (workers (jw_coord w))) as Hin by (rewrite Hheld; by left).
    apply list_elem_of_omap in Hin as ([id o] & Hin & Ho). simpl in Ho. subst o.
    apply elem_of_map_to_list in Hin. destruct (ji_workers _ _ _ Hi id) as [[R st] Hth]; [by eexists|].
    destruct (ji_threads _ _ _ Hi _ _ Hth) as (_ & _ & o & Ho & Hcar). rewrite Hin in Ho.
    injection Ho as <-. destruct st; simpl in Hcar; try done.
    + by eapply working_finishes.
    + by eapply reporting_finishes.
Qed.

Lemma job_completes w fin worked id th :
  job_inv w fin worked -> jw_threads w !! id = Some th -> live th ->
  exists w', rtc (job_step sort mapf reducef) w w' /\ workingStage (jw_coord w') = DONE.
Proof.
  remember (Z.to_nat (work_left (jw_coord w))) as k eqn:Hk. revert w fin worked id th Hk.
  induction k as [|k IH]; intros w fin worked id th Hk Hi Hth Hl;
    pose proof (work_accounts fs n Hn _ (ji_coord _ _ _ Hi)) as Ha; simpl in Ha.
  - exists w. split; [done|]. apply (work_done fs n Hn (MW (jw_coord w) fin)); [apply (ji_coord _ _ _ Hi)|].
    simpl. assert (0 <= work_left (jw_coord w)); [|lia]. unfold work_left.
    pose proof (mr_nReduce _ _ _ (ji_coord _ _ _ Hi)) as Hr. simpl in Hr. case_match; lia.
  - destruct (decide (workingStage (jw_coord w) = DONE)) as [E|E]; [by exists w|].
    destruct (finish_one _ _ _ _ _ Hi E Hth Hl) as (w1 & t & worked' & id' & th' & Hr & Hi1 & Hth1 & Hl1).
    pose proof (work_accounts fs n Hn _ (ji_coord _ _ _ Hi1)) as Ha1. simpl in Ha1.
    rewrite length_app in Ha1. simpl in Ha1.
    destruct (IH w1 (fin ++ [t]) worked' id' th') as (w' & Hr' & Hd); [lia|done..|].
    exists w'. split; [by etrans|done].
Qed.

(** ** The result *)

Lemma job_result w fin worked :
  job_inv w fin worked -> workingStage (jw_coord w) = DONE ->
  (forall r, 0 <= r < n -> exists out, outs (jw_dir w) !! r = Some out /\ right_lines r out) /\
  exists out, mrsequential sort mapf reducef fs d0 = Done out d0 /\ all_out n (jw_dir w) ≡ₚ out.
Proof.
  intros Hi Hd. pose proof (mr_accounts _ _ _ (ji_coord _ _ _ Hi)) as Ha. unfold accounts in Ha.
  simpl in Ha. rewrite Hd in Ha. destruct Ha as [Hp _].
  assert (forall r, 0 <= r < n -> exists out, outs (jw_dir w) !! r = Some out /\ right_lines r out) as Hout.
  { intros r Hr. apply (ji_outs _ _ _ Hi). rewrite (ji_worked _ _ _ Hi), Hp. apply elem_of_app. left.
    apply (list_elem_of_fmap_2 taskToRpc _ (ReduceTask r TASK_TODO)), elem_of_app. right.
    apply (list_elem_of_fmap_2 (fun i => ReduceTask i TASK_TODO)), elem_of_seqZ. lia. }
  split; [done|].
  destruct (mrsequential_run sort Hsort mapf reducef ((fun f => (0, f)) <$> fs) d0) as (out & Es & Eo).
  { by apply Forall_fmap. }
  exists out. replace (map snd ((fun f => (0, f)) <$> fs)) with fs in Es
    by (clear; induction fs; simpl; by f_equal).
  split; [done|]. by apply (all_out_sequential sort Hsort reducef n Hn Hreduce job_output).
Qed.

(** The lines of a finished job. *)
Lemma job_lines w fin worked :
  job_inv w fin worked -> workingStage (jw_coord w) = DONE ->
  NoDup (map fst (all_out n (jw_dir w))) /\
  forall k o, (k, o) ∈ all_out n (jw_dir w) <->
    values_of k job_output <> [] /\ o = reducef k (values_of k job_output).
Proof.
  intros Hi Hd. destruct (job_result _ _ _ Hi Hd) as [_ (out & Es & Hp)].
  destruct (mrsequential_run sort Hsort mapf reducef ((fun f => (0, f)) <$> fs) d0) as (out' & Es' & Eo).
  { by apply Forall_fmap. }
  replace (map snd ((fun f => (0, f)) <$> fs)) with fs in Es' by (clear; induction fs; simpl; by f_equal).
  rewrite Es in Es'. injection Es' as <-.
  destruct (reduce_out_spec reducef (sort job_output)) as (out' & Eo' & Hnd & Ho); [apply Hsort|].
  fold job_output in Eo. rewrite Eo in Eo'. injection Eo' as <-.
  split; [by rewrite (fmap_Permutation fst _ _ Hp)|]. intros k o. rewrite Hp, Ho.
  assert (values_of k (sort job_output) ≡ₚ values_of k job_output) as Hv by (apply values_of_perm, Hsort).
  rewrite (Hreduce k _ _ Hv). split; intros [Hne ->]; (split; [|done]); intros E; rewrite E in Hv.
  - by apply Permutation_nil_r in Hv.
  - by apply Permutation_nil_l in Hv.
Qed.
End job.

(** * Theorems *)


(** ** An instance *)

(** A schedule: [None] registers a worker, [Some id] is a turn of worker [id]. *)
Fixpoint schedule mapf reducef (s : list (option Z)) (w : job_world) : option job_world :=
  match s with
  | [] => Some w
  | None :: s =>
      if decide (workerIDAcc (jw_coord w) + 1 < 2^16) then
        match start_worker w with Done _ w' => schedule mapf reducef s w' | _ => None end
      else None
  | Some id :: s =>
      match thread_turn sortByKey mapf reducef id w with Done _ w' => schedule mapf reducef s w' | _ => None end
  end.

Lemma schedule_steps mapf reducef s w w' :
  schedule mapf reducef s w = Some w' -> rtc (job_step sortByKey mapf reducef) w w'.
Proof.
  revert w. induction s as [|[id|] s IH]; cbn [schedule]; intros w E.
  - by injection E as <-.
  - destruct (thread_turn _ _ _ id w) as [[] w1| |] eqn:E1; try done.
    eapply rtc_l; [by eapply job_turn|by apply IH].
  - destruct (decide _) as [Hb|]; [|done]. destruct (start_worker w) as [[] w1| |] eqn:E1; try done.
    eapply rtc_l; [by eapply job_start|by apply IH].
Qed.

(** Two workers whose map tasks overlap, and the reduce tasks after them. *)
Definition word_schedule : list (option Z) :=
  [None; None] ++ (Some <$> [1; 2; 1; 2; 2; 1; 2; 1; 2; 2; 2; 1; 1; 2; 1; 2; 1; 2]).

Definition word_start : job_world := start_job ["in1"; "in2"; "in3"]%string 2 (mkDirectory (inputs word_dir2) ∅ ∅).
Definition word_end : job_world := default word_start (schedule word_map word_count word_schedule word_start).

