(* ===== verification/Utf8.v ===== *)
(** Strings as Go reads them: the UTF-8 decoding of unicode/utf8 and the Latin-1
    half of unicode.IsUpper. *)

From Stdlib Require Import Ascii.
From Stdlib Require String.
From S2P Require Import Prelude.

Definition byte_val (a : Ascii.ascii) : Z := Z.of_N (Ascii.N_of_ascii a).
Definition RuneError : Z := 65533.

Definition between (lo hi b : Z) : bool := (lo <=? b) && (b <=? hi).

(** The leading byte gives the length of the encoding and the range of the
    second byte; [None] for a byte that starts none. *)
Definition first_byte (b : Z) : option (nat * Z * Z) :=
  if between 194 223 b then Some (2%nat, 128, 191)
  else if b =? 224 then Some (3%nat, 160, 191)
  else if b =? 237 then Some (3%nat, 128, 159)
  else if between 225 239 b then Some (3%nat, 128, 191)
  else if b =? 240 then Some (4%nat, 144, 191)
  else if b =? 244 then Some (4%nat, 128, 143)
  else if between 241 243 b then Some (4%nat, 128, 191)
  else None.

Definition low6 (b : Z) : Z := Z.land b 63.

(** The rune at the front and its width; a byte that is no encoding is one
    RuneError. *)
Definition DecodeRune (bs : list Z) : Z * nat :=
  match bs with
  | [] => (RuneError, 0%nat)
  | b0 :: rest =>
      if b0 <? 128 then (b0, 1%nat) else
      match first_byte b0, rest with
      | Some (2%nat, lo, hi), b1 :: _ =>
          if between lo hi b1
          then (Z.lor (Z.shiftl (Z.land b0 31) 6) (low6 b1), 2%nat) else (RuneError, 1%nat)
      | Some (3%nat, lo, hi), b1 :: b2 :: _ =>
          if between lo hi b1 && between 128 191 b2
          then (Z.lor (Z.shiftl (Z.land b0 15) 12) (Z.lor (Z.shiftl (low6 b1) 6) (low6 b2)), 3%nat)
          else (RuneError, 1%nat)
      | Some (4%nat, lo, hi), b1 :: b2 :: b3 :: _ =>
          if between lo hi b1 && between 128 191 b2 && between 128 191 b3
          then (Z.lor (Z.shiftl (Z.land b0 7) 18)
                 (Z.lor (Z.shiftl (low6 b1) 12) (Z.lor (Z.shiftl (low6 b2) 6) (low6 b3))), 4%nat)
          else (RuneError, 1%nat)
      | _, _ => (RuneError, 1%nat)
      end
  end.

(** utf8.DecodeRuneInString *)
Definition DecodeRuneInString (s : string) : Z * nat := DecodeRune (byte_val <$> String.list_ascii_of_string s).

(** unicode.IsUpper up to MaxLatin1. *)
Definition latin1_upper (r : Z) : bool := between 65 90 r || between 192 214 r || between 216 222 r.
