(* ===== verification/Digits.v ===== *)
(** Names with numbers in them: a decimal number has no dash, so that names made of
    numbers and dashes can be taken apart again. *)

From Stdlib Require Import Ascii.
From stdpp Require Import pretty.
From S2P Require Import Prelude.

Fixpoint no_dash (s : string) : bool :=
  match s with
  | EmptyString => true
  | String a s => negb (Ascii.eqb a "-"%char) && no_dash s
  end.

Lemma pretty_N_go_no_dash x s : no_dash s = true -> no_dash (pretty_N_go x s) = true.
Proof.
  revert s. induction (N.lt_wf_0 x) as [x _ IH]; intros s Hs.
  assert (x = 0 \/ 0 < x)%N as [-> | Hx] by lia; [by rewrite pretty_N_go_0|].
  rewrite pretty_N_go_step by done. apply IH; [by apply N.div_lt|].
  simpl. rewrite Hs, andb_true_r. unfold pretty_N_char. by repeat case_match.
Qed.

Lemma pretty_no_dash n : 0 <= n -> no_dash (pretty n) = true.
Proof.
  intros H. destruct n as [|p|p]; [done| |lia].
  unfold pretty, pretty_Z, pretty, pretty_positive, pretty, pretty_N. case_decide; [done|].
  by apply pretty_N_go_no_dash.
Qed.

Lemma dash_split a b a' b' :
  no_dash a = true -> no_dash a' = true -> (a +:+ "-" +:+ b = a' +:+ "-" +:+ b')%string -> a = a' /\ b = b'.
Proof.
  revert a'. induction a as [|x a IH]; intros [|x' a'] Ha Ha' E; simpl in *.
  - by injection E.
  - injection E as <- E. done.
  - injection E as -> E. done.
  - injection E as -> E. apply andb_true_iff in Ha as [_ Ha], Ha' as [_ Ha'].
    destruct (IH a' Ha Ha' E) as [-> ->]. done.
Qed.
