(* ===== verification/MrApps.v ===== *)
(** The MapReduce applications (mrapps): wc.go, indexer.go, early_exit.go,
    crash.go and nocrash.go, jobcount.go, and the halves of mtiming.go and
    rtiming.go that look at nothing outside (the others are in MrTiming).

    What they use of the Go library is here too: strings.FieldsFunc, unicode.IsLetter (the Latin-1 half
    is a table; the letters above it are a parameter), strings.Join,
    sort.Strings and strconv.Itoa. *)

From Stdlib Require Import Ascii.
From Stdlib Require String.
From stdpp Require Import pretty sorting.
From S2P Require Import Prelude Utf8 Digits MrCoordinator MrWorker MrJob.

(** * The Go library *)

Abbreviation bytes := (list Ascii.ascii).

(** The runes of a string, each with its bytes; [fuel] is at least the number of
    bytes. *)
Fixpoint runes_fuel (fuel : nat) (bs : bytes) : list (Z * bytes) :=
  match fuel, bs with
  | S fuel, _ :: _ =>
      let '(r, w) := DecodeRune (byte_val <$> bs) in
      (r, take w bs) :: runes_fuel fuel (drop w bs)
  | _, _ => []
  end.
Definition runes (bs : bytes) : list (Z * bytes) := runes_fuel (length bs) bs.

(** strings.FieldsFunc: [cur] is the field that has begun. *)
Fixpoint fields (sep : Z -> bool) (cur : option bytes) (rs : list (Z * bytes)) : list bytes :=
  match rs with
  | [] => match cur with Some w => [w] | None => [] end
  | (r, c) :: rs =>
      if sep r then match cur with Some w => w :: fields sep None rs | None => fields sep None rs end
      else fields sep (Some (default [] cur ++ c)) rs
  end.
Definition FieldsFunc (s : string) (sep : Z -> bool) : list string :=
  String.string_of_list_ascii <$> fields sep None (runes (String.list_ascii_of_string s)).

Definition Itoa (n : Z) : string := pretty n.
Definition Join (l : list string) (sep : string) : string := String.concat sep l.
Definition sortStrings (l : list string) : list string := merge_sort String.le l.
Definition lenS (s : string) : Z := Z.of_nat (String.length s).

(** unicode.IsLetter up to MaxLatin1. *)
Definition latin1_letter (r : Z) : bool :=
  between 65 90 r || between 97 122 r || (r =? 170) || (r =? 181) || (r =? 186) ||
  between 192 214 r || between 216 246 r || between 248 255 r.

Section apps.
Context (letter_table : Z -> bool).

Definition IsLetter (r : Z) : bool := if r <=? 255 then latin1_letter r else letter_table r.

Definition words (contents : string) : list string := FieldsFunc contents (fun r => negb (IsLetter r)).

(** * wc.go *)

Definition wc_Map (filename contents : string) : list KeyValue :=
  (fun w => mkKV w "1") <$> words contents.
Definition wc_Reduce (key : string) (values : list string) : string := Itoa (lenZ values).

(** * indexer.go *)

(** A range over a map visits the keys in any order. *)
Context (map_order : string -> list string -> list string).

Definition indexer_Map (document value : string) : list KeyValue :=
  let m : gset string := list_to_set (words value) in
  (fun w => mkKV w document) <$> map_order document (elements m).
Definition indexer_Reduce (key : string) (values : list string) : string :=
  let values := sortStrings values in
  (Itoa (lenZ values) +:+ " " +:+ Join values ",")%string.
End apps.

(** * early_exit.go *)

Definition early_exit_Map (filename contents : string) : list KeyValue := [mkKV filename "1"].
Definition early_exit_Reduce (key : string) (values : list string) : string := Itoa (lenZ values).

(** * nocrash.go and crash.go *)

(** [rr] is the random number; [None] is os.Exit. *)
Definition nocrash_maybeCrash (rr : Z) : option unit := if false && (rr <? 500) then None else Some tt.
Definition crash_maybeCrash (rr : Z) : option unit := if rr <? 330 then None else Some tt.

Definition nocrash_Map (rr : Z) (filename contents : string) : option (list KeyValue) :=
  nocrash_maybeCrash rr ≫= fun _ =>
  Some [mkKV "a" filename; mkKV "b" (Itoa (lenS filename)); mkKV "c" (Itoa (lenS contents));
        mkKV "d" "xyzzy"]%string.
Definition nocrash_Reduce (rr : Z) (key : string) (values : list string) : option string :=
  nocrash_maybeCrash rr ≫= fun _ => Some (Join (sortStrings values) " ").

Definition crash_Map (rr : Z) (filename contents : string) : option (list KeyValue) :=
  crash_maybeCrash rr ≫= fun _ =>
  Some [mkKV "a" filename; mkKV "b" (Itoa (lenS filename)); mkKV "c" (Itoa (lenS contents));
        mkKV "d" "xyzzy"]%string.
Definition crash_Reduce (rr : Z) (key : string) (values : list string) : option string :=
  crash_maybeCrash rr ≫= fun _ => Some (Join (sortStrings values) " ").

(** * mtiming.go and rtiming.go *)

Definition mtiming_Reduce (key : string) (values : list string) : string :=
  Join (sortStrings values) " ".
Definition rtiming_Map (filename contents : string) : list KeyValue :=
  (fun k => mkKV k "1") <$> ["a"; "b"; "c"; "d"; "e"; "f"; "g"; "h"; "i"; "j"]%string.

(** * jobcount.go *)

(** The directory the processes share, and the counter of each process. *)
Record jc_world := JC { jc_files : gset string; jc_count : gmap Z Z }.

Definition jc_name (me count : Z) : string :=
  ("mr-worker-jobcount-" +:+ pretty me +:+ "-" +:+ pretty count)%string.

Definition jobcount_Map (me : Z) (filename contents : string) : M jc_world (list KeyValue) :=
  w ← gets (fun w => w);
  let count := default 0 (jc_count w !! me) in
  modify (fun w => JC ({[jc_name me count]} ∪ jc_files w) (<[me := count + 1]> (jc_count w)));;
  mret [mkKV "a" "x"]%string.

(** strings.HasPrefix on the name. *)
Definition jc_mine (f : string) : Prop := String.prefix "mr-worker-jobcount" f = true.
#[local] Instance jc_mine_dec f : Decision (jc_mine f).
Proof. unfold jc_mine. apply _. Defined.

Definition jobcount_Reduce (key : string) (values : list string) : M jc_world string :=
  w ← gets (fun w => w);
  mret (Itoa (lenZ (filter jc_mine (elements (jc_files w))))).

(** * The fields of a string *)

Lemma DecodeRune_width b bs : (1 <= snd (DecodeRune (b :: bs)) <= S (length bs))%nat.
Proof.
  unfold DecodeRune. destruct (b <? 128); [simpl; lia|].
  destruct (first_byte b) as [[[n lo] hi]|]; [|simpl; lia].
  do 5 (destruct n as [|n]; [destruct bs as [|b1 [|b2 [|b3 bs]]]; simpl; try case_match; simpl; lia|]).
  simpl. lia.
Qed.

Lemma runes_fuel_concat fuel bs : (length bs <= fuel)%nat -> concat (snd <$> runes_fuel fuel bs) = bs.
Proof.
  revert bs. induction fuel as [|fuel IH]; intros [|b bs] H; simpl in H; try done; [lia|].
  cbn [runes_fuel]. pose proof (DecodeRune_width (byte_val b) (byte_val <$> bs)) as Hw.
  rewrite length_fmap in Hw. rewrite fmap_cons.
  destruct (DecodeRune _) as [r w]. cbn [snd] in Hw. rewrite fmap_cons. cbn [concat snd].
  rewrite IH; [apply take_drop|]. rewrite length_drop. simpl. lia.
Qed.

(** Nothing of the string is lost. *)
Lemma runes_concat bs : concat (snd <$> runes bs) = bs.
Proof. by apply runes_fuel_concat. Qed.

Lemma runes_nonempty bs : Forall (fun rc => snd rc <> []) (runes bs).
Proof.
  unfold runes. generalize (length bs). intros fuel. revert bs.
  induction fuel as [|fuel IH]; intros [|b bs]; [constructor..|]. cbn [runes_fuel].
  pose proof (DecodeRune_width (byte_val b) (byte_val <$> bs)) as Hw.
  rewrite fmap_cons. destruct (DecodeRune _) as [r w]. constructor; [|apply IH].
  cbn [snd] in *. destruct w; [lia|done].
Qed.

(** The fields hold the runes that are no separators, in order, and no field is
    empty. *)
Lemma fields_concat sep cur rs :
  Forall (fun rc => snd rc <> []) rs -> (forall w, cur = Some w -> w <> []) ->
  concat (fields sep cur rs)
  = default [] cur ++ concat (snd <$> filter (fun rc => sep (fst rc) = false) rs) /\
  Forall (fun w => w <> []) (fields sep cur rs).
Proof.
  intros Hrs. revert cur. induction Hrs as [|[r c] rs Hc _ IH]; intros cur Hcur.
  { destruct cur as [w|]; simpl; [|done]. split; [by rewrite app_nil_r|]. constructor; [by apply Hcur|done]. }
  simpl in Hc. cbn [fields]. rewrite filter_cons. cbn [fst]. destruct (sep r) eqn:Es.
  - rewrite decide_False by done. destruct (IH None) as [IH1 IH2]; [done|].
    destruct cur as [w|]; [|by split]. cbn [concat]. rewrite IH1. split; [done|].
    constructor; [by apply Hcur|done].
  - rewrite decide_True by done. destruct (IH (Some (default [] cur ++ c))) as [IH1 IH2].
    + intros w [= <-]. by destruct (default [] cur).
    + rewrite IH1. split; [|done]. rewrite fmap_cons. simpl. by rewrite <- app_assoc.
Qed.

(** * Reduce functions do not depend on the order of their values *)

Lemma sortStrings_permutes l : sortStrings l ≡ₚ l.
Proof. apply merge_sort_Permutation. Qed.

Lemma sortStrings_perm l l' : l ≡ₚ l' -> sortStrings l = sortStrings l'.
Proof.
  intros H. apply (Sorted_unique String.le).
  - apply Sorted_merge_sort, _.
  - apply Sorted_merge_sort, _.
  - by rewrite !sortStrings_permutes.
Qed.

Lemma lenZ_perm {A} (l l' : list A) : l ≡ₚ l' -> lenZ l = lenZ l'.
Proof. intros H. unfold lenZ. by rewrite H. Qed.

Lemma wc_Reduce_perm k vs vs' : vs ≡ₚ vs' -> wc_Reduce k vs = wc_Reduce k vs'.
Proof. intros H. unfold wc_Reduce. by rewrite (lenZ_perm _ _ H). Qed.

Lemma indexer_Reduce_perm k vs vs' : vs ≡ₚ vs' -> indexer_Reduce k vs = indexer_Reduce k vs'.
Proof. intros H. unfold indexer_Reduce. by rewrite (sortStrings_perm _ _ H). Qed.

(** * Whole jobs *)

Section jobs.
Context (letter_table : Z -> bool).
Context (fs : list string) (d : Directory).

Definition content (f : string) : string := default ""%string (inputs d !! f).
Definition all_words : list string := fs ≫= fun f => words letter_table (content f).

Lemma emitted_content mapf :
  Forall (fun f => is_Some (inputs d !! f)) fs ->
  emitted mapf ((fun f => (0, f)) <$> fs) d = fs ≫= fun f => mapf f (content f).
Proof.
  unfold emitted, content. induction 1 as [|f fs' [c Hc] _ IH]; [done|]. rewrite fmap_cons, !bind_cons, IH.
  cbn [snd]. by rewrite Hc.
Qed.

Lemma values_of_bind k (g : string -> list KeyValue) l :
  values_of k (l ≫= g) = l ≫= fun f => values_of k (g f).
Proof. induction l as [|f l IH]; [done|]. by rewrite !bind_cons, values_of_app, IH. Qed.

Lemma values_of_map k v (ws : list string) :
  values_of k ((fun w => mkKV w v) <$> ws) = replicate (length (filter (eq k) ws)) v.
Proof.
  induction ws as [|w ws IH]; [done|]. rewrite fmap_cons, values_of_cons, filter_cons, IH. cbn [kv_Key].
  destruct (decide (w = k)) as [->|Hne]; [by rewrite decide_True|by rewrite decide_False].
Qed.

Lemma wc_values k :
  Forall (fun f => is_Some (inputs d !! f)) fs ->
  values_of k (emitted (wc_Map letter_table) ((fun f => (0, f)) <$> fs) d)
  = replicate (length (filter (eq k) all_words)) "1"%string.
Proof.
  intros H. rewrite (emitted_content _ H), values_of_bind. unfold all_words, wc_Map. clear H.
  induction fs as [|f l IH]; [done|].
  rewrite !bind_cons, filter_app, length_app, replicate_add, IH. by rewrite values_of_map.
Qed.

Context (map_order : string -> list string -> list string).
Context (Horder : forall doc ws, map_order doc ws ≡ₚ ws).

(** The documents with a word. *)
Definition documents (k : string) : list string :=
  filter (fun f => k ∈ words letter_table (content f)) fs.

Lemma index_values k :
  Forall (fun f => is_Some (inputs d !! f)) fs ->
  values_of k (emitted (indexer_Map letter_table map_order) ((fun f => (0, f)) <$> fs) d) = documents k.
Proof.
  intros H. rewrite (emitted_content _ H), values_of_bind. unfold documents, indexer_Map. clear H.
  induction fs as [|f l IH]; [done|]. rewrite bind_cons, filter_cons, IH, values_of_map.
  rewrite (Horder f). set (ws := words letter_table (content f)).
  destruct (decide (k ∈ ws)) as [Hk|Hk].
  - assert (filter (eq k) (elements (list_to_set ws : gset string)) ≡ₚ [k]) as Hp.
    { apply NoDup_Permutation; [apply NoDup_filter, NoDup_elements|apply NoDup_singleton|].
      intros x. rewrite list_elem_of_filter, elem_of_elements, elem_of_list_to_set, list_elem_of_singleton.
      split; [by intros [<- _]|by intros ->]. }
    by rewrite Hp.
  - rewrite filter_none; [done|]. apply Forall_forall. intros x Hx <-.
    by rewrite elem_of_elements, elem_of_list_to_set in Hx.
Qed.
End jobs.

(** * Counting invocations *)

Lemma jc_name_inj p c p' c' :
  0 <= p -> 0 <= p' -> jc_name p c = jc_name p' c' -> p = p' /\ c = c'.
Proof.
  intros Hp Hp' E. unfold jc_name in E. apply (inj (String.append "mr-worker-jobcount-")) in E.
  apply dash_split in E as [E1 E2]; [|by apply pretty_no_dash..].
  split; by eapply (inj pretty).
Qed.

Lemma jc_name_mine p c : jc_mine (jc_name p c).
Proof. reflexivity. Qed.

(** [k] invocations so far. *)
Definition jc_inv (k : nat) (w : jc_world) : Prop :=
  size (filter jc_mine (jc_files w)) = k /\
  forall p c, 0 <= p -> jc_name p c ∈ jc_files w -> c < default 0 (jc_count w !! p).

Lemma jobcount_Map_inv me f c k w :
  0 <= me -> jc_inv k w ->
  exists kva w', jobcount_Map me f c w = Done kva w' /\ jc_inv (S k) w'.
Proof.
  intros Hme [Hk Hc]. eexists _, _. split.
  { unfold jobcount_Map. rewrite bind_gets. cbv zeta. rewrite bind_modify. reflexivity. }
  unfold jc_inv. cbn [jc_files jc_count].
  set (count := default 0 (jc_count w !! me)).
  assert (jc_name me count ∉ jc_files w) as Hnew by (intros H%Hc; [unfold count in H; lia|done]).
  split.
  - assert (filter jc_mine ({[jc_name me count]} ∪ jc_files w)
      ≡ ({[jc_name me count]} ∪ filter jc_mine (jc_files w) : gset string)) as ->.
    { intros x. rewrite elem_of_filter, !elem_of_union, elem_of_singleton, elem_of_filter.
      pose proof (jc_name_mine me count) as Hm. split; [tauto|]. intros [->|[? ?]]; auto. }
    rewrite size_union, size_singleton; [by rewrite Hk|].
    apply disjoint_singleton_l. intros [_ H]%elem_of_filter. done.
  - intros p c' Hp. rewrite elem_of_union, elem_of_singleton, lookup_insert. intros [E|H].
    + apply jc_name_inj in E as [-> ->]; [|done..]. rewrite decide_True by done. simpl. lia.
    + apply Hc in H; [|done]. case_decide; [|done]. subst p. simpl. unfold count. lia.
Qed.

Definition jobcount_maps (calls : list (Z * string * string)) : M jc_world unit :=
  for_each calls (fun '(me, f, c) => jobcount_Map me f c;; mret tt).

(** After any calls of Map by any processes, in any order, Reduce answers how
    many there were. *)
Theorem jobcount_counts calls w :
  Forall (fun p => 0 <= fst (fst p)) calls -> (forall f, f ∈ jc_files w -> ~ jc_mine f) ->
  exists w', jobcount_maps calls w = Done tt w' /\
    forall key vs, jobcount_Reduce key vs w' = Done (Itoa (lenZ calls)) w'.
Proof.
  intros Hpos Hclean.
  assert (jc_inv 0 w) as H0.
  { split.
    - apply size_empty_iff. intros f. rewrite elem_of_filter, elem_of_empty. split; [|done].
      intros [H1 H2]. by apply (Hclean f).
    - intros p c _ H. by apply Hclean in H; destruct H. }
  assert (forall k w, jc_inv k w -> exists w', jobcount_maps calls w = Done tt w' /\ jc_inv (length calls + k) w')
    as Hrun.
  { clear w Hclean H0. induction Hpos as [|[[me f] c] calls Hme _ IH]; intros k w Hi; [by exists w|].
    destruct (jobcount_Map_inv me f c k w Hme Hi) as (kva & w1 & E & Hi1).
    destruct (IH (S k) w1 Hi1) as (w' & E' & Hi'). exists w'. split.
    - unfold jobcount_maps in *. cbn [for_each].
      erewrite bind_done; [exact E'|]. by rewrite (bind_done _ _ _ _ _ E).
    - simpl. by rewrite Nat.add_succ_r in Hi'. }
  destruct (Hrun 0%nat w H0) as (w' & E & Hk & _). exists w'. split; [done|]. intros key vs.
  assert (filter jc_mine (elements (jc_files w'))
    ≡ₚ elements (filter jc_mine (jc_files w'))) as Hp.
  { apply NoDup_Permutation; [apply NoDup_filter, NoDup_elements|apply NoDup_elements|].
    intros f. by rewrite list_elem_of_filter, !elem_of_elements, elem_of_filter. }
  unfold jobcount_Reduce. rewrite bind_gets, (lenZ_perm _ _ Hp). unfold lenZ.
  rewrite Nat.add_0_r in Hk. by rewrite <- Hk.
Qed.

(** * Theorems *)

(** C26: A word count by any number of workers that take turns in any order, none of
    them taken for dead, is right: when the job is done, the output files hold
    one line for each word of the files and no other, with the number of times
    the word occurs in all the files together. *)
Theorem word_count_correct letter_table sort fs n d w :
  sort_ok sort -> 0 < lenZ fs < 2^16 -> 0 < n < 2^16 ->
  Forall (fun f => is_Some (inputs d !! f)) fs -> mids d = ∅ ->
  rtc (job_step sort (wc_Map letter_table) wc_Reduce) (start_job fs n d) w ->
  workingStage (jw_coord w) = DONE ->
  NoDup (map fst (all_out n (jw_dir w))) /\
  forall k o, (k, o) ∈ all_out n (jw_dir w) <->
    k ∈ all_words letter_table fs d /\
    o = Itoa (lenZ (filter (eq k) (all_words letter_table fs d))).
Proof.
  intros Hs Hfs Hn Hin Hclean Hrun Hd.
  destruct (job_reachable sort Hs _ _ wc_Reduce_perm fs n d Hfs Hn Hin Hclean w Hrun) as (fin & worked & Hi).
  destruct (job_lines sort Hs _ _ wc_Reduce_perm fs n d Hn Hin w fin worked Hi Hd) as [Hnd Hl].
  split; [exact Hnd|]. intros k o. rewrite Hl. unfold job_output. rewrite (wc_values _ _ _ _ Hin).
  unfold wc_Reduce, lenZ. rewrite length_replicate. apply and_iff_compat_r.
  transitivity (filter (eq k) (all_words letter_table fs d) <> []).
  - by destruct (filter (eq k) (all_words letter_table fs d)).
  - split.
    + intros H. destruct (filter _ _) as [|x l] eqn:E; [done|].
      assert (x ∈ filter (eq k) (all_words letter_table fs d)) as Hx by (rewrite E; by left).
      by apply list_elem_of_filter in Hx as [-> ?].
    + intros Hk E. assert (k ∈ filter (eq k) (all_words letter_table fs d)) as Hx by (by apply list_elem_of_filter).
      by rewrite E, elem_of_nil in Hx.
Qed.

(** An inverted index built by any number of workers, none of them taken for
    dead, whatever the order in which they take turns and in which the map
    function visits its words: when the job is done there is one line for each
    word of the files, with the number of the files that contain it and their
    names in order. *)
Theorem index_correct letter_table map_order sort fs n d w :
  (forall doc ws, map_order doc ws ≡ₚ ws) ->
  sort_ok sort -> 0 < lenZ fs < 2^16 -> 0 < n < 2^16 ->
  Forall (fun f => is_Some (inputs d !! f)) fs -> mids d = ∅ ->
  rtc (job_step sort (indexer_Map letter_table map_order) indexer_Reduce) (start_job fs n d) w ->
  workingStage (jw_coord w) = DONE ->
  NoDup (map fst (all_out n (jw_dir w))) /\
  forall k o, (k, o) ∈ all_out n (jw_dir w) <->
    documents letter_table fs d k <> [] /\
    o = (Itoa (lenZ (documents letter_table fs d k)) +:+ " " +:+
         Join (sortStrings (documents letter_table fs d k)) ",")%string.
Proof.
  intros Ho Hs Hfs Hn Hin Hclean Hrun Hd.
  destruct (job_reachable sort Hs _ _ indexer_Reduce_perm fs n d Hfs Hn Hin Hclean w Hrun) as (fin & worked & Hi).
  destruct (job_lines sort Hs _ _ indexer_Reduce_perm fs n d Hn Hin w fin worked Hi Hd) as [Hnd Hl].
  split; [exact Hnd|]. intros k o. rewrite Hl. unfold job_output. rewrite (index_values _ _ _ _ Ho k Hin).
  unfold indexer_Reduce. rewrite (lenZ_perm _ _ (sortStrings_permutes _)).
  done.
Qed.

(** ** The instance *)

Definition no_letters (_ : Z) : bool := false.

(** Three files, one of them not ASCII. *)
Definition app_dir : Directory :=
  mkDirectory {["in1" := "to be, or not"; "in2" := "to  be"; "in3" := "caf"%string +:+
    String.string_of_list_ascii (Ascii.ascii_of_N <$> [195%N; 169%N; 255%N])]}%string ∅ ∅.
Definition app_files : list string := ["in1"; "in2"; "in3"]%string.
Definition wc_start : job_world := start_job app_files 2 app_dir.
Definition wc_end : job_world := default wc_start (schedule (wc_Map no_letters) wc_Reduce word_schedule wc_start).

Lemma word_count_correct_witness :
  workingStage (jw_coord wc_end) = DONE /\ ("be", "2")%string ∈ all_out 2 (jw_dir wc_end) /\
  NoDup (map fst (all_out 2 (jw_dir wc_end))).
Proof.
  assert (workingStage (jw_coord wc_end) = DONE) as Hd by (vm_compute; reflexivity).
  split; [exact Hd|].
  destruct (word_count_correct no_letters sortByKey app_files 2 app_dir wc_end sortByKey_ok) as [H1 H2].
  - unfold lenZ. simpl. lia.
  - lia.
  - repeat constructor; by eexists.
  - reflexivity.
  - apply (schedule_steps _ _ word_schedule). vm_compute. reflexivity.
  - exact Hd.
  - split; [|exact H1]. apply H2. split; [vm_compute; right; left|vm_compute; reflexivity].
Defined.

Definition same_order (_ : string) (ws : list string) : list string := ws.
Definition ix_end : job_world :=
  default wc_start (schedule (indexer_Map no_letters same_order) indexer_Reduce word_schedule wc_start).

Lemma index_correct_witness :
  workingStage (jw_coord ix_end) = DONE /\ ("be", "2 in1,in2")%string ∈ all_out 2 (jw_dir ix_end).
Proof.
  assert (workingStage (jw_coord ix_end) = DONE) as Hd by (vm_compute; reflexivity).
  split; [exact Hd|].
  refine (proj2 (proj2 (index_correct no_letters same_order sortByKey app_files 2 app_dir ix_end
    _ sortByKey_ok _ _ _ _ _ Hd) "be"%string "2 in1,in2"%string) _).
  - reflexivity.
  - unfold lenZ. simpl. lia.
  - lia.
  - repeat constructor; by eexists.
  - reflexivity.
  - apply (schedule_steps _ _ word_schedule). vm_compute. reflexivity.
  - split; [vm_compute; discriminate|vm_compute; reflexivity].
Defined.

(** When crash.go survives it returns what nocrash.go returns, which always
    returns. *)
Lemma crash_like_nocrash rr rr' f c k vs :
  (forall x, crash_Map rr f c = Some x -> nocrash_Map rr' f c = Some x) /\
  (forall x, crash_Reduce rr k vs = Some x -> nocrash_Reduce rr' k vs = Some x) /\
  is_Some (nocrash_Map rr' f c) /\ is_Some (nocrash_Reduce rr' k vs).
Proof.
  unfold crash_Map, crash_Reduce, crash_maybeCrash. repeat split; try (by eexists); by destruct (rr <? 330).
Qed.
