(* ===== verification/MrTiming.v ===== *)
(** The timing applications of MapReduce (mrapps/mtiming.go, rtiming.go): a worker leaves a file with its
    process identifier in the directory while it runs, and counts the files of the processes that
    are alive.

    fmt.Sscanf with a pattern that ends in %d is here as the code uses it: the literal text, white space, a
    sign and decimal digits, in the range of an int; what follows is not looked at.  The
    answer of syscall.Kill with signal 0 is a parameter: which processes are there. *)

From Stdlib Require Import Ascii.
From Stdlib Require String.
From stdpp Require Import pretty sorting.
From S2P Require Import Prelude Utf8 MrWorker MrApps.

(** * fmt.Sscanf *)

Definition fmt_space (r : Z) : bool :=
  between 9 13 r || (r =? 32) || (r =? 133) || (r =? 160) || (r =? 5760) || between 8192 8202 r ||
  between 8232 8233 r || (r =? 8239) || (r =? 8287) || (r =? 12288).

(** The runes after white space; a newline is an error. *)
Fixpoint skip_space (rs : list Z) : option (list Z) :=
  match rs with
  | [] => Some []
  | r :: rest => if r =? 10 then None else if fmt_space r then skip_space rest else Some rs
  end.

(** The decimal number at the front, [None] without a digit. *)
Fixpoint digits_from (acc : option Z) (rs : list Z) : option Z :=
  match rs with
  | r :: rest => if between 48 57 r then digits_from (Some (10 * default 0 acc + (r - 48))) rest else acc
  | [] => acc
  end.
Definition in_int (v : Z) : bool := (-9223372036854775808 <=? v) && (v <=? 9223372036854775807).
Definition scan_int (rs : list Z) : option Z :=
  rs ← skip_space rs;
  v ← match rs with
      | r :: rest => if r =? 45 then Z.opp <$> digits_from None rest else if r =? 43 then digits_from None rest
                     else digits_from None rs
      | [] => None
      end;
  if in_int v then Some v else None.

Fixpoint after_prefix (p s : string) : option string :=
  match p, s with
  | EmptyString, _ => Some s
  | String a p, String b s => if Ascii.eqb a b then after_prefix p s else None
  | _, _ => None
  end.
Definition rune_list (s : string) : list Z := fst <$> runes (String.list_ascii_of_string s).
Definition Sscanf_d (prefix name : string) : option Z := s ← after_prefix prefix name; scan_int (rune_list s).

(** * nparallel *)

Definition np_prefix (phase : string) : string := ("mr-worker-" +:+ phase +:+ "-")%string.
Definition np_name (phase : string) (pid : Z) : string := (np_prefix phase +:+ pretty pid)%string.

Definition READDIR_MAX : nat := 1000 * 1000.

Section nparallel.
Context (alive : Z -> bool).
Implicit Types dir : gset string.

(** It leaves its file, ... *)
Definition np_enter (phase : string) (pid : Z) : M (gset string) unit := modify (fun dir => {[np_name phase pid]} ∪ dir).
(** ... counts, ... *)
Definition np_counted (phase name : string) : bool :=
  match Sscanf_d (np_prefix phase) name with Some xpid => alive xpid | None => false end.
Definition np_count (phase : string) : M (gset string) Z :=
  dir ← gets (fun dir => dir);
  if decide (dir = ∅) then throw ExplicitPanic
  else mret (count_if (np_counted phase) (take READDIR_MAX (elements dir))).
(** ... and takes the file away. *)
Definition np_leave (phase : string) (pid : Z) : M (gset string) unit :=
  dir ← gets (fun dir => dir);
  if decide (np_name phase pid ∈ dir) then modify (fun dir => dir ∖ {[np_name phase pid]}) else throw ExplicitPanic.

Definition nparallel (phase : string) (pid : Z) : M (gset string) Z :=
  np_enter phase pid;; ret ← np_count phase; np_leave phase pid;; mret ret.

(** [ts] is the time, with one decimal. *)
Definition mtiming_Map (pid : Z) (ts : string) (filename contents : string) : M (gset string) (list KeyValue) :=
  n ← nparallel "map" pid;
  mret [mkKV ("times-" +:+ pretty pid) ts; mkKV ("parallel-" +:+ pretty pid) (Itoa n)]%string.
Definition rtiming_Reduce (pid : Z) (key : string) (values : list string) : M (gset string) string :=
  n ← nparallel "reduce" pid; mret (Itoa n).
End nparallel.

(** * A name scans to its process *)

Definition digit_val (acc : Z) (r : Z) : Z := 10 * acc + (r - 48).

Lemma rune_list_cons a s : byte_val a < 128 -> rune_list (String a s) = byte_val a :: rune_list s.
Proof.
  intros Ha. unfold rune_list, runes. simpl. destruct (byte_val a <? 128) eqn:E; [|lia]. simpl. by rewrite drop_0.
Qed.

Definition is_digit (a : Ascii.ascii) : bool := between 48 57 (byte_val a).
Fixpoint all_digits (s : string) : bool := match s with EmptyString => true | String a s => is_digit a && all_digits s end.

Lemma rune_list_digits s : all_digits s = true -> Forall (fun r => between 48 57 r = true) (rune_list s).
Proof.
  induction s as [|a s IH]; [constructor|]. simpl. intros [H1 H2]%andb_true_iff. unfold is_digit, between in H1.
  rewrite rune_list_cons by lia. constructor; [done|by apply IH].
Qed.
Lemma digits_from_all acc rs :
  Forall (fun r => between 48 57 r = true) rs -> digits_from (Some acc) rs = Some (foldl digit_val acc rs).
Proof. intros H. revert acc. induction H as [|r rs Hr _ IH]; intros acc; [done|]. simpl. by rewrite Hr, IH. Qed.

Lemma digit_char x : (x < 10)%N -> byte_val (pretty_N_char x) = 48 + Z.of_N x /\ is_digit (pretty_N_char x) = true.
Proof.
  intros H. assert (x = 0 \/ x = 1 \/ x = 2 \/ x = 3 \/ x = 4 \/ x = 5 \/ x = 6 \/ x = 7 \/ x = 8 \/ x = 9)%N as Hx by lia.
  by repeat (destruct Hx as [->|Hx]); [..|subst x].
Qed.

Lemma pretty_N_go_digits x s : all_digits s = true ->
  all_digits (pretty_N_go x s) = true /\ foldl digit_val 0 (rune_list (pretty_N_go x s)) = foldl digit_val (Z.of_N x) (rune_list s).
Proof.
  revert s. induction (N.lt_wf_0 x) as [x _ IH]; intros s Hs.
  assert (x = 0 \/ 0 < x)%N as [-> | Hx] by lia; [by rewrite pretty_N_go_0|].
  rewrite pretty_N_go_step by done. destruct (digit_char (x `mod` 10)) as [H1 H2]; [by apply N.mod_lt|].
  destruct (IH (x / 10)%N) with (s := String (pretty_N_char (x `mod` 10)) s) as [H3 H4]; [by apply N.div_lt|simpl; by rewrite H2|].
  split; [done|]. rewrite H4, rune_list_cons by (unfold is_digit, between in H2; lia). simpl. f_equal. unfold digit_val.
  rewrite H1. pose proof (N.div_mod x 10). lia.
Qed.

Lemma pretty_scans n : 0 <= n < 9223372036854775808 -> scan_int (rune_list (pretty n)) = Some n.
Proof.
  intros Hn. destruct (decide (n = 0)) as [->|Hne]; [by vm_compute|].
  assert (pretty n = pretty_N_go (Z.to_N n) "") as ->.
  { destruct n as [|q|q]; [done| |lia]. unfold pretty, pretty_Z, pretty, pretty_positive, pretty, pretty_N. by case_decide. }
  destruct (pretty_N_go_digits (Z.to_N n) "" eq_refl) as [H1 H2]. apply rune_list_digits in H1.
  set (rs := rune_list _) in *. assert (rs <> []) as Hnil. { intros E. rewrite E in H2. simpl in H2. lia. }
  destruct rs as [|r rs]; [done|]. apply Forall_cons in H1 as [Hr H1]. unfold scan_int. simpl. unfold between in Hr.
  assert (fmt_space r = false) as Hsp by (unfold fmt_space, between; lia). rewrite Hsp.
  rewrite !(proj2 (Z.eqb_neq _ _)) by lia. simpl. rewrite !(proj2 (Z.eqb_neq _ _)) by lia. unfold between. rewrite Hr.
  rewrite (digits_from_all _ _ H1). simpl in H2. change (10 * 0 + (r - 48)) with (digit_val 0 r). rewrite H2. simpl.
  unfold in_int. replace (Z.of_N (Z.to_N n)) with n by lia. by rewrite !(proj2 (Z.leb_le _ _)) by lia.
Qed.

(** * Workers that come and go *)

Definition is_pid (p : Z) : Prop := 0 <= p < 9223372036854775808.
Definition is_phase (phase : string) : Prop := phase = "map"%string \/ phase = "reduce"%string.

Lemma after_prefix_app p s : after_prefix p (p +:+ s) = Some s.
Proof. induction p as [|a p IH]; [done|]. simpl. by rewrite Ascii.eqb_refl. Qed.

(** A name is taken for the process that made it, and in its phase alone. *)
Lemma np_name_scans phase phase' pid : is_phase phase -> is_phase phase' -> is_pid pid ->
  Sscanf_d (np_prefix phase) (np_name phase' pid) = if decide (phase' = phase) then Some pid else None.
Proof.
  intros Hp Hp' Hpid. case_decide as E.
  - subst. unfold Sscanf_d, np_name. rewrite after_prefix_app. simpl. by apply pretty_scans.
  - by destruct Hp as [->| ->], Hp' as [->| ->].
Qed.

(** The directory, and who is inside nparallel. *)
Record np_state := NP { np_dir : gset string; np_in : gset (string * Z) }.

Inductive np_step : np_state -> np_state -> Prop :=
  | np_comes phase pid dir dir' inside :
      is_phase phase -> is_pid pid -> (phase, pid) ∉ inside -> np_enter phase pid dir = Done tt dir' ->
      np_step (NP dir inside) (NP dir' ({[(phase, pid)]} ∪ inside))
  | np_goes phase pid dir dir' inside :
      (phase, pid) ∈ inside -> np_leave phase pid dir = Done tt dir' ->
      np_step (NP dir inside) (NP dir' (inside ∖ {[(phase, pid)]})).

Definition file_of (x : string * Z) : string := np_name x.1 x.2.

Definition np_inv (dir0 : gset string) (w : np_state) : Prop :=
  np_dir w = dir0 ∪ set_map file_of (np_in w) /\ forall x, x ∈ np_in w -> is_phase x.1 /\ is_pid x.2.

(** No file that was there before looks like a worker's. *)
Definition np_clean (dir0 : gset string) : Prop :=
  forall f phase, f ∈ dir0 -> is_phase phase -> Sscanf_d (np_prefix phase) f = None.

Lemma file_of_inj x y : is_phase x.1 -> is_pid x.2 -> is_phase y.1 -> is_pid y.2 -> file_of x = file_of y -> x = y.
Proof.
  destruct x as [p i], y as [q j]. simpl. intros Hp Hi Hq Hj E. unfold file_of in E. simpl in E.
  pose proof (np_name_scans p p i Hp Hp Hi) as H1. pose proof (np_name_scans p q j Hp Hq Hj) as H2. rewrite E, H2 in H1.
  rewrite (decide_True (P := p = p)) in H1 by done. case_decide; [|done]. congruence.
Qed.

Lemma file_not_old dir0 x : np_clean dir0 -> is_phase x.1 -> is_pid x.2 -> file_of x ∉ dir0.
Proof.
  intros Hc Hp Hi Hin. specialize (Hc _ x.1 Hin Hp). unfold file_of in Hc. rewrite np_name_scans, decide_True in Hc; done.
Qed.

Lemma np_step_inv dir0 w w' : np_clean dir0 -> np_inv dir0 w -> np_step w w' -> np_inv dir0 w'.
Proof.
  intros Hc [H1 H2] Hstep. destruct Hstep as [phase pid dir dir' inside Hp Hi Hn E|phase pid dir dir' inside Hin E]; simpl in *.
  - injection E as <-. split; simpl.
    + rewrite H1, set_map_union_L, set_map_singleton_L. change (np_name phase pid) with (file_of (phase, pid)). set_solver.
    + intros x [->%elem_of_singleton|Hx]%elem_of_union; [done|auto].
  - unfold np_leave in E. rewrite bind_gets in E. case_decide; [|done]. injection E as <-. split; simpl.
    + destruct (H2 _ Hin) as [Hp Hi]. simpl in Hp, Hi. rewrite H1. change (np_name phase pid) with (file_of (phase, pid)).
      pose proof (file_not_old dir0 (phase, pid) Hc Hp Hi) as Hold. apply set_eq. intros f.
      rewrite elem_of_difference, !elem_of_union, elem_of_singleton, !elem_of_map. split.
      * intros [[Hf|(x & -> & Hx)] Hne]; [by left|]. right. exists x. split; [done|]. apply elem_of_difference. split; [done|].
        intros ->%elem_of_singleton. done.
      * intros [Hf|(x & -> & [Hx Hne]%elem_of_difference)].
        -- split; [by left|]. intros ->. done.
        -- split; [right; eauto|]. intros E. apply Hne, elem_of_singleton. destruct (H2 x Hx). by apply file_of_inj.
    + intros x [Hx _]%elem_of_difference. auto.
Qed.

Lemma count_if_none {A} (f : A -> bool) l : (forall x, x ∈ l -> f x = false) -> count_if f l = 0.
Proof. intros H. rewrite (count_if_ext _ (fun _ => false)) by done. induction l as [|x l IH]; [done|]. rewrite count_if_cons, IH; [done|]. set_solver. Qed.

Lemma elements_files (X : gset (string * Z)) :
  (forall x, x ∈ X -> is_phase x.1 /\ is_pid x.2) -> elements (set_map file_of X : gset string) ≡ₚ file_of <$> elements X.
Proof.
  intros H. apply NoDup_Permutation; [apply NoDup_elements| |].
  - apply NoDup_fmap_2_strong; [|apply NoDup_elements]. intros x y Hx%elem_of_elements Hy%elem_of_elements.
    destruct (H x Hx), (H y Hy). by apply file_of_inj.
  - intros f. rewrite elem_of_elements, elem_of_map, list_elem_of_fmap. by setoid_rewrite elem_of_elements.
Qed.

(** Whoever comes and goes, a worker inside nparallel can leave, and counts the workers that are inside in its phase and
    whose processes are alive, itself included. *)
Theorem nparallel_counts alive dir0 w phase pid :
  np_clean dir0 -> rtc np_step (NP dir0 ∅) w -> (phase, pid) ∈ np_in w -> (size (np_dir w) <= READDIR_MAX)%nat ->
  (exists dir', np_leave phase pid (np_dir w) = Done tt dir') /\
  np_count alive phase (np_dir w) =
    Done (count_if (fun x => bool_decide (x.1 = phase) && alive x.2) (elements (np_in w))) (np_dir w).
Proof.
  intros Hc Hr Hin Hsize. assert (np_inv dir0 w) as [H1 H2].
  { refine (rtc_ind_r (np_inv dir0) _ _ _ w Hr); [split; [simpl; set_solver|set_solver]|]. intros v1 v2 _ Hs Hi. by eapply np_step_inv. }
  assert (file_of (phase, pid) ∈ np_dir w) as Hf. { rewrite H1. apply elem_of_union_r, elem_of_map. eauto. }
  destruct (H2 _ Hin) as [Hp _]. simpl in Hp. split.
  { unfold np_leave. rewrite bind_gets, decide_True by exact Hf. eauto. }
  unfold np_count. rewrite bind_gets, decide_False by set_solver. rewrite take_ge by exact Hsize. f_equal.
  assert (elements (np_dir w) ≡ₚ elements dir0 ++ (file_of <$> elements (np_in w))) as ->%(count_if_Permutation (np_counted alive phase)).
  { rewrite H1, elements_disj_union, elements_files; [done|done|]. intros f Hf0 (x & -> & Hx)%elem_of_map.
    destruct (H2 x Hx). by apply (file_not_old dir0 x Hc). }
  rewrite count_if_app, count_if_fmap, (count_if_none _ (elements dir0)).
  - rewrite Z.add_0_l. apply count_if_ext. intros x Hx%elem_of_elements. destruct (H2 x Hx) as [Hpx Hix].
    unfold np_counted, file_of. simpl. rewrite np_name_scans by done. case_decide as E; [by rewrite bool_decide_eq_true_2|].
    by rewrite bool_decide_eq_false_2.
  - intros f Hf0%elem_of_elements. unfold np_counted. by rewrite (Hc f phase Hf0 Hp).
Qed.
