(* ===== verification/Bitset.v ===== *)
(** porcupine/bitset.go: the bit set of the linearizability checker.

    A set is its slice of uint64 words; set and clear change the slice in
    place, so the caller that wants the old value clones first: here they
    return the new slice.  Positions are unsigned. *)

From S2P Require Import Prelude.

Abbreviation bitset := (list Z).

Section ops.
Context {S : Type}.

Definition newBitset (bits : Z) : bitset :=
  let extra := if bits mod 64 =? 0 then 0 else 1 in
  replicate (Z.to_nat (bits / 64 + extra)) 0.

Definition bs_clone (b : bitset) : bitset := b.

Definition bitsetIndex (pos : Z) : Z * Z := (pos / 64, pos mod 64).

Definition bs_set (b : bitset) (pos : Z) : M S bitset :=
  let '(major, minor) := bitsetIndex pos in
  w ← go_index b major;
  go_update b major (Z.lor w (to_uint64 (Z.shiftl 1 minor))).

Definition bs_clear (b : bitset) (pos : Z) : M S bitset :=
  let '(major, minor) := bitsetIndex pos in
  w ← go_index b major;
  go_update b major (Z.ldiff w (to_uint64 (Z.shiftl 1 minor))).

Definition bs_get (b : bitset) (pos : Z) : M S bool :=
  let '(major, minor) := bitsetIndex pos in
  w ← go_index b major;
  mret (negb (Z.land w (to_uint64 (Z.shiftl 1 minor)) =? 0)).

(** bits.OnesCount64 *)
Definition onesCount64 (w : Z) : Z := count_if (Z.testbit w) (seqZ 0 64).

Definition popcnt (b : bitset) : Z := foldl (fun total v => total + onesCount64 v) 0 b.

Definition bs_hash (b : bitset) : Z := foldl (fun h v => Z.lxor h v) (to_uint64 (popcnt b)) b.

Definition bs_equals (b b2 : bitset) : bool :=
  (length b =? length b2)%nat && forallb (fun p => fst p =? snd p) (zip b b2).
End ops.

(** * Specification *)

(** Membership of a position. *)
Definition mem (b : bitset) (i : Z) : bool :=
  match nthZ b (i / 64) with Some w => Z.testbit w (i mod 64) | None => false end.

Definition bs_room (b : bitset) : Z := 64 * lenZ b.

Lemma shift_pow minor : 0 <= minor < 64 -> to_uint64 (Z.shiftl 1 minor) = 2 ^ minor.
Proof.
  intros H. rewrite Z.shiftl_1_l. apply to_uint64_small. split; [lia|].
  apply Z.pow_lt_mono_r; lia.
Qed.

Lemma word_range b i : 0 <= i < bs_room b -> 0 <= i / 64 < lenZ b /\ 0 <= i mod 64 < 64.
Proof.
  unfold bs_room. intros H. pose proof (Z.mod_pos_bound i 64). pose proof (Z.div_mod i 64). lia.
Qed.

(** Rewriting the word of position [i] in one bit. *)
Lemma mem_update b i w w' v j :
  0 <= i < bs_room b -> nthZ b (i / 64) = Some w ->
  Z.testbit w' (i mod 64) = v ->
  (forall k, 0 <= k -> k <> i mod 64 -> Z.testbit w' k = Z.testbit w k) ->
  mem (<[Z.to_nat (i / 64) := w']> b) j = if decide (j = i) then v else mem b j.
Proof.
  intros Hi Hw Hv Hother. destruct (word_range b i Hi) as [H1 H2]. unfold mem.
  unfold nthZ in *. rewrite decide_True in Hw by lia.
  case_decide as Ej.
  - destruct (decide (j / 64 = i / 64)) as [E|E].
    + rewrite E. rewrite list_lookup_insert_eq by lia.
      case_decide as Eji; [subst; done|]. rewrite Hw. apply Hother.
      * pose proof (Z.mod_pos_bound j 64). lia.
      * intros Em. apply Eji. rewrite (Z.div_mod j 64), (Z.div_mod i 64) by lia. congruence.
    + rewrite list_lookup_insert_ne by lia. case_decide as Eji; [subst; done|done].
  - case_decide as Eji; [subst; lia|done].
Qed.

Lemma bs_set_run {S} b i (s : S) :
  0 <= i < bs_room b ->
  exists b', bs_set b i s = Done b' s /\ length b' = length b /\
    forall j, mem b' j = if decide (j = i) then true else mem b j.
Proof.
  intros Hi. destruct (word_range b i Hi) as [H1 H2]. unfold bs_set, bitsetIndex.
  destruct (nthZ_in_range b (i / 64)) as [w Hw]; [lia|].
  rewrite (bind_done _ _ _ _ _ (go_index_ok _ _ _ _ Hw)), shift_pow, go_update_ok by lia.
  eexists. split; [reflexivity|]. split; [apply length_insert|]. intros j.
  eapply mem_update; [done|exact Hw| |].
  - rewrite Z.lor_spec, Z.pow2_bits_true by lia. apply orb_true_r.
  - intros k Hk Hne. rewrite Z.lor_spec, Z.pow2_bits_false by lia. apply orb_false_r.
Qed.

Lemma bs_clear_run {S} b i (s : S) :
  0 <= i < bs_room b ->
  exists b', bs_clear b i s = Done b' s /\ length b' = length b /\
    forall j, mem b' j = if decide (j = i) then false else mem b j.
Proof.
  intros Hi. destruct (word_range b i Hi) as [H1 H2]. unfold bs_clear, bitsetIndex.
  destruct (nthZ_in_range b (i / 64)) as [w Hw]; [lia|].
  rewrite (bind_done _ _ _ _ _ (go_index_ok _ _ _ _ Hw)), shift_pow, go_update_ok by lia.
  eexists. split; [reflexivity|]. split; [apply length_insert|]. intros j.
  eapply mem_update; [done|exact Hw| |].
  - rewrite Z.ldiff_spec, Z.pow2_bits_true by lia. apply andb_false_r.
  - intros k Hk Hne. rewrite Z.ldiff_spec, Z.pow2_bits_false by lia. apply andb_true_r.
Qed.

Lemma bs_get_run {S} b i (s : S) : 0 <= i < bs_room b -> bs_get b i s = Done (mem b i) s.
Proof.
  intros Hi. destruct (word_range b i Hi) as [H1 H2]. unfold bs_get, bitsetIndex, mem.
  destruct (nthZ_in_range b (i / 64)) as [w Hw]; [lia|].
  rewrite (bind_done _ _ _ _ _ (go_index_ok _ _ _ _ Hw)), shift_pow, Hw by lia.
  unfold mret, M_ret. f_equal.
  destruct (Z.testbit w (i mod 64)) eqn:E.
  - apply negb_true_iff, Z.eqb_neq. intros H0.
    assert (Z.testbit (Z.land w (2 ^ (i mod 64))) (i mod 64) = true) as Ht.
    { by rewrite Z.land_spec, E, Z.pow2_bits_true by lia. }
    by rewrite H0, Z.bits_0 in Ht.
  - apply negb_false_iff, Z.eqb_eq. apply Z.bits_inj'. intros k Hk.
    rewrite Z.land_spec, Z.bits_0. destruct (decide (k = i mod 64)) as [->|Hne].
    + by rewrite E.
    + rewrite Z.pow2_bits_false by lia. apply andb_false_r.
Qed.

Lemma bs_equals_spec b b2 : bs_equals b b2 = true <-> b = b2.
Proof.
  unfold bs_equals. revert b2. induction b as [|x b IH]; intros [|y b2]; simpl; try (by split).
  specialize (IH b2). rewrite !andb_true_iff, Z.eqb_eq in *. simpl in *. naive_solver.
Qed.

Lemma newBitset_empty n i : mem (newBitset n) i = false.
Proof.
  unfold mem, newBitset. destruct (nthZ _ _) as [w|] eqn:E; [|done].
  unfold nthZ in E. case_decide; [|done]. apply lookup_replicate in E as [-> _]. apply Z.bits_0.
Qed.

Lemma newBitset_room n : 0 <= n -> n <= bs_room (newBitset n).
Proof.
  intros Hn. unfold bs_room, newBitset. rewrite length_replicate.
  pose proof (Z.div_mod n 64). pose proof (Z.mod_pos_bound n 64). pose proof (Z.div_pos n 64).
  case_bool; lia.
Qed.
