(* ===== verification/Checker.v ===== *)
(** The linearizability checker (porcupine/checker.go, model.go).

    The doubly linked list of entries is the list of its nodes after the head,
    split at the cursor; a call node carries the value of the return node its
    [match] points to, and a node without a match is [Plain].  lift takes a call
    and its return out, and unlift puts them back: the list is changed and
    restored in stack order, so a stack frame keeps the two parts of the list
    around the call as they were.  Inputs, outputs and states, Go's
    [interface{}], are type parameters. *)

From S2P Require Import Prelude Bitset.

Section checker.
Context {In Out St : Type}.

(** * model.go *)

Record Operation := mkOperation {
  op_ClientId : Z; op_Input : In; op_Call : Z; op_Output : Out; op_Return : Z }.

Inductive Event : Type :=
  | CallEvent (ClientId : Z) (Value : In) (Id : Z)
  | ReturnEvent (ClientId : Z) (Value : Out) (Id : Z).
Definition ev_Id (e : Event) : Z := match e with CallEvent _ _ i | ReturnEvent _ _ i => i end.

Record Model := mkModel {
  Partition : option (list Operation -> list (list Operation));
  PartitionEvent : option (list Event -> list (list Event));
  Init : St;
  Step : St -> In -> Out -> bool * St;
  Equal : option (St -> St -> bool) }.

Definition NoPartition (history : list Operation) : list (list Operation) := [history].
Definition NoPartitionEvent (history : list Event) : list (list Event) := [history].
Definition ShallowEqual `{!EqDecision St} (s1 s2 : St) : bool := bool_decide (s1 = s2).

Inductive CheckResult : Type := Unknown | Ok | Illegal.

(** * checker.go: entries *)

Inductive entry : Type :=
  | callEntry (value : In) (id time clientId : Z)
  | returnEntry (value : Out) (id time clientId : Z).
Definition e_time (e : entry) : Z :=
  match e with callEntry _ _ t _ | returnEntry _ _ t _ => t end.
Definition e_id (e : entry) : Z := match e with callEntry _ i _ _ | returnEntry _ i _ _ => i end.
Definition is_call (e : entry) : bool := match e with callEntry _ _ _ _ => true | _ => false end.

(** byTime.Less *)
Definition byTime_Less (a b : entry) : bool :=
  if negb (e_time a =? e_time b) then e_time a <? e_time b
  else is_call a && negb (is_call b).

Fixpoint op_entries (id : Z) (history : list Operation) : list entry :=
  match history with
  | [] => []
  | elem :: history =>
      callEntry (op_Input elem) id (op_Call elem) (op_ClientId elem) ::
      returnEntry (op_Output elem) id (op_Return elem) (op_ClientId elem) ::
      op_entries (id + 1) history
  end.

(** [sort] is sort.Sort(byTime(...)). *)
Definition makeEntries (sort : list entry -> list entry) (history : list Operation) : list entry :=
  sort (op_entries 0 history).

Fixpoint renumber (events : list Event) (m : gmap Z Z) (id : Z) : list Event :=
  match events with
  | [] => []
  | v :: events =>
      let with_id (i : Z) :=
        match v with
        | CallEvent c x _ => CallEvent c x i
        | ReturnEvent c x _ => ReturnEvent c x i
        end in
      match m !! ev_Id v with
      | Some r => with_id r :: renumber events m id
      | None => with_id id :: renumber events (<[ev_Id v := id]> m) (id + 1)
      end
  end.

(** The index is the time. *)
Fixpoint convertEntries (i : Z) (events : list Event) : list entry :=
  match events with
  | [] => []
  | CallEvent c x id :: events => callEntry x id i c :: convertEntries (i + 1) events
  | ReturnEvent c x id :: events => returnEntry x id i c :: convertEntries (i + 1) events
  end.

(** * checker.go: the linked list *)

Inductive node : Type :=
  | Call (id : Z) (value : In) (matching : Out)
  | Plain (id : Z).

(** From the last entry to the first: the list, and the returns seen by id. *)
Fixpoint linkEntries (entries : list entry) : list node * gmap Z Out :=
  match entries with
  | [] => ([], ∅)
  | elem :: entries =>
      let '(root, matches) := linkEntries entries in
      match elem with
      | returnEntry v id _ _ => (Plain id :: root, <[id := v]> matches)
      | callEntry v id _ _ =>
          match matches !! id with
          | Some o => (Call id v o :: root, matches)
          | None => (Plain id :: root, matches)
          end
      end
  end.
Definition makeLinkedEntries (entries : list entry) : list node := fst (linkEntries entries).

(** Taking the return node of a call out of the nodes after it. *)
Fixpoint unlink (id : Z) (l : list node) : list node :=
  match l with
  | [] => []
  | Plain i :: l => if i =? id then l else Plain i :: unlink id l
  | n :: l => n :: unlink id l
  end.

(** * checker.go: the search *)

(** An element of [calls]: the call lifted, with the list around it, and the
    state before it. *)
Record callsEntry := mkCallsEntry {
  f_before : list node; f_id : Z; f_value : In; f_match : Out; f_after : list node; f_state : St }.

(** The list is [before ++ after], the cursor [entry] at the head of [after];
    [calls] has its top first. *)
Record search := mkSearch {
  before : list node;
  after : list node;
  state : St;
  linearized : bitset;
  cache : gmap Z (list (bitset * St));
  calls : list callsEntry;
  longest : list (option (list Z)) }.

Context (model_step : St -> In -> Out -> bool * St) (model_equal : St -> St -> bool).

Definition cacheContains (c : gmap Z (list (bitset * St))) (b : bitset) (s : St) : bool :=
  existsb (fun e => bs_equals b (fst e) && model_equal s (snd e)) (default [] (c !! bs_hash b)).

Definition cache_add (c : gmap Z (list (bitset * St))) (b : bitset) (s : St)
    : gmap Z (list (bitset * St)) :=
  <[bs_hash b := default [] (c !! bs_hash b) ++ [(b, s)]]> c.

Definition seq_of (cs : list callsEntry) : list Z := reverse (f_id <$> cs).

(** The longest linearizations that include each lifted call. *)
Fixpoint update_longest (cs : list callsEntry) (seq : list Z) (l : list (option (list Z)))
    : M search (list (option (list Z))) :=
  match cs with
  | [] => mret l
  | v :: cs =>
      old ← go_index l (f_id v);
      match old with
      | Some p =>
          if (length p <? length seq)%nat
          then l' ← go_update l (f_id v) (Some seq); update_longest cs seq l'
          else update_longest cs seq l
      | None => l' ← go_update l (f_id v) (Some seq); update_longest cs seq l'
      end
  end.

(** [entry = entry.next] *)
Definition advance (n : node) (rest : list node) : M search (option bool) :=
  modify (fun c => mkSearch (before c ++ [n]) rest (state c) (linearized c) (cache c) (calls c)
    (longest c));;
  mret None.

(** Linearize the call at the cursor if that leads somewhere new. *)
Definition try_call (id : Z) (v : In) (o : Out) (rest : list node) : M search (option bool) :=
  c ← gets (fun c => c);
  let '(ok, newState) := model_step (state c) v o in
  if (ok : bool) then
    newLinearized ← bs_set (bs_clone (linearized c)) id;
    if cacheContains (cache c) newLinearized newState then advance (Call id v o) rest
    else
      lin ← bs_set (linearized c) id;
      modify (fun c => mkSearch [] (before c ++ unlink id rest) newState lin
        (cache_add (cache c) newLinearized newState)
        (mkCallsEntry (before c) id v o rest (state c) :: calls c) (longest c));;
      mret None
  else advance (Call id v o) rest.

(** A return at the cursor: undo the last call. *)
Definition backtrack (computePartial : bool) : M search (option bool) :=
  c ← gets (fun c => c);
  match calls c with
  | [] => mret (Some false)
  | top :: cs =>
      l ← (if computePartial then update_longest (reverse (calls c)) (seq_of (calls c)) (longest c)
           else mret (longest c));
      lin ← bs_clear (linearized c) (f_id top);
      modify (fun c => mkSearch (f_before top ++ [Call (f_id top) (f_value top) (f_match top)])
        (f_after top) (f_state top) lin (cache c) cs l);;
      mret None
  end.

(** One turn of the loop; a result ends it. *)
Definition check_turn (computePartial kill : bool) : M search (option bool) :=
  c ← gets (fun c => c);
  match before c ++ after c with
  | [] =>
      modify (fun c => mkSearch (before c) (after c) (state c) (linearized c) (cache c) (calls c)
        (replicate (length (longest c)) (Some (seq_of (calls c)))));;
      mret (Some true)
  | _ =>
      if kill then mret (Some false)
      else match after c with
           | [] => throw NilDereference
           | Call id v o :: rest => try_call id v o rest
           | Plain _ :: _ => backtrack computePartial
           end
  end.

Fixpoint check_loop (fuel : nat) (computePartial : bool) (kill : nat -> bool) : M search (option bool) :=
  match fuel with
  | O => mret None
  | S fuel =>
      r ← check_turn computePartial (kill fuel);
      match r with
      | Some b => mret (Some b)
      | None => check_loop fuel computePartial kill
      end
  end.

Definition init_search (init : St) (nodes : list node) : search :=
  let n := (length nodes / 2)%nat in
  mkSearch [] nodes init (newBitset (Z.of_nat n)) ∅ [] (replicate n None).

(** The result and the longest linearizations, [None] when the fuel is out. *)
Definition checkSingle (init : St) (history : list entry) (computePartial : bool) (kill : nat -> bool)
    (fuel : nat) : outcome search (option bool) :=
  check_loop fuel computePartial kill (init_search init (makeLinkedEntries history)).
End checker.
Arguments Operation : clear implicits.
Arguments Event : clear implicits.
Arguments Model : clear implicits.
Arguments entry : clear implicits.
Arguments node : clear implicits.
Arguments callsEntry : clear implicits.
Arguments search : clear implicits.
