(* ===== verification/CheckerSpec.v ===== *)
(** What the checker decides: linearizability of a history.

    [linearizable] is the definition of Herlihy and Wing for complete histories:
    an order of all operations that the model allows and in which an operation
    that returned before another was called comes before it.  [completable]
    builds such an order from the front: the next operation is one whose call
    comes before every return of the operations that are left.  The two are
    equivalent. *)

From S2P Require Import Prelude Bitset Checker.

Section spec.
Context {In Out St : Type}.
Context (model_step : St -> In -> Out -> bool * St).
Abbreviation node := (node In Out).
Implicit Types l b a : list node.

Definition nid (n : node) : Z := match n with Call i _ _ => i | Plain i => i end.
Definition is_callnode (n : node) : Prop := match n with Call _ _ _ => True | Plain _ => False end.
#[export] Instance is_callnode_dec n : Decision (is_callnode n).
Proof. destruct n; simpl; apply _. Defined.

Definition calls_only l : Prop := Forall is_callnode l.

(** The nodes of one operation, and of the others. *)
Definition of_id (i : Z) l : list node := filter (fun n => nid n = i) l.
Definition without (i : Z) l : list node := filter (fun n => nid n <> i) l.

(** A complete history: of each identifier a call and then its return. *)
Definition well_formed l : Prop :=
  forall i, of_id i l = [] \/ exists v o, of_id i l = [Call i v o; Plain i].

(** * Linearizability *)

Definition precedes l (p q : node) : Prop := exists l1 l2 l3, l = l1 ++ p :: l2 ++ q :: l3.

(** The model allows the operations in this order. *)
Fixpoint legal (s : St) (seq : list node) : Prop :=
  match seq with
  | [] => True
  | Call _ v o :: seq => exists s', model_step s v o = (true, s') /\ legal s' seq
  | Plain _ :: _ => False
  end.

Record linearization l (s : St) (seq : list node) : Prop := {
  lin_all : seq ≡ₚ filter is_callnode l;
  lin_legal : legal s seq;
  lin_order : forall x y, precedes seq x y -> ~ precedes l (Plain (nid y)) x }.

Definition linearizable l (s : St) : Prop := exists seq, linearization l s seq.

Inductive completable : list node -> St -> Prop :=
  | comp_done s : completable [] s
  | comp_next b i v o a s s' :
      calls_only b -> model_step s v o = (true, s') -> completable (b ++ unlink i a) s' ->
      completable (b ++ Call i v o :: a) s.

(** * Lists of nodes *)

Lemma of_id_without i j l : of_id i (without j l) = if decide (i = j) then [] else of_id i l.
Proof.
  unfold of_id, without. induction l as [|n l IH]; [by rewrite !filter_nil; case_decide|].
  destruct (decide (nid n = j)) as [E|E].
  - rewrite filter_cons_False by (intros H; by apply H). rewrite IH. case_decide as E2; [done|].
    by rewrite filter_cons_False by congruence.
  - rewrite filter_cons_True by done. rewrite !filter_cons, IH.
    destruct (decide (nid n = i)), (decide (i = j)); congruence.
Qed.

Lemma well_formed_without i l : well_formed l -> well_formed (without i l).
Proof. intros H j. rewrite of_id_without. case_decide; [by left|apply H]. Qed.

(** Around a call of a well-formed list. *)
Lemma around_call b i v o a :
  well_formed (b ++ Call i v o :: a) -> of_id i b = [] /\ of_id i a = [Plain i].
Proof.
  intros H. destruct (H i) as [E|(v' & o' & E)]; unfold of_id in *;
    rewrite filter_app, filter_cons_True in E by done; [by destruct (filter _ b)|].
  destruct (filter (fun n => nid n = i) b) as [|n b'] eqn:Eb; [by injection E as <- <- <-|].
  exfalso. injection E as _ E. apply (f_equal (filter is_callnode)) in E.
  rewrite filter_app, filter_cons_True in E by done. simpl in E. by destruct (filter _ b').
Qed.

Lemma filter_without_none i l : of_id i l = [] -> without i l = l.
Proof.
  unfold of_id, without. intros H. apply filter_every. apply Forall_forall. intros n Hn E.
  assert (n ∈ filter (fun n => nid n = i) l) as Hin by (by apply list_elem_of_filter).
  rewrite H in Hin. by apply elem_of_nil in Hin.
Qed.

Lemma unlink_without i a : of_id i a = [Plain i] -> unlink i a = without i a.
Proof.
  unfold of_id, without. induction a as [|n a IH]; [done|].
  destruct (decide (nid n = i)) as [E|E].
  - rewrite filter_cons_True by done. intros [= -> Hn]. simpl. rewrite Z.eqb_refl.
    rewrite filter_cons_False by (intros H; by apply H). symmetry. by apply filter_without_none.
  - rewrite filter_cons_False, (filter_cons_True (fun n => nid n <> i)) by done.
    intros H. destruct n as [j v o|j]; simpl in *; [by rewrite IH|].
    rewrite (proj2 (Z.eqb_neq j i)) by done. by rewrite IH.
Qed.

(** Lifting a call takes its operation out. *)
Lemma lift_without b i v o a :
  well_formed (b ++ Call i v o :: a) -> b ++ unlink i a = without i (b ++ Call i v o :: a).
Proof.
  intros H. destruct (around_call _ _ _ _ _ H) as [Hb Ha].
  rewrite (unlink_without _ _ Ha). unfold without. rewrite filter_app.
  rewrite (filter_cons_False _ (Call i v o)) by (intros E; by apply E).
  f_equal. symmetry. by apply filter_without_none.
Qed.

Lemma precedes_without i l p q :
  nid p <> i -> nid q <> i -> precedes (without i l) p q <-> precedes l p q.
Proof.
  intros Hp Hq. split.
  - intros (l1 & l2 & l3 & E). unfold without in E.
    apply filter_split in E as (k1 & k2 & -> & _ & E2).
    apply filter_split in E2 as (k3 & k4 & -> & _). by exists k1, k3, k4.
  - intros (l1 & l2 & l3 & ->). exists (without i l1), (without i l2), (without i l3).
    unfold without. by rewrite filter_app, filter_cons_True, filter_app, filter_cons_True.
Qed.

Lemma precedes_elem (seq : list node) x y : precedes seq x y -> x ∈ seq /\ y ∈ seq.
Proof.
  intros (l1 & l2 & l3 & ->). split; apply elem_of_app; right; [by left|right].
  apply elem_of_app. right. by left.
Qed.

Lemma precedes_cons (seq : list node) n x y :
  precedes (n :: seq) x y <-> (x = n /\ y ∈ seq) \/ precedes seq x y.
Proof.
  split.
  - intros ([|m l1] & l2 & l3 & E); simpl in E; injection E as -> ->.
    + left. split; [done|]. apply elem_of_app. right. by left.
    + right. by exists l1, l2, l3.
  - intros [[-> Hy]|(l1 & l2 & l3 & ->)].
    + apply list_elem_of_split in Hy as (l2 & l3 & ->). by exists [], l2, l3.
    + by exists (n :: l1), l2, l3.
Qed.

Lemma unlink_calls i a : filter is_callnode (unlink i a) = filter is_callnode a.
Proof.
  induction a as [|[j v o|j] a IH]; [done| |]; simpl.
  - by rewrite !filter_cons_True, IH.
  - destruct (j =? i); rewrite !(filter_cons_False _ (Plain j)) by (by intros []); done.
Qed.

Lemma not_in_of_id i n l : of_id i l = [] -> nid n = i -> n ∉ l.
Proof.
  intros H E Hin. assert (n ∈ of_id i l) as Hf by (by apply list_elem_of_filter).
  rewrite H in Hf. by apply elem_of_nil in Hf.
Qed.

(** What is before a call, however the list is split at it. *)
Lemma call_prefix b i v o a c d :
  well_formed (b ++ Call i v o :: a) -> b ++ Call i v o :: a = c ++ Call i v o :: d -> b = c.
Proof.
  intros H E. pose proof H as H'. rewrite E in H'.
  destruct (around_call _ _ _ _ _ H) as [Hb _]. destruct (around_call _ _ _ _ _ H') as [Hc _].
  eapply split_unique; [exact E|by eapply not_in_of_id..].
Qed.

Lemma calls_filter b i v o a :
  filter is_callnode (b ++ Call i v o :: a) ≡ₚ Call i v o :: filter is_callnode (b ++ unlink i a).
Proof.
  rewrite !filter_app, unlink_calls, filter_cons_True by done. by rewrite <- Permutation_middle.
Qed.

Lemma completable_linearizable l s : completable l s -> well_formed l -> linearizable l s.
Proof.
  induction 1 as [s|b i v o a s s' Hb Hs _ IH]; intros Hwf.
  { exists []. split; [done|done|]. intros x y (l1 & l2 & l3 & E). by destruct l1. }
  pose proof (lift_without b i v o a Hwf) as Hlift.
  destruct IH as [seq [H1 H2 H3]]. { rewrite Hlift. by apply well_formed_without. }
  exists (Call i v o :: seq). split.
  - by rewrite calls_filter, H1.
  - by exists s'.
  - assert (forall y, y ∈ seq -> nid y <> i) as Hy.
    { intros y Hin. rewrite H1, Hlift in Hin. apply list_elem_of_filter in Hin as [_ Hin].
      by apply list_elem_of_filter in Hin as [? _]. }
    intros x y [[-> Hin]|Hxy]%precedes_cons (l1 & l2 & l3 & E).
    + assert (b = l1 ++ Plain (nid y) :: l2) as ->.
      { eapply call_prefix; [exact Hwf|]. rewrite <- app_assoc. exact E. }
      apply Forall_app in Hb as [_ Hb]. apply Forall_cons in Hb as [[] _].
    + apply (H3 x y Hxy). destruct (precedes_elem _ _ _ Hxy) as [Hx Hy'].
      rewrite Hlift. apply precedes_without; [exact (Hy y Hy')|exact (Hy x Hx)|by exists l1, l2, l3].
Qed.

Lemma well_formed_call l i : well_formed l -> Plain i ∈ l -> exists v o, Call i v o ∈ l.
Proof.
  intros H Hin. assert (Plain i ∈ of_id i l) as Hf by (by apply list_elem_of_filter).
  destruct (H i) as [E|(v & o & E)]; rewrite E in Hf; [by apply elem_of_nil in Hf|].
  exists v, o. assert (Call i v o ∈ of_id i l) as Hc by (rewrite E; by left).
  by apply list_elem_of_filter in Hc as [_ ?].
Qed.

Lemma linearizable_completable seq l s : well_formed l -> linearization l s seq -> completable l s.
Proof.
  revert l s. induction seq as [|n seq IH]; intros l s Hwf [H1 H2 H3].
  { destruct l as [|[i v o|i] l]; [constructor|..]; exfalso.
    - rewrite filter_cons_True in H1 by done. by apply Permutation_nil_l in H1.
    - destruct (well_formed_call _ i Hwf) as (v & o & Hin); [by left|].
      assert (Call i v o ∈ filter is_callnode (Plain i :: l)) as Hf by (by apply list_elem_of_filter).
      rewrite <- H1 in Hf. by apply elem_of_nil in Hf. }
  assert (n ∈ filter is_callnode l) as Hn by (rewrite <- H1; by left).
  apply list_elem_of_filter in Hn as [Hcall Hn]. destruct n as [i v o|]; [|done].
  apply list_elem_of_split in Hn as (b & a & ->). destruct H2 as (s' & Hs & H2).
  pose proof (lift_without b i v o a Hwf) as Hlift.
  assert (seq ≡ₚ filter is_callnode (b ++ unlink i a)) as Hp.
  { rewrite calls_filter in H1. by apply Permutation_cons_inv in H1. }
  destruct (around_call _ _ _ _ _ Hwf) as [Hbi Hai].
  assert (calls_only b) as Hb.
  { apply Forall_forall. intros [j w u|j] Hj; [done|]. exfalso.
    assert (j <> i) as Hne. { intros ->. by eapply (not_in_of_id i (Plain i) b). }
    destruct (well_formed_call _ j Hwf) as (w & u & Hin); [apply elem_of_app; by left|].
    assert (Call j w u ∈ seq) as Hseq.
    { rewrite Hp, Hlift. apply list_elem_of_filter. split; [done|].
      by apply list_elem_of_filter. }
    apply (H3 (Call i v o) (Call j w u)); [apply precedes_cons; by left|].
    apply list_elem_of_split in Hj as (b1 & b2 & ->). exists b1, b2, a. by rewrite <- app_assoc. }
  apply (comp_next b i v o a s s'); [done|done|]. rewrite Hlift.
  apply IH; [by apply well_formed_without|]. rewrite <- Hlift. split; [done|done|].
  intros x y Hxy. rewrite Hlift. 
  assert (forall z, z ∈ seq -> nid z <> i) as Hz.
  { intros z Hin. rewrite Hp, Hlift in Hin. apply list_elem_of_filter in Hin as [_ Hin].
    by apply list_elem_of_filter in Hin as [? _]. }
  assert (x ∈ seq /\ y ∈ seq) as [Hx Hy].
  { by apply precedes_elem. }
  intros Hprec. apply precedes_without in Hprec; [|exact (Hz y Hy)|exact (Hz x Hx)].
  apply (H3 x y); [|done]. apply precedes_cons. by right.
Qed.
End spec.
