(* ===== verification/CheckerProof.v ===== *)
(** checkSingle decides linearizability (porcupine/checker.go).

    The invariant of the search: the list is what the set [linearized] leaves of
    the history; the stack is a legal order of the calls lifted so far; every
    call before the cursor leads nowhere; and a cached configuration either
    leads nowhere or is on the stack.  A measure decreases in every turn, so the
    search ends, and it ends with true exactly when the history can be
    completed. *)

From S2P Require Import Prelude Bitset Checker CheckerSpec.

(** * A bound on the number of turns *)

(** [cost len k]: turns to explore a list of [len] nodes from a cursor that has
    [k] nodes to go. *)
Fixpoint cost (len : nat) : nat -> nat :=
  match len with
  | S (S len') => fix go k := match k with O => 1 | S k => 1 + go k + cost len' len' end
  | _ => fun k => 1 + k
  end%nat.

Lemma cost_pos len k : (1 <= cost len k)%nat.
Proof. destruct len as [|[|len]], k; simpl; lia. Qed.
Lemma cost_advance len k : (cost len k < cost len (S k))%nat.
Proof. destruct len as [|[|len]]; simpl; lia. Qed.
Lemma cost_lift len k : (cost len len + cost (S (S len)) k < cost (S (S len)) (S k))%nat.
Proof. simpl. lia. Qed.

Arguments cost : simpl never.

Section proof.
Context {In Out St : Type}.
Context (model_step : St -> In -> Out -> bool * St) (model_equal : St -> St -> bool).
Context (Hequal : forall s1 s2, model_equal s1 s2 = true -> s1 = s2).
Context (init : St) (nodes : list (node In Out)).
Context (Hwf : well_formed nodes).
Context (Hids : Forall (fun n => 0 <= nid n < Z.of_nat (length nodes / 2)) nodes).
Abbreviation completable := (completable model_step).
Implicit Types m : Z -> bool.

(** * What a set of lifted calls leaves *)

Definition rem m : list (node In Out) := filter (fun n => m (nid n) = false) nodes.
Definition plus m (i : Z) : Z -> bool := fun j => if decide (j = i) then true else m j.
Definition minus m (i : Z) : Z -> bool := fun j => if decide (j = i) then false else m j.

Lemma rem_ext m m' : (forall j, m j = m' j) -> rem m = rem m'.
Proof. intros H. unfold rem. apply list_filter_iff. intros n. by rewrite H. Qed.

Lemma rem_plus m i : rem (plus m i) = without i (rem m).
Proof.
  unfold rem, without. clear Hwf Hids. induction nodes as [|n l IH]; [done|]. unfold plus in *.
  destruct (decide (nid n = i)) as [E|E].
  - rewrite filter_cons_False by (rewrite decide_True by done; done). rewrite IH.
    destruct (decide (m (nid n) = false)) as [Em|Em].
    + rewrite (filter_cons_True _ n l) by done. by rewrite filter_cons_False by (intros H; by apply H).
    + by rewrite (filter_cons_False _ n l).
  - destruct (decide (m (nid n) = false)) as [Em|Em].
    + rewrite !(filter_cons_True _ n) by (done || by rewrite decide_False). by rewrite IH.
    + rewrite !(filter_cons_False _ n) by (done || by rewrite decide_False). done.
Qed.

Lemma rem_well_formed m : well_formed (rem m).
Proof.
  intros i. unfold rem. destruct (m i) eqn:E.
  - left. unfold of_id. apply filter_none. apply Forall_forall.
    intros n [Hn _]%list_elem_of_filter Hi. congruence.
  - assert (of_id i (filter (fun n => m (nid n) = false) nodes) = of_id i nodes) as ->; [|apply Hwf].
    clear Hwf Hids. unfold of_id. induction nodes as [|n l IH]; [done|].
    destruct (decide (nid n = i)) as [Ei|Ei].
    + rewrite (filter_cons_True _ n l) by congruence. by rewrite !filter_cons_True, IH.
    + rewrite (filter_cons_False (fun n => nid n = i) n l) by done.
      destruct (decide (m (nid n) = false)).
      * rewrite (filter_cons_True _ n l) by done. by rewrite filter_cons_False.
      * by rewrite (filter_cons_False _ n l).
Qed.

Lemma rem_lift m b i v o a :
  rem m = b ++ Call i v o :: a -> b ++ unlink i a = rem (plus m i).
Proof. intros E. rewrite rem_plus, E. apply lift_without. rewrite <- E. apply rem_well_formed. Qed.

Lemma rem_length m b i v o a :
  rem m = b ++ Call i v o :: a -> length (rem m) = S (S (length (b ++ unlink i a))).
Proof.
  intros E. pose proof (rem_well_formed m) as H. rewrite E in H.
  destruct (around_call _ _ _ _ _ H) as [_ Ha]. rewrite E, !length_app. simpl.
  assert (length a = S (length (unlink i a))) as ->; [|lia].
  clear -Ha. unfold of_id in Ha. induction a as [|n a IH]; [done|].
  destruct (decide (nid n = i)) as [En|En].
  - rewrite filter_cons_True in Ha by done. injection Ha as -> _. simpl. by rewrite Z.eqb_refl.
  - rewrite filter_cons_False in Ha by done. destruct n as [j w u|j]; simpl in *.
    + rewrite IH by done. done.
    + rewrite (proj2 (Z.eqb_neq j i)) by done. simpl. by rewrite <- IH.
Qed.

Lemma rem_id m n : n ∈ rem m -> m (nid n) = false /\ 0 <= nid n < Z.of_nat (length nodes / 2).
Proof.
  intros [H1 H2]%list_elem_of_filter. rewrite Forall_forall in Hids. auto.
Qed.

(** A list that is not empty has a return in it. *)
Lemma rem_return m : rem m <> [] -> exists i, Plain i ∈ rem m.
Proof.
  intros Hne. destruct (rem m) as [|n l] eqn:E; [done|]. pose proof (rem_well_formed m (nid n)) as H.
  rewrite E in H. unfold of_id in H. rewrite filter_cons_True in H by done.
  destruct H as [H|(v & o & H)]; [done|]. exists (nid n).
  assert (Plain (nid n) ∈ n :: filter (fun n' => nid n' = nid n) l) as Hin by (rewrite H; set_solver).
  apply elem_of_cons in Hin as [->|Hin]; [by left|]. right. by apply list_elem_of_filter in Hin as [_ ?].
Qed.

(** * Dead configurations *)

#[export] Instance rem_proper : Proper (pointwise_relation Z eq ==> eq) rem.
Proof. intros m m' H. by apply rem_ext. Qed.
#[export] Instance plus_proper : Proper (pointwise_relation Z eq ==> eq ==> pointwise_relation Z eq) plus.
Proof. intros m m' H i _ <- j. unfold plus. by case_decide. Qed.
#[export] Instance minus_proper : Proper (pointwise_relation Z eq ==> eq ==> pointwise_relation Z eq) minus.
Proof. intros m m' H i _ <- j. unfold minus. by case_decide. Qed.

Lemma plus_minus m i : m i = true -> pointwise_relation Z eq (plus (minus m i) i) m.
Proof. intros H j. unfold plus, minus. case_decide; [by subst|done]. Qed.
Lemma minus_plus m i : m i = false -> pointwise_relation Z eq (minus (plus m i) i) m.
Proof. intros H j. unfold plus, minus. case_decide; [by subst|done]. Qed.

(** Linearizing a call of [b] next cannot be completed. *)
Definition dead_children (b : list (node In Out)) m (s : St) : Prop :=
  forall i v o s', Call i v o ∈ b -> model_step s v o = (true, s') ->
    ~ completable (rem (plus m i)) s'.

#[export] Instance dead_children_proper :
  Proper (eq ==> pointwise_relation Z eq ==> eq ==> iff) dead_children.
Proof.
  intros b _ <- m m' H s _ <-. unfold dead_children.
  split; intros Hd i v o s' Hin Hs; specialize (Hd i v o s' Hin Hs); by rewrite H in *.
Qed.

Lemma dead_children_snoc b m s n :
  dead_children b m s -> dead_children [n] m s -> dead_children (b ++ [n]) m s.
Proof. intros H1 H2 i v o s' [Hin|Hin]%elem_of_app Hs; [by eapply H1|by eapply H2]. Qed.

(** With a return next, the calls before it are the only candidates. *)
Lemma candidates_dead m s b j a :
  rem m = b ++ Plain j :: a -> dead_children b m s -> ~ completable (rem m) s.
Proof.
  intros E Hd Hc. inversion Hc as [s0 E0|b' i v o a' s0 s' Hb' Hs Hnext E0 Es]; subst.
  { rewrite E in E0. by destruct b. }
  rewrite (rem_lift m b' i v o a') in Hnext by done.
  refine (Hd i v o s' _ Hs Hnext). rewrite E in E0. clear -E0 Hb'.
  revert b E0. induction b' as [|n b' IH]; intros [|n' b] E0; simpl in E0; try discriminate.
  - injection E0 as <- _. by left.
  - injection E0 as -> _. by apply Forall_cons in Hb' as [[] _].
  - injection E0 as -> E0. apply Forall_cons in Hb' as [_ Hb']. right. by apply IH.
Qed.

(** * The stack *)

Fixpoint frames_ok m (s : St) (cs : list (callsEntry In Out St)) : Prop :=
  match cs with
  | [] => s = init /\ forall j, m j = false
  | f :: cs =>
      m (f_id f) = true /\
      rem (minus m (f_id f)) = f_before f ++ Call (f_id f) (f_value f) (f_match f) :: f_after f /\
      calls_only (f_before f) /\ dead_children (f_before f) (minus m (f_id f)) (f_state f) /\
      model_step (f_state f) (f_value f) (f_match f) = (true, s) /\
      frames_ok (minus m (f_id f)) (f_state f) cs
  end.

#[export] Instance frames_ok_proper :
  Proper (pointwise_relation Z eq ==> eq ==> eq ==> iff) frames_ok.
Proof.
  intros m m' H s _ <- cs _ <-. revert m m' s H. induction cs as [|f cs IH]; intros m m' s H; simpl.
  - by setoid_rewrite H.
  - rewrite (IH _ _ _ (minus_proper _ _ H _ _ eq_refl)). by rewrite H.
Qed.

(** What completes the top of the stack completes the history. *)
Lemma frames_complete m s cs : frames_ok m s cs -> completable (rem m) s -> completable nodes init.
Proof.
  revert m s. induction cs as [|f cs IH]; intros m s; simpl.
  - intros [-> Hm] Hc. replace nodes with (rem m); [done|].
    apply filter_every. by apply Forall_forall.
  - intros (Hin & E & Hb & _ & Hs & Hf) Hc. eapply IH; [exact Hf|]. rewrite E.
    eapply comp_next; [done|exact Hs|]. rewrite (rem_lift _ _ _ _ _ _ E).
    by rewrite plus_minus.
Qed.

Lemma frames_ids m s cs :
  frames_ok m s cs -> Forall (fun f => 0 <= f_id f < Z.of_nat (length nodes / 2)) cs.
Proof.
  revert m s. induction cs as [|f cs IH]; intros m s; simpl; [constructor|].
  intros (_ & E & _ & _ & _ & Hf). constructor; [|by eapply IH].
  apply (rem_id (minus m (f_id f)) (Call (f_id f) (f_value f) (f_match f))). rewrite E.
  apply elem_of_app. right. by left.
Qed.

(** A configuration that the search is inside of. *)
Fixpoint on_path (m0 : Z -> bool) (s0 : St) m (s : St) (cs : list (callsEntry In Out St)) : Prop :=
  match cs with
  | [] => False
  | f :: cs =>
      (s0 = s /\ pointwise_relation Z eq m0 m) \/
      on_path m0 s0 (minus m (f_id f)) (f_state f) cs
  end.

#[export] Instance on_path_proper m0 s0 :
  Proper (pointwise_relation Z eq ==> eq ==> eq ==> iff) (on_path m0 s0).
Proof.
  intros m m' H s _ <- cs _ <-. revert m m' s H. induction cs as [|f cs IH]; intros m m' s H; simpl; [done|].
  rewrite (IH _ _ _ (minus_proper _ _ H _ _ eq_refl)). by rewrite H.
Qed.

Lemma on_path_subset m0 s0 m s cs j : on_path m0 s0 m s cs -> m0 j = true -> m j = true.
Proof.
  revert m s. induction cs as [|f cs IH]; intros m s; simpl; [done|].
  intros [[_ H]|H] H0; [by rewrite <- H|]. specialize (IH _ _ H H0). unfold minus in IH.
  by case_decide.
Qed.

(** * The invariant of the search *)

Abbreviation search := (search In Out St).
Implicit Types c : search.

(** A cached configuration leads nowhere or is being explored. *)
Definition cache_ok m s cs (k : gmap Z (list (bitset * St))) : Prop :=
  forall h es e, k !! h = Some es -> e ∈ es ->
    ~ completable (rem (mem e.1)) e.2 \/ on_path (mem e.1) e.2 m s cs.

Record search_inv c : Prop := {
  si_list : before c ++ after c = rem (mem (linearized c));
  si_calls : calls_only (before c);
  si_room : length (linearized c) = length (newBitset (Z.of_nat (length nodes / 2)));
  si_longest : length (longest c) = (length nodes / 2)%nat;
  si_frames : frames_ok (mem (linearized c)) (state c) (calls c);
  si_dead : dead_children (before c) (mem (linearized c)) (state c);
  si_cache : cache_ok (mem (linearized c)) (state c) (calls c) (cache c) }.

Definition frame_cost (f : callsEntry In Out St) : nat :=
  cost (S (length (f_before f) + length (f_after f)))
       (length (f_after f)).
Definition turns_left c : nat :=
  cost (length (before c) + length (after c)) (length (after c)) + sum_list (frame_cost <$> calls c).

Lemma room_ok c i :
  search_inv c -> 0 <= i < Z.of_nat (length nodes / 2) -> 0 <= i < bs_room (linearized c).
Proof.
  intros H Hi. unfold bs_room. rewrite (si_room _ H). fold (bs_room (newBitset (Z.of_nat (length nodes / 2)))).
  pose proof (newBitset_room (Z.of_nat (length nodes / 2))). lia.
Qed.

Lemma cache_ok_add m s cs k b s' :
  cache_ok m s cs k -> on_path (mem b) s' m s cs -> cache_ok m s cs (cache_add k b s').
Proof.
  intros H Hp h es e. unfold cache_add. destruct (decide (h = bs_hash b)) as [->|Hne].
  - rewrite lookup_insert_eq. intros [= <-] [Hin|Hin]%elem_of_app.
    + destruct (k !! bs_hash b) as [es|] eqn:E; [by eapply H|]. by apply elem_of_nil in Hin.
    + apply list_elem_of_singleton in Hin as ->. by right.
  - rewrite lookup_insert_ne by done. apply H.
Qed.

Lemma cache_hit m s cs k b s' :
  cache_ok m s cs k -> cacheContains model_equal k b s' = true ->
  ~ completable (rem (mem b)) s' \/ on_path (mem b) s' m s cs.
Proof.
  unfold cacheContains. intros H (e & Hin & He)%existsb_exists.
  apply andb_true_iff in He as [Hb He]. apply bs_equals_spec in Hb as ->. apply Hequal in He as ->.
  destruct (k !! bs_hash e.1) as [es|] eqn:E; [|done]. eapply H; [exact E|]. by apply list_elem_of_In.
Qed.

(** What a turn has to establish. *)
Definition turn_post c (r : option bool) (c' : search) : Prop :=
  match r with
  | Some b => b = true <-> completable nodes init
  | None => search_inv c' /\ (turns_left c' < turns_left c)%nat
  end.

Lemma advance_ok c i v o rest :
  search_inv c -> after c = Call i v o :: rest ->
  dead_children [Call i v o] (mem (linearized c)) (state c) ->
  wp (advance (Call i v o) rest) c (turn_post c).
Proof.
  intros H E Hd. unfold advance. apply wp_bind, wp_modify, wp_ret. destruct H. split.
  - constructor; simpl; try done.
    + rewrite <- app_assoc. simpl. by rewrite <- E.
    + apply Forall_app. split; [done|]. by constructor.
    + by apply dead_children_snoc.
  - unfold turns_left. simpl. rewrite E, length_app. simpl.
    replace (length (before c) + 1 + length rest)%nat with (length (before c) + S (length rest))%nat by lia.
    pose proof (cost_advance (length (before c) + S (length rest)) (length rest)). lia.
Qed.

Lemma try_call_ok c i v o rest :
  search_inv c -> after c = Call i v o :: rest ->
  wp (try_call model_step model_equal i v o rest) c (turn_post c).
Proof.
  intros H E. unfold try_call. apply wp_bind, wp_gets. cbv beta zeta.
  destruct (model_step (state c) v o) as [ok newState] eqn:Hs.
  pose proof (si_list c H) as Hl. rewrite E in Hl.
  destruct (rem_id (mem (linearized c)) (Call i v o)) as [Hi Hr];
    [rewrite <- Hl; apply elem_of_app; right; by left|]. simpl in Hi, Hr.
  destruct ok; [|apply advance_ok; [done..|]; intros i' v' o' s' Hin%list_elem_of_singleton; congruence].
  destruct (bs_set_run (linearized c) i c (room_ok c i H Hr)) as (b & Hb & Hlen & Hmem).
  assert (pointwise_relation Z eq (mem b) (plus (mem (linearized c)) i)) as Hplus by exact Hmem.
  apply wp_bind, wp_done. exists b, c. split; [exact Hb|].
  destruct (cacheContains model_equal (cache c) b newState) eqn:Hc.
  - apply advance_ok; [done..|]. intros i' v' o' s' Hin%list_elem_of_singleton Hs'.
    injection Hin as -> -> ->. rewrite Hs in Hs'. injection Hs' as <-. rewrite <- Hplus.
    destruct (cache_hit _ _ _ _ _ _ (si_cache c H) Hc) as [Hd|Hp]; [done|].
    apply (on_path_subset _ _ _ _ _ i) in Hp; [congruence|]. rewrite Hmem. by rewrite decide_True.
  - apply wp_bind, wp_done. exists b, c. split; [exact Hb|]. apply wp_bind, wp_modify, wp_ret.
    assert (pointwise_relation Z eq (minus (mem b) i) (mem (linearized c))) as Hminus.
    { rewrite Hplus. by apply minus_plus. }
    split.
    + destruct H as [H1 H2 H3 H4 H5 H6 H7]. constructor; simpl; try done.
      * rewrite (rem_lift (mem (linearized c)) _ i v o rest) by done. by rewrite Hplus.
      * constructor.
      * by etrans.
      * rewrite Hminus. repeat split; try done. rewrite Hplus. unfold plus. by rewrite decide_True.
      * intros i' v' o' s' Hin. by apply elem_of_nil in Hin.
      * apply cache_ok_add; [|simpl; by left].
        intros h es e Hk He. simpl. rewrite Hminus. destruct (H7 h es e Hk He); tauto.
    + unfold turns_left. csimpl. rewrite E. csimpl.
      pose proof (rem_length (mem (linearized c)) (before c) i v o rest (eq_sym Hl)) as Hlen'.
      rewrite <- Hl, !length_app in Hlen'. simpl in Hlen'. unfold frame_cost at 1. csimpl.
      rewrite length_app, Hlen'.
      replace (S (length (before c) + length rest)) with (S (S (length (before c) + length (unlink i rest)))) by lia.
      pose proof (cost_lift (length (before c) + length (unlink i rest)) (length rest)). lia.
Qed.

Lemma update_longest_ok c cs seq l :
  Forall (fun f => 0 <= f_id f < lenZ l) cs ->
  wp (update_longest cs seq l) c (fun l' c' => c' = c /\ length l' = length l).
Proof.
  revert l. induction cs as [|f cs IH]; intros l Hcs; [by apply wp_ret|].
  apply Forall_cons in Hcs as [Hf Hcs]. simpl. destruct (nthZ_in_range l (f_id f) Hf) as [old Hold].
  apply wp_bind, wp_done. exists old, c. split; [by apply go_index_ok|].
  assert (wp (l' ← go_update l (f_id f) (Some seq); update_longest cs seq l') c
    (fun l' c' => c' = c /\ length l' = length l)) as Hupd.
  { apply wp_bind, wp_done. eexists _, c. split; [by apply go_update_ok|].
    eapply wp_mono; [apply IH; by rewrite length_insert|]. intros l' c' [-> ->].
    by rewrite length_insert. }
  destruct old as [p|]; [|exact Hupd]. case_match; [exact Hupd|by apply IH].
Qed.

Lemma backtrack_ok cp c j rest :
  search_inv c -> after c = Plain j :: rest -> wp (backtrack cp) c (turn_post c).
Proof.
  intros H E. unfold backtrack. apply wp_bind, wp_gets. cbv beta.
  pose proof (si_list c H) as Hl. rewrite E in Hl.
  pose proof (candidates_dead _ _ _ _ _ (eq_sym Hl) (si_dead c H)) as Hdead.
  pose proof (si_frames c H) as Hf.
  destruct (calls c) as [|top cs] eqn:Ec.
  - apply wp_ret. destruct Hf as [Hs Hm]. split; [done|]. intros Hcomp. destruct Hdead.
    rewrite Hs. replace (rem (mem (linearized c))) with nodes; [done|].
    symmetry. apply filter_every. by apply Forall_forall.
  - pose proof (frames_ids _ _ _ Hf) as Hfids.
    destruct (bs_clear_run (linearized c) (f_id top) c) as (b & Hb & Hlen & Hmem).
    { apply room_ok; [done|]. by apply Forall_cons in Hfids as [? _]. }
    assert (pointwise_relation Z eq (mem b) (minus (mem (linearized c)) (f_id top))) as Hminus by exact Hmem.
    destruct Hf as (Hin & Erem & Hcalls & Hdc & Hstep & Hf).
    apply wp_bind. eapply (wp_mono _ _ (fun l c' => c' = c /\ length l = length (longest c))).
    { destruct cp; [|by apply wp_ret]. apply update_longest_ok. rewrite (si_longest c H).
      by rewrite reverse_Permutation. }
    intros l c' [-> Hll]. apply wp_bind, wp_done. exists b, c. split; [exact Hb|].
    apply wp_bind, wp_modify, wp_ret. split.
    + destruct H as [H1 H2 H3 H4 H5 H6 H7]. constructor; simpl.
      * rewrite <- app_assoc. simpl. by rewrite Hminus.
      * apply Forall_app. split; [done|]. by constructor.
      * by etrans.
      * by etrans.
      * by rewrite Hminus.
      * rewrite Hminus. apply dead_children_snoc; [done|].
        intros i v o s' Hi%list_elem_of_singleton Hs. injection Hi as -> -> ->.
        rewrite Hstep in Hs. injection Hs as <-. by rewrite plus_minus.
      * intros h es e Hk He. rewrite Hminus. destruct (H7 h es e Hk He) as [?|Hp]; [by left|].
        rewrite Ec in Hp. destruct Hp as [[-> Hm]|Hp]; [left; by rewrite Hm|by right].
    + unfold turns_left. csimpl. rewrite Ec, length_app. csimpl. unfold frame_cost at 2.
      replace (length (f_before top) + 1 + length (f_after top))%nat
        with (S (length (f_before top) + length (f_after top))) by lia.
      pose proof (cost_pos (length (before c) + length (after c)) (length (after c))). lia.
Qed.

(** * The loop *)

(** The cursor does not run off the list: a return comes first. *)
Lemma cursor_in_list c : search_inv c -> before c ++ after c <> [] -> after c <> [].
Proof.
  intros H Hne E. pose proof (si_list c H) as Hl. rewrite Hl in Hne.
  destruct (rem_return _ Hne) as [i Hi]. rewrite <- Hl, E, app_nil_r in Hi.
  pose proof (si_calls c H) as Hc. unfold calls_only in Hc. rewrite Forall_forall in Hc.
  exact (Hc _ Hi).
Qed.

Lemma check_turn_ok cp c :
  search_inv c -> wp (check_turn model_step model_equal cp false) c (turn_post c).
Proof.
  intros H. unfold check_turn. apply wp_bind, wp_gets. cbv beta.
  destruct (before c ++ after c) as [|n l] eqn:El.
  - apply wp_bind, wp_modify, wp_ret. split; [|done]. intros _.
    apply (frames_complete _ _ _ (si_frames c H)). rewrite <- (si_list c H), El. constructor.
  - destruct (after c) as [|[i v o|i] rest] eqn:Ea.
    + exfalso. apply (cursor_in_list c H); [|done]. by rewrite Ea, El.
    + by apply try_call_ok.
    + by eapply backtrack_ok.
Qed.

Lemma check_loop_ok cp kill fuel c :
  search_inv c ->
  wp (check_loop model_step model_equal fuel cp kill) c (fun r _ =>
    (r = Some true -> completable nodes init) /\
    ((turns_left c <= fuel)%nat -> (forall k, kill k = false) ->
     exists b, r = Some b /\ (b = true <-> completable nodes init))).
Proof.
  revert c. induction fuel as [|fuel IH]; intros c H; cbn [check_loop].
  { apply wp_ret. split; [done|]. unfold turns_left.
    pose proof (cost_pos (length (before c) + length (after c)) (length (after c))). lia. }
  apply wp_bind. destruct (kill fuel) eqn:Hk.
  - unfold check_turn. apply wp_bind, wp_gets. cbv beta.
    destruct (before c ++ after c) as [|n l] eqn:El.
    + pose proof (check_turn_ok cp c H) as Ht. unfold check_turn, wp in Ht.
      rewrite bind_gets, El in Ht. cbv beta in Ht. apply wp_bind, wp_modify, wp_ret, wp_ret.
      simpl in Ht. split; [naive_solver|]. intros _ Hno. by rewrite Hno in Hk.
    + apply wp_ret, wp_ret. split; [done|]. intros _ Hno. by rewrite Hno in Hk.
  - eapply wp_mono; [by apply check_turn_ok|]. intros [b|] c' Ht; simpl in Ht.
    + apply wp_ret. split; [by intros [= ->]; apply Ht|]. intros _ _. by exists b.
    + destruct Ht as [Hinv Hlt]. eapply wp_mono; [by apply IH|]. intros r c'' [H1 H2].
      split; [done|]. intros Hle. apply H2. lia.
Qed.

Lemma init_search_inv : search_inv (init_search init nodes).
Proof.
  assert (forall j, mem (newBitset (Z.of_nat (length nodes / 2))) j = false) as Hm
    by (intros; apply newBitset_empty).
  constructor; simpl; try done.
  - symmetry. apply filter_every. by apply Forall_forall.
  - constructor.
  - apply length_replicate.
  - intros i v o s' Hin. by apply elem_of_nil in Hin.
Qed.

Definition enough : nat := cost (length nodes) (length nodes).
End proof.

(** The search on a complete history never panics; whatever the kill flag, true
    means linearizable; left alone it ends with the right answer. *)
Lemma checkSingle_run {In Out St} (model_step : St -> In -> Out -> bool * St) model_equal init
    (history : list (entry In Out)) cp kill fuel :
  (forall s1 s2, model_equal s1 s2 = true -> s1 = s2) ->
  well_formed (makeLinkedEntries history) ->
  Forall (fun n => 0 <= nid n < Z.of_nat (length (makeLinkedEntries history) / 2))
    (makeLinkedEntries history) ->
  exists r c, checkSingle model_step model_equal init history cp kill fuel = Done r c /\
    (r = Some true -> linearizable model_step (makeLinkedEntries history) init) /\
    ((enough (makeLinkedEntries history) <= fuel)%nat -> (forall k, kill k = false) ->
     exists b, r = Some b /\ (b = true <-> linearizable model_step (makeLinkedEntries history) init)).
Proof.
  intros He Hwf Hids. set (nodes := makeLinkedEntries history) in *.
  assert (completable model_step nodes init <-> linearizable model_step nodes init) as Hiff.
  { split; [intros; by apply completable_linearizable|]. intros [seq Hseq].
    by eapply linearizable_completable. }
  pose proof (check_loop_ok _ _ He _ _ Hwf Hids cp kill fuel _ (init_search_inv model_step init nodes))
    as (r & c & E & H1 & H2)%wp_done.
  exists r, c. split; [exact E|]. split; [intros; by apply Hiff, H1|]. intros Hf Hk.
  destruct H2 as (b & -> & Hb); [|done|exists b; by rewrite <- Hiff].
  unfold enough, turns_left in *. simpl. lia.
Qed.
