(* ===== verification/CheckerOps.v ===== *)
(** Checking histories of operations (porcupine/checker.go, porcupine.go,
    models/kv.go).

    checkOperations partitions a history, starts one search per partition and
    collects the results as they come.  The runtime picks what the select of
    checkParallel receives next: the schedule is a parameter.  A result that the
    loop receives was computed with the kill flag down, since only the loop
    raises it, and only when it ends.  The partial linearizations that are
    collected for the visualization are in Visualize. *)

From S2P Require Import Prelude Bitset Checker CheckerSpec CheckerProof.

Section ops.
Context {In Out St : Type}.
Abbreviation Operation := (Operation In Out).
Abbreviation Event := (Event In Out).
Abbreviation entry := (entry In Out).
Abbreviation Model := (@Model In Out St).

Definition fillDefault `{!EqDecision St} (model : Model) : Model :=
  mkModel (Some (default NoPartition (Partition model)))
          (Some (default NoPartitionEvent (PartitionEvent model)))
          (Init model) (Step model)
          (Some (default ShallowEqual (Equal model))).

(** What the select of checkParallel receives: the result of a partition, or
    the timeout. *)
Inductive select : Type := Recv (i : nat) | Expired.

#[export] Instance select_eq_dec : EqDecision select.
Proof. solve_decision. Defined.

(** The loop, with the results of the partitions; [None]: it still waits.  The
    value is [ok] and [timedOut]. *)
Fixpoint receive (n : nat) (computeInfo : bool) (timeout : Z) (result : nat -> option bool)
    (sched : list select) (count : nat) (ok : bool) : option (bool * bool) :=
  match sched with
  | [] => None
  | Recv i :: sched =>
      match result i with
      | None => None
      | Some r =>
          let count := S count in
          let ok := ok && r in
          if negb ok && negb computeInfo then Some (ok, false)
          else if (n <=? count)%nat then Some (ok, false)
          else receive n computeInfo timeout result sched count ok
      end
  | Expired :: _ => if timeout >? 0 then Some (ok, true) else None
  end.

(** The result that the goroutine of partition [i] sends. *)
Definition goroutine (model : Model) (equal : St -> St -> bool) (history : list (list entry))
    (computeInfo : bool) (fuel : nat) (i : nat) : option bool :=
  subhistory ← history !! i;
  match checkSingle (Step model) equal (Init model) subhistory computeInfo (fun _ => false) fuel with
  | Done r _ => r
  | _ => None
  end.

Definition checkParallel (model : Model) (equal : St -> St -> bool) (history : list (list entry))
    (computeInfo : bool) (timeout : Z) (sched : list select) (fuel : nat) : option CheckResult :=
  match receive (length history) computeInfo timeout
          (goroutine model equal history computeInfo fuel) sched 0 true with
  | None => None
  | Some (ok, timedOut) =>
      Some (if negb ok then Illegal else if (timedOut : bool) then Unknown else Ok)
  end.

Definition checkEvents `{!EqDecision St} (model : Model) (history : list Event) (verbose : bool)
    (timeout : Z) (sched : list select) (fuel : nat) : option CheckResult :=
  let model := fillDefault model in
  let partitions := default NoPartitionEvent (PartitionEvent model) history in
  let l := (fun subhistory => convertEntries 0 (renumber subhistory ∅ 0)) <$> partitions in
  checkParallel model (default ShallowEqual (Equal model)) l verbose timeout sched fuel.

Definition checkOperations `{!EqDecision St} (sort : list entry -> list entry) (model : Model)
    (history : list Operation) (verbose : bool) (timeout : Z) (sched : list select) (fuel : nat)
    : option CheckResult :=
  let model := fillDefault model in
  let partitions := default NoPartition (Partition model) history in
  let l := makeEntries sort <$> partitions in
  checkParallel model (default ShallowEqual (Equal model)) l verbose timeout sched fuel.

(** * What the checker promises of operations *)

Fixpoint op_legal (model_step : St -> In -> Out -> bool * St) (s : St) (seq : list Operation) : Prop :=
  match seq with
  | [] => True
  | x :: seq =>
      exists s', model_step s (op_Input x) (op_Output x) = (true, s') /\ op_legal model_step s' seq
  end.

(** An order of the operations that the model allows, in which an operation
    that returned before another was called is not after it. *)
Definition op_linearizable (model_step : St -> In -> Out -> bool * St) (s : St)
    (history : list Operation) : Prop :=
  exists seq, seq ≡ₚ history /\ op_legal model_step s seq /\
    forall l1 x l2 y l3, seq = l1 ++ x :: l2 ++ y :: l3 -> op_Call x <= op_Return y.

(** sort.Sort: a permutation in which nothing is less than what is before it. *)
Definition sorted_by_time (es : list entry) : Prop :=
  forall l1 a l2 b l3, es = l1 ++ a :: l2 ++ b :: l3 -> byTime_Less b a = false.
Definition sorts (sort : list entry -> list entry) : Prop :=
  forall es, sort es ≡ₚ es /\ sorted_by_time (sort es).

(** * From entries to nodes *)

Context (history : list Operation).
Context (Hcall : Forall (fun x => op_Call x <= op_Return x) history).

Definition op_at (i : Z) : option Operation := nthZ history i.

Definition to_node (e : entry) : node In Out :=
  match e with
  | callEntry v i _ _ =>
      match op_at i with Some x => Call i v (op_Output x) | None => Plain i end
  | returnEntry _ i _ _ => Plain i
  end.

Definition call_of (i : Z) (x : Operation) : entry :=
  callEntry (op_Input x) i (op_Call x) (op_ClientId x).
Definition return_of (i : Z) (x : Operation) : entry :=
  returnEntry (op_Output x) i (op_Return x) (op_ClientId x).
Definition node_of (i : Z) (x : Operation) : node In Out := Call i (op_Input x) (op_Output x).

Lemma op_entries_elem k l e :
  e ∈ op_entries k l <->
  exists i x, nthZ l (i - k) = Some x /\ (e = call_of i x \/ e = return_of i x).
Proof.
  revert k. induction l as [|y l IH]; intros k; simpl.
  - split; [intros []%elem_of_nil|]. intros (i & x & H%nthZ_Some & _). simpl in H. lia.
  - rewrite !elem_of_cons, IH. split.
    + intros [->|[->|(i & x & H & He)]].
      * exists k, y. rewrite Z.sub_diag. auto.
      * exists k, y. rewrite Z.sub_diag. auto.
      * exists i, x. split; [|done]. pose proof (nthZ_Some _ _ _ H).
        rewrite nthZ_nat in * by lia. by replace (Z.to_nat (i - k)) with (S (Z.to_nat (i - (k + 1)))) by lia.
    + intros (i & x & H & He). pose proof (nthZ_Some _ _ _ H) as Hr.
      destruct (decide (i = k)) as [->|Hne].
      * rewrite Z.sub_diag in H. injection H as ->. destruct He; auto.
      * right; right. exists i, x. split; [|done]. rewrite nthZ_nat in * by lia.
        by replace (Z.to_nat (i - k)) with (S (Z.to_nat (i - (k + 1)))) in H by lia.
Qed.

Lemma op_entries_id k l i :
  filter (fun e => e_id e = i) (op_entries k l) =
  match nthZ l (i - k) with Some x => [call_of i x; return_of i x] | None => [] end.
Proof.
  revert k. induction l as [|y l IH]; intros k; simpl.
  - rewrite nthZ_None; [done|]. simpl. lia.
  - destruct (decide (k = i)) as [->|Hne].
    + rewrite Z.sub_diag, !filter_cons_True, IH by done. rewrite nthZ_None by lia. done.
    + rewrite !filter_cons_False, IH by done. destruct (decide (0 <= i - k)).
      * rewrite !nthZ_nat by lia.
        by replace (Z.to_nat (i - k)) with (S (Z.to_nat (i - (k + 1)))) by lia.
      * rewrite !nthZ_None by lia. done.
Qed.

Lemma op_entries_length k (l : list Operation) : length (op_entries k l) = (2 * length l)%nat.
Proof. revert k. induction l as [|x l IH]; intros k; [done|]. simpl. rewrite IH. lia. Qed.

(** Every call has its return after it, and the returns are those of the history. *)
Definition matched (es : list entry) : Prop :=
  (forall l1 v i t c l2, es = l1 ++ callEntry v i t c :: l2 -> exists o t' c', returnEntry o i t' c' ∈ l2) /\
  (forall o i t c, returnEntry o i t c ∈ es -> exists x, op_at i = Some x /\ op_Output x = o).

Lemma linkEntries_map es :
  matched es ->
  fst (linkEntries es) = to_node <$> es /\
  (forall i o, snd (linkEntries es) !! i = Some o -> exists x, op_at i = Some x /\ op_Output x = o) /\
  (forall o i t c, returnEntry o i t c ∈ es -> is_Some (snd (linkEntries es) !! i)).
Proof.
  induction es as [|e es IH]; intros [Hc Hr]; [split_and!; [done|done|by intros ? ? ? ? []%elem_of_nil]|].
  destruct IH as (IH1 & IH2 & IH3).
  { split; [|intros o i t c Hin; eapply Hr; by right]. intros l1 v i t c l2 ->. by eapply (Hc (e :: l1)). }
  simpl. destruct (linkEntries es) as [root matches]. simpl in *. destruct e as [v i t c|v i t c].
  - destruct (Hc [] v i t c es) as (o & t' & c' & Hin); [done|].
    destruct (IH3 _ _ _ _ Hin) as [o' Ho']. rewrite Ho'. simpl.
    destruct (IH2 i o' Ho') as (x & Hx & <-). rewrite Hx, IH1. split_and!; [done|done|].
    intros o'' i' t'' c'' [Heq|Hin']%elem_of_cons; [done|by eapply IH3].
  - simpl. rewrite IH1. split_and!; [done| |].
    + intros i' o'. destruct (decide (i = i')) as [<-|Hne].
      * rewrite lookup_insert_eq. intros [= <-]. eapply Hr. by left.
      * rewrite lookup_insert_ne by done. apply IH2.
    + intros o' i' t' c' [[= -> -> -> ->]|Hin]%elem_of_cons; [rewrite lookup_insert_eq; by eexists|].
      destruct (decide (i = i')) as [<-|Hne]; [rewrite lookup_insert_eq; by eexists|].
      rewrite lookup_insert_ne by done. by eapply IH3.
Qed.

(** * The entries in order of time *)

Context (es : list entry) (Hperm : es ≡ₚ op_entries 0 history) (Hsort : sorted_by_time es).

Lemma entry_cases e :
  e ∈ es <-> exists i x, op_at i = Some x /\ (e = call_of i x \/ e = return_of i x).
Proof.
  rewrite Hperm, op_entries_elem. unfold op_at. by setoid_rewrite Z.sub_0_r.
Qed.

Lemma call_returns i x : op_at i = Some x -> op_Call x <= op_Return x.
Proof.
  unfold op_at. intros H. pose proof (nthZ_Some _ _ _ H). rewrite nthZ_nat in H by lia.
  exact (Forall_lookup_1 _ _ _ _ Hcall H).
Qed.

Lemma call_before_return i x : op_at i = Some x -> byTime_Less (call_of i x) (return_of i x) = true.
Proof.
  intros H%call_returns. unfold byTime_Less. simpl. case_bool; simpl; lia.
Qed.

Lemma entry_call v i t c : callEntry v i t c ∈ es -> exists x, op_at i = Some x /\ callEntry v i t c = call_of i x.
Proof. intros (i' & x & Hx & [E|E])%entry_cases; [|done]. pose proof E as [= _ <- _ _]. by exists x. Qed.
Lemma entry_return o i t c :
  returnEntry o i t c ∈ es -> exists x, op_at i = Some x /\ returnEntry o i t c = return_of i x.
Proof. intros (i' & x & Hx & [E|E])%entry_cases; [done|]. pose proof E as [= _ <- _ _]. by exists x. Qed.

Lemma entries_matched : matched es.
Proof.
  split.
  - intros l1 v i t c l2 E. destruct (entry_call v i t c) as (x & Hx & Ee); [rewrite E; set_solver|].
    exists (op_Output x), (op_Return x), (op_ClientId x). fold (return_of i x).
    assert (return_of i x ∈ es) as Hin by (apply entry_cases; eauto).
    rewrite E in Hin. apply elem_of_app in Hin as [Hin|[Hin|Hin]%elem_of_cons]; [|done|done].
    exfalso. apply list_elem_of_split in Hin as (k1 & k2 & ->).
    rewrite Ee, <- app_assoc in E. specialize (Hsort _ _ _ _ _ E).
    by rewrite call_before_return in Hsort.
  - intros o i t c (x & Hx & [= -> _ _])%entry_return. by exists x.
Qed.

Lemma nodes_map : makeLinkedEntries es = to_node <$> es.
Proof. apply linkEntries_map, entries_matched. Qed.

Lemma to_node_id e : nid (to_node e) = e_id e.
Proof. destruct e; simpl; [|done]. by case_match. Qed.

(** Of each operation, the call and then the return. *)
Lemma entries_of i :
  filter (fun e => e_id e = i) es = match op_at i with Some x => [call_of i x; return_of i x] | None => [] end.
Proof.
  assert (filter (fun e => e_id e = i) es ≡ₚ filter (fun e => e_id e = i) (op_entries 0 history)) as Hp
    by (by rewrite Hperm).
  rewrite op_entries_id, Z.sub_0_r in Hp. fold (op_at i) in Hp.
  destruct (op_at i) as [x|] eqn:Hx; [|by apply Permutation_nil_r in Hp].
  apply pair_permutation in Hp as [->|E]; [done|].
  exfalso. pose proof E as E'. apply (filter_split _ _ []) in E' as (k1 & k2 & E1 & _ & E2).
  apply (filter_split _ _ []) in E2 as (k3 & k4 & -> & _).
  specialize (Hsort _ _ _ _ _ E1). by rewrite call_before_return in Hsort.
Qed.

Lemma nodes_well_formed : well_formed (makeLinkedEntries es).
Proof.
  intros i. rewrite nodes_map. unfold of_id.
  rewrite (fmap_filter_iff to_node (fun e => e_id e = i) (fun n => nid n = i))
    by (intros; by rewrite to_node_id).
  rewrite entries_of. destruct (op_at i) as [x|] eqn:Hx; [|by left].
  right. exists (op_Input x), (op_Output x). simpl. by rewrite Hx.
Qed.

Lemma nodes_length : length (makeLinkedEntries es) = (2 * length history)%nat.
Proof. by rewrite nodes_map, length_fmap, Hperm, op_entries_length. Qed.

Lemma nodes_ids :
  Forall (fun n => 0 <= nid n < Z.of_nat (length (makeLinkedEntries es) / 2)) (makeLinkedEntries es).
Proof.
  rewrite nodes_length, Nat.mul_comm, Nat.div_mul by done. rewrite nodes_map. apply Forall_fmap, Forall_forall.
  intros e (i & x & Hx & He)%entry_cases. simpl. rewrite to_node_id. apply nthZ_Some in Hx.
  destruct He as [->| ->]; done.
Qed.

Lemma byTime_Less_lt (a b : entry) : e_time a < e_time b -> byTime_Less a b = true.
Proof.
  intros H. unfold byTime_Less. rewrite (proj2 (Z.eqb_neq _ _)) by lia. by apply Z.ltb_lt.
Qed.
Lemma byTime_Less_return i x j y :
  byTime_Less (call_of i x) (return_of j y) = false -> op_Return y < op_Call x.
Proof.
  unfold byTime_Less. simpl. destruct (Z.eqb_spec (op_Call x) (op_Return y)); simpl; [done|].
  intros H%Z.ltb_ge. lia.
Qed.

Lemma time_order i x j y :
  op_at i = Some x -> op_at j = Some y ->
  precedes (makeLinkedEntries es) (Plain j) (node_of i x) <-> op_Return y < op_Call x.
Proof.
  intros Hx Hy. rewrite nodes_map. split.
  - intros (l1 & l2 & l3 & E).
    apply fmap_app_inv in E as (k1 & r1 & -> & E & E1). symmetry in E.
    apply fmap_cons_inv in E as (e1 & r2 & He1 & E & ->). symmetry in E.
    apply fmap_app_inv in E as (k2 & r3 & -> & E & ->). symmetry in E.
    apply fmap_cons_inv in E as (e2 & k3 & He2 & -> & ->).
    specialize (Hsort _ _ _ _ _ E1).
    destruct e1 as [v1 i1 t1 c1|o1 i1 t1 c1].
    { destruct (entry_call v1 i1 t1 c1) as (z & Hz & _); [rewrite E1; set_solver|]. simpl in He1.
      by rewrite Hz in He1. }
    destruct e2 as [v2 i2 t2 c2|o2 i2 t2 c2]; [|done].
    destruct (entry_call v2 i2 t2 c2) as (z & Hz & Ez); [rewrite E1; set_solver|].
    destruct (entry_return o1 i1 t1 c1) as (w & Hw & Ew); [rewrite E1; set_solver|].
    simpl in He1, He2. rewrite Hz in He2. injection He1 as <-. injection He2 as <- _ _.
    rewrite Hx in Hz. injection Hz as <-. rewrite Hy in Hw. injection Hw as <-.
    rewrite Ez, Ew in Hsort. by apply byTime_Less_return in Hsort.
  - intros Hlt. assert (call_of i x ∈ es /\ return_of j y ∈ es) as [Hc Hr]
      by (split; apply entry_cases; eauto 10).
    assert (to_node (call_of i x) = node_of i x) as Hn by (simpl; by rewrite Hx).
    apply list_elem_of_split in Hr as (l1 & l2 & E). rewrite E in Hc.
    apply elem_of_app in Hc as [Hc|[Hc|Hc]%elem_of_cons]; [|done|].
    + exfalso. apply list_elem_of_split in Hc as (k1 & k2 & ->). rewrite <- app_assoc in E.
      specialize (Hsort _ _ _ _ _ E). by rewrite byTime_Less_lt in Hsort.
    + apply list_elem_of_split in Hc as (k1 & k2 & ->). rewrite E.
      exists (to_node <$> l1), (to_node <$> k1), (to_node <$> k2).
      rewrite fmap_app, fmap_cons, fmap_app, fmap_cons, Hn. done.
Qed.

(** * The calls, numbered *)

Definition numbered : list (Z * Operation) := imap (fun i x => (Z.of_nat i, x)) history.
Definition call_node (p : Z * Operation) : node In Out := node_of p.1 p.2.

Lemma numbered_at p : p ∈ numbered -> op_at p.1 = Some p.2.
Proof.
  intros (k & Hk)%list_elem_of_lookup. unfold numbered in Hk. rewrite list_lookup_imap in Hk.
  destruct (history !! k) as [x|] eqn:E; [|done]. injection Hk as <-. unfold op_at. simpl.
  rewrite nthZ_nat by lia. by rewrite Nat2Z.id.
Qed.

Lemma numbered_history : snd <$> numbered = history.
Proof. unfold numbered. rewrite fmap_imap. etrans; [apply (imap_const id)|apply list_fmap_id]. Qed.

Lemma op_entries_calls k (l : list Operation) :
  filter (fun e => is_call e = true) (op_entries k l) = imap (fun i x => call_of (k + Z.of_nat i) x) l.
Proof.
  revert k. induction l as [|x l IH]; intros k; [done|]. simpl.
  rewrite filter_cons_True, filter_cons_False, IH, Z.add_0_r by done.
  unfold call_of. f_equal. apply imap_ext. intros i y _. simpl. f_equal. lia.
Qed.

Lemma nodes_calls : filter is_callnode (makeLinkedEntries es) ≡ₚ call_node <$> numbered.
Proof.
  rewrite nodes_map.
  rewrite (fmap_filter_iff to_node (fun e => is_call e = true) is_callnode).
  - rewrite Hperm, op_entries_calls. unfold numbered. rewrite !fmap_imap.
    apply reflexive_eq, imap_ext. intros i x Hx. simpl. unfold op_at. rewrite Z.add_0_l.
    rewrite nthZ_nat, Nat2Z.id, Hx by lia. done.
  - intros e (i & x & Hx & [->| ->])%entry_cases; simpl; [by rewrite Hx|by split].
Qed.

Lemma legal_call_nodes model_step (s : St) l :
  legal model_step s (call_node <$> l) <-> op_legal model_step s (snd <$> l).
Proof. revert s. induction l as [|[i x] l IH]; intros s; simpl; [done|]. by setoid_rewrite IH. Qed.

Lemma precedes_fmap {A B} (f : A -> B) (l : list A) l1 x l2 y l3 :
  f <$> l = l1 ++ x :: l2 ++ y :: l3 ->
  exists k1 p k2 q k3, l = k1 ++ p :: k2 ++ q :: k3 /\ x = f p /\ y = f q.
Proof.
  intros E. apply fmap_app_inv in E as (k1 & r1 & -> & E & ->). symmetry in E.
  apply fmap_cons_inv in E as (p & r2 & -> & E & ->). symmetry in E.
  apply fmap_app_inv in E as (k2 & r3 & -> & E & ->). symmetry in E.
  apply fmap_cons_inv in E as (q & k3 & -> & -> & ->). eauto 10.
Qed.

(** Linearizability of the nodes is linearizability of the operations. *)
Lemma linearizable_nodes model_step (s : St) :
  linearizable model_step (makeLinkedEntries es) s <-> op_linearizable model_step s history.
Proof.
  split.
  - intros [seq [H1 H2 H3]]. rewrite nodes_calls in H1.
    apply Permutation_map_inv in H1 as (l & -> & Hl).
    exists (snd <$> l). split_and!; [by rewrite <- Hl, numbered_history|by apply legal_call_nodes|].
    intros l1 x l2 y l3 E. apply precedes_fmap in E as (k1 & p & k2 & q & k3 & -> & -> & ->).
    assert (p ∈ numbered /\ q ∈ numbered) as [Hp%numbered_at Hq%numbered_at]
      by (rewrite Hl; set_solver).
    apply Z.nlt_ge. rewrite <- (time_order _ _ _ _ Hp Hq). apply (H3 (call_node p) (call_node q)).
    exists (call_node <$> k1), (call_node <$> k2), (call_node <$> k3).
    by rewrite fmap_app, fmap_cons, fmap_app, fmap_cons.
  - intros (seq & H1 & H2 & H3). rewrite <- numbered_history in H1.
    apply Permutation_map_inv in H1 as (l & -> & Hl).
    exists (call_node <$> l). split; [by rewrite nodes_calls, Hl|by apply legal_call_nodes|].
    intros n1 n2 (l1 & l2 & l3 & E). apply precedes_fmap in E as (k1 & p & k2 & q & k3 & -> & -> & ->).
    assert (p ∈ numbered /\ q ∈ numbered) as [Hp%numbered_at Hq%numbered_at]
      by (rewrite Hl; set_solver).
    unfold call_node at 2. simpl. rewrite (time_order _ _ _ _ Hp Hq). apply Z.nlt_ge.
    apply (H3 (snd <$> k1) p.2 (snd <$> k2) q.2 (snd <$> k3)).
    by rewrite fmap_app, fmap_cons, fmap_app, fmap_cons.
Qed.
End ops.
