(* ===== verification/KvModel.v ===== *)
(** models/kv.go: the key-value model of the linearizability checker.

    KvModel describes the value of one key; its Partition splits a history by
    key.  That this is enough is the locality of linearizability: a history of
    the whole store is linearizable exactly when the history of every key is. *)

From stdpp Require Import sorting.
From S2P Require Import Prelude Bitset Checker CheckerSpec CheckerOps.

Record KvInput := mkKvInput { in_Op : Z; in_Key : string; in_Value : string }.
Record KvOutput := mkKvOutput { out_Value : string }.
Abbreviation KvOperation := (Operation KvInput KvOutput).

Definition op_key (x : KvOperation) : string := in_Key (op_Input x).

(** sort.Strings *)
Definition string_le (a b : string) : Prop := String.leb a b = true.
#[export] Instance string_le_dec : RelDecision string_le.
Proof. intros a b. unfold string_le. apply _. Defined.

Definition group_by_key (history : list KvOperation) : gmap string (list KvOperation) :=
  foldl (fun m v => <[op_key v := default [] (m !! op_key v) ++ [v]]> m) ∅ history.

Definition kv_Partition (history : list KvOperation) : list (list KvOperation) :=
  let m := group_by_key history in
  let keys := merge_sort string_le (map_to_list m).*1 in
  (fun k => default [] (m !! k)) <$> keys.

Definition kv_Step (st : string) (inp : KvInput) (out : KvOutput) : bool * string :=
  if in_Op inp =? 0 then (bool_decide (out_Value out = st), st)
  else if in_Op inp =? 1 then (true, in_Value inp)
  else if in_Op inp =? 2 then (true, (st +:+ in_Value inp)%string)
  else (bool_decide (out_Value out = st), (st +:+ in_Value inp)%string).

Definition KvModel : @Model KvInput KvOutput string :=
  mkModel (Some kv_Partition) None ""%string kv_Step None.

(** * Partition *)

Lemma group_by_key_from (m : gmap string (list KvOperation)) history k :
  foldl (fun m v => <[op_key v := default [] (m !! op_key v) ++ [v]]> m) m history !! k =
  match filter (fun v => op_key v = k) history with
  | [] => m !! k
  | vs => Some (default [] (m !! k) ++ vs)
  end.
Proof.
  revert m. induction history as [|v history IH]; intros m; [done|]. simpl. rewrite IH.
  destruct (decide (op_key v = k)) as [<-|Hne].
  - rewrite filter_cons_True, lookup_insert_eq by done. simpl.
    case_match; [done|by rewrite <- app_assoc].
  - rewrite filter_cons_False, lookup_insert_ne by done. done.
Qed.

Lemma group_by_key_lookup history k :
  group_by_key history !! k =
  match filter (fun v => op_key v = k) history with [] => None | vs => Some vs end.
Proof. unfold group_by_key. rewrite group_by_key_from, lookup_empty. by case_match. Qed.

(** The partitions are the operations of each key, in order. *)
Lemma kv_Partition_elem history p :
  p ∈ kv_Partition history <-> p <> [] /\ exists k, p = filter (fun v => op_key v = k) history.
Proof.
  unfold kv_Partition. rewrite list_elem_of_fmap. setoid_rewrite merge_sort_Permutation.
  assert (forall k, k ∈ (map_to_list (group_by_key history)).*1 <->
    filter (fun v => op_key v = k) history <> []) as Hk.
  { intros k. rewrite list_elem_of_fmap. split.
    - intros ([k' vs] & -> & Hin%elem_of_map_to_list). rewrite group_by_key_lookup in Hin. simpl.
      by destruct (filter _ history).
    - intros Hne. exists (k, filter (fun v => op_key v = k) history). split; [done|].
      apply elem_of_map_to_list. rewrite group_by_key_lookup. by destruct (filter _ history). }
  setoid_rewrite Hk. split.
  - intros (k & -> & Hne). rewrite group_by_key_lookup. destruct (filter _ history) eqn:E; [done|].
    split; [done|]. by exists k.
  - intros [Hne [k ->]]. exists k. rewrite group_by_key_lookup.
    split; [|done]. by destruct (filter _ history).
Qed.

(** * Locality *)

Section locality.
Context {In Out St K : Type} `{Countable K}.
Context (key : In -> K) (model_step : St -> In -> Out -> bool * St) (init : St).
Abbreviation Operation := (Operation In Out).
Implicit Types (m : gmap K St) (history seq : list Operation).

Definition value_of m (k : K) : St := default init (m !! k).

(** The whole store, one component per key. *)
Definition store_step m (inp : In) (out : Out) : bool * gmap K St :=
  let '(ok, s) := model_step (value_of m (key inp)) inp out in (ok, <[key inp := s]> m).

Definition of_key (k : K) history : list Operation := filter (fun x => key (op_Input x) = k) history.

Definition ordered seq : Prop :=
  forall l1 x l2 y l3, seq = l1 ++ x :: l2 ++ y :: l3 -> op_Call x <= op_Return y.

Lemma ordered_cons x seq : ordered (x :: seq) <-> (forall y, y ∈ seq -> op_Call x <= op_Return y) /\ ordered seq.
Proof.
  split.
  - intros Ho. split.
    + intros y (l2 & l3 & ->)%list_elem_of_split. by apply (Ho [] x l2 y l3).
    + intros l1 a l2 b l3 ->. by apply (Ho (x :: l1) a l2 b l3).
  - intros [H1 H2] [|a l1] b l2 c l3 [= -> ->]; [apply H1; set_solver|by eapply H2].
Qed.

Lemma ordered_filter (P : Operation -> Prop) `{!forall x, Decision (P x)} seq :
  ordered seq -> ordered (filter P seq).
Proof.
  induction seq as [|x seq IH]; [done|]. intros [H1 H2]%ordered_cons. rewrite filter_cons.
  case_decide; [|by apply IH]. apply ordered_cons. split; [|by apply IH].
  intros y [_ Hy]%list_elem_of_filter. by apply H1.
Qed.

Lemma value_insert m k s k' : value_of (<[k := s]> m) k' = if decide (k' = k) then s else value_of m k'.
Proof.
  unfold value_of. case_decide as E; [by rewrite E, lookup_insert_eq|by rewrite lookup_insert_ne].
Qed.

Lemma op_legal_of_key k m seq :
  op_legal store_step m seq -> op_legal model_step (value_of m k) (of_key k seq).
Proof.
  revert m. induction seq as [|x seq IH]; intros m; [done|]. simpl. unfold store_step.
  destruct (model_step _ _ _) as [ok s] eqn:Es. intros (m' & [= -> <-] & Hl).
  apply IH in Hl. rewrite value_insert in Hl. unfold of_key in *. rewrite filter_cons.
  case_decide as E1; case_decide as E2; try congruence. simpl. exists s. split; [congruence|done].
Qed.

(** The operation that returned first. *)
Lemma first_return history :
  history <> [] -> exists y, y ∈ history /\ forall z, z ∈ history -> op_Return y <= op_Return z.
Proof.
  induction history as [|x history IH]; [done|]. intros _. destruct history as [|x' history].
  - exists x. split; [by left|]. intros z ->%list_elem_of_singleton. lia.
  - destruct IH as (y & Hy & Hmin); [done|]. destruct (decide (op_Return x <= op_Return y)).
    + exists x. split; [by left|]. intros z [->|Hz]%elem_of_cons; [lia|]. specialize (Hmin z Hz). lia.
    + exists y. split; [by right|]. intros z [->|Hz]%elem_of_cons; [lia|]. by apply Hmin.
Qed.

Lemma locality_store history m :
  Forall (fun x => op_Call x <= op_Return x) history ->
  (forall k, op_linearizable model_step (value_of m k) (of_key k history)) ->
  op_linearizable store_step m history.
Proof.
  remember (length history) as n eqn:Hn. revert history m Hn.
  induction n as [|n IH]; intros history m Hn Hcalls Hkeys.
  { destruct history; [|done]. exists []. split_and!; [done|done|]. by intros []. }
  destruct (first_return history) as (y & Hy & Hmin); [by intros ->|].
  set (k := key (op_Input y)). destruct (Hkeys k) as (seq & Hseq & Hlegal & Hord).
  assert (y ∈ seq) as Hys by (rewrite Hseq; by apply list_elem_of_filter).
  destruct seq as [|h t]; [by apply elem_of_nil in Hys|].
  assert (h ∈ of_key k history) as [Hhk Hh]%list_elem_of_filter by (rewrite <- Hseq; by left).
  apply ordered_cons in Hord as [Hfirst Hord].
  assert (op_Call h <= op_Return y) as Hhy.
  { apply elem_of_cons in Hys as [<-|Hys]; [|by apply Hfirst].
    rewrite Forall_forall in Hcalls. by apply Hcalls. }
  apply elem_of_Permutation in Hh as [rest Hrest].
  destruct Hlegal as (s' & Hs & Hlegal).
  rewrite Hrest in Hcalls. apply Forall_cons in Hcalls as [Hch Hcr].
  destruct (IH rest (<[k := s']> m)) as (seq' & H1 & H2 & H3); [|done| |].
  { rewrite Hrest in Hn. simpl in Hn. lia. }
  - intros k'. rewrite value_insert. unfold of_key in *. case_decide as E.
    + subst k'. exists t. split_and!; [|done|done]. rewrite Hrest, filter_cons_True in Hseq by done.
      by apply Permutation_cons_inv in Hseq.
    + destruct (Hkeys k') as (q & Hq & Hq'). exists q. split; [|done].
      rewrite Hq, Hrest, filter_cons_False; [done|congruence].
  - exists (h :: seq'). split_and!; [by rewrite H1, Hrest| |].
    + exists (<[k := s']> m). split; [|done]. unfold store_step. by rewrite Hhk, Hs.
    + apply ordered_cons. split; [|done]. intros z Hz. rewrite H1 in Hz.
      specialize (Hmin z). rewrite Hrest in Hmin. specialize (Hmin (list_elem_of_further _ _ _ Hz)). lia.
Qed.

Lemma locality_keys history m k :
  op_linearizable store_step m history -> op_linearizable model_step (value_of m k) (of_key k history).
Proof.
  intros (seq & H1 & H2 & H3). exists (of_key k seq).
  split_and!; [unfold of_key; by rewrite H1|by apply op_legal_of_key|by apply ordered_filter].
Qed.
End locality.
