(* ===== verification/CheckerTheorems.v ===== *)
(** The theorems about the linearizability checker. *)

From stdpp Require Import sorting.
From S2P Require Import Prelude Bitset Checker CheckerSpec CheckerProof CheckerOps KvModel.

(** * The loop of checkParallel *)

Section receive.
Context (n : nat) (computeInfo : bool) (timeout : Z) (result : nat -> option bool) (good : nat -> Prop).
Context (Hresult : forall i, (i < n)%nat -> exists b, result i = Some b /\ (b = true <-> good i)).
Implicit Types (seen : list nat) (sched : list select).

(** The partitions received so far and those of the schedule. *)
Definition plan seen sched : Prop :=
  NoDup ((Recv <$> seen) ++ sched) /\ forall i, Recv i ∈ (Recv <$> seen) ++ sched -> (i < n)%nat.

Lemma plan_next seen i sched : plan seen (Recv i :: sched) -> plan (seen ++ [i]) sched.
Proof. unfold plan. rewrite fmap_app, <- app_assoc. done. Qed.

Lemma plan_seen seen sched : plan seen sched -> NoDup seen /\ forall i, i ∈ seen -> (i < n)%nat.
Proof.
  intros [Hnd Hlt]. apply NoDup_app in Hnd as [Hnd _]. split; [by apply NoDup_fmap_1 in Hnd|].
  intros i Hi. apply Hlt, elem_of_app. left. by apply list_elem_of_fmap_2.
Qed.

(** As many different partitions as there are: all of them. *)
Lemma seen_all seen sched i : plan seen sched -> (n <= length seen)%nat -> (i < n)%nat -> i ∈ seen.
Proof.
  intros [Hnd Hlt]%plan_seen Hlen Hi.
  assert (seen ≡ₚ seq 0 n) as ->; [|apply elem_of_seq; lia].
  apply submseteq_length_Permutation; [|by rewrite length_seq].
  apply NoDup_submseteq; [done|]. intros x Hx. apply elem_of_seq. specialize (Hlt x Hx). lia.
Qed.

(** [ok] tells whether everything received was good. *)
Definition ok_says seen (ok : bool) : Prop :=
  if ok then forall i, i ∈ seen -> good i else exists i, (i < n)%nat /\ ~ good i.

Lemma ok_says_next seen ok i b :
  (i < n)%nat -> (b = true <-> good i) -> ok_says seen ok -> ok_says (seen ++ [i]) (ok && b).
Proof.
  intros Hi Hb Hok. destruct ok; [|done]. destruct b; simpl in *.
  - intros j [Hj|Hj]%elem_of_app; [by apply Hok|]. apply list_elem_of_singleton in Hj as ->. by apply Hb.
  - exists i. split; [done|]. intros Hg. by apply Hb in Hg.
Qed.

Lemma receive_sound seen sched ok r :
  plan seen sched -> ok_says seen ok ->
  receive n computeInfo timeout result sched (length seen) ok = Some r ->
  (r = (true, false) -> forall i, (i < n)%nat -> good i) /\
  (r.1 = false -> exists i, (i < n)%nat /\ ~ good i) /\
  (r.2 = true -> Expired ∈ sched).
Proof.
  revert seen ok. induction sched as [|[i|] sched IH]; intros seen ok Hplan Hok; simpl; [done|..].
  - assert (i < n)%nat as Hi. { apply Hplan. rewrite elem_of_app, elem_of_cons. auto. }
    destruct (Hresult i Hi) as (b & -> & Hb). apply (ok_says_next _ _ _ _ Hi Hb) in Hok.
    apply plan_next in Hplan.
    replace (S (length seen)) with (length (seen ++ [i])) by (rewrite length_app; simpl; lia).
    destruct (ok && b) eqn:Eok, computeInfo; simpl.
    4: intros [= <-]; split_and!; done.
    all: destruct (Nat.leb_spec n (length (seen ++ [i]))) as [Hn|Hn].
    all: try (intros [= <-]; split_and!; [|done|done]; done ||
      intros _ j Hj; apply Hok; by eapply seen_all).
    all: intros Hr; destruct (IH _ _ Hplan Hok Hr) as (H1 & H2 & H3); split_and!; [done|done|].
    all: intros; right; auto.
  - destruct (timeout >? 0); [|done]. intros [= <-]. split_and!; [done| |by left]. simpl. by intros ->.
Qed.

(** With every partition in the schedule and no timeout the loop ends. *)
Lemma receive_ends seen sched ok :
  plan seen sched -> (forall i, (i < n)%nat -> Recv i ∈ (Recv <$> seen) ++ sched) ->
  Expired ∉ sched -> (length seen < n)%nat ->
  is_Some (receive n computeInfo timeout result sched (length seen) ok).
Proof.
  revert seen ok. induction sched as [|[i|] sched IH]; intros seen ok Hplan Hall Hexp Hlt; simpl.
  - exfalso. assert (seq 0 n ⊆+ seen) as Hsub%submseteq_length; [|rewrite length_seq in Hsub; lia].
    apply NoDup_submseteq; [apply NoDup_seq|]. intros i Hi. apply elem_of_seq in Hi.
    assert (Recv i ∈ (Recv <$> seen) ++ []) as Hr by (apply Hall; lia).
    rewrite app_nil_r in Hr. apply list_elem_of_fmap in Hr as (j & [= ->] & Hj). done.
  - destruct (Hresult i) as (b & -> & Hb). { apply Hplan. rewrite elem_of_app, elem_of_cons. auto. }
    case_bool; [by eexists|]. destruct (Nat.leb_spec n (S (length seen))); [by eexists|].
    replace (S (length seen)) with (length (seen ++ [i])) by (rewrite length_app; simpl; lia).
    apply IH; [by apply plan_next| |set_solver|rewrite length_app; simpl; lia].
    intros j Hj. specialize (Hall j Hj). rewrite fmap_app, <- app_assoc. done.
  - set_solver.
Qed.
End receive.

(** * checkOperations *)

Section operations.
Context {In Out St : Type} `{!EqDecision St}.
Context (sort : list (entry In Out) -> list (entry In Out)) (Hsort : sorts sort).
Context (model : @Model In Out St) (verbose : bool) (timeout : Z) (fuel : nat).
Context (Hequal : forall equal s1 s2, Equal model = Some equal -> equal s1 s2 = true -> s1 = s2).

(** The operations of a partition return after they are called, and the fuel is
    enough for it. *)
Definition checkable (p : list (Operation In Out)) : Prop :=
  Forall (fun x => op_Call x <= op_Return x) p /\ (cost (2 * length p) (2 * length p) <= fuel)%nat.

Lemma equal_sound s1 s2 : default ShallowEqual (Equal model) s1 s2 = true -> s1 = s2.
Proof.
  destruct (Equal model) as [equal|] eqn:E; simpl; [by apply Hequal|]. apply bool_decide_eq_true.
Qed.

Lemma goroutine_entries (l : list (list (entry In Out))) i es p :
  l !! i = Some es -> es ≡ₚ op_entries 0 p -> sorted_by_time es -> checkable p ->
  exists b, goroutine (fillDefault model) (default ShallowEqual (Equal model)) l verbose fuel i = Some b /\
    (b = true <-> op_linearizable (Step model) (Init model) p).
Proof.
  intros Hl Hperm Hs [Hc Hf]. unfold goroutine. rewrite Hl. simpl.
  destruct (checkSingle_run (Step model) (default ShallowEqual (Equal model)) (Init model)
    es verbose (fun _ => false) fuel equal_sound) as (r & c & -> & _ & Hr).
  - by eapply nodes_well_formed.
  - by eapply nodes_ids.
  - destruct Hr as (b & -> & Hb); [|done|].
    + unfold enough. by erewrite nodes_length.
    + exists b. split; [done|]. rewrite Hb. by eapply linearizable_nodes.
Qed.

(** The answer of checkParallel when partition [i] tells whether [good i]. *)
Lemma checkParallel_run (l : list (list (entry In Out))) (good : nat -> Prop) sched :
  (forall i, (i < length l)%nat -> exists b,
     goroutine (fillDefault model) (default ShallowEqual (Equal model)) l verbose fuel i = Some b /\ (b = true <-> good i)) ->
  NoDup sched -> (forall i, Recv i ∈ sched -> (i < length l)%nat) ->
  (forall r, checkParallel (fillDefault model) (default ShallowEqual (Equal model)) l verbose timeout sched fuel = Some r ->
     (r = Ok -> forall i, (i < length l)%nat -> good i) /\
     (r = Illegal -> ~ forall i, (i < length l)%nat -> good i) /\
     (r = Unknown -> Expired ∈ sched)) /\
  (l <> [] -> (forall i, (i < length l)%nat -> Recv i ∈ sched) -> Expired ∉ sched ->
   is_Some (checkParallel (fillDefault model) (default ShallowEqual (Equal model)) l verbose timeout sched fuel)).
Proof.
  intros Hres Hnodup Hrange. unfold checkParallel. assert (plan (length l) [] sched) as Hplan by done. split.
  - intros r. destruct (receive _ _ _ _ _ _ _) as [[ok to]|] eqn:E; [|done]. intros [= <-].
    eapply (receive_sound _ _ _ _ _ Hres [] sched true) in E as (H1 & H2 & H3);
      [|done|by intros i Hi%elem_of_nil].
    destruct ok, to; simpl in *; split_and!; try done; auto.
    all: intros _ Hall; destruct H2 as (i & Hi & Hbad); [done|]; by apply Hbad, Hall.
  - intros Hne Hall Hexp.
    destruct (receive_ends _ verbose timeout _ _ Hres [] sched true) as [[ok to] E]; try done.
    { destruct l; [done|simpl; lia]. }
    simpl in E. rewrite E. by eexists.
Qed.

(** All partitions are linearizable. *)
Lemma all_parts (parts : list (list (Operation In Out))) :
  (forall i, (i < length parts)%nat -> exists p, parts !! i = Some p /\ op_linearizable (Step model) (Init model) p)
  <-> Forall (op_linearizable (Step model) (Init model)) parts.
Proof.
  rewrite Forall_lookup. split.
  - intros H i p Hp. destruct (H i) as (p' & Hp' & Hl); [by eapply lookup_lt_Some|]. by simplify_eq.
  - intros H i [p Hp]%lookup_lt_is_Some. eauto.
Qed.

Context (history : list (Operation In Out)).
Let parts := default NoPartition (Partition model) history.
Context (Hparts : Forall checkable parts) (sched : list select).
Context (Hnodup : NoDup sched) (Hrange : forall i, Recv i ∈ sched -> (i < length parts)%nat).

Lemma parts_results i :
  (i < length (makeEntries sort <$> parts))%nat ->
  exists b, goroutine (fillDefault model) (default ShallowEqual (Equal model)) (makeEntries sort <$> parts)
      verbose fuel i = Some b /\
    (b = true <-> exists p, parts !! i = Some p /\ op_linearizable (Step model) (Init model) p).
Proof.
  rewrite length_fmap. intros [p Hp]%lookup_lt_is_Some. pose proof (Forall_lookup_1 _ _ _ _ Hparts Hp) as Hc.
  destruct (Hsort (op_entries 0 p)) as [Hperm Hs].
  destruct (goroutine_entries (makeEntries sort <$> parts) i (makeEntries sort p) p) as (b & Hb & Hiff); [|done..|].
  { by rewrite list_lookup_fmap, Hp. }
  exists b. split; [done|]. rewrite Hiff. split; [by exists p|]. rewrite Hp. by intros (p' & [= <-] & ?).
Qed.

Lemma checkOperations_run :
  (forall r, checkOperations sort model history verbose timeout sched fuel = Some r ->
     (r = Ok -> Forall (op_linearizable (Step model) (Init model)) parts) /\
     (r = Illegal -> ~ Forall (op_linearizable (Step model) (Init model)) parts) /\
     (r = Unknown -> Expired ∈ sched)) /\
  (parts <> [] -> (forall i, (i < length parts)%nat -> Recv i ∈ sched) -> Expired ∉ sched ->
   is_Some (checkOperations sort model history verbose timeout sched fuel)).
Proof.
  assert (length (makeEntries sort <$> parts) = length parts) as El by apply length_fmap.
  destruct (checkParallel_run (makeEntries sort <$> parts) _ sched parts_results Hnodup) as [H1 H2]; [by rewrite El|].
  rewrite El in H1, H2. split; [intros r; rewrite <- all_parts; exact (H1 r)|].
  intros Hne. apply H2. by destruct parts.
Qed.
End operations.

(** C13: checkOperations decides linearizability, whatever the order in which the
    results of the partitions arrive: Ok means every partition is linearizable,
    Illegal that one is not, and Unknown that the timeout expired; once the
    result of every partition is there, it returns.  [sort] is sort.Sort; the
    operations must return after they are called and a model's own Equal must
    not identify different states. *)
Theorem checkOperations_decides {In Out St} `{!EqDecision St} (sort : list (entry In Out) -> list (entry In Out))
    (model : @Model In Out St) verbose timeout fuel history sched :
  let parts := default NoPartition (Partition model) history in
  sorts sort -> (forall equal s1 s2, Equal model = Some equal -> equal s1 s2 = true -> s1 = s2) ->
  Forall (checkable fuel) parts ->
  NoDup sched -> (forall i, Recv i ∈ sched -> (i < length parts)%nat) ->
  (forall r, checkOperations sort model history verbose timeout sched fuel = Some r ->
     (r = Ok -> Forall (op_linearizable (Step model) (Init model)) parts) /\
     (r = Illegal -> ~ Forall (op_linearizable (Step model) (Init model)) parts) /\
     (r = Unknown -> Expired ∈ sched)) /\
  (parts <> [] -> (forall i, (i < length parts)%nat -> Recv i ∈ sched) -> Expired ∉ sched ->
   is_Some (checkOperations sort model history verbose timeout sched fuel)).
Proof. intros parts Hs He Hp Hn Hr. by apply checkOperations_run. Qed.

(** The answer for a history of the store. *)
Lemma kv_history_run (sort : list (entry KvInput KvOutput) -> list (entry KvInput KvOutput))
    history verbose timeout sched fuel :
  sorts sort -> history <> [] -> Forall (fun x => op_Call x <= op_Return x) history ->
  Forall (fun p => cost (2 * length p) (2 * length p) <= fuel)%nat (kv_Partition history) ->
  NoDup sched -> Expired ∉ sched ->
  (forall i, Recv i ∈ sched <-> (i < length (kv_Partition history))%nat) ->
  exists r, checkOperations sort KvModel history verbose timeout sched fuel = Some r /\ r <> Unknown /\
    (r = Ok <-> op_linearizable (store_step in_Key kv_Step "") ∅ history).
Proof.
  intros Hs Hne Hcalls Hfuel Hnd Hexp Hall.
  assert (Forall (checkable fuel) (kv_Partition history)) as Hc.
  { apply Forall_forall. intros p Hp. rewrite Forall_forall in Hfuel. split; [|by apply Hfuel].
    apply kv_Partition_elem in Hp as [_ [k ->]].
    rewrite Forall_forall in Hcalls |- *. intros x [_ Hx]%list_elem_of_filter. by apply Hcalls. }
  destruct (checkOperations_run sort Hs KvModel verbose timeout fuel ltac:(done) history Hc sched Hnd)
    as [H1 H2]; [intros; by apply Hall|].
  destruct H2 as [r Hr]; [|intros; by apply Hall|done|].
  { destruct history as [|x history]; [done|]. simpl. intros E.
    eapply (not_elem_of_nil (filter (fun v => op_key v = op_key x) (x :: history))).
    rewrite <- E. apply kv_Partition_elem. split; [by rewrite filter_cons_True|by eexists]. }
  exists r. split; [done|]. destruct (H1 r Hr) as (Hok & Hill & Hunk).
  assert (Forall (op_linearizable kv_Step "") (kv_Partition history) <->
    op_linearizable (store_step in_Key kv_Step "") ∅ history) as Hlocal.
  { rewrite Forall_forall. split.
    - intros H. apply (locality_store in_Key); [done|]. intros k. unfold value_of. rewrite lookup_empty. simpl.
      destruct (decide (of_key in_Key k history = [])) as [->|Hk].
      + exists []. split_and!; [done|done|]. by intros [].
      + apply H, kv_Partition_elem. split; [done|]. by exists k.
    - intros H p [_ [k ->]]%kv_Partition_elem. by apply (locality_keys in_Key _ _ _ _ k) in H. }
  rewrite <- Hlocal. destruct r; split; try done; tauto.
Qed.

(** C12: Checking a history against KvModel, which describes one key and splits
    the history by key, tells whether the history of the whole store is
    linearizable: the answer is Ok or Illegal once the result of every key is
    there, and it is Ok exactly when there is a legal order of all operations
    on a store that starts empty. *)
Theorem kv_history_checked (sort : list (entry KvInput KvOutput) -> list (entry KvInput KvOutput))
    history verbose timeout sched fuel :
  sorts sort -> history <> [] -> Forall (fun x => op_Call x <= op_Return x) history ->
  Forall (fun p => cost (2 * length p) (2 * length p) <= fuel)%nat (kv_Partition history) ->
  NoDup sched -> Expired ∉ sched ->
  (forall i, Recv i ∈ sched <-> (i < length (kv_Partition history))%nat) ->
  exists r, checkOperations sort KvModel history verbose timeout sched fuel = Some r /\ r <> Unknown /\
    (r = Ok <-> op_linearizable (store_step in_Key kv_Step "") ∅ history).
Proof. apply kv_history_run. Qed.

(** A history with no operations is never checked: KvModel splits it into no
    partitions, and checkParallel waits for a first result that nobody sends,
    for ever without a timeout and for Unknown with one, although the empty
    history is linearizable. *)
Theorem empty_history_never_checked (sort : list (entry KvInput KvOutput) -> list (entry KvInput KvOutput))
    verbose timeout sched fuel :
  checkOperations sort KvModel [] verbose timeout sched fuel =
    match sched with
    | Expired :: _ => if timeout >? 0 then Some Unknown else None
    | _ => None
    end /\
  op_linearizable kv_Step "" ([] : list KvOperation).
Proof.
  split; [|exists []; split_and!; [done|done|by intros []]].
  unfold checkOperations, checkParallel. simpl. destruct sched as [|[i|] sched]; [done|done|].
  simpl. by destruct (timeout >? 0).
Qed.

(** * Instances *)

(** A sort that does what sort.Sort promises. *)
Section time_sort.
Context {In Out : Type}.
Implicit Types a b : entry In Out.

Definition not_after a b : Prop := byTime_Less b a = false.
#[export] Instance not_after_dec : RelDecision not_after.
Proof. intros a b. unfold not_after. apply _. Defined.

Lemma not_after_spec a b :
  not_after a b <-> e_time a < e_time b \/ (e_time a = e_time b /\ (is_call b = true -> is_call a = true)).
Proof.
  unfold not_after, byTime_Less. destruct (Z.eqb_spec (e_time b) (e_time a)) as [E|E]; simpl.
  - destruct (is_call a), (is_call b); simpl; split; auto with lia; intros [?|[? H]]; try lia; done.
  - rewrite Z.ltb_ge. lia.
Qed.
#[export] Instance not_after_total : Total not_after.
Proof.
  intros a b. rewrite !not_after_spec. destruct (Z.lt_trichotomy (e_time a) (e_time b)) as [?|[?|?]]; auto.
  destruct (is_call a), (is_call b); auto with lia.
Qed.
#[export] Instance not_after_trans : Transitive not_after.
Proof.
  intros a b c. rewrite !not_after_spec. intros [?|[? ?]] [?|[? ?]]; [lia..|]. right. split; [lia|auto].
Qed.

Definition time_sort : list (entry In Out) -> list (entry In Out) := merge_sort not_after.

Lemma StronglySorted_by_time es : StronglySorted not_after es -> sorted_by_time es.
Proof.
  induction 1 as [|a es _ IH Ha]; intros l1 x l2 y l3 E; [by destruct l1|].
  destruct l1 as [|z l1]; simpl in E; injection E as -> ->; [|by eapply IH].
  rewrite Forall_forall in Ha. apply Ha. set_solver.
Qed.

Lemma time_sort_sorts : sorts time_sort.
Proof.
  intros es. split; [apply merge_sort_Permutation|].
  apply StronglySorted_by_time, (StronglySorted_merge_sort not_after).
Qed.
End time_sort.

Definition kv_put (k v : string) (call return_ : Z) : KvOperation :=
  mkOperation 0 (mkKvInput 1 k v) call (mkKvOutput "") return_.
Definition kv_get (k v : string) (call return_ : Z) : KvOperation :=
  mkOperation 1 (mkKvInput 0 k "") call (mkKvOutput v) return_.

(** A get that overlaps a put and sees it, and a get of another key. *)
Definition good_history : list KvOperation :=
  [kv_put "x" "a" 0 2; kv_get "x" "a" 1 3; kv_get "y" "" 4 5].
(** A get after a put that does not see it. *)
Definition bad_history : list KvOperation := [kv_put "x" "a" 0 2; kv_get "x" "" 3 4].

Lemma checkOperations_decides_witness :
  checkOperations time_sort KvModel bad_history false 0 [Recv 0] 100 = Some Illegal /\
  ~ Forall (op_linearizable kv_Step "") (kv_Partition bad_history).
Proof.
  split; [vm_compute; reflexivity|].
  refine (proj1 (proj2 (proj1 (checkOperations_decides time_sort KvModel false 0 100 bad_history [Recv 0]
    time_sort_sorts _ _ _ _) Illegal _)) _).
  - intros equal s1 s2 E. discriminate E.
  - vm_compute. repeat constructor; vm_compute; try discriminate; repeat constructor.
  - repeat constructor. apply not_elem_of_nil.
  - intros i Hi. apply list_elem_of_singleton in Hi. injection Hi as ->. vm_compute. constructor.
  - vm_compute. reflexivity.
  - reflexivity.
Defined.

Lemma kv_history_checked_witness :
  checkOperations time_sort KvModel good_history true 10 [Recv 1; Recv 0] 100 = Some Ok /\
  op_linearizable (store_step in_Key kv_Step "") ∅ good_history.
Proof.
  split; [vm_compute; reflexivity|].
  destruct (kv_history_checked time_sort good_history true 10 [Recv 1; Recv 0] 100 time_sort_sorts)
    as (r & Hr & _ & Hiff).
  - discriminate.
  - repeat constructor; vm_compute; discriminate.
  - vm_compute. repeat constructor.
  - apply NoDup_cons. split; [intros H; apply list_elem_of_singleton in H; discriminate H|].
    apply NoDup_singleton.
  - intros H. apply elem_of_cons in H as [H|H]; [discriminate H|].
    apply list_elem_of_singleton in H. discriminate H.
  - intros i. vm_compute (length _). rewrite elem_of_cons, list_elem_of_singleton. split.
    + intros [H|H]; injection H as ->; lia.
    + intros H. destruct i as [|[|i]]; [by right|by left|lia].
  - apply Hiff. assert (Some r = Some Ok) as E; [|injection E as ->; reflexivity].
    rewrite <- Hr. vm_compute. reflexivity.
Defined.
