(* ===== verification/CheckerEvents.v ===== *)
(** Checking histories of events (porcupine/checker.go: checkEvents, renumber,
    convertEntries; porcupine/porcupine.go: the entry points).

    A history of events is the record of the operations whose calls and returns it
    has, at the times that are their places in the history. *)

From S2P Require Import Prelude Bitset Checker CheckerSpec CheckerProof CheckerOps KvModel CheckerTheorems.

Section events.
Context {In Out : Type}.
Abbreviation Operation := (Operation In Out).
Abbreviation Event := (Event In Out).
Abbreviation entry := (entry In Out).
Implicit Types (p : list Event) (m : gmap Z Z).

(** The return of a call: its time and its value. *)
Fixpoint find_return (i id : Z) p : option (Z * Out) :=
  match p with
  | [] => None
  | ReturnEvent c y id' :: p => if id' =? id then Some (i, y) else find_return (i + 1) id p
  | CallEvent _ _ _ :: p => find_return (i + 1) id p
  end.

(** The operations of a history, in the order of their calls. *)
Fixpoint operations_of (i : Z) p : list Operation :=
  match p with
  | [] => []
  | CallEvent c x id :: p =>
      match find_return (i + 1) id p with
      | Some (t, y) => mkOperation c x i y t :: operations_of (i + 1) p
      | None => operations_of (i + 1) p
      end
  | ReturnEvent _ _ _ :: p => operations_of (i + 1) p
  end.

(** Every id is that of one call and its return, by the same client. *)
Definition complete p : Prop :=
  forall id, filter (fun e => ev_Id e = id) p = [] \/
    exists c x y, filter (fun e => ev_Id e = id) p = [CallEvent c x id; ReturnEvent c y id].

(** The same from the middle of a history on, where [m] has the ids seen. *)
Definition complete_from p m : Prop :=
  forall id, filter (fun e => ev_Id e = id) p = [] \/
    match m !! id with
    | Some _ => exists c y, filter (fun e => ev_Id e = id) p = [ReturnEvent c y id]
    | None => exists c x y, filter (fun e => ev_Id e = id) p = [CallEvent c x id; ReturnEvent c y id]
    end.

(** The returns of calls that were made before. *)
Fixpoint pending (i : Z) p m : list entry :=
  match p with
  | [] => []
  | ReturnEvent c y id :: p =>
      match m !! id with
      | Some r => returnEntry y r i c :: pending (i + 1) p m
      | None => pending (i + 1) p m
      end
  | CallEvent _ _ _ :: p => pending (i + 1) p m
  end.

Lemma of_id_cons e p id :
  filter (fun e => ev_Id e = id) (e :: p) =
    if decide (ev_Id e = id) then e :: filter (fun e => ev_Id e = id) p else filter (fun e => ev_Id e = id) p.
Proof. by rewrite filter_cons. Qed.

Lemma pending_other i p m id n :
  filter (fun e => ev_Id e = id) p = [] -> pending i p (<[id := n]> m) = pending i p m.
Proof.
  revert i. induction p as [|e p IH]; intros i H; [done|]. rewrite of_id_cons in H.
  destruct (decide (ev_Id e = id)) as [|Hne]; [done|]. destruct e as [c x id'|c y id']; simpl in *; [auto|].
  rewrite lookup_insert_ne by done. destruct (m !! id'); [f_equal|]; auto.
Qed.

(** A call that was just made waits for its return. *)
Lemma pending_call i p m id n c y :
  m !! id = None -> filter (fun e => ev_Id e = id) p = [ReturnEvent c y id] ->
  exists t, i <= t /\ find_return i id p = Some (t, y) /\
    pending i p (<[id := n]> m) ≡ₚ returnEntry y n t c :: pending i p m.
Proof.
  intros Hm. revert i. induction p as [|e p IH]; intros i H; [done|]. rewrite of_id_cons in H.
  destruct (decide (ev_Id e = id)) as [He|Hne].
  - injection H as -> H. exists i. split; [lia|]. simpl. rewrite Z.eqb_refl, lookup_insert_eq, Hm.
    split; [done|]. by rewrite pending_other.
  - destruct (IH (i + 1) H) as (t & Ht & Hf & Hp). exists t. split; [lia|]. destruct e as [c' x id'|c' y' id']; simpl in *.
    + by split.
    + destruct (Z.eqb_spec id' id); [done|]. split; [done|]. rewrite lookup_insert_ne by done.
      destruct (m !! id') as [r|]; [|done]. rewrite Hp. apply Permutation_swap.
Qed.

Lemma pending_none i p : pending i p ∅ = [].
Proof. revert i. induction p as [|[c x id|c y id] p IH]; intros i; simpl; [done|auto|]. by rewrite lookup_empty. Qed.

(** The entries of a history are those of its operations. *)
Lemma entries_of_events i p m n :
  complete_from p m ->
  convertEntries i (renumber p m n) ≡ₚ op_entries n (operations_of i p) ++ pending i p m.
Proof.
  revert i m n. induction p as [|e p IH]; intros i m n Hc; [done|].
  pose proof (Hc (ev_Id e)) as He. rewrite of_id_cons, decide_True in He by done. destruct He as [He|He]; [done|].
  assert (forall id, id <> ev_Id e -> filter (fun e => ev_Id e = id) (e :: p) = filter (fun e => ev_Id e = id) p) as Hother.
  { intros id Hid. rewrite of_id_cons. by destruct (decide (ev_Id e = id)). }
  destruct e as [c x id|c y id]; simpl in He, Hother; cbn [renumber ev_Id].
  - destruct (m !! id) as [r|] eqn:Hm; [by destruct He as (? & ? & ?)|].
    destruct He as (c' & x' & y & [= <- <- He]).
    destruct (pending_call (i + 1) p m id n c y Hm He) as (t & _ & Hf & Hp).
    cbn [convertEntries operations_of pending]. rewrite Hf. cbn [op_entries op_Input op_Call op_ClientId op_Output op_Return].
    rewrite IH, Hp.
    + simpl. apply perm_skip. symmetry. apply Permutation_middle.
    + intros id'. destruct (decide (id' = id)) as [->|Hne].
      * right. rewrite lookup_insert_eq. by exists c, y.
      * rewrite lookup_insert_ne, <- (Hother id' Hne) by done. apply Hc.
  - destruct (m !! id) as [r|] eqn:Hm; [|by destruct He as (? & ? & ? & ?)].
    destruct He as (c' & y' & [= <- <- He]).
    cbn [convertEntries operations_of pending]. rewrite Hm, IH.
    + apply Permutation_middle.
    + intros id'. destruct (decide (id' = id)) as [->|Hne]; [by left|].
      rewrite <- (Hother id' Hne). apply Hc.
Qed.

(** Times are places. *)
Lemma convertEntries_time i p l1 a l2 :
  convertEntries i p = l1 ++ a :: l2 -> e_time a = i + lenZ l1.
Proof.
  revert i l1. induction p as [|[c x id|c y id] p IH]; intros i l1 E; [by destruct l1|..];
    (destruct l1 as [|b l1]; injection E as <- E; [simpl; lia|]; apply IH in E; simpl; lia).
Qed.

Lemma convertEntries_sorted i p : sorted_by_time (convertEntries i p).
Proof.
  intros l1 a l2 b l3 E. pose proof (convertEntries_time _ _ _ _ _ E) as Ha.
  assert (convertEntries i p = (l1 ++ a :: l2) ++ b :: l3) as E' by (rewrite E, <- app_assoc; done).
  pose proof (convertEntries_time _ _ _ _ _ E') as Hb. rewrite length_app in Hb. simpl in Hb.
  unfold byTime_Less. destruct (Z.eqb_spec (e_time b) (e_time a)); simpl; [lia|]. apply Z.ltb_ge. lia.
Qed.

Lemma find_return_later i id p t y : find_return i id p = Some (t, y) -> i <= t.
Proof.
  revert i. induction p as [|[c x id'|c y' id'] p IH]; intros i E; simpl in E; [done|apply IH in E; lia|].
  destruct (id' =? id); [by injection E as <- _; lia|]. apply IH in E. lia.
Qed.

Lemma operations_return i p : Forall (fun x => op_Call x <= op_Return x) (operations_of i p).
Proof.
  revert i. induction p as [|[c x id|c y id] p IH]; intros i; simpl; [constructor| |done].
  destruct (find_return (i + 1) id p) as [[t y]|] eqn:E; [|done]. constructor; [|done].
  apply find_return_later in E. simpl. lia.
Qed.
End events.

(** * The entry points *)

Section entry_points.
Context {In Out St : Type} `{!EqDecision St}.
Implicit Types (sort : list (entry In Out) -> list (entry In Out)) (model : @Model In Out St).

Definition is_Ok (r : CheckResult) : bool := match r with Ok => true | _ => false end.

Definition CheckOperations sort model history sched fuel : option bool :=
  is_Ok <$> checkOperations sort model history false 0 sched fuel.
Definition CheckOperationsTimeout sort model history timeout sched fuel : option CheckResult :=
  checkOperations sort model history false timeout sched fuel.
Definition CheckOperationsVerbose sort model history timeout sched fuel : option CheckResult :=
  checkOperations sort model history true timeout sched fuel.
Definition CheckEvents model history sched fuel : option bool :=
  is_Ok <$> checkEvents model history false 0 sched fuel.
Definition CheckEventsTimeout model history timeout sched fuel : option CheckResult :=
  checkEvents model history false timeout sched fuel.
Definition CheckEventsVerbose model history timeout sched fuel : option CheckResult :=
  checkEvents model history true timeout sched fuel.
End entry_points.

(** * checkEvents *)

Section check_events.
Context {In Out St : Type} `{!EqDecision St} (model : @Model In Out St) (verbose : bool) (timeout : Z) (fuel : nat).
Context (Hequal : forall equal s1 s2, Equal model = Some equal -> equal s1 s2 = true -> s1 = s2).

Lemma events_perm (p : list (Event In Out)) :
  complete p -> convertEntries 0 (renumber p ∅ 0) ≡ₚ op_entries 0 (operations_of 0 p).
Proof.
  intros Hc. rewrite entries_of_events, pending_none, app_nil_r; [done|].
  intros id. rewrite lookup_empty. destruct (Hc id); [by left|by right].
Qed.

Lemma convertEntries_length i (p : list (Event In Out)) m n : length (convertEntries i (renumber p m n)) = length p.
Proof.
  revert i m n. induction p as [|[c x id|c y id] p IH]; intros i m n; [done|..]; simpl; destruct (m !! id); simpl; by rewrite IH.
Qed.

Lemma operations_length (p : list (Event In Out)) : complete p -> length p = (2 * length (operations_of 0 p))%nat.
Proof. intros Hc. by rewrite <- (op_entries_length 0), <- (events_perm p Hc), convertEntries_length. Qed.

Context (history : list (Event In Out)) (sched : list select).
Let parts := default NoPartitionEvent (PartitionEvent model) history.
Context (Hparts : Forall complete parts) (Hfuel : Forall (fun p => cost (length p) (length p) <= fuel)%nat parts).
Context (Hnodup : NoDup sched) (Hrange : forall i, Recv i ∈ sched -> (i < length parts)%nat).

Lemma checkEvents_run :
  (forall r, checkEvents model history verbose timeout sched fuel = Some r ->
     (r = Ok -> Forall (fun p => op_linearizable (Step model) (Init model) (operations_of 0 p)) parts) /\
     (r = Illegal -> ~ Forall (fun p => op_linearizable (Step model) (Init model) (operations_of 0 p)) parts) /\
     (r = Unknown -> Expired ∈ sched)) /\
  (parts <> [] -> (forall i, (i < length parts)%nat -> Recv i ∈ sched) -> Expired ∉ sched ->
   is_Some (checkEvents model history verbose timeout sched fuel)).
Proof.
  set (l := (fun subhistory => convertEntries 0 (renumber subhistory ∅ 0)) <$> parts).
  assert (length l = length parts) as El by apply length_fmap.
  destruct (checkParallel_run model verbose timeout fuel l
    (fun i => exists p, (operations_of 0 <$> parts) !! i = Some p /\ op_linearizable (Step model) (Init model) p) sched)
    as [H1 H2].
  - intros i Hi. rewrite El in Hi. apply lookup_lt_is_Some in Hi as [p Hp].
    pose proof (Forall_lookup_1 _ _ _ _ Hparts Hp) as Hc. pose proof (Forall_lookup_1 _ _ _ _ Hfuel Hp) as Hf.
    rewrite list_lookup_fmap, Hp. simpl.
    destruct (goroutine_entries model verbose fuel Hequal l i (convertEntries 0 (renumber p ∅ 0)) (operations_of 0 p))
      as (b & Hb & Hiff); [|by apply events_perm|apply convertEntries_sorted| |].
    + unfold l. by rewrite list_lookup_fmap, Hp.
    + split; [apply operations_return|]. by rewrite <- operations_length.
    + exists b. split; [done|]. rewrite Hiff. split; [by eexists|]. by intros (p' & [= <-] & ?).
  - done.
  - by rewrite El.
  - rewrite El in H1, H2. pose proof (all_parts model (operations_of 0 <$> parts)) as Ha.
    rewrite length_fmap, Forall_fmap in Ha. split; [|intros Hne; apply H2; by destruct parts].
    intros r Hr. destruct (H1 r Hr) as (A & B & C). split; [intros E; by apply Ha, A|]. split; [|done].
    intros E F. apply (B E). by apply Ha.
Qed.
End check_events.

(** C35: CheckEvents decides linearizability of a history of events: when every id is
    that of one call and its return and all partitions are reported, it returns, and
    it returns true exactly when, in every partition, the operations that the events
    record can be ordered so that the model allows them and no operation comes
    before one that returned before it was called. *)
Theorem CheckEvents_decides {In Out St} `{!EqDecision St} (model : @Model In Out St) history sched fuel :
  let parts := default NoPartitionEvent (PartitionEvent model) history in
  (forall equal s1 s2, Equal model = Some equal -> equal s1 s2 = true -> s1 = s2) ->
  parts <> [] -> Forall complete parts -> Forall (fun p => cost (length p) (length p) <= fuel)%nat parts ->
  NoDup sched -> Expired ∉ sched -> (forall i, Recv i ∈ sched <-> (i < length parts)%nat) ->
  exists b, CheckEvents model history sched fuel = Some b /\
    (b = true <-> Forall (fun p => op_linearizable (Step model) (Init model) (operations_of 0 p)) parts).
Proof.
  intros parts He Hne Hp Hf Hn Hx Hall. unfold CheckEvents.
  destruct (checkEvents_run model false 0 fuel He history sched Hp Hf Hn) as [H1 H2]; [intros; by apply Hall|].
  destruct H2 as [r Hr]; [done|intros; by apply Hall|done|]. rewrite Hr. exists (is_Ok r). split; [done|].
  destruct (H1 r Hr) as (A & B & C). destruct r; simpl; split; try done; tauto.
Qed.

(** A put and a get that overlap: the get may see the put. *)
Definition overlapping : list (Event KvInput KvOutput) :=
  [CallEvent 0 (mkKvInput 1 "x" "a") 7; CallEvent 1 (mkKvInput 0 "x" "") 3;
   ReturnEvent 1 (mkKvOutput "a") 3; ReturnEvent 0 (mkKvOutput "") 7].
Definition one_key : @Model KvInput KvOutput string := mkModel None None ""%string kv_Step None.

Lemma overlapping_complete : complete overlapping.
Proof.
  intros id. destruct (decide (id = 7)) as [->|]; [right; by eexists _, _, _|].
  destruct (decide (id = 3)) as [->|]; [right; by eexists _, _, _|].
  left. unfold overlapping. rewrite !filter_cons_False by (simpl; lia). done.
Qed.

Lemma CheckEvents_decides_witness :
  CheckEvents one_key overlapping [Recv 0] 1000 = Some true /\
  op_linearizable kv_Step "" (operations_of 0 overlapping).
Proof.
  split; [vm_compute; reflexivity|].
  destruct (CheckEvents_decides one_key overlapping [Recv 0] 1000) as (b & Hb & Hiff).
  - intros equal s1 s2 E. discriminate E.
  - discriminate.
  - constructor; [apply overlapping_complete|constructor].
  - constructor; [vm_compute; repeat constructor|constructor].
  - apply NoDup_singleton.
  - intros H. apply list_elem_of_singleton in H. discriminate H.
  - intros i. simpl. rewrite list_elem_of_singleton. split; [intros H; injection H as ->; lia|].
    intros H. assert (i = 0%nat) as -> by lia. reflexivity.
  - assert (Some b = Some true) as E by (rewrite <- Hb; vm_compute; reflexivity).
    injection E as ->. apply proj1 in Hiff. specialize (Hiff eq_refl). by apply Forall_cons in Hiff as [H _].
Defined.
