(* ===== verification/LinkedList.v ===== *)
(** The entry list of the checker as the code has it (porcupine/checker.go): nodes
    in memory with next, prev and match pointers, and checkSingle on it.

    Memory is the list of the nodes allocated so far, an address is a position in
    it, nil is [None], and using nil as a node panics.  [longest] holds pointers to
    the sequences the search makes, as the code does: partial linearizations are
    told apart by address. *)

From S2P Require Import Prelude Bitset Checker.

Section pointers.
Context {In Out St : Type}.

(** * Nodes *)

(** [value] is an [interface{}]: nil, the argument of a call or the result. *)
Inductive pvalue : Type := VNil | VCall (v : In) | VReturn (o : Out).

Record pnode := mkPNode {
  p_value : pvalue; p_match : option nat; p_id : Z; p_next : option nat; p_prev : option nat }.

Abbreviation memory := (list pnode).

Definition with_next (q : option nat) (n : pnode) : pnode := mkPNode (p_value n) (p_match n) (p_id n) q (p_prev n).
Definition with_prev (q : option nat) (n : pnode) : pnode := mkPNode (p_value n) (p_match n) (p_id n) (p_next n) q.

Definition load (p : option nat) : M memory pnode :=
  h ← gets (fun h => h);
  match p ≫= (h !!.) with Some n => mret n | None => throw NilDereference end.

Definition set_next (p q : option nat) : M memory unit :=
  load p;; match p with Some a => modify (alter (with_next q) a) | None => mret tt end.
Definition set_prev (p q : option nat) : M memory unit :=
  load p;; match p with Some a => modify (alter (with_prev q) a) | None => mret tt end.

Definition alloc (n : pnode) : M memory nat :=
  h ← gets (fun h => h); modify (fun h => h ++ [n]);; mret (length h).

(** * The list *)

Definition insertBefore (n : nat) (mark : option nat) : M memory nat :=
  match mark with
  | None => mret n
  | Some _ =>
      m ← load mark;
      let beforeMark := p_prev m in
      set_prev mark (Some n);;
      set_next (Some n) mark;;
      match beforeMark with
      | None => mret n
      | Some _ =>
          set_prev (Some n) beforeMark;;
          set_next beforeMark (Some n);;
          mret n
      end
  end.

(** The loop of length, with what is left to walk. *)
Fixpoint length_from (fuel : nat) (n : option nat) (l : Z) : M memory (option Z) :=
  match fuel, n with
  | _, None => mret (Some l)
  | O, Some _ => mret None
  | S fuel, Some _ => x ← load n; length_from fuel (p_next x) (l + 1)
  end.

(** From the last entry to the first: the root, and the return nodes seen by id. *)
Fixpoint link_entries (entries : list (entry In Out)) : M memory (option nat * gmap Z nat) :=
  match entries with
  | [] => mret (None, ∅)
  | elem :: entries =>
      rm ← link_entries entries;
      let '(root, matches) := rm in
      match elem with
      | returnEntry v id _ _ =>
          e ← alloc (mkPNode (VReturn v) None id None None);
          insertBefore e root;;
          mret (Some e, <[id := e]> matches)
      | callEntry v id _ _ =>
          e ← alloc (mkPNode (VCall v) (matches !! id) id None None);
          insertBefore e root;;
          mret (Some e, matches)
      end
  end.

Definition lift (entry : nat) : M memory unit :=
  e ← load (Some entry);
  set_next (p_prev e) (p_next e);;
  e ← load (Some entry);
  set_prev (p_next e) (p_prev e);;
  e ← load (Some entry);
  let match_ := p_match e in
  m ← load match_;
  set_next (p_prev m) (p_next m);;
  m ← load match_;
  match p_next m with
  | Some _ => set_prev (p_next m) (p_prev m)
  | None => mret tt
  end.

Definition unlift (entry : nat) : M memory unit :=
  e ← load (Some entry);
  let match_ := p_match e in
  m ← load match_;
  set_next (p_prev m) match_;;
  m ← load match_;
  match p_next m with
  | Some _ => set_prev (p_next m) match_
  | None => mret tt
  end;;
  e ← load (Some entry);
  set_next (p_prev e) (Some entry);;
  e ← load (Some entry);
  set_prev (p_next e) (Some entry).

(** * The search *)

(** [g_calls] has its top first; [g_seqs] are the sequences made so far, to which
    [g_longest] points. *)
Record psearch := mkPSearch {
  g_memory : memory;
  g_head : nat;
  g_entry : option nat;
  g_state : St;
  g_linearized : bitset;
  g_cache : gmap Z (list (bitset * St));
  g_calls : list (nat * St);
  g_longest : list (option nat);
  g_seqs : list (list Z) }.

Definition set_memory h (g : psearch) : psearch :=
  mkPSearch h (g_head g) (g_entry g) (g_state g) (g_linearized g) (g_cache g) (g_calls g) (g_longest g) (g_seqs g).
Definition set_entry e (g : psearch) : psearch :=
  mkPSearch (g_memory g) (g_head g) e (g_state g) (g_linearized g) (g_cache g) (g_calls g) (g_longest g) (g_seqs g).
Definition set_longest l s (g : psearch) : psearch :=
  mkPSearch (g_memory g) (g_head g) (g_entry g) (g_state g) (g_linearized g) (g_cache g) (g_calls g) l s.

Definition on_memory {A} (m : M memory A) : M psearch A := fun g =>
  match m (g_memory g) with
  | Done a h => Done a (set_memory h g)
  | Panicked p h => Panicked p (set_memory h g)
  | Blocked h => Blocked (set_memory h g)
  end.

Context (model_step : St -> In -> Out -> bool * St) (model_equal : St -> St -> bool).

(** model.Step asserts the types of what it is given. *)
Definition step_values {S} (s : St) (v o : pvalue) : M S (bool * St) :=
  match v, o with VCall v, VReturn o => mret (model_step s v o) | _, _ => throw TypeAssertion end.

(** v.entry.id for the elements of [calls] in order. *)
Fixpoint call_ids (cs : list (nat * St)) : M psearch (list Z) :=
  match cs with
  | [] => mret []
  | (e, _) :: cs => n ← on_memory (load (Some e)); l ← call_ids cs; mret (p_id n :: l)
  end.

(** The loop over [calls] that updates [longest]; [seq] points to the sequence once
    it is made. *)
Fixpoint longest_loop (ids all : list Z) (seq : option nat) : M psearch unit :=
  match ids with
  | [] => mret tt
  | id :: ids =>
      g ← gets (fun g => g);
      old ← go_index (g_longest g) id;
      let shorter := match old ≫= (g_seqs g !!.) with
                     | Some p => (length p <? length all)%nat
                     | None => true
                     end in
      if shorter then
        let p := default (length (g_seqs g)) seq in
        let seqs := match seq with Some _ => g_seqs g | None => g_seqs g ++ [all] end in
        l ← go_update (g_longest g) id (Some p);
        modify (set_longest l seqs);;
        longest_loop ids all (Some p)
      else longest_loop ids all seq
  end.

Definition p_try_call (entry : nat) (e : pnode) (m : nat) : M psearch (option bool) :=
  x ← on_memory (load (Some m));
  g ← gets (fun g => g);
  r ← step_values (g_state g) (p_value e) (p_value x);
  let '(ok, newState) := r in
  if (ok : bool) then
    newLinearized ← bs_set (bs_clone (g_linearized g)) (p_id e);
    if cacheContains model_equal (g_cache g) newLinearized newState then
      modify (set_entry (p_next e));; mret None
    else
      lin ← bs_set (g_linearized g) (p_id e);
      modify (fun g => mkPSearch (g_memory g) (g_head g) (g_entry g) newState lin
        (cache_add (g_cache g) newLinearized newState) ((entry, g_state g) :: g_calls g) (g_longest g) (g_seqs g));;
      on_memory (lift entry);;
      h ← on_memory (load (Some (g_head g)));
      modify (set_entry (p_next h));; mret None
  else modify (set_entry (p_next e));; mret None.

Definition p_backtrack (computePartial : bool) : M psearch (option bool) :=
  g ← gets (fun g => g);
  match g_calls g with
  | [] => mret (Some false)
  | (entry, state) :: cs =>
      (if computePartial then
         ids ← call_ids (reverse (g_calls g)); longest_loop ids ids None
       else mret tt);;
      e ← on_memory (load (Some entry));
      lin ← bs_clear (g_linearized g) (p_id e);
      modify (fun g => mkPSearch (g_memory g) (g_head g) (g_entry g) state lin (g_cache g) cs (g_longest g) (g_seqs g));;
      on_memory (unlift entry);;
      e ← on_memory (load (Some entry));
      modify (set_entry (p_next e));; mret None
  end.

Definition p_turn (computePartial kill : bool) : M psearch (option bool) :=
  g ← gets (fun g => g);
  h ← on_memory (load (Some (g_head g)));
  match p_next h with
  | None =>
      ids ← call_ids (reverse (g_calls g));
      modify (fun g => set_longest (replicate (length (g_longest g)) (Some (length (g_seqs g))))
        (g_seqs g ++ [ids]) g);;
      mret (Some true)
  | Some _ =>
      if kill then mret (Some false)
      else
        e ← on_memory (load (g_entry g));
        match g_entry g, p_match e with
        | Some entry, Some m => p_try_call entry e m
        | _, _ => p_backtrack computePartial
        end
  end.

Fixpoint p_loop (fuel : nat) (computePartial : bool) (kill : nat -> bool) : M psearch (option bool) :=
  match fuel with
  | O => mret None
  | S fuel =>
      r ← p_turn computePartial (kill fuel);
      match r with
      | Some b => mret (Some b)
      | None => p_loop fuel computePartial kill
      end
  end.

(** The list of the history, its length, and the head in front of it. *)
Definition p_start (init : St) (history : list (entry In Out)) : M memory psearch :=
  rm ← link_entries history;
  let entry := fst rm in
  l ← length_from (length history) entry 0;
  let n := (Z.to_nat (default 0%Z l) / 2)%nat in
  e ← alloc (mkPNode VNil None (-1) None None);
  headEntry ← insertBefore e entry;
  h ← gets (fun h => h);
  mret (mkPSearch h headEntry entry init (newBitset (Z.of_nat n)) ∅ [] (replicate n None) []).

Definition p_checkSingle (init : St) (history : list (entry In Out)) (computePartial : bool) (kill : nat -> bool)
    (fuel : nat) : outcome psearch (option bool) :=
  match p_start init history [] with
  | Done g _ => p_loop fuel computePartial kill g
  | Panicked p _ => Panicked p (mkPSearch [] 0 None init [] ∅ [] [] [])
  | Blocked _ => Blocked (mkPSearch [] 0 None init [] ∅ [] [] [])
  end.

(** The sequences [longest] points to. *)
Definition pointed (seqs : list (list Z)) (l : list (option nat)) : list (option (list Z)) :=
  (fun p => p ≫= (seqs !!.)) <$> l.
End pointers.
Arguments pvalue : clear implicits.
Arguments pnode : clear implicits.
Arguments psearch : clear implicits.
