(* ===== verification/LinkedListProof.v ===== *)
(** The pointer list of the checker implements the list of Checker.

    [dseg] is a stretch of doubly linked nodes between two neighbours.  lift takes
    a call and its return out of a linked list, and unlift, run on what lift left,
    restores the memory exactly: the nodes taken out keep their pointers. *)

From S2P Require Import Prelude Bitset Checker CheckerSpec CheckerProof LinkedList.

Section segments.
Context {In Out : Type}.
Abbreviation pnode := (pnode In Out).
Abbreviation memory := (list pnode).
Implicit Types h : memory.

(** * Segments *)

Definition first (l : list nat) (nn : option nat) : option nat := match l with [] => nn | q :: _ => Some q end.
Fixpoint final (pp : option nat) (l : list nat) : option nat := match l with [] => pp | p :: l => final (Some p) l end.

Definition points h (p : nat) (prev next : option nat) : Prop :=
  exists n, h !! p = Some n /\ p_prev n = prev /\ p_next n = next.

Fixpoint dseg h (pp : option nat) (l : list nat) (nn : option nat) : Prop :=
  match l with
  | [] => True
  | p :: l => points h p pp (first l nn) /\ dseg h (Some p) l nn
  end.

Lemma first_app l1 l2 nn : first (l1 ++ l2) nn = first l1 (first l2 nn).
Proof. by destruct l1. Qed.

Lemma final_snoc pp l a : final pp (l ++ [a]) = Some a.
Proof. revert pp. induction l as [|p l IH]; intros pp; [done|]. apply IH. Qed.

Lemma dseg_app h pp l1 l2 nn :
  dseg h pp (l1 ++ l2) nn <-> dseg h pp l1 (first l2 nn) /\ dseg h (final pp l1) l2 nn.
Proof.
  revert pp. induction l1 as [|p l1 IH]; intros pp; simpl; [tauto|]. rewrite IH, first_app. tauto.
Qed.

Lemma dseg_ext h h' pp l nn : (forall p, p ∈ l -> h' !! p = h !! p) -> dseg h pp l nn -> dseg h' pp l nn.
Proof.
  revert pp. induction l as [|p l IH]; intros pp He; [done|]. intros [(n & Hn & ?) Hd]. split.
  - exists n. rewrite He by (by left). done.
  - apply IH; [|done]. intros q Hq. apply He. by right.
Qed.

Definition upd_next (p q : option nat) h : memory := match p with Some a => alter (with_next q) a h | None => h end.
Definition upd_prev (p q : option nat) h : memory := match p with Some a => alter (with_prev q) a h | None => h end.

Lemma upd_next_ne p q h x : p <> Some x -> upd_next p q h !! x = h !! x.
Proof. destruct p as [a|]; [|done]. intros Hne. apply list_lookup_alter_ne. congruence. Qed.
Lemma upd_prev_ne p q h x : p <> Some x -> upd_prev p q h !! x = h !! x.
Proof. destruct p as [a|]; [|done]. intros Hne. apply list_lookup_alter_ne. congruence. Qed.
Lemma upd_next_eq q h x : upd_next (Some x) q h !! x = with_next q <$> h !! x.
Proof. apply list_lookup_alter_eq. Qed.
Lemma upd_prev_eq q h x : upd_prev (Some x) q h !! x = with_prev q <$> h !! x.
Proof. apply list_lookup_alter_eq. Qed.

Lemma set_next_run h a q n : h !! a = Some n -> set_next (Some a) q h = Done tt (upd_next (Some a) q h).
Proof. intros E. unfold set_next, load, mbind, M_bind, gets. simpl. by rewrite E. Qed.
Lemma set_prev_run h a q n : h !! a = Some n -> set_prev (Some a) q h = Done tt (upd_prev (Some a) q h).
Proof. intros E. unfold set_prev, load, mbind, M_bind, gets. simpl. by rewrite E. Qed.
Lemma load_run {B} h a (k : pnode -> M memory B) n : h !! a = Some n -> (load (Some a) ≫= k) h = k n h.
Proof. intros E. unfold load, mbind, M_bind, gets. simpl. by rewrite E. Qed.

Lemma points_lookup h p a b : points h p a b -> is_Some (h !! p).
Proof. intros (n & -> & _). by eexists. Qed.

(** Changing the next of the last node, or the prev of the first. *)
Lemma dseg_upd_next h pp l a nn x : a ∉ l -> dseg h pp (l ++ [a]) nn -> dseg (upd_next (Some a) x h) pp (l ++ [a]) x.
Proof.
  intros Ha. rewrite !dseg_app. intros [H1 [(n & Hn & Hp & _) _]]. split.
  - eapply dseg_ext; [|exact H1]. intros p Hp'. apply upd_next_ne. congruence.
  - split; [|done]. exists (with_next x n). by rewrite upd_next_eq, Hn.
Qed.

Lemma dseg_upd_prev h pp l nn x :
  NoDup l -> dseg h pp l nn -> dseg (upd_prev (first l None) x h) x l nn.
Proof.
  destruct l as [|a l]; [done|]. intros [Ha _]%NoDup_cons [(n & Hn & _ & Hnx) Hd]. split.
  - exists (with_prev x n). simpl. by rewrite list_lookup_alter_eq, Hn.
  - eapply dseg_ext; [|exact Hd]. intros p Hp. apply upd_prev_ne. simpl. congruence.
Qed.

(** ** Taking one node out, and putting it back *)

(** Node [r] with [a] before it and [k2] after it goes out. *)
Definition unlinked (a : nat) (k2 : list nat) h : memory :=
  upd_prev (first k2 None) (Some a) (upd_next (Some a) (first k2 None) h).
Definition relinked (a r : nat) (k2 : list nat) h : memory :=
  upd_prev (first k2 None) (Some r) (upd_next (Some a) (Some r) h).

Lemma unlinked_ne a k2 h x : x <> a -> x ∉ k2 -> unlinked a k2 h !! x = h !! x.
Proof.
  intros Ha Hk. unfold unlinked. rewrite upd_prev_ne, upd_next_ne; [done|congruence|].
  destruct k2 as [|c k2]; [done|]. intros [= ->]. apply Hk. by left.
Qed.

Lemma unlink_dseg h pp k1 a r k2 :
  NoDup (k1 ++ a :: r :: k2) -> dseg h pp (k1 ++ a :: r :: k2) None -> dseg (unlinked a k2 h) pp (k1 ++ a :: k2) None.
Proof.
  change (k1 ++ a :: r :: k2) with (k1 ++ [a] ++ r :: k2). rewrite app_assoc, dseg_app.
  intros Hnd [H1 [_ H2]]. apply NoDup_app in Hnd as (Hn1 & Hdis & Hn2).
  change (k1 ++ a :: k2) with (k1 ++ [a] ++ k2). rewrite app_assoc, dseg_app. rewrite !final_snoc.
  apply NoDup_cons in Hn2 as [Hr Hn2]. unfold unlinked. split.
  - eapply dseg_ext; [|eapply dseg_upd_next; [|exact H1]].
    + intros p Hp. apply upd_prev_ne. destruct k2 as [|c k2]; [done|]. intros [= ->]. apply (Hdis p Hp). right. by left.
    + apply NoDup_app in Hn1 as (_ & Hd & _). intros Hin. apply (Hd a Hin). by left.
  - eapply dseg_upd_prev; [done|]. destruct k2 as [|c k2]; [done|].
    eapply dseg_ext; [|exact H2]. intros p Hp. apply upd_next_ne. intros [= ->]. apply (Hdis p); [set_solver|by right].
Qed.

Lemma relink_unlinked h pp k1 a r k2 :
  NoDup (k1 ++ a :: r :: k2) -> dseg h pp (k1 ++ a :: r :: k2) None -> relinked a r k2 (unlinked a k2 h) = h.
Proof.
  intros Hnd Hd. apply list_eq. intros x. unfold relinked, unlinked.
  apply NoDup_app in Hnd as (_ & _ & Hnd). apply dseg_app in Hd as [_ [(na & Hna & _ & Hnext) [_ Hk2]]].
  apply NoDup_cons in Hnd as [Ha [Hr Hk]%NoDup_cons].
  assert (first k2 None <> Some a) as Hca by (destruct k2 as [|c k2]; [done|]; intros [= ->]; apply Ha; right; by left).
  destruct (decide (x = a)) as [->|Hxa].
  - rewrite upd_prev_ne, upd_next_eq, upd_prev_ne, upd_next_eq by done. rewrite Hna. simpl. f_equal.
    destruct na. simpl in *. unfold with_next. simpl. congruence.
  - destruct (decide (first k2 None = Some x)) as [Hx|Hx].
    + rewrite Hx, upd_prev_eq, upd_next_ne, upd_prev_eq, upd_next_ne by congruence.
      destruct k2 as [|c k2]; [done|]. injection Hx as ->. destruct Hk2 as [(n & Hn & Hp & _) _]. rewrite Hn. simpl. f_equal.
      destruct n. simpl in *. unfold with_prev. simpl. congruence.
    + by rewrite upd_prev_ne, upd_next_ne, upd_prev_ne, upd_next_ne by congruence.
Qed.
(** ** lift and unlift *)

Lemma final_is pp l : l <> [] \/ is_Some pp -> exists k a, final pp l = Some a /\ (l = k ++ [a] \/ (l = [] /\ pp = Some a)).
Proof.
  destruct (decide (l = [])) as [->|Hl].
  - intros [?|[a ->]]; [done|]. exists [], a. split; [done|]. by right.
  - intros _. destruct (exists_last Hl) as (k & a & ->). exists k, a. split; [apply final_snoc|by left].
Qed.

(** The last node before the return, once the call is out. *)
Lemma last_before k1 a l2 : exists k a2, k1 ++ a :: l2 = k ++ [a2] /\ final (Some a) l2 = Some a2 /\ (a2 = a \/ a2 ∈ l2).
Proof.
  destruct (final_is (Some a) l2) as (k & a2 & Hf & [-> | [-> [= ->]]]); [right; by eexists| |].
  - exists (k1 ++ a :: k), a2. rewrite <- app_assoc. split; [done|]. split; [done|]. right. apply elem_of_app. right. by left.
  - exists k1, a2. auto.
Qed.

(** The code that takes node [r] out of a list, statement by statement. *)
Lemma out_code h pp k1 a r k2 x :
  NoDup (k1 ++ a :: r :: k2) -> dseg h pp (k1 ++ a :: r :: k2) None -> h !! r = Some x ->
  let h1 := upd_next (Some a) (first k2 None) h in
  p_prev x = Some a /\ p_next x = first k2 None /\ set_next (Some a) (first k2 None) h = Done tt h1 /\
  h1 !! r = Some x /\ unlinked a k2 h !! r = Some x /\
  match first k2 None with
  | Some c => set_prev (Some c) (Some a) h1 = Done tt (unlinked a k2 h)
  | None => h1 = unlinked a k2 h
  end.
Proof.
  intros Hnd Hd Hx h1. apply NoDup_app in Hnd as (_ & _ & [Ha [Hr Hk]%NoDup_cons]%NoDup_cons).
  apply dseg_app in Hd as [_ [(na & Hna & _) [(x' & Hx' & Hp & Hn) Hk2]]]. rewrite Hx in Hx'. injection Hx' as <-.
  assert (h1 !! r = Some x) as Hr1 by (unfold h1; rewrite upd_next_ne; [done|set_solver]).
  split_and!; try done; [by eapply set_next_run|rewrite unlinked_ne; [done|set_solver|done]|].
  destruct k2 as [|c k2]; [done|]. simpl. destruct Hk2 as [(nc & Hnc & _) _]. eapply set_prev_run.
  unfold h1. rewrite upd_next_ne; [exact Hnc|set_solver].
Qed.

(** The code that puts it back. *)
Lemma in_code h pp k1 a r k2 x :
  NoDup (k1 ++ a :: r :: k2) -> dseg h pp (k1 ++ a :: r :: k2) None -> h !! r = Some x ->
  let h1 := upd_next (Some a) (Some r) (unlinked a k2 h) in
  set_next (Some a) (Some r) (unlinked a k2 h) = Done tt h1 /\ h1 !! r = Some x /\
  match first k2 None with
  | Some c => set_prev (Some c) (Some r) h1 = Done tt h
  | None => h1 = h
  end.
Proof.
  intros Hnd Hd Hx h1. pose proof (relink_unlinked h pp k1 a r k2 Hnd Hd) as Hback. unfold relinked in Hback. fold h1 in Hback.
  apply NoDup_app in Hnd as (_ & _ & [Ha [Hr Hk]%NoDup_cons]%NoDup_cons).
  apply dseg_app in Hd as [_ [(na & Hna & _) [_ Hk2]]].
  assert (first k2 None <> Some a) as Hca by (destruct k2; set_solver).
  split_and!.
  - eapply set_next_run. unfold unlinked. by rewrite upd_prev_ne, upd_next_eq, Hna.
  - unfold h1. rewrite upd_next_ne, unlinked_ne; [done|set_solver|done|set_solver].
  - destruct k2 as [|c k2]; [done|]. simpl in *. rewrite <- Hback. destruct Hk2 as [(nc & Hnc & _) _].
    eapply set_prev_run. unfold h1, unlinked. simpl. rewrite list_lookup_alter_ne by congruence.
    rewrite list_lookup_alter_eq, list_lookup_alter_ne, Hnc by congruence. done.
Qed.

(** lift takes the call [p] and its return [q] out of the list, and unlift then
    restores the memory. *)
Lemma lift_run h k1 a p l2 q l3 n :
  let l := k1 ++ a :: p :: l2 ++ q :: l3 in
  NoDup l -> dseg h None l None -> h !! p = Some n -> p_match n = Some q ->
  exists h', lift p h = Done tt h' /\ dseg h' None (k1 ++ a :: l2 ++ l3) None /\ unlift p h' = Done tt h.
Proof.
  intros l Hnd Hd Hn Hm. subst l. set (h2 := unlinked a (l2 ++ q :: l3) h).
  destruct (out_code _ _ _ _ _ _ _ Hnd Hd Hn) as (P1 & P2 & P3 & P4 & P5 & P6).
  destruct (in_code _ _ _ _ _ _ _ Hnd Hd Hn) as (Q1 & Q2 & Q3). fold h2 in P5, P6, Q1, Q2, Q3.
  pose proof (unlink_dseg h None k1 a p (l2 ++ q :: l3) Hnd Hd) as Hd2. fold h2 in Hd2.
  destruct (last_before k1 a l2) as (k & a2 & Hk & Hf & Ha2).
  assert (forall l, k1 ++ a :: l2 ++ l = k ++ a2 :: l) as Hkl.
  { intros l. by rewrite app_comm_cons, app_assoc, Hk, <- app_assoc. }
  rewrite Hkl in Hd2.
  assert (NoDup (k ++ a2 :: q :: l3)) as Hnd2.
  { rewrite <- Hkl. revert Hnd. rewrite !NoDup_app, !NoDup_cons. set_solver. }
  assert (exists m, h2 !! q = Some m) as [m Hq] by (apply dseg_app in Hd2 as [_ [_ [(m & Hq & _) _]]]; eauto).
  destruct (out_code _ _ _ _ _ _ _ Hnd2 Hd2 Hq) as (U1 & U2 & U3 & U4 & U5 & U6).
  destruct (in_code _ _ _ _ _ _ _ Hnd2 Hd2 Hq) as (V1 & V2 & V3).
  set (h4 := unlinked a2 l3 h2) in *. exists h4.
  assert (h4 !! p = Some n) as Hp4.
  { unfold h4. apply NoDup_app in Hnd as (_ & _ & [Ha [Hp _]%NoDup_cons]%NoDup_cons). rewrite unlinked_ne; set_solver. }
  assert (exists b, first (l2 ++ q :: l3) None = Some b) as [b Hb] by (destruct l2; eauto). rewrite Hb in *.
  split_and!.
  - unfold lift. rewrite (load_run _ _ _ _ Hn), P1, P2, (bind_done _ _ _ _ _ P3), (load_run _ _ _ _ P4), P1, P2.
    rewrite (bind_done _ _ _ _ _ P6), (load_run _ _ _ _ P5), Hm, (load_run _ _ _ _ Hq), U1, U2.
    rewrite (bind_done _ _ _ _ _ U3), (load_run _ _ _ _ U4), U1, U2. destruct (first l3 None); [done|]. by rewrite U6.
  - rewrite Hkl. by eapply unlink_dseg.
  - unfold unlift. rewrite (load_run _ _ _ _ Hp4), Hm, (load_run _ _ _ _ U5), U1, (bind_done _ _ _ _ _ V1).
    rewrite (load_run _ _ _ _ V2), U2.
    rewrite (bind_done _ _ _ tt h2) by (destruct (first l3 None); [done|by rewrite V3]).
    rewrite (load_run _ _ _ _ P5), P1, (bind_done _ _ _ _ _ Q1), (load_run _ _ _ _ Q2), P2. done.
Qed.
End segments.

(** * What the nodes say *)

Section shapes.
Context {In Out : Type}.
Abbreviation pnode := (pnode In Out).
Abbreviation memory := (list pnode).
Implicit Types h : memory.

(** What lift and unlift leave alone. *)
Definition datum (n : pnode) := (p_value n, p_match n, p_id n).
Definition datas h := datum <$> h.

Lemma datas_alter (f : pnode -> pnode) a h : (forall n, datum (f n) = datum n) -> datas (alter f a h) = datas h.
Proof.
  intros Hf. apply list_eq. intros i. unfold datas. rewrite !list_lookup_fmap.
  destruct (decide (a = i)) as [->|Hne]; [|by rewrite list_lookup_alter_ne].
  rewrite list_lookup_alter_eq. destruct (h !! i); [|done]. simpl. by rewrite Hf.
Qed.

Lemma keeps_load p : keeps (same datas) (load p : M memory pnode).
Proof. unfold load. keeps_auto. Qed.
Lemma keeps_set_next p q : keeps (same datas) (set_next p q : M memory unit).
Proof.
  unfold set_next. apply keeps_bind; [apply _|apply keeps_load|]. intros _. destruct p; [|apply keeps_ret, _].
  apply keeps_modify. intros h. by apply datas_alter.
Qed.
Lemma keeps_set_prev p q : keeps (same datas) (set_prev p q : M memory unit).
Proof.
  unfold set_prev. apply keeps_bind; [apply _|apply keeps_load|]. intros _. destruct p; [|apply keeps_ret, _].
  apply keeps_modify. intros h. by apply datas_alter.
Qed.
#[local] Hint Resolve keeps_load keeps_set_next keeps_set_prev : keeps.

Lemma keeps_lift p : keeps (same datas) (lift p : M memory unit).
Proof. unfold lift. keeps_auto. Qed.

(** Address [l] holds the node [n] of the abstract list. *)
Inductive shape h (l : nat) : node In Out -> Prop :=
  | shape_return o i :
      datas h !! l = Some (VReturn o, None, i) -> shape h l (Plain i)
  | shape_lone v i :
      datas h !! l = Some (VCall v, None, i) -> shape h l (Plain i)
  | shape_call v q o i :
      datas h !! l = Some (VCall v, Some q, i) -> datas h !! q = Some (VReturn o, None, i) -> shape h l (Call i v o).

Definition match_of h (p : nat) : option nat := datas h !! p ≫= (fun d => d.1.2).

Lemma shape_data h h' l n : datas h' = datas h -> shape h l n -> shape h' l n.
Proof. intros E. destruct 1; rewrite <- E in *; by econstructor. Qed.

Lemma shape_grows h h' l n : (forall p d, datas h !! p = Some d -> datas h' !! p = Some d) -> shape h l n -> shape h' l n.
Proof. intros Hg. destruct 1; [eapply shape_return|eapply shape_lone|eapply shape_call]; eauto. Qed.

Lemma datas_lookup h p n : h !! p = Some n -> datas h !! p = Some (datum n).
Proof. intros E. unfold datas. by rewrite list_lookup_fmap, E. Qed.

Lemma datas_back h p d : datas h !! p = Some d -> exists n, h !! p = Some n /\ datum n = d.
Proof. unfold datas. rewrite list_lookup_fmap, fmap_Some. naive_solver. Qed.

(** ** The list that makeLinkedEntries makes *)

(** After the entries that make [nodes]: one node each, and the map of the returns. *)
Record linked h (n : nat) (nodes : list (node In Out)) (matches : gmap Z Out) (ptrs : gmap Z nat) : Prop := {
  lk_length : length h = n;
  lk_dseg : dseg h None (reverse (seq 0 n)) None;
  lk_shape : Forall2 (shape h) (reverse (seq 0 n)) nodes;
  lk_match : forall i, match ptrs !! i, matches !! i with
    | Some q, Some o => datas h !! q = Some (VReturn o, None, i)
    | None, None => True
    | _, _ => False
    end }.

Lemma reverse_seq_S n : reverse (seq 0 (S n)) = n :: reverse (seq 0 n).
Proof. by rewrite seq_S, reverse_snoc. Qed.

Lemma elem_of_reverse_seq i n : i ∈ reverse (seq 0 n) <-> (i < n)%nat.
Proof. rewrite elem_of_reverse, elem_of_seq. lia. Qed.

(** insertBefore of a new node in front of the list. *)
Lemma insert_run h n x :
  length h = n -> dseg h None (reverse (seq 0 n)) None -> p_next x = None -> p_prev x = None ->
  exists h', (e ← alloc x; insertBefore e (first (reverse (seq 0 n)) None)) h = Done n h' /\
    datas h' = datas h ++ [datum x] /\ dseg h' None (reverse (seq 0 (S n))) None.
Proof.
  intros Hl Hd Hx Hp. unfold alloc. cbn [mbind M_bind]. unfold mbind, M_bind, gets, modify, mret, M_ret. rewrite Hl.
  assert (datas (h ++ [x]) = datas h ++ [datum x]) as Hdx by (unfold datas; by rewrite fmap_app).
  assert ((h ++ [x]) !! n = Some x) as Hnx by (rewrite <- Hl; by rewrite lookup_app_r, Nat.sub_diag by lia).
  assert (dseg (h ++ [x]) None (reverse (seq 0 n)) None) as Hd1.
  { eapply dseg_ext; [|exact Hd]. intros p Hpn%elem_of_reverse_seq. rewrite lookup_app_l; [done|lia]. }
  destruct n as [|m].
  { exists (h ++ [x]). split; [done|]. split; [done|]. simpl. split; [|done]. by exists x. }
  assert (exists r, reverse (seq 0 (S m)) = m :: r) as [r Er] by (rewrite reverse_seq_S; eauto).
  assert (NoDup (m :: r)) as [Hm _]%NoDup_cons by (rewrite <- Er, reverse_Permutation; apply NoDup_seq).
  assert (forall p, p ∈ r -> (p < S m)%nat) as Hr by (intros p Hp'; apply elem_of_reverse_seq; rewrite Er; by right).
  rewrite (reverse_seq_S (S m)), Er in *. simpl first. destruct Hd1 as [(z & Hz & Hzp & Hzn) Hd1].
  set (h1 := upd_prev (Some m) (Some (S m)) (h ++ [x])). set (h2 := upd_next (Some (S m)) (Some m) h1).
  assert (h1 !! S m = Some x) as Hn1 by (unfold h1; by rewrite upd_prev_ne by (intros [= ?]; lia)).
  exists h2. cbn [dseg first]. split_and!.
  - unfold insertBefore. rewrite (load_run _ _ _ _ Hz), Hzp.
    rewrite (bind_done _ _ _ _ _ (set_prev_run _ _ _ _ Hz)). fold h1.
    by rewrite (bind_done _ _ _ _ _ (set_next_run _ _ _ _ Hn1)).
  - unfold h2, h1. simpl. rewrite !datas_alter by done. exact Hdx.
  - exists (with_next (Some m) x). unfold h2. by rewrite upd_next_eq, Hn1.
  - exists (with_prev (Some (S m)) z). unfold h2, h1. rewrite upd_next_ne by (intros [= ?]; lia). by rewrite upd_prev_eq, Hz.
  - eapply dseg_ext; [|exact Hd1]. intros p Hp'. specialize (Hr _ Hp').
    unfold h2, h1. rewrite upd_next_ne, upd_prev_ne; [done|..]; intros [= E]; subst; first [lia|by apply Hm].
Qed.

Lemma shapes_grow h h' d locs nodes :
  datas h' = datas h ++ d -> Forall2 (shape h) locs nodes -> Forall2 (shape h') locs nodes.
Proof.
  intros E Hs. eapply Forall2_impl; [exact Hs|]. intros l z. apply shape_grows. intros p x Hpx.
  rewrite E, lookup_app_l; [done|]. by eapply lookup_lt_Some.
Qed.

Lemma link_entries_run (es : list (entry In Out)) :
  exists ptrs h, link_entries es [] = Done (first (reverse (seq 0 (length es))) None, ptrs) h /\
    linked h (length es) (linkEntries es).1 (linkEntries es).2 ptrs.
Proof.
  induction es as [|e es (ptrs & h & E & Hl)].
  { exists ∅, []. split; [done|]. by split. }
  cbn [link_entries linkEntries]. rewrite (bind_done _ _ _ _ _ E). destruct (linkEntries es) as [nodes ms] eqn:Elk.
  simpl fst in Hl. simpl snd in Hl.
  assert (forall x y ms' ptrs', p_next x = None -> p_prev x = None ->
    (forall h', datas h' = datas h ++ [datum x] -> shape h' (length es) y) ->
    (forall h', datas h' = datas h ++ [datum x] -> forall i, match ptrs' !! i, ms' !! i with
      | Some q, Some o => datas h' !! q = Some (VReturn o, None, i) | None, None => True | _, _ => False end) ->
    exists h', (e ← alloc x; insertBefore e (first (reverse (seq 0 (length es))) None);; mret (Some e, ptrs')) h
        = Done (Some (length es), ptrs') h' /\ linked h' (S (length es)) (y :: nodes) ms' ptrs') as Hins.
  { intros x y ms' ptrs' H1 H2 H3 H4. destruct (insert_run h _ x (lk_length _ _ _ _ _ Hl) (lk_dseg _ _ _ _ _ Hl) H1 H2) as (h' & E' & Hd' & Hl').
    exists h'. split.
    - unfold alloc in *. unfold mbind, M_bind, gets, modify, mret, M_ret in *. rewrite (lk_length _ _ _ _ _ Hl) in *.
      by rewrite E'.
    - split; [|done|rewrite reverse_seq_S; constructor; [by apply H3|by eapply shapes_grow, lk_shape]|by apply H4].
      apply (f_equal length) in Hd'. unfold datas in Hd'. rewrite length_app, !length_fmap in Hd'.
      rewrite (lk_length _ _ _ _ _ Hl) in Hd'. simpl in Hd'. lia. }
  assert (forall d h' q o i, datas h' = datas h ++ d -> datas h !! q = Some (VReturn o, None, i) ->
    datas h' !! q = Some (VReturn o, None, i)) as Hold.
  { intros d h' q o i -> Hq. rewrite lookup_app_l; [done|]. by eapply lookup_lt_Some. }
  assert (length (datas h) = length es) as Hdl by (unfold datas; rewrite length_fmap; apply Hl).
  pose proof (lk_match _ _ _ _ _ Hl) as Hm.
  cbn [length]. rewrite (reverse_seq_S (length es)). simpl first. destruct e as [v i t c|o i t c].
  - pose proof (Hm i) as Hmi. set (y := match ms !! i with Some o => Call i v o | None => Plain i end).
    destruct (Hins (mkPNode (VCall v) (ptrs !! i) i None None) y ms ptrs) as (h' & E' & Hl'); try done.
    + intros h' Hd'. assert (datas h' !! length es = Some (VCall v, ptrs !! i, i)) as Hn.
      { rewrite Hd', <- Hdl, lookup_app_r, Nat.sub_diag by lia. done. }
      subst y. destruct (ptrs !! i) as [q|], (ms !! i) as [o|]; try done; [|by eapply shape_lone].
      eapply shape_call; [done|]. by eapply Hold.
    + intros h' Hd' j. specialize (Hm j). destruct (ptrs !! j), (ms !! j); try done. by eapply Hold.
    + exists ptrs, h'. split; [exact E'|]. subst y. by destruct (ms !! i).
  - destruct (Hins (mkPNode (VReturn o) None i None None) (Plain i) (<[i := o]> ms) (<[i := length es]> ptrs)) as (h' & E' & Hl'); try done.
    + intros h' Hd'. eapply (shape_return _ _ o). rewrite Hd', <- Hdl, lookup_app_r, Nat.sub_diag by lia. done.
    + intros h' Hd' j. rewrite !lookup_insert. case_decide as Ej.
      * subst j. rewrite Hd', <- Hdl, lookup_app_r, Nat.sub_diag by lia. done.
      * specialize (Hm j). destruct (ptrs !! j), (ms !! j); try done. by eapply Hold.
    + exists (<[i := length es]> ptrs), h'. split; [|exact Hl'].
      unfold alloc in *. unfold mbind, M_bind, gets, modify, mret, M_ret in *. rewrite (lk_length _ _ _ _ _ Hl) in *. exact E'.
Qed.
End shapes.
