(* ===== verification/LinkedListSim.v ===== *)
(** checkSingle on pointers does what checkSingle of Checker does, turn by turn. *)

From S2P Require Import Prelude Bitset Checker CheckerSpec CheckerProof CheckerOps LinkedList LinkedListProof.

Section sim.
Context {In Out St : Type}.
Abbreviation pnode := (pnode In Out).
Abbreviation memory := (list pnode).
Abbreviation psearch := (psearch In Out St).
Abbreviation search := (search In Out St).
Implicit Types (h : memory) (g : psearch) (c : search).

(** * The relation *)

(** The list after [head] stands for [nodes], and the return of each call in it is
    in it. *)
Record threaded h (head : nat) (locs : list nat) (nodes : list (node In Out)) : Prop := {
  th_nodup : NoDup (head :: locs);
  th_dseg : dseg h None (head :: locs) None;
  th_shape : Forall2 (shape h) locs nodes;
  th_paired : forall p q, p ∈ locs -> match_of h p = Some q -> q ∈ locs }.

(** The stack: unlift of its top gives the memory the list around it was in. *)
Inductive stacked (head : nat) : memory -> list (nat * St) -> list (callsEntry In Out St) -> Prop :=
  | stacked_nil h : stacked head h [] []
  | stacked_cons h h' p s cs f fs lb la :
      threaded h head (lb ++ p :: la) (f_before f ++ Call (f_id f) (f_value f) (f_match f) :: f_after f) ->
      length lb = length (f_before f) -> unlift p h' = Done tt h -> datas h' = datas h -> s = f_state f ->
      stacked head h cs fs -> stacked head h' ((p, s) :: cs) (f :: fs).

Definition valid_ptr (seqs : list (list Z)) (p : option nat) : Prop :=
  match p with Some x => (x < length seqs)%nat | None => True end.

Record longest_ok g (l : list (option (list Z))) : Prop := {
  lg_pointed : pointed (g_seqs g) (g_longest g) = l;
  lg_valid : Forall (valid_ptr (g_seqs g)) (g_longest g) }.

Record refines g c : Prop := {
  rf_list : exists lb la, threaded (g_memory g) (g_head g) (lb ++ la) (before c ++ after c) /\
    length lb = length (before c) /\ g_entry g = first la None;
  rf_state : g_state g = state c;
  rf_linearized : g_linearized g = linearized c;
  rf_cache : g_cache g = cache c;
  rf_stack : stacked (g_head g) (g_memory g) (g_calls g) (calls c);
  rf_longest : longest_ok g (longest c) }.

(** * Lists of nodes *)

Lemma shape_unique h l n n' : shape h l n -> shape h l n' -> n = n'.
Proof. destruct 1; destruct 1; simplify_eq; try done; congruence. Qed.

Lemma shape_match h p i v o : shape h p (Call i v o) ->
  exists q, match_of h p = Some q /\ shape h q (Plain i) /\ datas h !! p = Some (VCall v, Some q, i) /\
    datas h !! q = Some (VReturn o, None, i).
Proof.
  inversion 1; subst. exists q. unfold match_of. split_and!; try done; [|by eapply shape_return].
  by match goal with H : datas h !! p = _ |- _ => rewrite H end.
Qed.

Lemma shape_no_match h p i : shape h p (Plain i) -> match_of h p = None.
Proof. unfold match_of. inversion 1; subst; by match goal with H : datas h !! p = _ |- _ => rewrite H end. Qed.

Lemma unlink_split i (a2 a3 : list (node In Out)) : Plain i ∉ a2 -> unlink i (a2 ++ Plain i :: a3) = a2 ++ a3.
Proof.
  induction a2 as [|n a2 IH]; simpl; [by rewrite Z.eqb_refl|]. intros [Hn Ha]%not_elem_of_cons.
  destruct n as [j v o|j]; [by rewrite IH|]. destruct (Z.eqb_spec j i) as [->|]; [done|]. by rewrite IH.
Qed.

(** Where the return of a call is. *)
Lemma split_match h lb p la b i v o a q :
  Forall2 (shape h) (lb ++ p :: la) (b ++ Call i v o :: a) -> length lb = length b ->
  well_formed (b ++ Call i v o :: a) -> match_of h p = Some q -> q ∈ lb ++ p :: la ->
  exists l2 l3 a2 a3, la = l2 ++ q :: l3 /\ a = a2 ++ Plain i :: a3 /\ unlink i a = a2 ++ a3 /\
    Forall2 (shape h) lb b /\ Forall2 (shape h) l2 a2 /\ Forall2 (shape h) l3 a3.
Proof.
  intros Hs Hlen Hwf Hm Hin. destruct (around_call _ _ _ _ _ Hwf) as [Hb Ha].
  apply Forall2_app_inv in Hs as [Hs1 Hs2]; [|done]. inversion Hs2 as [|? ? ? ? Hp Hs3]; subst.
  destruct (shape_match _ _ _ _ _ Hp) as (q' & Hq' & Hqs & _). rewrite Hm in Hq'. injection Hq' as <-.
  assert (q ∈ la) as Hla.
  { apply elem_of_app in Hin as [Hin|[->|Hin]%elem_of_cons]; [exfalso| |done].
    - apply list_elem_of_lookup in Hin as [k Hk]. destruct (Forall2_lookup_l _ _ _ _ _ Hs1 Hk) as (n & Hn & Hqn).
      rewrite (shape_unique _ _ _ _ Hqn Hqs) in Hn. apply list_elem_of_lookup_2 in Hn.
      by eapply (not_in_of_id i (Plain i)) in Hn.
    - apply shape_no_match in Hqs. congruence. }
  apply list_elem_of_split in Hla as (l2 & l3 & ->).
  apply Forall2_app_inv_l in Hs3 as (a2 & a3' & Hs2' & Hs3 & ->). inversion Hs3 as [|? n ? a3 Hn Hs4]; subst.
  rewrite (shape_unique _ _ _ _ Hn Hqs) in *. exists l2, l3, a2, a3. split_and!; try done.
  apply unlink_split. intros Hin2. unfold of_id in Ha. apply list_elem_of_split in Hin2 as (k1 & k2 & ->).
  rewrite <- app_assoc in Ha. simpl in Ha. rewrite filter_app, filter_cons_True, filter_app, filter_cons_True in Ha by done.
  apply (f_equal length) in Ha. rewrite length_app in Ha. simpl in Ha. rewrite length_app in Ha. simpl in Ha. lia.
Qed.

(** No two calls have the same return. *)
Lemma match_inj h locs nodes p p' q :
  Forall2 (shape h) locs nodes -> well_formed nodes -> p ∈ locs -> p' ∈ locs ->
  match_of h p = Some q -> match_of h p' = Some q -> p = p'.
Proof.
  intros Hs Hwf Hp Hp' Hm Hm'.
  assert (forall x, x ∈ locs -> match_of h x = Some q -> exists k i v o, locs !! k = Some x /\ nodes !! k = Some (Call i v o) /\
    shape h q (Plain i)) as Hcall.
  { intros x Hx Hmx. apply list_elem_of_lookup in Hx as [k Hk]. destruct (Forall2_lookup_l _ _ _ _ _ Hs Hk) as (n & Hn & Hxn).
    destruct n as [i v o|i]; [|apply shape_no_match in Hxn; congruence].
    destruct (shape_match _ _ _ _ _ Hxn) as (q' & Hq' & Hqs & _). rewrite Hmx in Hq'. injection Hq' as <-. by exists k, i, v, o. }
  destruct (Hcall p Hp Hm) as (k & i & v & o & Hk & Hn & Hqi), (Hcall p' Hp' Hm') as (k' & i' & v' & o' & Hk' & Hn' & Hqi').
  pose proof (shape_unique _ _ _ _ Hqi Hqi') as [= <-].
  assert (forall k k' v o v' o', nodes !! k = Some (Call i v o) -> nodes !! k' = Some (Call i v' o') -> ~ (k < k')%nat) as Hlt.
  { clear -Hwf. intros k k' v o v' o' Hk Hk' Hlt. apply list_elem_of_split_length in Hk as (l1 & l2 & -> & ->).
    destruct (around_call _ _ _ _ _ Hwf) as [_ Ha]. rewrite lookup_app_r in Hk' by lia.
    destruct (k' - length l1)%nat as [|j] eqn:Ej; [lia|]. simpl in Hk'. apply list_elem_of_lookup_2 in Hk'.
    assert (Call i v' o' ∈ of_id i l2) as Hin by (by apply list_elem_of_filter). rewrite Ha in Hin.
    by apply list_elem_of_singleton in Hin. }
  pose proof (Hlt _ _ _ _ _ _ Hn Hn'). pose proof (Hlt _ _ _ _ _ _ Hn' Hn). assert (k = k') as <- by lia. congruence.
Qed.

(** * lift and unlift *)

Lemma around_perm {A} (p q : A) lb l2 l3 : lb ++ p :: l2 ++ q :: l3 ≡ₚ p :: q :: lb ++ l2 ++ l3.
Proof. rewrite <- Permutation_middle, <- (Permutation_middle l2), <- Permutation_middle. done. Qed.

Lemma threaded_lift h head lb p la b i v o a :
  threaded h head (lb ++ p :: la) (b ++ Call i v o :: a) -> length lb = length b -> well_formed (b ++ Call i v o :: a) ->
  exists h' locs, lift p h = Done tt h' /\ unlift p h' = Done tt h /\ datas h' = datas h /\
    threaded h' head locs (b ++ unlink i a).
Proof.
  intros [Hnd Hd Hs Hp] Hlen Hwf.
  assert (p ∈ lb ++ p :: la) as Hpl by (apply elem_of_app; right; by left).
  assert (shape h p (Call i v o)) as Hsp.
  { apply Forall2_app_inv in Hs as [_ Hs]; [|done]. by inversion Hs. }
  destruct (shape_match _ _ _ _ _ Hsp) as (q & Hm & Hqs & Hdp & _).
  destruct (split_match _ _ _ _ _ _ _ _ _ _ Hs Hlen Hwf Hm) as (l2 & l3 & a2 & a3 & -> & -> & -> & S1 & S2 & S3); [by eapply Hp|].
  apply datas_back in Hdp as (n & Hn & [= Hv Hmn Hi]).
  assert (exists k1 x, head :: lb = k1 ++ [x]) as (k1 & x & Hk).
  { destruct (exists_last (l := head :: lb)) as (k1 & x & ->); [done|eauto]. }
  assert (forall l, head :: lb ++ l = k1 ++ x :: l) as Hkl.
  { intros l. rewrite app_comm_cons, Hk, <- app_assoc. done. }
  assert (NoDup (p :: q :: head :: lb ++ l2 ++ l3)) as Hnd' by (revert Hnd; apply NoDup_Permutation_proper; symmetry; apply (around_perm p q (head :: lb))).
  rewrite Hkl in Hnd, Hd. destruct (lift_run h k1 x p l2 q l3 n Hnd Hd Hn Hmn) as (h' & E1 & Hd' & E2).
  pose proof (keeps_lift p h _ _ E1) as Hdata. unfold same in Hdata.
  exists h', (lb ++ l2 ++ l3). split_and!; try done. split.
  - by apply NoDup_cons in Hnd' as [_ [_ ?]%NoDup_cons].
  - by rewrite Hkl.
  - repeat apply Forall2_app; (eapply Forall2_impl; [eassumption|]); intros ? ?; by apply shape_data.
  - intros p' q' Hin Hm'. unfold match_of in Hm'. rewrite Hdata in Hm'.
    assert (p' ∈ lb ++ p :: l2 ++ q :: l3) as Hin' by (rewrite around_perm; by do 2 right).
    pose proof (Hp _ _ Hin' Hm') as Hq'. rewrite around_perm in Hq'. apply NoDup_cons in Hnd' as [Hnp _].
    assert (p' <> p) as Hpp by (intros ->; apply Hnp; by do 2 right).
    assert (q' <> q) as Hqq by (intros ->; apply Hpp; eapply (match_inj h _ _ _ _ q Hs Hwf Hin' Hpl); [exact Hm'|exact Hm]).
    assert (q' <> p) as Hqp; [|by apply elem_of_cons in Hq' as [?|[?|?]%elem_of_cons]].
    intros ->. clear Hq'. apply list_elem_of_lookup in Hin' as [k Hk'].
    destruct (Forall2_lookup_l _ _ _ _ _ Hs Hk') as (n' & Hn' & Hs').
    destruct n' as [i' v' o'|i']; [|apply shape_no_match in Hs'; unfold match_of in *; congruence].
    destruct (shape_match _ _ _ _ _ Hs') as (q2 & Hq2 & Hq2s & _). unfold match_of in Hq2, Hm. rewrite Hm' in Hq2. injection Hq2 as <-.
    apply shape_no_match in Hq2s. unfold match_of in Hq2s. congruence.
Qed.
(** * The turns *)

Context (model_step : St -> In -> Out -> bool * St) (model_equal : St -> St -> bool).

Lemma on_memory_run {A B} (m : M memory A) (k : A -> M psearch B) g a h :
  m (g_memory g) = Done a h -> (on_memory m ≫= k) g = k a (set_memory h g).
Proof. intros E. unfold on_memory, mbind, M_bind. by rewrite E. Qed.

(** The bit set does not look at the state. *)
Lemma bs_set_any {S} b i (s : S) b' s' : bs_set b i s = Done b' s' -> s' = s /\ forall T (t : T), bs_set b i t = Done b' t.
Proof.
  unfold bs_set, bitsetIndex. intros E. apply bind_inv in E as (w & s1 & Ew & E). unfold go_index in Ew.
  destruct (nthZ b (i / 64)) as [w'|] eqn:En; [|done]. injection Ew as <- <-. unfold go_update in *.
  rewrite En in E. injection E as <- <-. split; [done|]. intros T t. unfold go_index. rewrite En, bind_ret. done.
Qed.
Lemma bs_clear_any {S} b i (s : S) b' s' : bs_clear b i s = Done b' s' -> s' = s /\ forall T (t : T), bs_clear b i t = Done b' t.
Proof.
  unfold bs_clear, bitsetIndex. intros E. apply bind_inv in E as (w & s1 & Ew & E). unfold go_index in Ew.
  destruct (nthZ b (i / 64)) as [w'|] eqn:En; [|done]. injection Ew as <- <-. unfold go_update in *.
  rewrite En in E. injection E as <- <-. split; [done|]. intros T t. unfold go_index. rewrite En, bind_ret. done.
Qed.

Lemma set_memory_id g : set_memory (g_memory g) g = g.
Proof. by destruct g. Qed.

Lemma load_on {B} (k : pnode -> M psearch B) g a n :
  g_memory g !! a = Some n -> (on_memory (load (Some a)) ≫= k) g = k n g.
Proof. intros E. unfold on_memory, load, mbind, M_bind, gets. simpl. rewrite E. simpl. by rewrite set_memory_id. Qed.

Lemma stacked_data head h h' cs fs : datas h' = datas h -> stacked head h cs fs ->
  Forall2 (fun p f => exists v m, datas h' !! p.1 = Some (v, m, f_id f)) cs fs.
Proof.
  intros E Hs. revert h' E. induction Hs as [h|h h1 p s cs f fs lb la Ht Hlen Hu Hd -> Hs IH]; intros h' E; [done|].
  constructor; [|apply IH; congruence]. destruct Ht as [_ _ Hsh _]. apply Forall2_app_inv in Hsh as [_ Hsh]; [|done].
  inversion Hsh as [|? ? ? ? Hp _]; subst. destruct (shape_match _ _ _ _ _ Hp) as (q & _ & _ & Hdp & _).
  simpl. rewrite E, Hd. eauto.
Qed.

Lemma call_ids_run g cs fs :
  Forall2 (fun p f => exists v m, datas (g_memory g) !! p.1 = Some (v, m, f_id f)) cs fs ->
  call_ids cs g = Done (f_id (In := In) (Out := Out) (St := St) <$> fs) g.
Proof.
  induction 1 as [|[p s] f cs fs (v & m & Hp) _ IH]; [done|]. simpl in Hp. cbn [call_ids].
  apply datas_back in Hp as (n & Hn & [= _ _ Hid]). rewrite (load_on _ _ _ _ Hn), (bind_done _ _ _ _ _ IH). simpl. by rewrite Hid.
Qed.

Lemma stack_ids g c : refines g c -> call_ids (reverse (g_calls g)) g = Done (seq_of (calls c)) g.
Proof.
  intros Hr. rewrite (call_ids_run g _ (reverse (calls c))).
  - unfold seq_of. by rewrite <- fmap_reverse.
  - apply Forall2_reverse. by eapply stacked_data; [|apply Hr].
Qed.

(** ** longest *)

Lemma pointed_grow seqs x l : Forall (valid_ptr seqs) l -> pointed (seqs ++ [x]) l = pointed seqs l.
Proof.
  intros Hv. unfold pointed. apply list_fmap_ext. intros i p Hp. rewrite Forall_lookup in Hv. specialize (Hv i p Hp).
  destruct p as [a|]; [|done]. simpl in *. by rewrite lookup_app_l.
Qed.

Lemma valid_grow seqs x l : Forall (valid_ptr seqs) l -> Forall (valid_ptr (seqs ++ [x])) l.
Proof. intros H. eapply Forall_impl; [exact H|]. intros [a|]; [|done]. simpl. rewrite length_app. lia. Qed.

Lemma nthZ_pointed seqs l i : nthZ (pointed seqs l) i = (fun p => p ≫= (seqs !!.)) <$> nthZ l i.
Proof. unfold nthZ, pointed. case_decide; [|done]. by rewrite list_lookup_fmap. Qed.

Lemma pointed_update seqs l i p x :
  seqs !! p = Some x -> pointed seqs (<[i := Some p]> l) = <[i := Some x]> (pointed seqs l).
Proof. intros E. unfold pointed. by rewrite list_fmap_insert; simpl; rewrite E. Qed.

Lemma longest_sim (fs : list (callsEntry In Out St)) all sp g l c l' :
  longest_ok g l -> (forall p, sp = Some p -> g_seqs g !! p = Some all) ->
  update_longest fs all l c = Done l' c ->
  exists L S, longest_loop (f_id <$> fs) all sp g = Done tt (set_longest L S g) /\ longest_ok (set_longest L S g) l'.
Proof.
  revert sp g l. induction fs as [|f fs IH]; intros sp g l Hl Hsp.
  { intros [= <-]. exists (g_longest g), (g_seqs g). split; [|by destruct Hl]. simpl. by destruct g. }
  cbn [update_longest fmap list_fmap longest_loop]. destruct Hl as [Hp Hv]. intros E.
  apply bind_inv in E as (old & c1 & E1 & E). rewrite bind_gets.
  unfold go_index in *. rewrite <- Hp, nthZ_pointed in E1. destruct (nthZ (g_longest g) (f_id f)) as [o|] eqn:Eo; [|done].
  injection E1 as <- <-. rewrite bind_ret.
  assert (forall sp', (forall p, sp' = Some p -> g_seqs g !! p = Some all) -> update_longest fs all l c = Done l' c ->
    exists L S, longest_loop (f_id <$> fs) all sp' g = Done tt (set_longest L S g) /\ longest_ok (set_longest L S g) l') as Hskip.
  { intros sp' Hsp' E'. by eapply IH. }
  assert ((l1 ← go_update l (f_id f) (Some all); update_longest fs all l1) c = Done l' c ->
    exists L S, (let p := default (length (g_seqs g)) sp in
       let seqs := match sp with Some _ => g_seqs g | None => g_seqs g ++ [all] end in
       l1 ← go_update (g_longest g) (f_id f) (Some p); modify (set_longest l1 seqs);; longest_loop (f_id <$> fs) all (Some p)) g
      = Done tt (set_longest L S g) /\ longest_ok (set_longest L S g) l') as Hupd.
  { intros E'. apply bind_inv in E' as (l1 & c1 & E1 & E').
    pose proof (nthZ_Some _ _ _ Eo) as Hrange.
    assert (lenZ l = lenZ (g_longest g)) as Hll by (rewrite <- Hp; unfold pointed; by rewrite length_fmap).
    rewrite go_update_ok in E1 by lia. injection E1 as <- <-. cbv zeta. rewrite (bind_done _ _ _ _ _ (go_update_ok _ _ _ _ Hrange)).
    rewrite bind_modify. set (p := default (length (g_seqs g)) sp).
    set (seqs := match sp with Some _ => g_seqs g | None => g_seqs g ++ [all] end).
    assert (seqs !! p = Some all) as Hat.
    { subst p seqs. destruct sp as [p|]; simpl; [by apply Hsp|]. by rewrite lookup_app_r, Nat.sub_diag by lia. }
    assert (pointed seqs (g_longest g) = l /\ Forall (valid_ptr seqs) (g_longest g)) as [Hp' Hv'].
    { subst seqs. destruct sp; [done|]. rewrite pointed_grow by done. split; [done|by apply valid_grow]. }
    destruct (IH (Some p) (set_longest (<[Z.to_nat (f_id f) := Some p]> (g_longest g)) seqs g)
      (<[Z.to_nat (f_id f) := Some all]> l)) as (L & S & EL & HL); [| |done|].
    - split; simpl; [by rewrite (pointed_update _ _ _ _ _ Hat), Hp'|].
      apply Forall_insert; [done|]. simpl. by eapply lookup_lt_Some.
    - by intros p' [= <-].
    - exists L, S. split; [exact EL|]. by destruct HL. }
  destruct (o ≫= (g_seqs g !!.)) as [x|]; [|by apply Hupd]. destruct (length x <? length all)%nat; [by apply Hupd|by apply Hskip].
Qed.

(** ** One turn *)

Definition turn_sim (r : option bool) (mp : outcome psearch (option bool)) (c' : search) : Prop :=
  exists g', mp = Done r g' /\ (r = None -> refines g' c') /\ longest_ok g' (longest c').

(** [entry = entry.next] *)
Lemma advance_sim g c c' r n rest p x la lb :
  refines g c -> after c = n :: rest -> threaded (g_memory g) (g_head g) (lb ++ p :: la) (before c ++ n :: rest) ->
  length lb = length (before c) -> g_memory g !! p = Some x -> advance n rest c = Done r c' ->
  turn_sim r ((modify (set_entry (p_next x));; mret None) g) c'.
Proof.
  intros [R1 R2 R3 R4 R5 R6] Ha Ht Hlen Hx E. injection E as <- <-. eexists. split; [reflexivity|].
  split; [|by destruct R6]. intros _. split; try done; [|by destruct R6]. simpl.
  exists (lb ++ [p]), la. rewrite <- !app_assoc. split; [done|]. rewrite !length_app. simpl. split; [lia|].
  destruct Ht as [_ Hd _ _]. rewrite app_comm_cons in Hd. apply dseg_app in Hd as [_ [(x' & Hx' & _ & Hn) _]].
  rewrite Hx in Hx'. by injection Hx' as <-.
Qed.

Lemma try_call_sim g c c' r i v o rest p x m la lb :
  refines g c -> well_formed (before c ++ after c) -> after c = Call i v o :: rest ->
  threaded (g_memory g) (g_head g) (lb ++ p :: la) (before c ++ Call i v o :: rest) ->
  length lb = length (before c) -> g_memory g !! p = Some x -> p_match x = Some m ->
  try_call model_step model_equal i v o rest c = Done r c' ->
  turn_sim r (p_try_call model_step model_equal p x m g) c'.
Proof.
  intros HR Hwf Ha Ht Hlen Hx Hm E. pose proof HR as [R1 R2 R3 R4 R5 R6].
  assert (shape (g_memory g) p (Call i v o)) as Hsp.
  { destruct Ht as [_ _ Hs _]. apply Forall2_app_inv in Hs as [_ Hs]; [|done]. by inversion Hs. }
  destruct (shape_match _ _ _ _ _ Hsp) as (q & Hq & _ & Hdp & Hdq). rewrite (datas_lookup _ _ _ Hx) in Hdp.
  injection Hdp as Hv Hmq Hid. rewrite Hm in Hmq. injection Hmq as <-.
  apply datas_back in Hdq as (y & Hy & [= Hyv _ _]).
  unfold p_try_call. rewrite (load_on _ _ _ _ Hy), bind_gets, Hv, Hyv, Hid. cbn [step_values]. rewrite bind_ret, R2.
  unfold try_call in E. rewrite bind_gets in E. destruct (model_step (state c) v o) as [ok s'].
  destruct ok; [|by eapply advance_sim].
  apply bind_inv in E as (b & c1 & Eb & E). rewrite R3.
  destruct (bs_set_any _ _ _ _ _ Eb) as [-> Ebs]. pose proof (Ebs psearch g) as Eb'.
  rewrite (bind_done _ _ _ _ _ Eb'), R4. destruct (cacheContains _ _ _ _); [by eapply advance_sim|].
  change (bs_clone (linearized c)) with (linearized c) in *. rewrite (bind_done _ _ _ _ _ Eb) in E.
  rewrite (bind_done _ _ _ _ _ Eb'), bind_modify. injection E as <- <-.
  rewrite Ha in Hwf. destruct (threaded_lift _ _ _ _ _ _ _ _ _ _ Ht Hlen Hwf) as (h' & locs & EL & EU & Hdata & Ht').
  rewrite (on_memory_run _ _ _ tt h') by exact EL.
  destruct (th_dseg _ _ _ _ Ht') as [(hn & Hh & _ & Hnext) _].
  erewrite load_on by exact Hh. eexists. split; [reflexivity|]. split; [|by destruct R6].
  intros _. split; simpl; try done; [|by rewrite R4| |by destruct R6].
  - exists [], locs. done.
  - by econstructor.
Qed.
Lemma partial_sim (cp : bool) g c l1 :
  refines g c ->
  (if cp then update_longest (reverse (calls c)) (seq_of (calls c)) (longest c) else mret (longest c)) c = Done l1 c ->
  exists L S, ((if cp then ids ← call_ids (reverse (g_calls g)); longest_loop ids ids None else mret tt) : M psearch unit) g
      = Done tt (set_longest L S g) /\ longest_ok (set_longest L S g) l1.
Proof.
  intros HR E. destruct cp.
  - rewrite (bind_done _ _ _ _ _ (stack_ids _ _ HR)). unfold seq_of in *. rewrite <- fmap_reverse in *.
    by eapply longest_sim; [apply HR|done|].
  - injection E as <-. exists (g_longest g), (g_seqs g). split; [by destruct g|]. by destruct (rf_longest _ _ HR).
Qed.

Lemma update_longest_state (cs : list (callsEntry In Out St)) seq l c l' c' : update_longest cs seq l c = Done l' c' -> c' = c.
Proof.
  revert l. induction cs as [|f cs IH]; intros l; [by intros [= _ <-]|]. cbn [update_longest]. intros E.
  apply bind_inv in E as (o & c1 & E1 & E). unfold go_index in E1. destruct (nthZ l (f_id f)) as [o'|] eqn:En; [|done].
  injection E1 as -> <-.
  assert (forall x, (l1 ← go_update l (f_id f) x; update_longest cs seq l1) c = Done l' c' -> c' = c) as Hu.
  { intros x E'. apply bind_inv in E' as (l1 & c1 & E1 & E'). unfold go_update in E1. rewrite En in E1.
    injection E1 as <- <-. by eapply IH. }
  destruct o as [p|]; [|by eapply Hu]. destruct (_ <? _)%nat; [by eapply Hu|by eapply IH].
Qed.

Lemma backtrack_sim cp g c c' r :
  refines g c -> backtrack cp c = Done r c' -> turn_sim r (p_backtrack cp g) c'.
Proof.
  intros HR E. pose proof HR as [R1 R2 R3 R4 R5 R6]. unfold p_backtrack. rewrite bind_gets.
  unfold backtrack in E. rewrite bind_gets in E.
  inversion R5 as [h Eh Ec Ef|h h' p s cs f fs lb la Ht Hlen Hu Hd Hs Hst Eh Ec Ef]; rewrite <- Ef in E.
  { injection E as <- <-. exists g. by split. }
  apply bind_inv in E as (l1 & c1 & E1 & E).
  assert (c1 = c) as -> by (destruct cp; [by eapply update_longest_state|by injection E1]). rewrite Ef in E1.
  destruct (partial_sim cp g c l1 HR E1) as (L & S & EL & HL). rewrite Ec. rewrite (bind_done _ _ _ _ _ EL).
  assert (shape h p (Call (f_id f) (f_value f) (f_match f))) as Hsp.
  { destruct Ht as [_ _ Hsh _]. apply Forall2_app_inv in Hsh as [_ Hsh]; [|done]. by inversion Hsh. }
  destruct (shape_match _ _ _ _ _ Hsp) as (q & _ & _ & Hdp & _). pose proof Hdp as Hdp0. rewrite <- Hd in Hdp.
  apply datas_back in Hdp as (x & Hx & [= _ _ Hid]). apply datas_back in Hdp0 as (x0 & Hx0 & _). subst h'.
  erewrite load_on by exact Hx. rewrite Hid, R3. apply bind_inv in E as (b & c1 & Eb & E).
  destruct (bs_clear_any _ _ _ _ _ Eb) as [-> Ebs]. rewrite (bind_done _ _ _ _ _ (Ebs _ _)), bind_modify.
  injection E as <- <-. erewrite on_memory_run by exact Hu. erewrite load_on by exact Hx0.
  eexists. split; [reflexivity|]. split; [|by destruct HL]. intros _. split; simpl; try done; [|by destruct HL].
  exists (lb ++ [p]), la. rewrite <- !app_assoc. split; [done|]. rewrite !length_app. simpl. split; [lia|].
  destruct Ht as [_ Hdg _ _]. rewrite app_comm_cons in Hdg. apply dseg_app in Hdg as [_ [(x' & Hx' & _ & Hn) _]].
  rewrite Hx0 in Hx'. by injection Hx' as <-.
Qed.

Lemma turn_simulates cp kill g c c' r :
  refines g c -> well_formed (before c ++ after c) ->
  check_turn model_step model_equal cp kill c = Done r c' -> turn_sim r (p_turn model_step model_equal cp kill g) c'.
Proof.
  intros HR Hwf E. pose proof HR as [R1 R2 R3 R4 R5 R6]. destruct R1 as (lb & la & Ht & Hlen & He).
  unfold check_turn in E. rewrite bind_gets in E. unfold p_turn. rewrite bind_gets.
  destruct (th_dseg _ _ _ _ Ht) as [(hn & Hh & _ & Hnext) _]. erewrite load_on by exact Hh.
  pose proof (th_shape _ _ _ _ Ht) as Hsh. pose proof (Forall2_length _ _ _ Hsh) as Hl.
  destruct (before c ++ after c) as [|n0 l0] eqn:El.
  - destruct (lb ++ la); [|done]. rewrite Hnext. simpl. rewrite (bind_done _ _ _ _ _ (stack_ids _ _ HR)).
    injection E as <- <-. eexists. split; [reflexivity|]. split; [done|]. simpl. destruct R6 as [R6 R7].
    assert (length (longest c) = length (g_longest g)) as -> by (rewrite <- R6; unfold pointed; apply length_fmap). split.
    + simpl. unfold pointed. rewrite fmap_replicate. simpl. by rewrite lookup_app_r, Nat.sub_diag by lia.
    + simpl. apply Forall_replicate. simpl. rewrite length_app. simpl. lia.
  - rewrite Hnext. destruct (lb ++ la) as [|p0 k0] eqn:Ek; [done|]. simpl.
    destruct kill; [injection E as <- <-; by exists g|]. rewrite <- Ek, <- El in *.
    destruct (after c) as [|n rest] eqn:Ea; [done|].
    apply Forall2_app_inv in Hsh as [_ Hsh]; [|done]. inversion Hsh as [|p ? la' ? Hp Hrest]; subst la. simpl in He. rewrite He.
    assert (exists x, g_memory g !! p = Some x) as [x Hx].
    { pose proof (th_dseg _ _ _ _ Ht) as Hd. rewrite app_comm_cons in Hd. apply dseg_app in Hd as [_ [(x & Hx & _) _]]. eauto. }
    erewrite load_on by exact Hx. destruct n as [i v o|i].
    + destruct (shape_match _ _ _ _ _ Hp) as (q & _ & _ & Hdp & _). rewrite (datas_lookup _ _ _ Hx) in Hdp.
      injection Hdp as _ Hm _. rewrite Hm. eapply try_call_sim; try done. by rewrite Ea.
    + apply shape_no_match in Hp. unfold match_of in Hp. rewrite (datas_lookup _ _ _ Hx) in Hp. simpl in Hp. rewrite Hp.
      by eapply backtrack_sim.
Qed.
(** * The whole search *)

(** The length of the list. *)
Lemma length_run h pp l nn fuel k :
  dseg h pp l None -> nn = first l None -> (length l <= fuel)%nat -> length_from fuel nn k h = Done (Some (k + lenZ l)) h.
Proof.
  revert pp nn fuel k. induction l as [|p l IH]; intros pp nn fuel k; simpl.
  - intros _ -> _. by destruct fuel; simpl; rewrite Z.add_0_r.
  - intros [(n & Hn & _ & Hnx) Hd] -> Hf. destruct fuel as [|fuel]; [lia|]. simpl. rewrite (load_run _ _ _ _ Hn).
    rewrite (IH (Some p) (p_next n) fuel (k + 1)); [do 2 f_equal; lia|done|done|lia].
Qed.

Lemma elem_of_reverse_seq_lookup n k p : reverse (seq 0 n) !! k = Some p -> (p < n)%nat.
Proof. intros H. apply elem_of_reverse_seq. by eapply list_elem_of_lookup_2. Qed.

Lemma start_refines (init : St) (history : list (entry In Out)) :
  well_formed (makeLinkedEntries history) ->
  exists g h, p_start init history [] = Done g h /\ refines g (init_search init (makeLinkedEntries history)).
Proof.
  intros Hwf. destruct (link_entries_run history) as (ptrs & h & E & [Hl Hd Hs Hm]).
  unfold makeLinkedEntries in *. set (nodes := (linkEntries history).1) in *. set (n := length history) in *.
  unfold p_start. rewrite (bind_done _ _ _ _ _ E). cbn [fst].
  rewrite (bind_done _ _ _ _ _ (length_run _ _ _ _ n 0 Hd eq_refl ltac:(by rewrite length_reverse, length_seq))).
  destruct (insert_run h n (mkPNode VNil None (-1) None None) Hl Hd eq_refl eq_refl) as (h' & E' & Hd' & Hd2).
  assert (length (reverse (seq 0 n)) = length nodes) as Hlen by (by eapply Forall2_length).
  apply bind_inv in E' as (e & h1 & E1 & E2). rewrite (bind_done _ _ _ _ _ E1), (bind_done _ _ _ _ _ E2), bind_gets.
  eexists _, h'. split; [reflexivity|]. rewrite reverse_seq_S in Hd2.
  assert (forall p d, datas h !! p = Some d -> datas h' !! p = Some d) as Hgrow.
  { intros p d Hp. rewrite Hd', lookup_app_l; [done|]. by eapply lookup_lt_Some. }
  split; simpl; try done.
  - exists [], (reverse (seq 0 n)). split; [|done]. split; [| done | |].
    + rewrite <- reverse_seq_S, reverse_Permutation. apply NoDup_seq.
    + eapply shapes_grow; [exact Hd'|exact Hs].
    + intros p q Hp Hpq. apply list_elem_of_lookup in Hp as [k Hk]. destruct (Forall2_lookup_l _ _ _ _ _ Hs Hk) as (nd & Hn & Hsh).
      assert (match_of h p = Some q) as Hmq.
      { unfold match_of in *. apply elem_of_reverse_seq_lookup in Hk. destruct (lookup_lt_is_Some_2 (datas h) p) as [d Hdp].
        { unfold datas. rewrite length_fmap. lia. }
        rewrite Hdp. by rewrite (Hgrow _ _ Hdp) in Hpq. }
      destruct nd as [i v o|i]; [|apply shape_no_match in Hsh; congruence].
      destruct (shape_match _ _ _ _ _ Hsh) as (q' & Hq' & _ & _ & Hdq). rewrite Hmq in Hq'. injection Hq' as <-.
      apply elem_of_reverse_seq. apply lookup_lt_Some in Hdq. unfold datas in Hdq. rewrite length_fmap in Hdq. lia.
  - by rewrite Hlen, Z.add_0_l, Nat2Z.id.
  - constructor.
  - rewrite Hlen, Z.add_0_l, Nat2Z.id. split; simpl; [|apply Forall_replicate; done]. unfold pointed. by rewrite fmap_replicate.
Qed.

Lemma loop_simulates (init : St) nodes cp kill fuel g c r c' :
  (forall s1 s2, model_equal s1 s2 = true -> s1 = s2) -> well_formed nodes ->
  Forall (fun n => 0 <= nid n < Z.of_nat (length nodes / 2)) nodes ->
  refines g c -> search_inv model_step init nodes c ->
  check_loop model_step model_equal fuel cp kill c = Done r c' ->
  exists g', p_loop model_step model_equal fuel cp kill g = Done r g' /\ longest_ok g' (longest c').
Proof.
  intros He Hwf Hids. revert g c. induction fuel as [|fuel IH]; intros g c HR Hinv E; cbn [check_loop p_loop] in *.
  { injection E as <- <-. exists g. by destruct HR. }
  apply bind_inv in E as (r1 & c1 & E1 & E).
  destruct (turn_simulates cp (kill fuel) g c c1 r1 HR) as (g1 & Eg & Hnext & Hlong); [|done|].
  { rewrite (si_list _ _ _ _ Hinv). by apply rem_well_formed. }
  rewrite (bind_done _ _ _ _ _ Eg). destruct r1 as [b|].
  - injection E as <- <-. by exists g1.
  - eapply IH; [by apply Hnext| |exact E].
    destruct (kill fuel) eqn:Ek.
    + exfalso. unfold check_turn in E1. rewrite bind_gets in E1. by destruct (before c ++ after c).
    + pose proof (check_turn_ok _ _ He _ _ Hwf Hids cp c Hinv) as Hok. unfold wp in Hok. rewrite E1 in Hok. apply Hok.
Qed.
End sim.

(** The two searches side by side. *)
Lemma pointer_search_run {In Out St} (model_step : St -> In -> Out -> bool * St) model_equal (init : St)
    (history : list (entry In Out)) cp kill fuel :
  (forall s1 s2, model_equal s1 s2 = true -> s1 = s2) ->
  well_formed (makeLinkedEntries history) ->
  Forall (fun n => 0 <= nid n < Z.of_nat (length (makeLinkedEntries history) / 2)) (makeLinkedEntries history) ->
  exists r c g, checkSingle model_step model_equal init history cp kill fuel = Done r c /\
    p_checkSingle model_step model_equal init history cp kill fuel = Done r g /\ longest_ok g (longest c).
Proof.
  intros He Hwf Hids. destruct (checkSingle_run model_step model_equal init history cp kill fuel He Hwf Hids) as (r & c & E & _).
  destruct (start_refines init history Hwf) as (g & h & Eg & HR). exists r, c. unfold p_checkSingle. rewrite Eg.
  unfold checkSingle in E. destruct (loop_simulates model_step model_equal init _ cp kill fuel g _ r c He Hwf Hids HR
    (init_search_inv _ _ _) E) as (g' & E' & HL). by exists g'.
Qed.

(** * Theorems *)

(** C14: The search of the checker on its doubly linked list with pointers does what
    the search on plain lists does: on the entries of a complete history, with any
    model, kill flag and number of turns, it returns the same answer, and the
    sequences that [longest] points to are the same.  lift and unlift therefore
    change the list the way the search needs, and no pointer that is used is nil. *)
Theorem pointer_search_refines {In Out St} (model_step : St -> In -> Out -> bool * St) model_equal (init : St)
    (history : list (entry In Out)) cp kill fuel :
  (forall s1 s2, model_equal s1 s2 = true -> s1 = s2) ->
  well_formed (makeLinkedEntries history) ->
  Forall (fun n => 0 <= nid n < Z.of_nat (length (makeLinkedEntries history) / 2)) (makeLinkedEntries history) ->
  exists r c g, checkSingle model_step model_equal init history cp kill fuel = Done r c /\
    p_checkSingle model_step model_equal init history cp kill fuel = Done r g /\
    pointed (g_seqs g) (g_longest g) = longest c.
Proof.
  intros He Hwf Hids. destruct (pointer_search_run model_step model_equal init history cp kill fuel He Hwf Hids)
    as (r & c & g & E & E' & HL). exists r, c, g. split; [done|]. split; [done|apply HL].
Qed.

(** lift and unlift are inverse.  Whatever list of nodes is linked in memory,
    when the call [p] has a node before it and its return [q] after it in the list,
    lift takes exactly the two out and unlift run on the result restores every
    pointer of the memory. *)
Theorem unlift_undoes_lift {In Out} (h : list (pnode In Out)) k1 a p l2 q l3 n :
  let l := k1 ++ a :: p :: l2 ++ q :: l3 in
  NoDup l -> dseg h None l None -> h !! p = Some n -> p_match n = Some q ->
  exists h', lift p h = Done tt h' /\ dseg h' None (k1 ++ a :: l2 ++ l3) None /\ unlift p h' = Done tt h.
Proof. apply lift_run. Qed.

(** ** Instances *)

(** Two overlapping operations on a counter that each see their own increment. *)
Definition counter_step (s i o : Z) : bool * Z := (s + i =? o, s + i).
Definition counter_history : list (entry Z Z) :=
  [callEntry 1 0 0 0; callEntry 2 1 1 1; returnEntry 3 0 2 0; returnEntry 2 1 3 1].

Lemma counter_well_formed : well_formed (makeLinkedEntries counter_history).
Proof.
  intros i. unfold of_id. vm_compute makeLinkedEntries.
  destruct (decide (i = 0)) as [->|H0]; [right; by exists 1, 3|].
  destruct (decide (i = 1)) as [->|H1]; [right; by exists 2, 2|].
  left. by rewrite !filter_cons_False by (simpl; congruence).
Qed.

Lemma pointer_search_refines_witness :
  exists r c g, checkSingle counter_step Z.eqb 0 counter_history true (fun _ => false) 20 = Done r c /\
    p_checkSingle counter_step Z.eqb 0 counter_history true (fun _ => false) 20 = Done r g /\
    pointed (g_seqs g) (g_longest g) = longest c.
Proof.
  apply (pointer_search_refines counter_step Z.eqb 0 counter_history true (fun _ => false) 20);
    [intros s1 s2; apply Z.eqb_eq|exact counter_well_formed|vm_compute; repeat constructor; done].
Defined.

(** The list of one operation, call and return, behind a head. *)
Definition one_operation : list (pnode Z Z) :=
  [mkPNode (VReturn 2) None 0 None (Some 1%nat); mkPNode (VCall 1) (Some 0%nat) 0 (Some 0%nat) (Some 2%nat);
   mkPNode VNil None (-1) (Some 1%nat) None].

Lemma unlift_undoes_lift_witness :
  exists h', lift 1%nat one_operation = Done tt h' /\ dseg h' None [2%nat] None /\ unlift 1%nat h' = Done tt one_operation.
Proof.
  apply (unlift_undoes_lift one_operation [] 2 1 [] 0 [] (mkPNode (VCall 1) (Some 0%nat) 0 (Some 0%nat) (Some 2%nat)));
    [|by repeat (split; [eexists; split; [reflexivity|done]|])|reflexivity..].
  simpl. repeat constructor; set_solver.
Defined.
