(* ===== verification/Visualize.v ===== *)
(** What the checker collects for its visualization (porcupine/checker.go,
    visualization.go, model.go, models/kv.go).

    checkParallel turns the pointers of [longest] into a set of sequences per
    partition; computeVisualizationData replays each of them on the model and
    panics when the model refuses a step.  The order of iteration over a Go map,
    sort.Slice, fmt's %v and the encoding and writing of the page are parameters. *)

From S2P Require Import Prelude Bitset Checker CheckerSpec CheckerProof CheckerOps LinkedList LinkedListProof.
From S2P Require Import LinkedListSim KvModel.

(** * model.go, models/kv.go: descriptions *)

Definition DefaultDescribeOperation {In Out} (fmt_in : In -> string) (fmt_out : Out -> string) (v : In) (o : Out) : string :=
  fmt_in v +:+ " -> " +:+ fmt_out o.
Definition DefaultDescribeState {St} (fmt_state : St -> string) (s : St) : string := fmt_state s.

Definition kv_DescribeOperation (inp : KvInput) (out : KvOutput) : string :=
  if in_Op inp =? 0 then "get('" +:+ in_Key inp +:+ "') -> '" +:+ out_Value out +:+ "'"
  else if in_Op inp =? 1 then "put('" +:+ in_Key inp +:+ "', '" +:+ in_Value inp +:+ "')"
  else if in_Op inp =? 2 then "append('" +:+ in_Key inp +:+ "', '" +:+ in_Value inp +:+ "')"
  else "<invalid>".

Section info.
Context {In Out St : Type}.
Abbreviation entry := (entry In Out).
Abbreviation Operation := (Operation In Out).

(** * checker.go: the partial linearizations *)

Record linearizationInfo := mkInfo { i_history : list (list entry); i_partials : list (list (list Z)) }.

(** [order]: how the runtime iterates over the set. *)
Definition partials_of (order : gset nat -> list nat) (seqs : list (list Z)) (longest : list (option nat)) : list (list Z) :=
  let set := foldl (fun (s : gset nat) v => match v with Some p => {[p]} ∪ s | None => s end) ∅ longest in
  (fun k => default [] (seqs !! k)) <$> order set.

(** What each goroutine of checkParallel leaves; [kill i] is what its turns see of
    the flag. *)
Definition partition_partials (order : gset nat -> list nat) (model_step : St -> In -> Out -> bool * St)
    (model_equal : St -> St -> bool) (init : St) (fuel : nat) (kill : nat -> nat -> bool) (i : nat)
    (subhistory : list entry) : option (list (list Z)) :=
  match p_checkSingle model_step model_equal init subhistory true (kill i) fuel with
  | Done (Some _) g => Some (partials_of order (g_seqs g) (g_longest g))
  | _ => None
  end.

Definition compute_info (order : gset nat -> list nat) (model_step : St -> In -> Out -> bool * St)
    (model_equal : St -> St -> bool) (init : St) (fuel : nat) (kill : nat -> nat -> bool)
    (history : list (list entry)) : option linearizationInfo :=
  mkInfo history <$> mapM (fun p => partition_partials order model_step model_equal init fuel kill p.1 p.2)
                         (imap (fun i sub => (i, sub)) history).

(** * visualization.go *)

Record historyElement := mkHE { he_ClientId : Z; he_Start : Z; he_End : Z; he_Description : string }.
Record linearizationStep := mkLS { ls_Index : Z; ls_StateDescription : string }.
Abbreviation partialLinearization := (list linearizationStep).
Record partitionVisualizationData := mkPVD {
  pv_History : list historyElement;
  pv_PartialLinearizations : list partialLinearization;
  pv_Largest : gmap Z Z }.

Context (describeOperation : In -> Out -> string) (describeState : St -> string).
Context (model_step : St -> In -> Out -> bool * St) (init : St).

(** The maps of a partition: largestIndex and largestSize. *)
Definition largest := (gmap Z Z * gmap Z Z)%type.

(** The loop over the entries; a missing map entry is nil, which the model's type
    assertions refuse. *)
Fixpoint fill_history {S} (es : list entry) (history : list historyElement) (callValue : gmap Z In)
    (returnValue : gmap Z Out) : M S (list historyElement * gmap Z In * gmap Z Out) :=
  match es with
  | [] => mret (history, callValue, returnValue)
  | callEntry v id time clientId :: es =>
      x ← go_index history id;
      history ← go_update history id (mkHE clientId time (he_End x) (he_Description x));
      fill_history es history (<[id := v]> callValue) returnValue
  | returnEntry o id time _ :: es =>
      x ← go_index history id;
      match callValue !! id with
      | None => throw TypeAssertion
      | Some v =>
          history ← go_update history id (mkHE (he_ClientId x) (he_Start x) time (describeOperation v o));
          fill_history es history callValue (<[id := o]> returnValue)
      end
  end.

(** Replaying one partial linearization, the [i]th, of length [len]. *)
Fixpoint replay_partial (callValue : gmap Z In) (returnValue : gmap Z Out) (i len : Z) (state : St) (partial : list Z)
    : M largest partialLinearization :=
  match partial with
  | [] => mret []
  | histId :: partial =>
      match callValue !! histId, returnValue !! histId with
      | Some v, Some o =>
          let '(ok, state) := model_step state v o in
          if (ok : bool) then
            modify (fun l => if default 0 (snd l !! histId) <? len
                             then (<[histId := i]> (fst l), <[histId := len]> (snd l)) else l);;
            rest ← replay_partial callValue returnValue i len state partial;
            mret (mkLS histId (describeState state) :: rest)
          else throw ExplicitPanic
      | _, _ => throw TypeAssertion
      end
  end.

Fixpoint replay_partials (callValue : gmap Z In) (returnValue : gmap Z Out) (i : Z) (partials : list (list Z))
    : M largest (list partialLinearization) :=
  match partials with
  | [] => mret []
  | partial :: partials =>
      p ← replay_partial callValue returnValue i (lenZ partial) init partial;
      ps ← replay_partials callValue returnValue (i + 1) partials;
      mret (p :: ps)
  end.

(** One partition; [sort] is sort.Slice by decreasing length. *)
Definition partition_data (sort : list (list Z) -> list (list Z)) (es : list entry) (partials : list (list Z))
    : outcome largest partitionVisualizationData :=
  let n := (length es / 2)%nat in
  (r ← fill_history es (replicate n (mkHE 0 0 0 "")) ∅ ∅;
   let '(history, callValue, returnValue) := r in
   linearizations ← replay_partials callValue returnValue 0 (sort partials);
   l ← gets fst;
   mret (mkPVD history linearizations l)) (∅, ∅).

Fixpoint partitions_data (sort : list (list Z) -> list (list Z)) (history : list (list entry))
    (partials : list (list (list Z))) : outcome unit (list partitionVisualizationData) :=
  match history with
  | [] => Done [] tt
  | es :: history =>
      match partials with
      | [] => Panicked IndexOutOfRange tt
      | ps :: partials =>
          match partition_data sort es ps with
          | Done d _ => match partitions_data sort history partials with
                        | Done ds _ => Done (d :: ds) tt
                        | o => o
                        end
          | Panicked p _ => Panicked p tt
          | Blocked _ => Blocked tt
          end
      end
  end.

Definition computeVisualizationData (sort : list (list Z) -> list (list Z)) (info : linearizationInfo)
    : outcome unit (list partitionVisualizationData) :=
  partitions_data sort (i_history info) (i_partials info).

(** Visualize and VisualizePath: the error, if there is one.  [marshal] is
    json.Marshal, [print] the write of the page, [create] os.Create. *)
Definition Visualize {Err} (sort : list (list Z) -> list (list Z))
    (marshal : list partitionVisualizationData -> Err + string) (print : string -> option Err)
    (info : linearizationInfo) : outcome unit (option Err) :=
  match computeVisualizationData sort info with
  | Done data _ =>
      match marshal data with
      | inl err => Done (Some err) tt
      | inr jsonData => Done (print jsonData) tt
      end
  | Panicked p s => Panicked p s
  | Blocked s => Blocked s
  end.

Definition VisualizePath {Err} (sort : list (list Z) -> list (list Z))
    (marshal : list partitionVisualizationData -> Err + string) (create : string -> Err + (string -> option Err))
    (info : linearizationInfo) (path : string) : outcome unit (option Err) :=
  match create path with
  | inl err => Done (Some err) tt
  | inr print => Visualize sort marshal print info
  end.
End info.
