(* ===== verification/VisualizeProof.v ===== *)
(** The data of the visualization: every partial linearization that the search
    keeps is a legal run of the model, so replaying it never panics, and the data
    shows the operations, the runs and, for each operation, the longest run it is
    in. *)

From Stdlib Require Import Sorted.
From stdpp Require Import sorting.
From S2P Require Import Prelude Bitset Checker CheckerSpec CheckerProof CheckerOps LinkedList LinkedListProof.
From S2P Require Import LinkedListSim KvModel CheckerTheorems Visualize.

(** * What the search keeps in longest *)

Section legal.
Context {In Out St : Type}.
Context (model_step : St -> In -> Out -> bool * St) (model_equal : St -> St -> bool).
Context (Hequal : forall s1 s2, model_equal s1 s2 = true -> s1 = s2).
Context (init : St) (nodes : list (node In Out)).
Context (Hwf : well_formed nodes).
Context (Hids : Forall (fun n => 0 <= nid n < Z.of_nat (length nodes / 2)) nodes).

(** The calls with these identifiers are a legal run from [s]. *)
Fixpoint legal_ids (s : St) (ids : list Z) : Prop :=
  match ids with
  | [] => True
  | i :: ids => exists v o s', Call i v o ∈ nodes /\ model_step s v o = (true, s') /\ legal_ids s' ids
  end.

(** The same, with the state at the end. *)
Fixpoint runs_to (s : St) (ids : list Z) (s' : St) : Prop :=
  match ids with
  | [] => s' = s
  | i :: ids => exists v o s1, Call i v o ∈ nodes /\ model_step s v o = (true, s1) /\ runs_to s1 ids s'
  end.

Lemma runs_legal s ids s' : runs_to s ids s' -> legal_ids s ids.
Proof. revert s. induction ids as [|i ids IH]; intros s; [done|]. intros (v & o & s1 & H1 & H2 & H3). exists v, o, s1. eauto. Qed.

Lemma runs_snoc s ids s1 i v o s' :
  runs_to s ids s1 -> Call i v o ∈ nodes -> model_step s1 v o = (true, s') -> runs_to s (ids ++ [i]) s'.
Proof.
  revert s. induction ids as [|j ids IH]; intros s; simpl.
  - intros -> Hin Hs. by exists v, o, s'.
  - intros (v1 & o1 & s2 & H1 & H2 & H3) Hin Hs. exists v1, o1, s2. eauto.
Qed.

(** The stack is a run. *)
Lemma frames_run m s cs : frames_ok model_step init nodes m s cs -> runs_to init (seq_of cs) s.
Proof.
  revert m s. induction cs as [|f cs IH]; intros m s; simpl; [by intros [-> _]|].
  intros (_ & E & _ & _ & Hs & Hf). unfold seq_of. rewrite fmap_cons, reverse_cons. eapply runs_snoc; [by eapply IH| |exact Hs].
  assert (Call (f_id f) (f_value f) (f_match f) ∈ rem nodes (minus m (f_id f))) as Hin
    by (rewrite E; apply elem_of_app; right; by left).
  by apply list_elem_of_filter in Hin as [_ ?].
Qed.

Definition kept_legal (l : list (option (list Z))) : Prop := forall q, Some q ∈ l -> legal_ids init q.

Lemma kept_insert l i q : kept_legal l -> legal_ids init q -> kept_legal (<[i := Some q]> l).
Proof.
  intros Hl Hq q' (j & Hj)%list_elem_of_lookup. rewrite list_lookup_insert in Hj. case_decide; [by injection Hj as <-|].
  apply Hl. by eapply list_elem_of_lookup_2.
Qed.

Lemma update_kept (cs : list (callsEntry In Out St)) seq l c l' c' :
  legal_ids init seq -> kept_legal l -> update_longest cs seq l c = Done l' c' -> kept_legal l'.
Proof.
  intros Hseq. revert l c. induction cs as [|f cs IH]; intros l c Hl; [by intros [= <- _]|]. cbn [update_longest]. intros E.
  apply bind_inv in E as (o & c1 & _ & E).
  assert (forall c1, (l1 ← go_update l (f_id f) (Some seq); update_longest cs seq l1) c1 = Done l' c' -> kept_legal l') as Hu.
  { intros c2 E'. apply bind_inv in E' as (l1 & c3 & E1 & E'). unfold go_update in E1. destruct (nthZ l (f_id f)); [|done].
    injection E1 as <- <-. eapply IH; [|exact E']. by apply kept_insert. }
  destruct o as [p|]; [|by eapply Hu]. destruct (_ <? _)%nat; [by eapply Hu|by eapply IH].
Qed.

Lemma turn_kept cp kill c r c' :
  search_inv model_step init nodes c -> kept_legal (longest c) ->
  check_turn model_step model_equal cp kill c = Done r c' -> kept_legal (longest c').
Proof.
  intros Hinv Hk E. pose proof (frames_run _ _ _ (si_frames _ _ _ _ Hinv)) as Hrun. apply runs_legal in Hrun.
  unfold check_turn in E. rewrite bind_gets in E. destruct (before c ++ after c) as [|n l].
  { injection E as _ <-. simpl. intros q [Hq _]%elem_of_replicate. by injection Hq as ->. }
  destruct kill; [by injection E as _ <-|]. destruct (after c) as [|[i v o|i] rest]; [done| |].
  - assert (longest c' = longest c) as ->; [|done]. unfold try_call in E. rewrite bind_gets in E.
    destruct (model_step (state c) v o) as [[] s']; [|by injection E as _ <-].
    apply bind_inv in E as (b & c1 & Eb & E). destruct (bs_set_any _ _ _ _ _ Eb) as [-> _].
    destruct (cacheContains _ _ _ _); [by injection E as _ <-|]. apply bind_inv in E as (b' & c1 & Eb' & E).
    destruct (bs_set_any _ _ _ _ _ Eb') as [-> _]. by injection E as _ <-.
  - unfold backtrack in E. rewrite bind_gets in E. destruct (calls c) as [|top cs] eqn:Ec; [by injection E as _ <-|].
    apply bind_inv in E as (l1 & c1 & E1 & E). apply bind_inv in E as (b & c2 & Eb & E). injection E as _ <-. simpl.
    destruct cp; [|by injection E1 as <- _]. by eapply update_kept.
Qed.

Lemma loop_kept cp kill fuel c r c' :
  search_inv model_step init nodes c -> kept_legal (longest c) ->
  check_loop model_step model_equal fuel cp kill c = Done r c' -> kept_legal (longest c').
Proof.
  revert c. induction fuel as [|fuel IH]; intros c Hinv Hk E; cbn [check_loop] in E; [by injection E as _ <-|].
  apply bind_inv in E as (r1 & c1 & E1 & E). pose proof (turn_kept _ _ _ _ _ Hinv Hk E1) as Hk1.
  destruct r1 as [b|]; [by injection E as _ <-|]. eapply IH; [|exact Hk1|exact E]. destruct (kill fuel) eqn:Ek.
  - exfalso. unfold check_turn in E1. rewrite bind_gets in E1. by destruct (before c ++ after c).
  - pose proof (check_turn_ok _ _ Hequal _ _ Hwf Hids cp c Hinv) as Hok. unfold wp in Hok. rewrite E1 in Hok. apply Hok.
Qed.
End legal.

Lemma checkSingle_kept {In Out St} (model_step : St -> In -> Out -> bool * St) model_equal init
    (history : list (entry In Out)) cp kill fuel r c :
  (forall s1 s2, model_equal s1 s2 = true -> s1 = s2) ->
  well_formed (makeLinkedEntries history) ->
  Forall (fun n => 0 <= nid n < Z.of_nat (length (makeLinkedEntries history) / 2)) (makeLinkedEntries history) ->
  checkSingle model_step model_equal init history cp kill fuel = Done r c ->
  kept_legal model_step init (makeLinkedEntries history) (longest c).
Proof.
  intros He Hwf Hids E. eapply loop_kept; try done; [apply init_search_inv|]. simpl.
  intros q [Hq _]%elem_of_replicate. done.
Qed.

(** * The data of a partition *)

Section data.
Context {In Out St : Type}.
Context (describeOperation : In -> Out -> string) (describeState : St -> string).
Context (model_step : St -> In -> Out -> bool * St) (init : St).
Context (history : list (Operation In Out)) (es : list (entry In Out)).
Context (Hcall : Forall (fun x => op_Call x <= op_Return x) history).
Context (Hperm : es ≡ₚ op_entries 0 history) (Hsort : sorted_by_time es).

Definition shown_op (x : Operation In Out) : historyElement :=
  mkHE (op_ClientId x) (op_Call x) (op_Return x) (describeOperation (op_Input x) (op_Output x)).

(** Where the loop over the entries is with operation [i]. *)
Definition op_status (rest : list (entry In Out)) (hs : list historyElement) (cv : gmap Z In) (rv : gmap Z Out)
    (i : Z) (x : Operation In Out) : Prop :=
  let mine := filter (fun e => e_id e = i) rest in
  (mine = [call_of i x; return_of i x] /\ is_Some (nthZ hs i)) \/
  (mine = [return_of i x] /\ cv !! i = Some (op_Input x) /\
   exists e d, nthZ hs i = Some (mkHE (op_ClientId x) (op_Call x) e d)) \/
  (mine = [] /\ cv !! i = Some (op_Input x) /\ rv !! i = Some (op_Output x) /\ nthZ hs i = Some (shown_op x)).

Definition rest_ok (rest : list (entry In Out)) (hs : list historyElement) (cv : gmap Z In) (rv : gmap Z Out) : Prop :=
  (forall e, e ∈ rest -> is_Some (op_at history (e_id e))) /\
  forall i x, op_at history i = Some x -> op_status rest hs cv rv i x.

Lemma other_status e rest hs cv rv hs' cv' rv' i x :
  e_id e <> i -> op_status (e :: rest) hs cv rv i x ->
  nthZ hs' i = nthZ hs i -> cv' !! i = cv !! i -> rv' !! i = rv !! i -> op_status rest hs' cv' rv' i x.
Proof. intros Hne. unfold op_status. rewrite filter_cons_False by done. by intros H -> -> ->. Qed.

Lemma fill_history_run {S} (s : S) rest hs cv rv :
  rest_ok rest hs cv rv ->
  exists hs' cv' rv', fill_history describeOperation rest hs cv rv s = Done (hs', cv', rv') s /\
    length hs' = length hs /\
    forall i x, op_at history i = Some x ->
      cv' !! i = Some (op_Input x) /\ rv' !! i = Some (op_Output x) /\ nthZ hs' i = Some (shown_op x).
Proof.
  revert hs cv rv. induction rest as [|e rest IH]; intros hs cv rv [Hin Hst].
  { exists hs, cv, rv. split; [done|]. split; [done|]. intros i x Hx. destruct (Hst i x Hx) as [[? _]|[[? _]|(_ & H)]]; done. }
  destruct (Hin e) as [x Hx]; [by left|]. pose proof (Hst _ _ Hx) as Hme. unfold op_status in Hme.
  rewrite filter_cons_True in Hme by done.
  assert (is_Some (nthZ hs (e_id e))) as [y Hy].
  { destruct Hme as [[_ ?]|[(_ & _ & z & d & ->)|(_ & _ & _ & ->)]]; eauto. }
  pose proof (nthZ_Some _ _ _ Hy) as Hrange.
  assert (forall z j, nthZ (<[Z.to_nat (e_id e) := z]> hs) j = if decide (j = e_id e) then Some z else nthZ hs j) as Hupd.
  { intros z j. rewrite nthZ_insert by lia. by do 2 case_decide. }
  destruct e as [v i t c|o i t c]; simpl in Hx, Hy, Hrange, Hme, Hupd; cbn [fill_history];
    rewrite (bind_done _ _ _ _ _ (go_index_ok _ _ _ _ Hy)).
  - destruct Hme as [[Hf _]|[[Hf _]|[Hf _]]]; [|done..]. injection Hf as -> -> -> Hf.
    rewrite (bind_done _ _ _ _ _ (go_update_ok _ _ _ _ Hrange)).
    match goal with |- context [fill_history _ rest ?hs1 ?cv1 ?rv1] => destruct (IH hs1 cv1 rv1) as (hs' & cv' & rv' & E & Hl & H) end.
    + split; [intros e' He'; apply Hin; by right|]. intros j w Hw. destruct (decide (j = i)) as [->|Hne].
      * rewrite Hx in Hw. injection Hw as <-. right. left. split; [exact Hf|]. rewrite lookup_insert_eq. split; [done|].
        eexists _, _. by rewrite Hupd, decide_True.
      * eapply other_status; [|by apply Hst|..]; [simpl; congruence|by rewrite Hupd, decide_False|by rewrite lookup_insert_ne|done].
    + exists hs', cv', rv'. split; [exact E|]. split; [by rewrite Hl, length_insert|done].
  - destruct Hme as [[Hf _]|[(Hf & Hcv & e & d & He)|[Hf _]]]; [done| |done]. injection Hf as -> -> -> Hf.
    rewrite Hcv. rewrite (bind_done _ _ _ _ _ (go_update_ok _ _ _ _ Hrange)).
    match goal with |- context [fill_history _ rest ?hs1 ?cv1 ?rv1] => destruct (IH hs1 cv1 rv1) as (hs' & cv' & rv' & E & Hl & H) end.
    + split; [intros e' He'; apply Hin; by right|]. intros j w Hw. destruct (decide (j = i)) as [->|Hne].
      * rewrite Hx in Hw. injection Hw as <-. right. right. split; [exact Hf|]. rewrite lookup_insert_eq.
        split; [done|]. split; [done|]. rewrite Hupd, decide_True by done. rewrite He in Hy. by injection Hy as <-.
      * eapply other_status; [|by apply Hst|..]; [simpl; congruence|by rewrite Hupd, decide_False|done|by rewrite lookup_insert_ne].
    + exists hs', cv', rv'. split; [exact E|]. split; [by rewrite Hl, length_insert|done].
Qed.

(** After all entries: the history as shown, and the values of every operation. *)
Lemma fill_all {S} (s : S) :
  exists cv rv, fill_history describeOperation es (replicate (length es / 2) (mkHE 0 0 0 "")) ∅ ∅ s
      = Done (shown_op <$> history, cv, rv) s /\
    forall i x, op_at history i = Some x -> cv !! i = Some (op_Input x) /\ rv !! i = Some (op_Output x).
Proof.
  assert (length es / 2 = length history)%nat as Hlen.
  { rewrite Hperm, op_entries_length, Nat.mul_comm. by apply Nat.div_mul. }
  destruct (fill_history_run s es (replicate (length es / 2) (mkHE 0 0 0 "")) ∅ ∅) as (hs & cv & rv & E & Hl & H).
  - split.
    + intros e (i & x & Hx & He)%(entry_cases history es Hperm). exists x. by destruct He as [->| ->].
    + intros i x Hx. left. rewrite (entries_of history Hcall es Hperm Hsort i), Hx. split; [done|].
      apply nthZ_in_range. rewrite length_replicate, Hlen. by eapply nthZ_Some.
  - exists cv, rv. split; [|intros i x Hx; by destruct (H i x Hx) as (? & ? & _)]. rewrite E. do 3 f_equal.
    rewrite length_replicate, Hlen in Hl. apply list_eq. intros i. rewrite list_lookup_fmap.
    destruct (history !! i) as [x|] eqn:Hx.
    + destruct (H (Z.of_nat i) x) as (_ & _ & Hi); [unfold op_at; by rewrite nthZ_nat, Nat2Z.id by lia|].
      by rewrite nthZ_nat, Nat2Z.id in Hi by lia.
    + apply lookup_ge_None in Hx. apply lookup_ge_None. lia.
Qed.
(** ** Replaying the partial linearizations *)

Definition run_ids (lin : list linearizationStep) : list Z := ls_Index <$> lin.

(** A run of the operations as it is shown, from state [s]. *)
Fixpoint shown_run (s : St) (lin : list linearizationStep) : Prop :=
  match lin with
  | [] => True
  | st :: lin => exists x s', op_at history (ls_Index st) = Some x /\
      model_step s (op_Input x) (op_Output x) = (true, s') /\ ls_StateDescription st = describeState s' /\ shown_run s' lin
  end.

Context (cv : gmap Z In) (rv : gmap Z Out).
Context (Hvalues : forall i x, op_at history i = Some x -> cv !! i = Some (op_Input x) /\ rv !! i = Some (op_Output x)).

Definition mark (i len : Z) (l : largest) (id : Z) : largest :=
  if default 0 (snd l !! id) <? len then (<[id := i]> (fst l), <[id := len]> (snd l)) else l.

Lemma call_node_op i v o :
  Call i v o ∈ makeLinkedEntries es -> exists x, op_at history i = Some x /\ v = op_Input x /\ o = op_Output x.
Proof.
  rewrite (nodes_map history Hcall es Hperm Hsort). intros (e & He & Hin)%list_elem_of_fmap.
  apply (entry_cases history es Hperm) in Hin as (j & x & Hx & Hj). destruct Hj as [-> | ->]; [|done].
  simpl in He. rewrite Hx in He. injection He as -> -> ->. by exists x.
Qed.

Lemma replay_partial_run i len s partial l :
  legal_ids model_step (makeLinkedEntries es) s partial ->
  exists lin, replay_partial describeState model_step cv rv i len s partial l = Done lin (foldl (mark i len) l partial) /\
    run_ids lin = partial /\ shown_run s lin.
Proof.
  revert s l. induction partial as [|id partial IH]; intros s l; [by exists []|].
  intros (v & o & s' & (x & Hx & -> & ->)%call_node_op & Hs & Hl). cbn [replay_partial].
  destruct (Hvalues _ _ Hx) as [-> ->]. rewrite Hs. rewrite bind_modify.
  destruct (IH s' (mark i len l id) Hl) as (lin & E & Hids & Hrun). unfold mark at 1 in E. rewrite (bind_done _ _ _ _ _ E).
  eexists. split; [reflexivity|]. split; [unfold run_ids in *; by rewrite fmap_cons, Hids|]. by exists x, s'.
Qed.

(** ** largest *)

Lemma mark_all i len p l id :
  let l' := foldl (mark i len) l p in
  let hit := bool_decide (id ∈ p) && (default 0 (snd l !! id) <? len) in
  fst l' !! id = (if hit then Some i else fst l !! id) /\ snd l' !! id = (if hit then Some len else snd l !! id).
Proof.
  revert l. induction p as [|k p IH]; intros l; [done|]. cbv zeta. simpl foldl.
  destruct (IH (mark i len l k)) as [-> ->]. unfold mark. destruct (decide (id = k)) as [->|Hne].
  - rewrite (bool_decide_eq_true_2 (k ∈ k :: p)) by (by left). simpl.
    destruct (default 0 (snd l !! k) <? len) eqn:E.
    + simpl. rewrite !lookup_insert_eq. simpl. rewrite Z.ltb_irrefl, andb_false_r. done.
    + by rewrite E, andb_false_r.
  - assert (bool_decide (id ∈ k :: p) = bool_decide (id ∈ p)) as -> by (apply bool_decide_ext; set_solver).
    destruct (default 0 (snd l !! k) <? len); [|done]. simpl. by rewrite !lookup_insert_ne.
Qed.

(** The first partial that contains [id]. *)
Definition first_with (id : Z) (ps : list (list Z)) : option (nat * list Z) := list_find (fun p => id ∈ p) ps.

Lemma first_with_snoc id ps p :
  first_with id (ps ++ [p]) =
  match first_with id ps with Some r => Some r | None => if decide (id ∈ p) then Some (length ps, p) else None end.
Proof.
  unfold first_with. induction ps as [|q ps IH]; simpl; [by case_decide|].
  destruct (decide (id ∈ q)); [done|]. rewrite IH. destruct (list_find _ ps) as [[]|]; [done|]. simpl. by case_decide.
Qed.

Definition largest_ok (ps : list (list Z)) (l : largest) : Prop :=
  forall id, fst l !! id = (fun r => Z.of_nat r.1) <$> first_with id ps /\
             snd l !! id = (fun r => lenZ r.2) <$> first_with id ps.

Lemma largest_step ps p l :
  largest_ok ps l -> Forall (fun q => length p <= length q)%nat ps ->
  largest_ok (ps ++ [p]) (foldl (mark (lenZ ps) (lenZ p)) l p).
Proof.
  intros Hl Hlen id. destruct (Hl id) as [H1 H2]. destruct (mark_all (lenZ ps) (lenZ p) p l id) as [-> ->].
  rewrite first_with_snoc, H1, H2. destruct (first_with id ps) as [[j q]|] eqn:Ef; simpl.
  - unfold first_with in Ef. apply list_find_Some in Ef as (Hj & _). apply list_elem_of_lookup_2 in Hj.
    rewrite Forall_forall in Hlen. specialize (Hlen q Hj). rewrite (proj2 (Z.ltb_ge _ _)) by lia. by rewrite andb_false_r.
  - case_decide as Hin; simpl; [|by rewrite bool_decide_eq_false_2]. rewrite bool_decide_eq_true_2 by done.
    destruct p as [|k p]; [by apply elem_of_nil in Hin|]. by rewrite (proj2 (Z.ltb_lt _ _)) by (simpl; lia).
Qed.

Lemma replay_partials_run before ps l :
  largest_ok before l -> StronglySorted (fun p q => length q <= length p)%nat (before ++ ps) ->
  Forall (legal_ids model_step (makeLinkedEntries es) init) ps ->
  exists lins l', replay_partials describeState model_step init cv rv (lenZ before) ps l = Done lins l' /\
    run_ids <$> lins = ps /\ Forall (shown_run init) lins /\ largest_ok (before ++ ps) l'.
Proof.
  revert before l. induction ps as [|p ps IH]; intros before l Hl Hs Hlegal.
  { exists [], l. rewrite app_nil_r. split_and!; try done. }
  apply Forall_cons in Hlegal as [Hp Hps]. cbn [replay_partials].
  destruct (replay_partial_run (lenZ before) (lenZ p) init p l Hp) as (lin & E & Hids & Hrun).
  rewrite (bind_done _ _ _ _ _ E).
  destruct (IH (before ++ [p]) (foldl (mark (lenZ before) (lenZ p)) l p)) as (lins & l' & E' & Hi & Hr & Hl'); [| |done|].
  - apply largest_step; [done|]. clear -Hs. induction before as [|q before IH]; [constructor|].
    simpl in Hs. inversion Hs as [|? ? Hs' Hf]; subst. constructor; [|by apply IH].
    rewrite Forall_forall in Hf. apply Hf. apply elem_of_app. right. by left.
  - by rewrite <- app_assoc.
  - rewrite length_app in E'. simpl in E'. replace (Z.of_nat (length before + 1)) with (lenZ before + 1) in E' by lia.
    rewrite (bind_done _ _ _ _ _ E'). eexists _, l'. split; [reflexivity|]. rewrite <- app_assoc in Hl'.
    split_and!; [by rewrite fmap_cons, Hids, Hi|by constructor|done].
Qed.
End data.

(** * Theorems *)

(** What the page shows of a partition: its operations, legal runs of some of them,
    and for each operation the first of the longest runs it is in. *)
Record partition_shown {In Out St} (describeOperation : In -> Out -> string) (describeState : St -> string)
    (model_step : St -> In -> Out -> bool * St) (init : St) (p : list (Operation In Out))
    (d : partitionVisualizationData) : Prop := {
  ps_history : pv_History d = shown_op describeOperation <$> p;
  ps_runs : Forall (shown_run describeState model_step p init) (pv_PartialLinearizations d);
  ps_sorted : StronglySorted (fun x y => length y <= length x)%nat (pv_PartialLinearizations d);
  ps_largest : forall id, pv_Largest d !! id =
    (fun r => Z.of_nat r.1) <$> first_with id (run_ids <$> pv_PartialLinearizations d) }.

Lemma partials_of_elem order seqs longest_ q :
  (forall s, order s ≡ₚ elements s) -> Forall (valid_ptr seqs) longest_ ->
  q ∈ partials_of order seqs longest_ -> Some q ∈ pointed seqs longest_.
Proof.
  intros Ho Hv. unfold partials_of, pointed. intros (k & -> & Hk)%list_elem_of_fmap. rewrite Ho, elem_of_elements in Hk.
  assert (forall l (s : gset nat), k ∈ foldl (fun (s : gset nat) v => match v with Some p => {[p]} ∪ s | None => s end) s l ->
    k ∈ s \/ Some k ∈ l) as Hf.
  { induction l as [|[p|] l IH]; intros s Hin; simpl in Hin; [by left| |]; apply IH in Hin; set_solver. }
  destruct (Hf _ _ Hk) as [?|Hin]; [set_solver|]. apply list_elem_of_fmap. exists (Some k). split; [|done]. simpl.
  rewrite Forall_forall in Hv. specialize (Hv _ Hin). simpl in Hv. by destruct (lookup_lt_is_Some_2 _ _ Hv) as [q ->].
Qed.

Section theorems.
Context {In Out St : Type}.
Context (describeOperation : In -> Out -> string) (describeState : St -> string).
Context (model_step : St -> In -> Out -> bool * St) (model_equal : St -> St -> bool) (init : St).
Context (Hequal : forall s1 s2, model_equal s1 s2 = true -> s1 = s2).
Context (sort : list (entry In Out) -> list (entry In Out)) (Hsorts : sorts sort).
Context (order : gset nat -> list nat) (Horder : forall s, order s ≡ₚ elements s).
Context (by_length : list (list Z) -> list (list Z)).
Context (Hby : forall ps, by_length ps ≡ₚ ps /\ StronglySorted (fun p q => length q <= length p)%nat (by_length ps)).

(** Each partition by itself. *)
Lemma partition_run (p : list (Operation In Out)) fuel kill i :
  Forall (fun x => op_Call x <= op_Return x) p ->
  ((cost (2 * length p) (2 * length p) <= fuel)%nat -> (forall k, kill i k = false) ->
   is_Some (partition_partials order model_step model_equal init fuel kill i (makeEntries sort p))) /\
  forall ps, partition_partials order model_step model_equal init fuel kill i (makeEntries sort p) = Some ps ->
    exists d l, partition_data describeOperation describeState model_step init by_length (makeEntries sort p) ps = Done d l /\
      partition_shown describeOperation describeState model_step init p d.
Proof.
  intros Hc. destruct (Hsorts (op_entries 0 p)) as [Hperm Hsorted]. set (es := makeEntries sort p) in *.
  change (sort (op_entries 0 p)) with es in Hperm, Hsorted.
  pose proof (nodes_well_formed p Hc es Hperm Hsorted) as Hwf. pose proof (nodes_ids p Hc es Hperm Hsorted) as Hids.
  destruct (pointer_search_run model_step model_equal init es true (kill i) fuel Hequal Hwf Hids)
    as (r & c & g & E & E' & [Hp Hv]).
  unfold partition_partials. rewrite E'. split.
  - intros Hf Hk. destruct (checkSingle_run model_step model_equal init es true (kill i) fuel Hequal Hwf Hids)
      as (r' & c' & E2 & _ & Hans). rewrite E in E2. injection E2 as <- <-.
    destruct Hans as (b & -> & _); [|done|by eexists]. unfold enough. by rewrite (nodes_length p Hc es Hperm Hsorted).
  - intros ps Hps. destruct r as [b|]; [|done]. injection Hps as <-. set (ps := partials_of _ _ _).
    pose proof (checkSingle_kept model_step model_equal init es true (kill i) fuel _ _ Hequal Hwf Hids E) as Hkept.
    destruct (Hby ps) as [Hbp Hbs].
    assert (Forall (legal_ids model_step (makeLinkedEntries es) init) (by_length ps)) as Hlegal.
    { apply Forall_forall. intros q Hq. rewrite Hbp in Hq. apply Hkept. rewrite <- Hp. by eapply partials_of_elem. }
    destruct (fill_all describeOperation p es Hc Hperm Hsorted ((∅, ∅) : largest))
      as (cv & rv & Ef & Hvals).
    destruct (replay_partials_run describeState model_step init p es Hc Hperm Hsorted cv rv Hvals [] (by_length ps) (∅, ∅))
      as (lins & l' & El & Hi & Hr & Hl); [by intros id|done|done|].
    unfold partition_data. rewrite (bind_done _ _ _ _ _ Ef). rewrite (bind_done _ _ _ _ _ El), bind_gets.
    eexists _, l'. split; [reflexivity|]. split; simpl; try done.
    + rewrite <- Hi in Hbs. clear -Hbs. induction lins as [|lin lins IH]; [constructor|].
      inversion Hbs as [|? ? Hs Hf]; subst. constructor; [by apply IH|].
      rewrite Forall_fmap in Hf. eapply Forall_impl; [exact Hf|]. intros x. simpl. unfold run_ids. by rewrite !length_fmap.
    + intros id. rewrite Hi. apply Hl.
Qed.
Lemma partitions_run parts partials :
  Forall2 (fun p ps => exists d l,
      partition_data describeOperation describeState model_step init by_length (makeEntries sort p) ps = Done d l /\
      partition_shown describeOperation describeState model_step init p d) parts partials ->
  exists data, partitions_data describeOperation describeState model_step init by_length (makeEntries sort <$> parts) partials
      = Done data tt /\ Forall2 (partition_shown describeOperation describeState model_step init) parts data.
Proof.
  induction 1 as [|p ps parts partials (d & l & E & Hd) _ (data & E' & Hdata)]; [by exists []|].
  exists (d :: data). rewrite fmap_cons. cbn [partitions_data]. rewrite E, E'. split; [done|by constructor].
Qed.

(** C31: The visualization data.  For a history of operations in partitions, whatever
    the order in which Go iterates over the sets of pointers and however long the
    searches ran before they were stopped, computeVisualizationData does not panic
    on what the checker collected (a model that is given back its own partial
    linearizations never refuses a step), and the data shows each operation with its
    client, times and description, runs that the model allows with the states it goes
    through, the longest first, and for each operation the first run it is in.  With
    enough turns and no kill, there is such data. *)
Theorem visualization_never_panics parts fuel kill :
  Forall (Forall (fun x => op_Call x <= op_Return x)) parts ->
  (forall info, compute_info order model_step model_equal init fuel kill (makeEntries sort <$> parts) = Some info ->
    exists data, computeVisualizationData describeOperation describeState model_step init by_length info = Done data tt /\
      Forall2 (partition_shown describeOperation describeState model_step init) parts data) /\
  (Forall (fun p => cost (2 * length p) (2 * length p) <= fuel)%nat parts -> (forall i k, kill i k = false) ->
    is_Some (compute_info order model_step model_equal init fuel kill (makeEntries sort <$> parts))).
Proof.
  intros Hc. unfold compute_info. split.
  - intros info (partials & Hm & ->)%fmap_Some. apply partitions_run. simpl.
    apply mapM_Some in Hm. pose proof (Forall2_length _ _ _ Hm) as Hlen. rewrite length_imap, length_fmap in Hlen.
    apply Forall2_same_length_lookup. split; [done|]. intros k p ps Hp Hps.
    destruct (Forall2_lookup_r _ _ _ _ _ Hm Hps) as ([i es] & Hi & E). rewrite list_lookup_imap, list_lookup_fmap, Hp in Hi.
    injection Hi as <- <-. simpl in E. rewrite Forall_lookup in Hc. by eapply (partition_run p fuel kill k (Hc _ _ Hp)).
  - intros Hf Hk. apply fmap_is_Some, mapM_is_Some. apply Forall_lookup. intros k [i es] Hi.
    rewrite list_lookup_imap, list_lookup_fmap in Hi. destruct (parts !! k) as [p|] eqn:Hp; [|done]. injection Hi as <- <-.
    rewrite Forall_lookup in Hc, Hf. apply (partition_run p fuel kill k (Hc _ _ Hp)); [by eapply Hf|done].
Qed.
End theorems.

(** ** Instances *)

Definition not_shorter (p q : list Z) : Prop := (length q <= length p)%nat.
#[local] Instance not_shorter_dec : RelDecision not_shorter.
Proof. intros p q. unfold not_shorter. apply _. Defined.

#[local] Instance not_shorter_trans : Transitive not_shorter.
Proof. intros p q r. unfold not_shorter. lia. Qed.
#[local] Instance not_shorter_total : Total not_shorter.
Proof. intros p q. unfold not_shorter. lia. Qed.

Lemma longest_first ps :
  merge_sort not_shorter ps ≡ₚ ps /\ StronglySorted (fun p q => length q <= length p)%nat (merge_sort not_shorter ps).
Proof.
  split; [apply merge_sort_Permutation|apply (StronglySorted_merge_sort not_shorter)].
Qed.

(** A Get that misses a Put: the runs of each operation by itself. *)
Definition bad_data : list partitionVisualizationData :=
  match compute_info elements kv_Step String.eqb "" 100 (fun _ _ => false) [makeEntries time_sort bad_history] with
  | Some info =>
      match computeVisualizationData kv_DescribeOperation (DefaultDescribeState id) kv_Step "" (merge_sort not_shorter) info with
      | Done data _ => data
      | _ => []
      end
  | None => []
  end.

Lemma bad_data_shown : (fun d => (he_Description <$> pv_History d, run_ids <$> pv_PartialLinearizations d)) <$> bad_data
  = [(["put('x', 'a')"; "get('x') -> ''"], [[0]])]%string.
Proof. vm_compute. reflexivity. Qed.

Lemma visualization_never_panics_witness :
  exists info data,
    compute_info elements kv_Step String.eqb "" 100 (fun _ _ => false) [makeEntries time_sort bad_history] = Some info /\
    computeVisualizationData kv_DescribeOperation (DefaultDescribeState id) kv_Step "" (merge_sort not_shorter) info = Done data tt /\
    Forall2 (partition_shown kv_DescribeOperation (DefaultDescribeState id) kv_Step ""%string) [bad_history] data.
Proof.
  destruct (visualization_never_panics kv_DescribeOperation (DefaultDescribeState id) kv_Step String.eqb ""%string
    (fun s1 s2 => proj1 (String.eqb_eq s1 s2)) time_sort time_sort_sorts elements (fun s => reflexivity _)
    (merge_sort not_shorter) longest_first [bad_history] 100 (fun _ _ => false)) as [H1 H2].
  { repeat constructor; simpl; lia. }
  destruct H2 as [info Hi]; [|done|].
  { apply Forall_singleton, Nat.leb_le. vm_compute. reflexivity. }
  destruct (H1 info Hi) as (data & Hd & Hs).
  exists info, data. split; [exact Hi|]. split; [exact Hd|exact Hs].
Defined.
