(* ===== verification/Network.v ===== *)
(** The simulated network (labrpc/labrpc.go).

    A Network is a table of client ends, servers and connections under one
    mutex: each operation on it is one step.  A ClientEnd.Call, the processReq
    goroutine that serves it and the goroutine that runs its handler are a
    [call]; each of their sections between two waits is one step, so calls,
    handlers and the operations of the tests interleave freely.  Servers are
    compared as pointers: [heap] is where they live.  Arguments and replies are
    their encoded bytes; what a handler does and answers is up to the step.  The
    random choices (drop, delay) are arguments of the steps; a delay only decides
    when a step is taken. *)

From Stdlib Require Import Ascii.
From Stdlib Require String.
From S2P Require Import Prelude.

Definition to_int64 (z : Z) : Z := (z + 2^63) mod 2^64 - 2^63.

(** * Data *)

Record reqMsg := mkReq { rq_endname : string; rq_svcMeth : string; rq_args : string }.
Record replyMsg := mkReply { rp_ok : bool; rp_reply : string }.
Definition refused : replyMsg := mkReply false "".

Record ClientEnd := mkEnd { e_endname : string }.

(** [svc_methods] are the names of the methods that are handlers. *)
Record Service := mkService { svc_name : string; svc_methods : gset string }.
Record Server := mkServer { srv_services : gmap string Service; srv_count : Z }.

(** A value of [connections] or [servers] may be nil; a missing key reads as
    nil or false. *)
Record Network := mkNetwork {
  reliable : bool;
  longDelays : bool;
  longReordering : bool;
  ends : gmap string ClientEnd;
  enabled : gmap string bool;
  servers : gmap string (option Z);
  connections : gmap string (option string);
  done_closed : bool;
  count : Z;
  bytes : Z }.

Definition MakeNetwork : Network := mkNetwork true false false ∅ ∅ ∅ ∅ false 0 0.

(** * Operations on the tables *)

Definition set_reliable (b : bool) (n : Network) : Network :=
  mkNetwork b (longDelays n) (longReordering n) (ends n) (enabled n) (servers n) (connections n)
    (done_closed n) (count n) (bytes n).
Definition set_longDelays (b : bool) (n : Network) : Network :=
  mkNetwork (reliable n) b (longReordering n) (ends n) (enabled n) (servers n) (connections n)
    (done_closed n) (count n) (bytes n).
Definition set_longReordering (b : bool) (n : Network) : Network :=
  mkNetwork (reliable n) (longDelays n) b (ends n) (enabled n) (servers n) (connections n)
    (done_closed n) (count n) (bytes n).
Definition set_tables e en c (n : Network) : Network :=
  mkNetwork (reliable n) (longDelays n) (longReordering n) e en (servers n) c
    (done_closed n) (count n) (bytes n).
Definition set_servers s (n : Network) : Network :=
  mkNetwork (reliable n) (longDelays n) (longReordering n) (ends n) (enabled n) s (connections n)
    (done_closed n) (count n) (bytes n).
Definition set_done (b : bool) (n : Network) : Network :=
  mkNetwork (reliable n) (longDelays n) (longReordering n) (ends n) (enabled n) (servers n) (connections n)
    b (count n) (bytes n).
Definition set_stats (k b : Z) (n : Network) : Network :=
  mkNetwork (reliable n) (longDelays n) (longReordering n) (ends n) (enabled n) (servers n) (connections n)
    (done_closed n) k b.

Definition Reliable (yes : bool) : M Network unit := modify (set_reliable yes).
Definition LongReordering (yes : bool) : M Network unit := modify (set_longReordering yes).
Definition LongDelays (yes : bool) : M Network unit := modify (set_longDelays yes).

(** Closing a closed channel panics. *)
Definition Cleanup : M Network unit :=
  b ← gets done_closed;
  if (b : bool) then throw ExplicitPanic else modify (set_done true).

Definition MakeEnd (endname : string) : M Network ClientEnd :=
  n ← gets (fun n => n);
  match ends n !! endname with
  | Some _ => throw LogFatal
  | None =>
      let e := mkEnd endname in
      modify (set_tables (<[endname := e]> (ends n)) (<[endname := false]> (enabled n))
        (<[endname := None]> (connections n)));;
      mret e
  end.

Definition DeleteEnd (endname : string) : M Network unit :=
  n ← gets (fun n => n);
  match ends n !! endname with
  | None => throw LogFatal
  | Some _ =>
      modify (set_tables (delete endname (ends n)) (delete endname (enabled n))
        (delete endname (connections n)))
  end.

Definition AddServer (servername : string) (rs : Z) : M Network unit :=
  modify (fun n => set_servers (<[servername := Some rs]> (servers n)) n).
Definition DeleteServer (servername : string) : M Network unit :=
  modify (fun n => set_servers (<[servername := None]> (servers n)) n).
Definition Connect (endname servername : string) : M Network unit :=
  modify (fun n => set_tables (ends n) (enabled n) (<[endname := Some servername]> (connections n)) n).
Definition Enable (endname : string) (yes : bool) : M Network unit :=
  modify (fun n => set_tables (ends n) (<[endname := yes]> (enabled n)) (connections n) n).

Definition GetTotalCount : M Network Z := gets count.
Definition GetTotalBytes : M Network Z := gets bytes.

(** rn.enabled[endname], rn.servers[servername], rn.connections[endname] *)
Definition is_enabled (n : Network) (endname : string) : bool := default false (enabled n !! endname).
Definition server_of (n : Network) (servername : string) : option Z := default None (servers n !! servername).
Definition connection_of (n : Network) (endname : string) : option string :=
  default None (connections n !! endname).

Record info := mkInfo {
  i_enabled : bool; i_servername : option string; i_server : option Z;
  i_reliable : bool; i_longreordering : bool }.

Definition readEndnameInfo (endname : string) : M Network info :=
  gets (fun n => mkInfo (is_enabled n endname) (connection_of n endname)
    (connection_of n endname ≫= server_of n) (reliable n) (longReordering n)).

Definition isServerDead (endname servername : string) (server : Z) : M Network bool :=
  gets (fun n => negb (is_enabled n endname) || negb (bool_decide (server_of n servername = Some server))).

(** * Servers and services *)

Definition MakeServer : Server := mkServer ∅ 0.
Definition AddService (svc : Service) (rs : Server) : Server :=
  mkServer (<[svc_name svc := svc]> (srv_services rs)) (srv_count rs).

(** What MakeService reads of a method: its name, whether it is exported (an
    empty PkgPath), whether each argument, the receiver first, is a pointer, and
    the number of results. *)
Record method := mkMethod { m_Name : string; m_PkgPath : string; m_In : list bool; m_NumOut : Z }.

Definition is_handler (m : method) : bool :=
  String.eqb (m_PkgPath m) "" && (lenZ (m_In m) =? 3) &&
  match m_In m !! 2%nat with Some ptr => ptr | None => false end && (m_NumOut m =? 0).

Definition MakeService (typename : string) (methods : list method) : Service :=
  mkService typename
    (foldl (fun (s : gset string) m => if is_handler m then {[m_Name m]} ∪ s else s) ∅ methods).

(** strings.LastIndex(s, "."), where [i] is the index of the first byte. *)
Fixpoint lastDot (i : Z) (s : string) : Z :=
  match s with
  | EmptyString => -1
  | String a s => let r := lastDot (i + 1) s in
                  if r <? 0 then if Ascii.eqb a "."%char then i else -1 else r
  end.

Definition split_svcMeth {S} (svcMeth : string) : M S (string * string) :=
  let dot := lastDot 0 svcMeth in
  if dot <? 0 then throw SliceOutOfRange
  else mret (String.substring 0 (Z.to_nat dot) svcMeth,
             String.substring (Z.to_nat (dot + 1)) (String.length svcMeth) svcMeth).

(** Server.dispatch and Service.dispatch up to the call of the method, with its
    service and name. *)
Definition dispatch (req : reqMsg) : M Server (string * string) :=
  modify (fun rs => mkServer (srv_services rs) (to_int64 (srv_count rs + 1)));;
  p ← split_svcMeth (rq_svcMeth req);
  rs ← gets (fun rs => rs);
  match srv_services rs !! fst p with
  | None => throw LogFatal
  | Some svc => if bool_decide (snd p ∈ svc_methods svc) then mret p else throw LogFatal
  end.

(** * Calls *)

(** What processReq keeps from readEndnameInfo when it goes on. *)
Record target := mkTarget { t_name : string; t_server : Z; t_reliable : bool; t_longreordering : bool }.

(** Where a call is: waiting to be accepted; accepted, not yet looked up; before
    the handler is spawned; in the loop; after the loop, with the reply if there
    is one; with a message for the caller; back at the caller. *)
Inductive phase : Type :=
  | Sending
  | Accepted
  | Pending (t : target)
  | Waiting (t : target)
  | Decided (t : target) (r : option replyMsg)
  | Replying (m : replyMsg)
  | Returned (m : replyMsg).

(** The goroutine of the handler: not there; before dispatch; in the method;
    waiting to send on ech; finished.  [rs] is the server it runs on. *)
Inductive handler : Type :=
  | HNone
  | HSpawned (rs : Z)
  | HRunning (rs : Z)
  | HDone (rs : Z) (r : replyMsg)
  | HReceived (rs : Z) (r : replyMsg).

(** [c_drain]: a goroutine reads ech to let the handler's finish. *)
Record call := mkCall { c_req : reqMsg; c_phase : phase; c_handler : handler; c_drain : bool }.

(** Calls of methods and their returns, as they happen. *)
Inductive event : Type :=
  | Exec (id : Z) (server : Z) (svc meth args : string)
  | Ret (id : Z) (reply : string).

(** [w_loop]: the goroutine of MakeNetwork runs. *)
Record world := mkWorld {
  w_net : Network; w_heap : gmap Z Server; w_loop : bool;
  w_calls : gmap Z call; w_log : list event }.

Definition start_world : world := mkWorld MakeNetwork ∅ true ∅ [].

Definition on_net {A} (m : M Network A) : M world A := fun w =>
  let put n := mkWorld n (w_heap w) (w_loop w) (w_calls w) (w_log w) in
  match m (w_net w) with
  | Done a n => Done a (put n)
  | Panicked p n => Panicked p (put n)
  | Blocked n => Blocked (put n)
  end.

Definition on_server {A} (rs : Z) (m : M Server A) : M world A := fun w =>
  let put s := mkWorld (w_net w) (<[rs := s]> (w_heap w)) (w_loop w) (w_calls w) (w_log w) in
  match w_heap w !! rs with
  | None => Panicked NilDereference w
  | Some s =>
      match m s with
      | Done a s => Done a (put s)
      | Panicked p s => Panicked p (put s)
      | Blocked s => Blocked (put s)
      end
  end.

Definition GetCount (servername : string) : M world Z :=
  n ← gets w_net;
  match server_of n servername with
  | None => throw NilDereference
  | Some rs => on_server rs (gets srv_count)
  end.

Definition set_call (id : Z) (c : call) : M world unit :=
  modify (fun w => mkWorld (w_net w) (w_heap w) (w_loop w) (<[id := c]> (w_calls w)) (w_log w)).
Definition log_event (e : event) : M world unit :=
  modify (fun w => mkWorld (w_net w) (w_heap w) (w_loop w) (w_calls w) (w_log w ++ [e])).

Definition the_call (id : Z) : M world call :=
  w ← gets (fun w => w);
  match w_calls w !! id with Some c => mret c | None => block end.

Definition with_phase (p : phase) (c : call) : call := mkCall (c_req c) p (c_handler c) (c_drain c).
Definition with_handler (h : handler) (c : call) : call := mkCall (c_req c) (c_phase c) h (c_drain c).
Definition with_drain (b : bool) (c : call) : call := mkCall (c_req c) (c_phase c) (c_handler c) b.

(** ClientEnd.Call up to its select; [id] is a new call. *)
Definition Call (id : Z) (e : ClientEnd) (svcMeth args : string) : M world unit :=
  w ← gets (fun w => w);
  match w_calls w !! id with
  | Some _ => block
  | None => set_call id (mkCall (mkReq (e_endname e) svcMeth args) Sending HNone false)
  end.

(** The select of the loop of MakeNetwork takes a request. *)
Definition accept (id : Z) : M world unit :=
  c ← the_call id;
  w ← gets (fun w => w);
  match c_phase c, w_loop w with
  | Sending, true =>
      on_net (modify (fun n => set_stats (to_int32 (count n + 1))
        (to_int64 (bytes n + Z.of_nat (String.length (rq_args (c_req c))))) n));;
      set_call id (with_phase Accepted c)
  | _, _ => block
  end.

(** The select of Call sees that the network is gone. *)
Definition abandon (id : Z) : M world unit :=
  c ← the_call id;
  w ← gets (fun w => w);
  match c_phase c, done_closed (w_net w) with
  | Sending, true => set_call id (with_phase (Returned refused) c)
  | _, _ => block
  end.

Definition loop_exit : M world unit :=
  w ← gets (fun w => w);
  if w_loop w && done_closed (w_net w)
  then modify (fun w => mkWorld (w_net w) (w_heap w) false (w_calls w) (w_log w))
  else block.

(** ** processReq *)

Definition lookup_target (id : Z) : M world unit :=
  c ← the_call id;
  match c_phase c with
  | Accepted =>
      i ← on_net (readEndnameInfo (rq_endname (c_req c)));
      match i_enabled i, i_servername i, i_server i with
      | true, Some name, Some rs =>
          set_call id (with_phase (Pending (mkTarget name rs (i_reliable i) (i_longreordering i))) c)
      | _, _, _ => set_call id (with_phase (Replying refused) c)
      end
  | _ => block
  end.

Definition spawn (id : Z) (drop : bool) : M world unit :=
  c ← the_call id;
  match c_phase c with
  | Pending t =>
      if negb (t_reliable t) && drop then set_call id (with_phase (Replying refused) c)
      else set_call id (with_phase (Waiting t) (with_handler (HSpawned (t_server t)) c))
  | _ => block
  end.

(** The loop: a reply on ech, or a tick. *)
Definition receive (id : Z) : M world unit :=
  c ← the_call id;
  match c_phase c, c_handler c with
  | Waiting t, HDone rs r =>
      set_call id (with_phase (Decided t (Some r)) (with_handler (HReceived rs r) c))
  | _, _ => block
  end.

Definition tick (id : Z) : M world unit :=
  c ← the_call id;
  match c_phase c with
  | Waiting t =>
      dead ← on_net (isServerDead (rq_endname (c_req c)) (t_name t) (t_server t));
      when dead (set_call id (with_phase (Decided t None) (with_drain true c)))
  | _ => block
  end.

(** After the loop. *)
Definition decide_reply (id : Z) (drop : bool) : M world unit :=
  c ← the_call id;
  match c_phase c with
  | Decided t r =>
      dead ← on_net (isServerDead (rq_endname (c_req c)) (t_name t) (t_server t));
      match r, dead with
      | Some reply, false =>
          if negb (t_reliable t) && drop then set_call id (with_phase (Replying refused) c)
          else set_call id (with_phase (Replying reply) c)
      | _, _ => set_call id (with_phase (Replying refused) c)
      end
  | _ => block
  end.

(** The message goes over replyCh; the bytes of a real reply are counted. *)
Definition deliver (id : Z) : M world unit :=
  c ← the_call id;
  match c_phase c with
  | Replying m =>
      when (rp_ok m) (on_net (modify (fun n =>
        set_stats (count n) (to_int64 (bytes n + Z.of_nat (String.length (rp_reply m)))) n)));;
      set_call id (with_phase (Returned m) c)
  | _ => block
  end.

(** ** The goroutine of the handler *)

Definition run_handler (id : Z) : M world unit :=
  c ← the_call id;
  match c_handler c with
  | HSpawned rs =>
      p ← on_server rs (dispatch (c_req c));
      log_event (Exec id rs (fst p) (snd p) (rq_args (c_req c)));;
      set_call id (with_handler (HRunning rs) c)
  | _ => block
  end.

(** The method returns; the reply is encoded. *)
Definition handler_returns (id : Z) (reply : string) : M world unit :=
  c ← the_call id;
  match c_handler c with
  | HRunning rs =>
      log_event (Ret id reply);; set_call id (with_handler (HDone rs (mkReply true reply)) c)
  | _ => block
  end.

Definition drain (id : Z) : M world unit :=
  c ← the_call id;
  match c_handler c, c_drain c with
  | HDone rs r, true => set_call id (with_handler (HReceived rs r) c)
  | _, _ => block
  end.

(** * Steps *)

Inductive action : Type :=
  | A_Reliable (yes : bool) | A_LongReordering (yes : bool) | A_LongDelays (yes : bool)
  | A_Cleanup
  | A_MakeEnd (endname : string) | A_DeleteEnd (endname : string)
  | A_AddServer (servername : string) (rs : Z) | A_DeleteServer (servername : string)
  | A_Connect (endname servername : string) | A_Enable (endname : string) (yes : bool)
  | A_MakeServer (rs : Z) | A_AddService (rs : Z) (svc : Service)
  | A_Call (id : Z) (e : ClientEnd) (svcMeth args : string)
  | A_Accept (id : Z) | A_GiveUp (id : Z) | A_LoopExit
  | A_Lookup (id : Z) | A_Spawn (id : Z) (drop : bool)
  | A_Receive (id : Z) | A_Tick (id : Z) | A_Decide (id : Z) (drop : bool) | A_Deliver (id : Z)
  | A_Run (id : Z) | A_Return (id : Z) (reply : string) | A_Drain (id : Z).

(** A new server is put at an address that is free; a test registers servers
    that exist. *)
Definition exec (a : action) : M world unit :=
  match a with
  | A_Reliable yes => on_net (Reliable yes)
  | A_LongReordering yes => on_net (LongReordering yes)
  | A_LongDelays yes => on_net (LongDelays yes)
  | A_Cleanup => on_net Cleanup
  | A_MakeEnd e => on_net (MakeEnd e);; mret tt
  | A_DeleteEnd e => on_net (DeleteEnd e)
  | A_AddServer name rs =>
      w ← gets (fun w => w);
      match w_heap w !! rs with Some _ => on_net (AddServer name rs) | None => block end
  | A_DeleteServer name => on_net (DeleteServer name)
  | A_Connect e name => on_net (Connect e name)
  | A_Enable e yes => on_net (Enable e yes)
  | A_MakeServer rs =>
      w ← gets (fun w => w);
      match w_heap w !! rs with
      | Some _ => block
      | None => modify (fun w =>
          mkWorld (w_net w) (<[rs := MakeServer]> (w_heap w)) (w_loop w) (w_calls w) (w_log w))
      end
  | A_AddService rs svc => on_server rs (modify (AddService svc))
  | A_Call id e svcMeth args => Call id e svcMeth args
  | A_Accept id => accept id
  | A_GiveUp id => abandon id
  | A_LoopExit => loop_exit
  | A_Lookup id => lookup_target id
  | A_Spawn id drop => spawn id drop
  | A_Receive id => receive id
  | A_Tick id => tick id
  | A_Decide id drop => decide_reply id drop
  | A_Deliver id => deliver id
  | A_Run id => run_handler id
  | A_Return id reply => handler_returns id reply
  | A_Drain id => drain id
  end.

Definition net_step (w w' : world) : Prop := exists a, exec a w = Done tt w'.

(** * The protocol of a call *)

(** The server at [name] is the one at [rs] and the end is enabled. *)
Definition alive (w : world) (endname name : string) (rs : Z) : Prop :=
  is_enabled (w_net w) endname = true /\ server_of (w_net w) name = Some rs.

Definition bound (w : world) (endname : string) (t : target) : Prop :=
  alive w endname (t_name t) (t_server t) /\
  connection_of (w_net w) endname = Some (t_name t) /\ t_reliable t = reliable (w_net w).

(** Server [rs] has the method. *)
Definition serves (w : world) (rs : Z) (svcMeth svc meth : string) : Prop :=
  exists s sv, w_heap w !! rs = Some s /\ @split_svcMeth unit svcMeth tt = Done (svc, meth) tt /\
    srv_services s !! svc = Some sv /\ meth ∈ svc_methods sv.

(** How a step changes call [id], and what it logs. *)
Inductive move (w : world) (id : Z) : option call -> call -> list event -> Prop :=
  | m_call q : move w id None (mkCall q Sending HNone false) []
  | m_accept q h d :
      w_loop w = true -> move w id (Some (mkCall q Sending h d)) (mkCall q Accepted h d) []
  | m_abandon q h d :
      done_closed (w_net w) = true ->
      move w id (Some (mkCall q Sending h d)) (mkCall q (Returned refused) h d) []
  | m_bound q h d t :
      bound w (rq_endname q) t ->
      move w id (Some (mkCall q Accepted h d)) (mkCall q (Pending t) h d) []
  | m_unbound q h d :
      (forall t, ~ bound w (rq_endname q) t) ->
      move w id (Some (mkCall q Accepted h d)) (mkCall q (Replying refused) h d) []
  | m_drop q h d t :
      t_reliable t = false ->
      move w id (Some (mkCall q (Pending t) h d)) (mkCall q (Replying refused) h d) []
  | m_spawn q h d t :
      move w id (Some (mkCall q (Pending t) h d)) (mkCall q (Waiting t) (HSpawned (t_server t)) d) []
  | m_receive q d t rs r :
      move w id (Some (mkCall q (Waiting t) (HDone rs r) d)) (mkCall q (Decided t (Some r)) (HReceived rs r) d) []
  | m_dead q h d t :
      ~ alive w (rq_endname q) (t_name t) (t_server t) ->
      move w id (Some (mkCall q (Waiting t) h d)) (mkCall q (Decided t None) h true) []
  | m_reply q h d t r :
      alive w (rq_endname q) (t_name t) (t_server t) ->
      move w id (Some (mkCall q (Decided t (Some r)) h d)) (mkCall q (Replying r) h d) []
  | m_refuse q h d t r :
      r = None \/ ~ alive w (rq_endname q) (t_name t) (t_server t) \/ t_reliable t = false ->
      move w id (Some (mkCall q (Decided t r) h d)) (mkCall q (Replying refused) h d) []
  | m_deliver q h d m :
      move w id (Some (mkCall q (Replying m) h d)) (mkCall q (Returned m) h d) []
  | m_run q p d rs svc meth :
      serves w rs (rq_svcMeth q) svc meth ->
      move w id (Some (mkCall q p (HSpawned rs) d)) (mkCall q p (HRunning rs) d)
        [Exec id rs svc meth (rq_args q)]
  | m_return q p d rs b :
      move w id (Some (mkCall q p (HRunning rs) d)) (mkCall q p (HDone rs (mkReply true b)) d) [Ret id b]
  | m_drain q p rs r :
      move w id (Some (mkCall q p (HDone rs r) true)) (mkCall q p (HReceived rs r) true) [].

Definition quiet (w w' : world) : Prop := w_calls w' = w_calls w /\ w_log w' = w_log w.
Definition moves (w w' : world) : Prop :=
  exists id c evs, move w id (w_calls w !! id) c evs /\
    w_calls w' = <[id := c]> (w_calls w) /\ w_log w' = w_log w ++ evs.

Lemma on_net_done {A} (m : M Network A) w a w' :
  on_net m w = Done a w' ->
  exists n, m (w_net w) = Done a n /\ w' = mkWorld n (w_heap w) (w_loop w) (w_calls w) (w_log w).
Proof. unfold on_net. destruct (m (w_net w)); intros [= <- <-]. by eexists. Qed.

Lemma on_net_quiet {A} (m : M Network A) w a w' : on_net m w = Done a w' -> quiet w w'.
Proof. intros (n & _ & ->)%on_net_done. done. Qed.

Lemma on_server_done {A} rs (m : M Server A) w a w' :
  on_server rs m w = Done a w' ->
  exists s s', w_heap w !! rs = Some s /\ m s = Done a s' /\
    w' = mkWorld (w_net w) (<[rs := s']> (w_heap w)) (w_loop w) (w_calls w) (w_log w).
Proof.
  unfold on_server. destruct (w_heap w !! rs) as [s|]; [|done]. destruct (m s) eqn:E; intros [= <- <-].
  by eexists _, _.
Qed.

Lemma the_call_inv id w c w' : the_call id w = Done c w' -> w' = w /\ w_calls w !! id = Some c.
Proof. unfold the_call. rewrite bind_gets. destruct (w_calls w !! id); [|done]. by intros [= <- <-]. Qed.

Lemma the_call_run {B} id (k : call -> M world B) w c :
  w_calls w !! id = Some c -> (the_call id ≫= k) w = k c w.
Proof. intros E. unfold the_call, mbind, M_bind, gets. by rewrite E. Qed.

(** Enters an action on a call. *)
Ltac enter E := apply bind_inv in E as (c & w1 & [-> Hc]%the_call_inv & E); destruct c as [q p h d];
  cbn [c_phase c_handler c_drain c_req with_phase with_handler with_drain] in E.
Ltac moved := eexists _, _, _; split; [|split; [reflexivity|first [reflexivity | by rewrite app_nil_r]]];
  match goal with H : w_calls _ !! _ = _ |- _ => rewrite H end.

#[export] Instance alive_dec w e name rs : Decision (alive w e name rs).
Proof. unfold alive. apply _. Defined.

Lemma isServerDead_run e name rs w :
  on_net (isServerDead e name rs) w = Done (bool_decide (~ alive w e name rs)) w.
Proof.
  unfold on_net, isServerDead, gets. destruct w as [n hp l cs lg]. cbn [w_net]. f_equal.
  destruct (decide (alive (mkWorld n hp l cs lg) e name rs)) as [Ha|Ha].
  - rewrite (bool_decide_eq_false_2 (~ _)) by tauto. destruct Ha as [He Hs]. cbn [w_net] in He, Hs.
    by rewrite He, bool_decide_eq_true_2.
  - rewrite (bool_decide_eq_true_2 (~ _)) by done. unfold alive in Ha. cbn [w_net] in Ha.
    destruct (is_enabled n e); [|done]. rewrite bool_decide_eq_false_2; [done|]. tauto.
Qed.

Lemma accept_move id w w' : accept id w = Done tt w' -> moves w w'.
Proof.
  intros E. unfold accept in E. enter E. rewrite bind_gets in E.
  destruct p; try done. destruct (w_loop w) eqn:Hl; [|done]. injection E as <-.
  moved. by constructor.
Qed.

Lemma abandon_move id w w' : abandon id w = Done tt w' -> moves w w'.
Proof.
  intros E. unfold abandon in E. enter E. rewrite bind_gets in E.
  destruct p; try done. destruct (done_closed (w_net w)) eqn:Hl; [|done]. injection E as <-.
  moved. by constructor.
Qed.

Lemma lookup_move id w w' : lookup_target id w = Done tt w' -> moves w w'.
Proof.
  intros E. unfold lookup_target in E. enter E. destruct p; try done.
  apply bind_inv in E as (i & w1 & E1 & E). apply on_net_done in E1 as (n & [= <- <-] & ->).
  cbn [i_enabled i_servername i_server i_reliable i_longreordering] in E.
  destruct (is_enabled (w_net w) (rq_endname q)) eqn:He.
  2: { injection E as <-. moved. constructor. intros t [[? _] _]. congruence. }
  destruct (connection_of (w_net w) (rq_endname q)) as [name|] eqn:Hn; cbn [mbind option_bind] in E.
  2: { injection E as <-. moved. constructor. intros t [_ [? _]]. congruence. }
  destruct (server_of (w_net w) name) as [rs|] eqn:Hs; injection E as <-; moved; constructor.
  - done.
  - intros t [[_ H] [H' _]]. congruence.
Qed.

Lemma spawn_move id drop w w' : spawn id drop w = Done tt w' -> moves w w'.
Proof.
  intros E. unfold spawn in E. enter E. destruct p; try done.
  destruct (t_reliable t) eqn:Ht, drop; injection E as <-; moved; by constructor.
Qed.

Lemma receive_move id w w' : receive id w = Done tt w' -> moves w w'.
Proof.
  intros E. unfold receive in E. enter E. destruct p; try done. destruct h; try done.
  injection E as <-. moved. constructor.
Qed.

Lemma tick_move id w w' : tick id w = Done tt w' -> quiet w w' \/ moves w w'.
Proof.
  intros E. unfold tick in E. enter E. destruct p; try done.
  rewrite (bind_done _ _ _ _ _ (isServerDead_run _ _ _ _)) in E. case_bool_decide as Ha.
  - right. injection E as <-. moved. by constructor.
  - left. by injection E as <-.
Qed.

Lemma decide_move id drop w w' : decide_reply id drop w = Done tt w' -> moves w w'.
Proof.
  intros E. unfold decide_reply in E. enter E. destruct p; try done.
  rewrite (bind_done _ _ _ _ _ (isServerDead_run _ _ _ _)) in E.
  destruct r as [r|]; [|injection E as <-; moved; constructor; by left].
  case_bool_decide as Ha; [injection E as <-; moved; constructor; by right; left|].
  destruct (negb (t_reliable t) && drop) eqn:Hd; injection E as <-; moved; constructor; [|done].
  right. right. by destruct (t_reliable t).
Qed.

Lemma deliver_move id w w' : deliver id w = Done tt w' -> moves w w'.
Proof.
  intros E. unfold deliver in E. enter E. destruct p; try done.
  destruct (rp_ok m); injection E as <-; moved; constructor.
Qed.

Lemma dispatch_inv q s p s' :
  dispatch q s = Done p s' ->
  @split_svcMeth unit (rq_svcMeth q) tt = Done p tt /\
  (exists sv, srv_services s !! fst p = Some sv /\ snd p ∈ svc_methods sv) /\
  s' = mkServer (srv_services s) (to_int64 (srv_count s + 1)).
Proof.
  unfold dispatch. rewrite bind_modify. intros E. apply bind_inv in E as (p' & s1 & Es & E).
  rewrite bind_gets in E. unfold split_svcMeth in *. cbv zeta in *.
  destruct (lastDot 0 (rq_svcMeth q) <? 0); [done|]. injection Es as <- <-. cbn [srv_services] in E.
  destruct (srv_services s !! _) as [sv|] eqn:Hs; [|done]. case_bool_decide; [|done].
  injection E as <- <-. split; [done|]. split; [by exists sv|done].
Qed.

Lemma run_move id w w' : run_handler id w = Done tt w' -> moves w w'.
Proof.
  intros E. unfold run_handler in E. enter E. destruct h; try done.
  apply bind_inv in E as ([svc meth] & w1 & E1 & E). apply on_server_done in E1 as (s & s' & Hs & Ed & ->).
  apply dispatch_inv in Ed as (Hp & (sv & Hv & Hm) & _). injection E as <-.
  moved. constructor. by exists s, sv.
Qed.

Lemma return_move id b w w' : handler_returns id b w = Done tt w' -> moves w w'.
Proof.
  intros E. unfold handler_returns in E. enter E. destruct h; try done. injection E as <-.
  moved. constructor.
Qed.

Lemma drain_move id w w' : drain id w = Done tt w' -> moves w w'.
Proof.
  intros E. unfold drain in E. enter E. destruct h; try done. destruct d; [|done]. injection E as <-.
  moved. constructor.
Qed.

Lemma Call_move id e svcMeth args w w' : Call id e svcMeth args w = Done tt w' -> moves w w'.
Proof.
  intros E. unfold Call in E. rewrite bind_gets in E. destruct (w_calls w !! id) eqn:Hc; [done|].
  injection E as <-. moved. constructor.
Qed.

Create HintDb net.
#[local] Hint Resolve accept_move abandon_move lookup_move spawn_move receive_move decide_move deliver_move
  run_move return_move drain_move Call_move on_net_quiet : net.

(** Every step leaves the calls alone or is a move of one call. *)
Lemma step_moves w w' : net_step w w' -> quiet w w' \/ moves w w'.
Proof.
  intros [a E]. destruct a; cbn [exec] in E; eauto using tick_move with net.
  - apply bind_inv in E as (e & w1 & E1 & [= <-]). eauto with net.
  - rewrite bind_gets in E. destruct (w_heap w !! rs); [|done]. eauto with net.
  - rewrite bind_gets in E. destruct (w_heap w !! rs); [done|]. injection E as <-. by left.
  - apply on_server_done in E as (s & s' & _ & _ & ->). by left.
  - unfold loop_exit in E. rewrite bind_gets in E. destruct (_ && _); [|done]. injection E as <-. by left.
Qed.
