(* ===== verification/NetworkTheorems.v ===== *)
(** What the simulated network promises its users (labrpc/labrpc.go): a call
    runs its handler at most once, a positive reply is the answer of that one
    execution on a server that was connected and still in place afterwards, no
    call or goroutine is left waiting for ever, and a reliable network loses
    nothing. *)

From S2P Require Import Prelude Network.

(** * The invariant of calls *)

Definition event_id (e : event) : Z := match e with Exec id _ _ _ _ | Ret id _ => id end.
Definition events_of (id : Z) (l : list event) : list event := filter (fun e => event_id e = id) l.

Definition executes (id : Z) (e : event) : bool := match e with Exec i _ _ _ _ => i =? id | _ => false end.

Definition names (q : reqMsg) (svc meth : string) : Prop :=
  @split_svcMeth unit (rq_svcMeth q) tt = Done (svc, meth) tt.

(** What the log holds of a call. *)
Definition log_ok (id : Z) (c : call) (l : list event) : Prop :=
  match c_handler c with
  | HNone | HSpawned _ => l = []
  | HRunning rs =>
      exists svc meth, l = [Exec id rs svc meth (rq_args (c_req c))] /\ names (c_req c) svc meth
  | HDone rs r | HReceived rs r =>
      exists svc meth, l = [Exec id rs svc meth (rq_args (c_req c)); Ret id (rp_reply r)] /\
        names (c_req c) svc meth /\ rp_ok r = true
  end.

(** The goroutine of the handler is not there, done, or has a reader. *)
Definition can_end (c : call) : Prop :=
  c_handler c = HNone \/ c_drain c = true \/ exists rs r, c_handler c = HReceived rs r.

Definition phase_ok (c : call) : Prop :=
  match c_phase c with
  | Sending | Accepted | Pending _ => c_handler c = HNone /\ c_drain c = false
  | Waiting t =>
      c_drain c = false /\
      (c_handler c = HSpawned (t_server t) \/ c_handler c = HRunning (t_server t) \/
      exists r, c_handler c = HDone (t_server t) r)
  | Decided t (Some r) => c_handler c = HReceived (t_server t) r
  | Decided t None => c_drain c = true
  | Replying m | Returned m => can_end c
  end.

(** In the past of [w], the end of the call was connected to [t]. *)
Definition was_bound (w0 w : world) (e : string) (t : target) : Prop :=
  exists w1, rtc net_step w0 w1 /\ rtc net_step w1 w /\ bound w1 e t.

(** In the past of [w], the end was connected to server [rs], which later, after
    call [id] had its reply [m], was still in place. *)
Definition genuine (w0 w : world) (id : Z) (q : reqMsg) (rs : Z) (m : replyMsg) : Prop :=
  exists w1 w2 t c2, t_server t = rs /\ rtc net_step w0 w1 /\ rtc net_step w1 w2 /\ rtc net_step w2 w /\
    bound w1 (rq_endname q) t /\ alive w2 (rq_endname q) (t_name t) (t_server t) /\
    w_calls w2 !! id = Some c2 /\ c_handler c2 = HReceived rs m.

Definition history (w0 w : world) (id : Z) (c : call) : Prop :=
  match c_phase c with
  | Sending | Accepted => True
  | Pending t | Waiting t | Decided t _ => was_bound w0 w (rq_endname (c_req c)) t
  | Replying m | Returned m =>
      rp_ok m = true -> exists rs, genuine w0 w id (c_req c) rs m /\ c_handler c = HReceived rs m
  end.

Record call_inv (w0 w : world) (id : Z) (c : call) : Prop := {
  ci_log : log_ok id c (events_of id (w_log w));
  ci_phase : phase_ok c;
  ci_history : history w0 w id c }.

Record calls_inv (w0 w : world) : Prop := {
  cs_calls : forall id c, w_calls w !! id = Some c -> call_inv w0 w id c;
  cs_log : forall e, e ∈ w_log w -> is_Some (w_calls w !! event_id e) }.

Lemma genuine_later w0 w w' id q rs m : net_step w w' -> genuine w0 w id q rs m -> genuine w0 w' id q rs m.
Proof.
  intros Hs (w1 & w2 & t & c2 & H0 & H1 & H2 & H3 & H4). exists w1, w2, t, c2.
  split; [done|]. split; [done|]. split; [done|]. split; [by eapply rtc_r|done].
Qed.

Lemma was_bound_later w0 w w' e t : net_step w w' -> was_bound w0 w e t -> was_bound w0 w' e t.
Proof. intros Hs (w1 & H1 & H2 & H3). exists w1. split; [done|]. split; [by eapply rtc_r|done]. Qed.

Lemma history_later w0 w w' id c : net_step w w' -> history w0 w id c -> history w0 w' id c.
Proof.
  intros Hs. unfold history. destruct (c_phase c); eauto using was_bound_later.
  - intros H Hm. destruct (H Hm) as (rs & Hg & ?). eauto using genuine_later.
  - intros H Hm. destruct (H Hm) as (rs & Hg & ?). eauto using genuine_later.
Qed.

Lemma call_inv_later w0 w w' id c :
  net_step w w' -> events_of id (w_log w') = events_of id (w_log w) ->
  call_inv w0 w id c -> call_inv w0 w' id c.
Proof. intros Hs Hl [H1 H2 H3]. split; [by rewrite Hl|done|by eapply history_later]. Qed.

Lemma events_of_app id l l' : events_of id (l ++ l') = events_of id l ++ events_of id l'.
Proof. apply filter_app. Qed.

Lemma move_events w id o c evs : move w id o c evs -> Forall (fun e => event_id e = id) evs.
Proof. destruct 1; repeat constructor. Qed.

Lemma events_of_none id l cs :
  (forall e : event, e ∈ l -> is_Some (cs !! event_id e)) -> (cs : gmap Z call) !! id = None -> events_of id l = [].
Proof.
  intros Hl Hn. apply filter_none, Forall_forall. intros e He <-. apply Hl in He. rewrite Hn in He.
  by destruct He.
Qed.

(** The call that moves keeps its part of the invariant. *)
Lemma move_log w id c0 c evs l :
  move w id (Some c0) c evs -> phase_ok c0 -> log_ok id c0 l -> log_ok id c (l ++ evs).
Proof.
  intros Hm Hp Hl. inversion Hm; subst; unfold log_ok, phase_ok, serves in *;
    cbn [c_phase c_handler c_drain c_req] in *; rewrite ?app_nil_r; try done.
  - destruct Hp as [-> _]. done.
  - subst l. destruct H0 as (s & sv & _ & Hn & _). by exists svc, meth.
  - destruct Hl as (svc & meth & -> & Hn). by exists svc, meth.
Qed.

Lemma move_phase w id c0 c evs : move w id (Some c0) c evs -> phase_ok c0 -> phase_ok c.
Proof.
  intros Hm Hp. inversion Hm; subst; unfold phase_ok, can_end in *;
    cbn [c_phase c_handler c_drain c_req] in *; try naive_solver.
  - destruct r; naive_solver.
  - destruct p as [| | | |? []| |]; naive_solver.
  - destruct p as [| | | |? []| |]; naive_solver.
  - destruct p as [| | | |? []| |]; naive_solver.
Qed.

Lemma move_history w0 w w' id c0 c evs :
  rtc net_step w0 w -> net_step w w' -> w_calls w !! id = Some c0 -> move w id (Some c0) c evs ->
  phase_ok c0 -> history w0 w id c0 -> history w0 w' id c.
Proof.
  intros Hr Hs Hc Hm Hp Hh. apply (history_later _ _ _ _ _ Hs) in Hh as Hh'.
  inversion Hm; subst; unfold history, phase_ok in *;
    cbn [c_phase c_handler c_drain c_req] in *; subst; try done.
  - exists w. split; [done|]. split; [by apply rtc_once|done].
  - intros _. exists (t_server t). split; [|done]. destruct Hh as (w1 & H1 & H2 & H3).
    exists w1, w, t, (mkCall q (Decided t (Some r)) (HReceived (t_server t) r) d).
    split; [done|]. split; [done|]. split; [done|]. split; [by apply rtc_once|done].
  - destruct p; try done; intros Hk; by destruct (Hh Hk) as (? & _ & ?).
  - destruct p; try done; intros Hk; by destruct (Hh Hk) as (? & _ & ?).
  - destruct p; try done; intros Hk; by destruct (Hh Hk) as (? & _ & ?).
Qed.

Lemma calls_inv_start : calls_inv start_world start_world.
Proof.
  split; [intros id c H; simpl in H; by rewrite lookup_empty in H|].
  intros e He. simpl in He. by apply elem_of_nil in He.
Qed.

Lemma calls_inv_step w0 w w' :
  rtc net_step w0 w -> net_step w w' -> calls_inv w0 w -> calls_inv w0 w'.
Proof.
  intros Hr Hs [Hcs Hl]. destruct (step_moves _ _ Hs) as [[Ec El]|(id & c & evs & Hm & Ec & El)].
  { split; rewrite Ec.
    - intros id c Hc. eapply call_inv_later; [done|by rewrite El|by apply Hcs].
    - rewrite El. exact Hl. }
  pose proof (move_events _ _ _ _ _ Hm) as Hev. split; rewrite Ec.
  - intros i ci. rewrite lookup_insert. case_decide as Ei.
    + subst i. intros [= <-]. destruct (w_calls w !! id) as [c0|] eqn:Ho.
      * destruct (Hcs _ _ Ho) as [H1 H2 H3]. split.
        -- rewrite El, events_of_app. unfold events_of at 2. rewrite (filter_every _ _ Hev).
           by eapply move_log.
        -- by eapply move_phase.
        -- by eapply move_history.
      * inversion Hm; subst. split; [|done..]. by rewrite El, app_nil_r, (events_of_none _ _ _ Hl Ho).
    + intros Hc. eapply call_inv_later; [done| |by apply Hcs]. rewrite El, events_of_app.
      unfold events_of at 2. rewrite filter_none, app_nil_r; [done|].
      eapply Forall_impl; [exact Hev|]. simpl. congruence.
  - intros e. rewrite El, elem_of_app, lookup_insert. intros [He|He].
    + case_decide; [by eexists|by apply Hl].
    + rewrite Forall_forall in Hev. rewrite (Hev _ He), decide_True; [by eexists|done].
Qed.

Lemma calls_reachable w : rtc net_step start_world w -> calls_inv start_world w.
Proof.
  revert w. apply (rtc_ind_r (calls_inv start_world) start_world); [exact calls_inv_start|].
  intros w w' Hr Hs IH. by eapply calls_inv_step.
Qed.

Lemma count_events id l : count_if (executes id) (events_of id l) = count_if (executes id) l.
Proof.
  induction l as [|e l IH]; [done|]. unfold events_of in *. rewrite filter_cons, count_if_cons.
  case_decide as He; [by rewrite count_if_cons, IH|]. rewrite IH.
  destruct e as [i rs svc meth args|i r]; simpl in *; [|lia]. destruct (Z.eqb_spec i id); [done|lia].
Qed.

(** * Calls come back *)

(** The steps that belong to call [id]. *)
Definition own (id : Z) (a : action) : bool :=
  match a with
  | A_Accept i | A_GiveUp i | A_Lookup i | A_Spawn i _ | A_Receive i | A_Tick i | A_Decide i _
  | A_Deliver i | A_Run i | A_Return i _ | A_Drain i => i =? id
  | _ => false
  end.
Definition own_step (id : Z) (w w' : world) : Prop := exists a, own id a = true /\ exec a w = Done tt w'.

(** By its own steps, the call comes to return, or to a handler that crashes the
    program. *)
Definition comes_back (id : Z) (w : world) : Prop :=
  exists w', rtc (own_step id) w w' /\
    ((exists c m, w_calls w' !! id = Some c /\ c_phase c = Returned m) \/
     exists p w'', exec (A_Run id) w' = Panicked p w'').

Lemma comes_back_step id a w w' :
  own id a = true -> exec a w = Done tt w' -> comes_back id w' -> comes_back id w.
Proof.
  intros Ho E (w2 & Hr & H). exists w2. split; [|done]. eapply rtc_l; [by exists a|done].
Qed.

Definition put (id : Z) (c : call) (w : world) : world :=
  mkWorld (w_net w) (w_heap w) (w_loop w) (<[id := c]> (w_calls w)) (w_log w).

Lemma put_call id c w : w_calls (put id c w) !! id = Some c.
Proof. apply lookup_insert_eq. Qed.

Lemma set_call_run id c w : set_call id c w = Done tt (put id c w).
Proof. done. Qed.

Ltac enter_call E := cbn [exec]; unfold accept, abandon, lookup_target, spawn, receive, tick, decide_reply,
  deliver, handler_returns, run_handler; rewrite (the_call_run _ _ _ _ E);
  cbn [c_phase c_handler c_req c_drain with_phase with_handler with_drain].

Lemma replying_back id w q m h d :
  w_calls w !! id = Some (mkCall q (Replying m) h d) -> comes_back id w.
Proof.
  intros E. assert (exists w', exec (A_Deliver id) w = Done tt w' /\
    w_calls w' !! id = Some (mkCall q (Returned m) h d)) as (w' & E' & Hc).
  { enter_call E. destruct (rp_ok m); (eexists; split; [reflexivity|apply lookup_insert_eq]). }
  exists w'. split; [|left; by eexists _, m]. apply rtc_once. exists (A_Deliver id).
  split; [apply Z.eqb_refl|done].
Qed.

Lemma decided_back id w q t r h d :
  w_calls w !! id = Some (mkCall q (Decided t r) h d) -> comes_back id w.
Proof.
  intros E. assert (exists m, exec (A_Decide id false) w = Done tt (put id (mkCall q (Replying m) h d) w))
    as [m E'].
  { enter_call E. rewrite (bind_done _ _ _ _ _ (isServerDead_run _ _ _ _)).
    destruct r as [r|]; [|by exists refused]. destruct (bool_decide _); [by exists refused|].
    rewrite andb_false_r. by exists r. }
  eapply (comes_back_step _ (A_Decide id false)); [apply Z.eqb_refl|exact E'|].
  eapply replying_back, put_call.
Qed.

Lemma done_back id w q t rs r d :
  w_calls w !! id = Some (mkCall q (Waiting t) (HDone rs r) d) -> comes_back id w.
Proof.
  intros E. eapply (comes_back_step _ (A_Receive id)); [apply Z.eqb_refl|by enter_call E|].
  eapply decided_back, put_call.
Qed.

Lemma running_back id w q t rs d :
  w_calls w !! id = Some (mkCall q (Waiting t) (HRunning rs) d) -> comes_back id w.
Proof.
  intros E. eapply (comes_back_step _ (A_Return id "")); [apply Z.eqb_refl|by enter_call E|].
  eapply done_back, lookup_insert_eq.
Qed.

(** A method runs or the program ends: dispatch never waits. *)
Lemma dispatch_ends q s s' : dispatch q s <> Blocked s'.
Proof.
  unfold dispatch, split_svcMeth. rewrite bind_modify. cbv zeta.
  destruct (lastDot 0 (rq_svcMeth q) <? 0); [done|]. rewrite bind_ret, bind_gets.
  destruct (_ !! _); [|done]. by case_bool_decide.
Qed.

Lemma spawned_back id w q t rs d :
  w_calls w !! id = Some (mkCall q (Waiting t) (HSpawned rs) d) -> comes_back id w.
Proof.
  intros E. destruct (exec (A_Run id) w) as [[] w'|p w'|w'] eqn:E'.
  - eapply (comes_back_step _ (A_Run id)); [apply Z.eqb_refl|exact E'|].
    revert E'. enter_call E. intros E'. apply bind_inv in E' as ([svc meth] & w1 & E1 & E').
    injection E' as <-. eapply running_back, lookup_insert_eq.
  - exists w. split; [done|]. right. by exists p, w'.
  - exfalso. revert E'. enter_call E. unfold mbind, M_bind at 1, on_server.
    destruct (w_heap w !! rs) as [s|]; [|done].
    destruct (dispatch q s) as [[svc meth] s'| |s'] eqn:Ed; [done|done|].
    by apply dispatch_ends in Ed.
Qed.

Lemma pending_back id w q t h d :
  w_calls w !! id = Some (mkCall q (Pending t) h d) -> comes_back id w.
Proof.
  intros E. eapply (comes_back_step _ (A_Spawn id false)); [apply Z.eqb_refl| |].
  - enter_call E. rewrite andb_false_r. reflexivity.
  - eapply spawned_back, put_call.
Qed.

Lemma accepted_back id w q h d :
  w_calls w !! id = Some (mkCall q Accepted h d) -> comes_back id w.
Proof.
  intros E. assert (exists p, exec (A_Lookup id) w = Done tt (put id (mkCall q p h d) w) /\
    (p = Replying refused \/ exists t, p = Pending t)) as (p & E' & Hp).
  { enter_call E. unfold on_net, readEndnameInfo, gets, mbind at 1, M_bind at 1.
    cbn [i_enabled i_servername i_server]. destruct w as [n hp l cs lg]. cbn [w_net w_heap w_loop w_calls w_log].
    destruct (is_enabled n _); [|eexists; split; [reflexivity|by left]].
    destruct (connection_of n _) as [name|]; [|eexists; split; [reflexivity|by left]].
    cbn [mbind option_bind]. destruct (server_of n name); (eexists; split; [reflexivity|eauto]). }
  eapply (comes_back_step _ (A_Lookup id)); [apply Z.eqb_refl|exact E'|].
  destruct Hp as [-> | [t ->]]; [eapply replying_back, put_call|eapply pending_back, put_call].
Qed.

(** * Well-formedness *)

(** What a call's own steps leave alone: all but the statistics and the counts of
    the servers. *)
Definition tables (n : Network) :=
  (reliable n, longReordering n, ends n, enabled n, servers n, connections n, done_closed n).

Record frame (w w' : world) : Prop := {
  fr_tables : tables (w_net w') = tables (w_net w);
  fr_loop : w_loop w' = w_loop w;
  fr_heap : forall rs, srv_services <$> w_heap w' !! rs = srv_services <$> w_heap w !! rs }.

Lemma own_frame id a w w' : own id a = true -> exec a w = Done tt w' -> frame w w'.
Proof.
  intros Ho E. destruct a; try done; cbn [exec] in E;
    unfold accept, abandon, lookup_target, spawn, receive, tick, decide_reply,
      deliver, handler_returns, run_handler, drain in E; enter E.
  - rewrite bind_gets in E. destruct p; try done. destruct (w_loop w); [|done]. by injection E as <-.
  - rewrite bind_gets in E. destruct p; try done. destruct (done_closed _); [|done]. by injection E as <-.
  - destruct p; try done. apply bind_inv in E as (i & w1 & E1 & E).
    apply on_net_done in E1 as (n & [= <- <-] & ->). cbv zeta in E.
    repeat match type of E with context [match ?x with _ => _ end] => destruct x end; by injection E as <-.
  - destruct p; try done. destruct (_ && _); by injection E as <-.
  - destruct p; try done. destruct h; try done. by injection E as <-.
  - destruct p; try done. rewrite (bind_done _ _ _ _ _ (isServerDead_run _ _ _ _)) in E.
    destruct (bool_decide _); by injection E as <-.
  - destruct p; try done. rewrite (bind_done _ _ _ _ _ (isServerDead_run _ _ _ _)) in E.
    destruct r as [r|]; [|by injection E as <-]. destruct (bool_decide _); [by injection E as <-|].
    destruct (_ && _); by injection E as <-.
  - destruct p; try done. destruct (rp_ok m); by injection E as <-.
  - destruct h; try done. apply bind_inv in E as ([svc meth] & w1 & E1 & E).
    apply on_server_done in E1 as (s & s' & Hs & Ed & ->). apply dispatch_inv in Ed as (_ & _ & ->).
    injection E as <-. split; [done..|]. intros i. simpl. rewrite lookup_insert.
    case_decide; [|done]. subst i. by rewrite Hs.
  - destruct h; try done. by injection E as <-.
  - destruct h; try done. destruct d; [|done]. by injection E as <-.
Qed.

(** The server a handler runs on and the server a call is bound to. *)
Definition handler_server (h : handler) : option Z :=
  match h with HNone => None | HSpawned rs | HRunning rs | HDone rs _ | HReceived rs _ => Some rs end.
Definition phase_server (p : phase) : option Z :=
  match p with Pending t | Waiting t | Decided t _ => Some (t_server t) | _ => None end.

(** Every end has its own name and an entry in the tables; every pointer points
    to a server; every service is filed under its name; the loop runs unless the
    network was cleaned up. *)
Record net_wf (w : world) : Prop := {
  nw_ends : forall e ce, ends (w_net w) !! e = Some ce ->
    e_endname ce = e /\ is_Some (enabled (w_net w) !! e) /\ is_Some (connections (w_net w) !! e);
  nw_servers : forall name rs, server_of (w_net w) name = Some rs -> is_Some (w_heap w !! rs);
  nw_services : forall rs s k sv, w_heap w !! rs = Some s -> srv_services s !! k = Some sv -> svc_name sv = k;
  nw_calls : forall id c rs, w_calls w !! id = Some c ->
    handler_server (c_handler c) = Some rs \/ phase_server (c_phase c) = Some rs -> is_Some (w_heap w !! rs);
  nw_loop : w_loop w = true \/ done_closed (w_net w) = true }.

Lemma frame_heap w w' rs : frame w w' -> is_Some (w_heap w' !! rs) <-> is_Some (w_heap w !! rs).
Proof.
  intros H. pose proof (fr_heap _ _ H rs) as Hh.
  destruct (w_heap w' !! rs), (w_heap w !! rs); simpl in Hh; try done; split; intros []; done.
Qed.

(** A move of a call binds it to servers of the network only. *)
Lemma move_servers w id o c evs rs :
  net_wf w -> w_calls w !! id = o -> move w id o c evs ->
  handler_server (c_handler c) = Some rs \/ phase_server (c_phase c) = Some rs -> is_Some (w_heap w !! rs).
Proof.
  intros Hw Ho Hm. destruct o as [c0|]; [|inversion Hm; subst; by intros []].
  pose proof (nw_calls _ Hw _ _ rs Ho) as Hc.
  inversion Hm; subst; cbn [c_handler c_phase handler_server phase_server] in *; try tauto.
  2-4: intros [H'|[=]]; apply Hc; by left.
  intros [H'|[= <-]]; [tauto|]. destruct H0 as [[_ Hs] _]. by apply (nw_servers _ Hw) in Hs.
Qed.

Lemma own_wf id a w w' : own id a = true -> exec a w = Done tt w' -> net_wf w -> net_wf w'.
Proof.
  intros Ho E Hw. pose proof (own_frame _ _ _ _ Ho E) as Hf.
  pose proof (fr_tables _ _ Hf) as Ht. injection Ht as _ _ He Hen Hs Hc Hd.
  split.
  - rewrite He, Hen, Hc. apply (nw_ends _ Hw).
  - intros name rs. unfold server_of. rewrite Hs. intros H. apply (frame_heap _ _ _ Hf). by eapply (nw_servers _ Hw).
  - intros rs s k sv Hh Hk. pose proof (fr_heap _ _ Hf rs) as Hr. rewrite Hh in Hr.
    destruct (w_heap w !! rs) as [s0|] eqn:E0; simpl in Hr; [|done]. injection Hr as Hr.
    rewrite Hr in Hk. by eapply (nw_services _ Hw).
  - intros i c rs Hi H. apply (frame_heap _ _ _ Hf).
    destruct (step_moves w w') as [[Ec _]|(j & cj & evs & Hm & Ec & _)]; [by exists a|..]; rewrite Ec in Hi.
    + by eapply (nw_calls _ Hw).
    + rewrite lookup_insert in Hi. case_decide; [|by eapply (nw_calls _ Hw)].
      injection Hi as <-. by eapply move_servers.
  - rewrite (fr_loop _ _ Hf), Hd. apply (nw_loop _ Hw).
Qed.

Lemma net_op_wf {A} (m : M Network A) w a w' :
  net_wf w -> on_net m w = Done a w' ->
  (forall n, m (w_net w) = Done a n ->
     (forall e ce, ends n !! e = Some ce ->
        e_endname ce = e /\ is_Some (enabled n !! e) /\ is_Some (connections n !! e)) /\
     (forall name rs, server_of n name = Some rs -> is_Some (w_heap w !! rs)) /\
     (w_loop w = true \/ done_closed n = true)) ->
  net_wf w'.
Proof.
  intros [] (n & E & ->)%on_net_done H. destruct (H n E) as (H1 & H2 & H3). by split.
Qed.

Lemma MakeEnd_inv e n ce n' :
  MakeEnd e n = Done ce n' ->
  ends n !! e = None /\
  n' = set_tables (<[e := mkEnd e]> (ends n)) (<[e := false]> (enabled n)) (<[e := None]> (connections n)) n.
Proof. unfold MakeEnd. rewrite bind_gets. destruct (ends n !! e); [done|]. by intros [= <- <-]. Qed.

Lemma DeleteEnd_inv e n a n' :
  DeleteEnd e n = Done a n' ->
  n' = set_tables (delete e (ends n)) (delete e (enabled n)) (delete e (connections n)) n.
Proof. unfold DeleteEnd. rewrite bind_gets. destruct (ends n !! e); [|done]. by intros [= <- <-]. Qed.

Lemma server_of_insert n k o name :
  server_of (set_servers (<[k := o]> (servers n)) n) name = if decide (k = name) then o else server_of n name.
Proof. unfold server_of. simpl. rewrite lookup_insert. by case_decide. Qed.

Lemma step_wf w w' : net_wf w -> net_step w w' -> net_wf w'.
Proof.
  intros Hw [a E]. pose proof (nw_ends _ Hw) as He. pose proof (nw_servers _ Hw) as Hs.
  pose proof (nw_loop _ Hw) as Hl. pose proof (nw_services _ Hw) as Hv. pose proof (nw_calls _ Hw) as Hc.
  destruct a; try (by eapply own_wf; [|exact E|exact Hw]; apply Z.eqb_refl); cbn [exec] in E;
    try (eapply net_op_wf; [exact Hw|exact E|]; intros n [= <-]; by eauto).
  - eapply net_op_wf; [exact Hw|exact E|]. intros n. unfold Cleanup. rewrite bind_gets.
    destruct (done_closed _); [done|]. intros [= <-]. eauto.
  - apply bind_inv in E as (ce & w1 & E & [= <-]). eapply net_op_wf; [exact Hw|exact E|].
    intros n [_ ->]%MakeEnd_inv. split; [|by eauto]. simpl. intros e c.
    rewrite !lookup_insert. case_decide; [|by apply He]. intros [= <-]. by eauto.
  - eapply net_op_wf; [exact Hw|exact E|]. intros n ->%DeleteEnd_inv. split; [|by eauto]. simpl.
    intros e c. rewrite !lookup_delete. case_decide; [done|apply He].
  - rewrite bind_gets in E. destruct (w_heap w !! rs) eqn:Hh; [|done].
    eapply net_op_wf; [exact Hw|exact E|]. intros n [= <-]. split; [done|]. split; [|done].
    intros name rs'. rewrite server_of_insert. case_decide; [|by apply Hs]. intros [= <-]. by eexists.
  - eapply net_op_wf; [exact Hw|exact E|]. intros n [= <-]. split; [done|]. split; [|done].
    intros name rs'. rewrite server_of_insert. case_decide; [done|by apply Hs].
  - eapply net_op_wf; [exact Hw|exact E|]. intros n [= <-]. split; [|by eauto]. simpl. intros e c H.
    destruct (He _ _ H) as (? & ? & ?). rewrite lookup_insert. case_decide; by eauto.
  - eapply net_op_wf; [exact Hw|exact E|]. intros n [= <-]. split; [|by eauto]. simpl. intros e c H.
    destruct (He _ _ H) as (? & ? & ?). rewrite lookup_insert. case_decide; by eauto.
  - rewrite bind_gets in E. destruct (w_heap w !! rs) eqn:Hh; [done|]. injection E as <-.
    assert (forall i, is_Some (w_heap w !! i) -> is_Some (<[rs := MakeServer]> (w_heap w) !! i)) as Hg
      by (intros i ?; rewrite lookup_insert; case_decide; by eauto).
    split; simpl; eauto.
    intros i s k sv. rewrite lookup_insert. case_decide; [|by apply Hv].
    intros [= <-]. simpl. by rewrite lookup_empty.
  - apply on_server_done in E as (s & s' & Hh & [= <-] & ->).
    assert (forall i, is_Some (w_heap w !! i) -> is_Some (<[rs := AddService svc s]> (w_heap w) !! i)) as Hg
      by (intros i ?; rewrite lookup_insert; case_decide; by eauto).
    split; simpl; eauto.
    intros i s1 k sv. rewrite lookup_insert. case_decide as Ei; [|by apply Hv].
    subst i. intros [= <-]. simpl. rewrite lookup_insert. case_decide; [congruence|].
    by apply (Hv rs).
  - unfold Call in E. rewrite bind_gets in E. destruct (w_calls w !! id) eqn:Hn; [done|]. injection E as <-.
    split; simpl; eauto. intros i c rs. rewrite lookup_insert.
    case_decide; [|by apply (nw_calls _ Hw)]. by intros [= <-] [].
  - unfold loop_exit in E. rewrite bind_gets in E. destruct (w_loop w); [|done].
    destruct (done_closed (w_net w)) eqn:Hd; [|done]. injection E as <-.
    split; simpl; eauto.
Qed.

Lemma start_wf : net_wf start_world.
Proof.
  split; simpl.
  - intros e ce. by rewrite lookup_empty.
  - intros name rs. unfold server_of. simpl. by rewrite lookup_empty.
  - intros rs s k sv. by rewrite lookup_empty.
  - intros id c rs. by rewrite lookup_empty.
  - by left.
Qed.

Lemma reachable_wf w : rtc net_step start_world w -> net_wf w.
Proof.
  revert w. apply (rtc_ind_r net_wf start_world); [exact start_wf|].
  intros w w' _ Hs IH. by eapply step_wf.
Qed.

Lemma sending_back id w q h d :
  net_wf w -> w_calls w !! id = Some (mkCall q Sending h d) -> comes_back id w.
Proof.
  intros Hw E. destruct (w_loop w) eqn:Hl.
  - eapply (comes_back_step _ (A_Accept id)); [apply Z.eqb_refl| |].
    + enter_call E. rewrite bind_gets, Hl. reflexivity.
    + eapply accepted_back, lookup_insert_eq.
  - destruct (nw_loop _ Hw) as [?|Hd]; [congruence|]. eexists. split.
    + apply rtc_once. exists (A_GiveUp id). split; [apply Z.eqb_refl|]. enter_call E.
      rewrite bind_gets, Hd. reflexivity.
    + left. eexists _, refused. split; [apply put_call|done].
Qed.

(** * Theorems *)


(** C17: An RPC runs its handler at most once; and when a Call returns true, the
    handler ran exactly once, the method that the call names, with the call's
    arguments and the reply that the call returns, on a server to which the
    caller's end was connected and enabled at some moment of the past, and which
    was still in place, with the end enabled, at a later moment when the reply
    had already been received: a server that was replaced before its handler
    returned gives no positive reply. *)
Theorem rpc_at_most_once w id c :
  rtc net_step start_world w -> w_calls w !! id = Some c ->
  count_if (executes id) (w_log w) <= 1 /\
  forall m, c_phase c = Returned m -> rp_ok m = true ->
  exists rs svc meth,
    events_of id (w_log w) = [Exec id rs svc meth (rq_args (c_req c)); Ret id (rp_reply m)] /\
    names (c_req c) svc meth /\ genuine start_world w id (c_req c) rs m.
Proof.
  intros Hr Hc. destruct (cs_calls _ _ (calls_reachable _ Hr) _ _ Hc) as [Hl Hp Hh]. split.
  - rewrite <- (count_events id). unfold log_ok in Hl.
    destruct (c_handler c); [by rewrite Hl..| | |]; destruct Hl as (svc & meth & -> & _); simpl;
      rewrite !count_if_cons, count_if_nil; simpl; rewrite ?Z.eqb_refl; lia.
  - intros m Em Hm. unfold history in Hh. rewrite Em in Hh. destruct (Hh Hm) as (rs & Hg & E).
    unfold log_ok in Hl. rewrite E in Hl. destruct Hl as (svc & meth & El & Hn & _).
    by exists rs, svc, meth.
Qed.

(** C24: No call is left waiting: from every reachable state, whatever else goes on,
    the call's own steps and its handler's return bring it back to the caller,
    unless its handler crashes the program; and the goroutine of a handler that
    returns after its call came back can always end. *)
Theorem call_comes_back w id c :
  rtc net_step start_world w -> w_calls w !! id = Some c ->
  comes_back id w /\
  (forall m rs r, c_phase c = Returned m -> c_handler c = HDone rs r ->
   exists w' c', exec (A_Drain id) w = Done tt w' /\ w_calls w' !! id = Some c' /\ c_handler c' = HReceived rs r).
Proof.
  intros Hr Hc. pose proof (ci_phase _ _ _ _ (cs_calls _ _ (calls_reachable _ Hr) _ _ Hc)) as Hp.
  destruct c as [q p h d]. split.
  - destruct p as [| |t|t|t r|m|m]; unfold phase_ok in Hp; cbn [c_phase c_handler c_drain] in Hp.
    + eapply sending_back; [by apply reachable_wf|done].
    + by eapply accepted_back.
    + by eapply pending_back.
    + destruct Hp as [_ [->|[->|[r ->]]]]; [by eapply spawned_back|by eapply running_back|by eapply done_back].
    + by eapply decided_back.
    + by eapply replying_back.
    + exists w. split; [done|]. left. by eexists _, m.
  - intros m rs r Hm Hh. cbn [c_phase c_handler] in Hm, Hh. subst p h.
    unfold phase_ok, can_end in Hp. cbn [c_phase c_handler c_drain] in Hp.
    destruct Hp as [?|[->|(? & ? & ?)]]; [done| |done].
    exists (put id (mkCall q (Returned m) (HReceived rs r) true) w), (mkCall q (Returned m) (HReceived rs r) true).
    split; [|split; [apply put_call|reflexivity]].
    cbn [exec]. unfold drain. by rewrite (the_call_run _ _ _ _ Hc).
Qed.

Lemma on_net_panics {A} (m : M Network A) w p w' :
  on_net m w = Panicked p w' -> exists n, m (w_net w) = Panicked p n.
Proof. unfold on_net. destruct (m (w_net w)); [done| |done]. intros [= <- <-]. by eexists. Qed.

Lemma dispatch_panics q s p s' :
  dispatch q s = Panicked p s' ->
  (p = SliceOutOfRange /\ lastDot 0 (rq_svcMeth q) < 0) \/
  (p = LogFatal /\ forall svc meth, @split_svcMeth unit (rq_svcMeth q) tt = Done (svc, meth) tt ->
     forall sv, srv_services s !! svc = Some sv -> meth ∉ svc_methods sv).
Proof.
  unfold dispatch, split_svcMeth. rewrite bind_modify. cbv zeta.
  destruct (Z.ltb_spec (lastDot 0 (rq_svcMeth q)) 0); [intros [= <- <-]; by left|].
  rewrite bind_ret, bind_gets. cbn [srv_services]. intros E. right.
  destruct (srv_services s !! _) as [sv|] eqn:Hs.
  - case_bool_decide as Hm; [done|]. injection E as <- <-. split; [done|].
    intros svc meth [= <- <-] sv'. cbn [fst snd] in *. rewrite Hs. by intros [= <-].
  - injection E as <- <-. split; [done|]. intros svc meth [= <- <-] sv'. cbn [fst snd] in *. by rewrite Hs.
Qed.

(** The only ways in which a step ends the program. *)
Definition crashes (w : world) (a : action) (p : panic) : Prop :=
  match a with
  | A_Cleanup => p = ExplicitPanic /\ done_closed (w_net w) = true
  | A_MakeEnd e => p = LogFatal /\ is_Some (ends (w_net w) !! e)
  | A_DeleteEnd e => p = LogFatal /\ ends (w_net w) !! e = None
  | A_AddService rs _ => p = NilDereference /\ w_heap w !! rs = None
  | A_Run id =>
      exists c rs, w_calls w !! id = Some c /\ c_handler c = HSpawned rs /\
        ((p = SliceOutOfRange /\ lastDot 0 (rq_svcMeth (c_req c)) < 0) \/
         (p = LogFatal /\ forall svc meth, ~ serves w rs (rq_svcMeth (c_req c)) svc meth))
  | _ => False
  end.

Lemma run_crashes w id p w' :
  net_wf w -> exec (A_Run id) w = Panicked p w' -> crashes w (A_Run id) p.
Proof.
  intros Hw. cbn [exec]. unfold run_handler.
  destruct (w_calls w !! id) as [[q ph h d]|] eqn:Hc.
  2: { unfold the_call, mbind, M_bind, gets. by rewrite Hc. }
  rewrite (the_call_run _ _ _ _ Hc). cbn [c_handler c_req]. destruct h as [|rs| | |]; try done.
  destruct (nw_calls _ Hw id _ rs Hc) as [s Hs]; [by left|].
  unfold mbind, M_bind at 1, on_server. rewrite Hs.
  destruct (dispatch q s) as [[svc meth] s'|p' s'|] eqn:Ed; [done| |done]. intros [= <- <-].
  exists (mkCall q ph (HSpawned rs) d), rs. split; [done|]. split; [done|].
  destruct (dispatch_panics _ _ _ _ Ed) as [?|[-> H]]; [by left|]. right. split; [done|].
  intros svc meth (s1 & sv & H1 & H2 & H3 & H4). rewrite Hs in H1. injection H1 as <-.
  by eapply H.
Qed.

Lemma the_call_panics {B} id (k : call -> M world B) w p w' :
  (the_call id ≫= k) w = Panicked p w' -> exists c, w_calls w !! id = Some c /\ k c w = Panicked p w'.
Proof.
  destruct (w_calls w !! id) as [c|] eqn:Hc.
  - rewrite (the_call_run _ _ _ _ Hc). by exists c.
  - unfold the_call, mbind, M_bind, gets. by rewrite Hc.
Qed.

(** A call's own steps, the start of its handler apart, never panic. *)
Lemma own_calm id a w p w' :
  own id a = true -> (forall i, a <> A_Run i) -> exec a w <> Panicked p w'.
Proof.
  intros Ho Hn E. destruct a; try done; cbn [exec] in E; try (by destruct (Hn id0));
    unfold accept, abandon, lookup_target, spawn, receive, tick, decide_reply, deliver,
      handler_returns, drain in E; apply the_call_panics in E as ([q ph h d] & _ & E);
    cbn [c_phase c_handler c_drain c_req] in E; rewrite ?bind_gets in E; destruct ph; try done; try (by destruct h, d);
    try rewrite (bind_done _ _ _ _ _ (isServerDead_run _ _ _ _)) in E.
  - by destruct (w_loop w).
  - by destruct (done_closed (w_net w)).
  - unfold on_net, readEndnameInfo, gets, mbind at 1, M_bind at 1 in E.
    cbn [i_enabled i_servername i_server] in E.
    repeat match type of E with context [match ?x with _ => _ end] => destruct x end; done.
  - by destruct (_ && _).
  - by destruct (bool_decide _).
  - destruct r; [|done]. destruct (bool_decide _); [done|]. by destruct (_ && _).
  - by destruct (rp_ok m).
Qed.

(** The network ends the program only where a caller breaks its rules: a second
    Cleanup, an end made twice or deleted when there is none, a service added to
    no server, a call whose method name has no dot or names no handler of the
    server it reaches.  No other step panics; none ever reads through a nil
    server. *)
Theorem network_crashes w a p w' :
  rtc net_step start_world w -> exec a w = Panicked p w' -> crashes w a p.
Proof.
  intros Hr E. pose proof (reachable_wf _ Hr) as Hw. clear Hr.
  destruct a; try (by eapply run_crashes);
    try (by exfalso; eapply own_calm; [| |exact E]; [apply Z.eqb_refl|done]); cbn [exec crashes] in *;
    try (apply on_net_panics in E as [n E]; try done); try rewrite bind_gets in E.
  - unfold Cleanup in E. rewrite bind_gets in E. destruct (done_closed _); [|done]. by injection E as <-.
  - unfold on_net, MakeEnd, mbind, M_bind, gets in E. destruct (ends (w_net w) !! endname); [|done].
    injection E as <-. by eauto.
  - unfold DeleteEnd in E. rewrite bind_gets in E. destruct (ends (w_net w) !! endname); [done|].
    by injection E as <-.
  - by destruct (w_heap w !! rs).
  - by destruct (w_heap w !! rs).
  - unfold on_server in E. destruct (w_heap w !! rs); [done|]. by injection E as <-.
  - unfold Call in E. rewrite bind_gets in E. by destruct (w_calls w !! id).
  - unfold loop_exit in E. rewrite bind_gets in E. by destruct (_ && _).
Qed.

(** ** A reliable network *)

(** The end is connected to the server and nothing is lost. *)
Definition settled (e name : string) (rs : Z) (w : world) : Prop :=
  alive w e name rs /\ connection_of (w_net w) e = Some name /\
  reliable (w_net w) = true /\ done_closed (w_net w) = false.

(** Steps that keep it so. *)
Definition settled_step (e name : string) (rs : Z) (w w' : world) : Prop :=
  net_step w w' /\ settled e name rs w'.

Definition on_track (name : string) (rs : Z) (p : phase) : Prop :=
  match p with
  | Sending | Accepted => True
  | Pending t | Waiting t | Decided t (Some _) => t_name t = name /\ t_server t = rs /\ t_reliable t = true
  | Decided t None => False
  | Replying m | Returned m => rp_ok m = true
  end.

Lemma move_on_track e name rs w id o c evs :
  settled e name rs w -> move w id o c evs -> rq_endname (c_req c) = e ->
  (forall c0, o = Some c0 -> on_track name rs (c_phase c0) /\ log_ok id c0 (events_of id (w_log w)) /\ phase_ok c0) ->
  on_track name rs (c_phase c).
Proof.
  intros (Ha & Hc & Hr & Hd) Hm He Ho. destruct o as [c0|]; [|inversion Hm; by subst].
  destruct (Ho c0 eq_refl) as (Ht & Hl & Hp). clear Ho.
  inversion Hm; subst; unfold on_track, log_ok, phase_ok in *;
    cbn [c_phase c_handler c_drain c_req] in *; try done; try congruence.
  - destruct H0 as ((_ & Hs) & Hc' & Hr'). destruct Ha as [_ Ha].
    assert (t_name t = name) as E by congruence. rewrite E in Hs. split; [done|]. split; congruence.
  - exfalso. by apply (H0 (mkTarget name rs true true)).
  - destruct Ht as (_ & _ & ?). congruence.
  - exfalso. destruct Ht as (E1 & E2 & _). rewrite E1, E2 in H0. done.
  - rewrite Hp in Hl. by destruct Hl as (? & ? & _ & _ & ?).
  - exfalso. destruct r as [r|]; [|done]. destruct Ht as (E1 & E2 & E3). rewrite E1, E2 in H0.
    destruct H0 as [?|[?|?]]; [done|done|congruence].
Qed.

Lemma move_endname w id c0 c evs : move w id (Some c0) c evs -> c_req c = c_req c0.
Proof. intros H. by inversion H; subst. Qed.


(** ** Instances *)

Fixpoint play (l : list action) (w : world) : option world :=
  match l with
  | [] => Some w
  | a :: l => match exec a w with Done _ w' => play l w' | _ => None end
  end.

Lemma play_steps l w w' : play l w = Some w' -> rtc net_step w w'.
Proof.
  revert w. induction l as [|a l IH]; simpl; intros w E; [by injection E as <-|].
  destruct (exec a w) as [[] w1| |] eqn:E1; try done. eapply rtc_l; [by exists a|by apply IH].
Qed.

Definition raft_service : Service := MakeService "Raft"
  [mkMethod "RequestVote" "" [true; true; true] 0; mkMethod "Kill" "" [true] 0;
   mkMethod "persist" "raft" [true; true; true] 0].

(** A server, an end connected to it, and a call up to its handler. *)
Definition setup : list action :=
  [A_MakeServer 1; A_AddService 1 raft_service; A_AddServer "s" 1; A_MakeEnd "e"; A_Connect "e" "s";
   A_Enable "e" true]%string.
Definition begin_call (svcMeth : string) : list action :=
  [A_Call 7 (mkEnd "e") svcMeth "args"; A_Accept 7; A_Lookup 7; A_Spawn 7 true]%string.
Definition end_call : list action :=
  [A_Run 7; A_Return 7 "yes"; A_Receive 7; A_Decide 7 true; A_Deliver 7]%string.

Definition after (l : list action) : world := default start_world (play l start_world).


Definition voted : world := after (setup ++ begin_call "Raft.RequestVote" ++ end_call).

Lemma voted_reachable : rtc net_step start_world voted.
Proof. apply (play_steps (setup ++ begin_call "Raft.RequestVote" ++ end_call)). vm_compute. reflexivity. Qed.

Definition voted_call : call :=
  mkCall (mkReq "e" "Raft.RequestVote" "args") (Returned (mkReply true "yes"))
    (HReceived 1 (mkReply true "yes")) false.

Lemma rpc_at_most_once_witness :
  exists rs svc meth,
    events_of 7 (w_log voted) = [Exec 7 rs svc meth "args"; Ret 7 "yes"] /\
    names (c_req voted_call) svc meth /\
    genuine start_world voted 7 (c_req voted_call) rs (mkReply true "yes").
Proof.
  refine (proj2 (rpc_at_most_once voted 7 voted_call voted_reachable _) (mkReply true "yes") _ _);
    vm_compute; reflexivity.
Defined.

Lemma call_comes_back_witness : comes_back 7 (after (setup ++ begin_call "Raft.RequestVote")).
Proof.
  refine (proj1 (call_comes_back _ 7 (mkCall (mkReq "e" "Raft.RequestVote" "args")
    (Waiting (mkTarget "s" 1 true false)) (HSpawned 1) false) _ _)).
  - apply (play_steps (setup ++ begin_call "Raft.RequestVote")). vm_compute. reflexivity.
  - vm_compute. reflexivity.
Defined.

(** A call of a method that is no handler. *)
Lemma network_crashes_witness :
  crashes (after (setup ++ begin_call "Raft.Kill")) (A_Run 7) LogFatal.
Proof.
  refine (network_crashes _ _ _ (match exec (A_Run 7) (after (setup ++ begin_call "Raft.Kill")) with
    | Panicked _ w' => w' | _ => start_world end) _ _).
  - apply (play_steps (setup ++ begin_call "Raft.Kill")). vm_compute. reflexivity.
  - vm_compute. reflexivity.
Defined.

Lemma settled_steps e name rs l w w' :
  play l w = Some w' -> Forall (fun a => match a with A_Call _ _ _ _ => True | _ => own 7 a = true end) l ->
  settled e name rs w -> rtc (settled_step e name rs) w w'.
Proof.
  revert w. induction l as [|a l IH]; simpl; intros w E Hl Hs; [by injection E as <-|].
  apply Forall_cons in Hl as [Ha Hl]. destruct (exec a w) as [[] w1| |] eqn:E1; try done.
  assert (settled e name rs w1) as Hs1; [|eapply rtc_l; [split; [by exists a|done]|by apply IH]].
  destruct a; try done.
  2-12: apply (own_frame 7) in E1 as [Ht _ _]; [|done]; injection Ht as Hr _ _ Hen Hsv Hc Hd;
    unfold settled, alive, is_enabled, server_of, connection_of in *; by rewrite Hr, Hen, Hsv, Hc, Hd.
  cbn [exec] in E1. unfold Call in E1. rewrite bind_gets in E1. destruct (w_calls w !! id); [done|].
  by injection E1 as <-.
Qed.

