(* ===== verification/LabGob.v ===== *)
(** The wrapper of encoding/gob (labgob/labgob.go): before it encodes or decodes it
    looks for field names that gob leaves out, in all types a type is made of, and
    before it decodes it looks for values that gob would not overwrite.

    A type of the program is a number; [types] is what reflect knows of it.  The
    pointers of a value go through a heap.  What encoding/gob does is an argument.
    unicode.IsUpper above Latin-1 is a parameter. *)

From S2P Require Import Prelude Utf8.

(** * Types and values *)

(** reflect's kinds as far as the code tells them apart. *)
Inductive gotype : Type :=
  | Struct (name : string) (flds : list (string * Z))
  | Slice (elem : Z)
  | Array (elem : Z)
  | Ptr (elem : Z)
  | Map (elem key : Z)
  | Basic (name : string)
  | OtherKind.

(** A basic value is given by whether it is its type's zero. *)
#[warnings="-register-all"]
Inductive govalue : Type :=
  | VStruct (flds : list (string * govalue))
  | VPtr (a : option Z)
  | VBasic (tname : string) (zero : bool)
  | VOther.

(** What is printed. *)
Inductive message : Type :=
  | LowerCase (field tname : string)
  | NonDefault (what : string).

(** The package's variables. *)
Record labgob := mkGob { errorCount : Z; checked : gset Z; printed : list message }.

Definition mark (t : Z) (g : labgob) : labgob := mkGob (errorCount g) ({[t]} ∪ checked g) (printed g).
Definition add_error (o : option message) (g : labgob) : labgob :=
  mkGob (errorCount g + 1) (checked g) (printed g ++ match o with Some m => [m] | None => [] end).

Section labgob.
Context (upper_table : Z -> bool) (types : gmap Z gotype) (heap : gmap Z govalue).

Definition IsUpper (r : Z) : bool := if r <=? 255 then latin1_upper r else upper_table r.
Definition capital (name : string) : bool := IsUpper (fst (DecodeRuneInString name)).

(** * The names of fields *)

(** [fuel] bounds the depth of the recursion, which the code does not. *)
Fixpoint checkType (fuel : nat) (t : Z) : M labgob unit :=
  match fuel with
  | O => block
  | S fuel =>
      g ← gets (fun g => g);
      if bool_decide (t ∈ checked g) then mret tt else
      modify (mark t);;
      match types !! t with
      | Some (Struct name flds) =>
          for_each flds (fun f =>
            when (negb (capital (fst f))) (modify (add_error (Some (LowerCase (fst f) name))));;
            checkType fuel (snd f))
      | Some (Slice e) | Some (Array e) | Some (Ptr e) => checkType fuel e
      | Some (Map e k) => checkType fuel e;; checkType fuel k
      | Some (Basic _) | Some OtherKind | None => mret tt
      end
  end.

(** As deep as a program with these types can go. *)
Definition type_fuel : nat := S (size (dom types)).

(** [value] is an interface{}: nil, or a type and a value of it. *)
Definition checkValue (value : option (Z * govalue)) : M labgob unit :=
  match value with
  | None => throw NilDereference
  | Some (t, _) => checkType type_fuel t
  end.

(** * Default values *)

Definition dotted (name name1 : string) : string :=
  if String.eqb name "" then name1 else (name +:+ "." +:+ name1)%string.

Fixpoint checkDefault1 (fuel : nat) (value : govalue) (depth : Z) (name : string) : M labgob unit :=
  match fuel with
  | O => block
  | S fuel =>
      if 3 <? depth then mret tt else
      match value with
      | VStruct flds => for_each flds (fun f => checkDefault1 fuel (snd f) (depth + 1) (dotted name (fst f)))
      | VPtr None => mret tt
      | VPtr (Some a) =>
          match heap !! a with
          | Some v => checkDefault1 fuel v (depth + 1) name
          | None => throw NilDereference
          end
      | VBasic tname zero =>
          when (negb zero) (
            g ← gets (fun g => g);
            let what := if String.eqb name "" then tname else name in
            modify (add_error (if errorCount g <? 1 then Some (NonDefault what) else None)))
      | VOther => mret tt
      end
  end.

(** The depth starts at 1 and stops above 3. *)
Definition checkDefault (value : option (Z * govalue)) : M labgob unit :=
  match value with
  | None => mret tt
  | Some (_, v) => checkDefault1 4 v 1 ""
  end.

(** * The wrappers *)

Definition Encode {A} (gob : M labgob A) (e : option (Z * govalue)) : M labgob A := checkValue e;; gob.
Definition EncodeValue {A} (gob : M labgob A) (value : option (Z * govalue)) : M labgob A := checkValue value;; gob.
Definition Decode {A} (gob : M labgob A) (e : option (Z * govalue)) : M labgob A :=
  checkValue e;; checkDefault e;; gob.
Definition Register {A} (gob : M labgob A) (value : option (Z * govalue)) : M labgob A := checkValue value;; gob.
Definition RegisterName {A} (gob : M labgob A) (value : option (Z * govalue)) : M labgob A := checkValue value;; gob.

(** * The types a type is made of *)

Definition parts (d : gotype) : list Z :=
  match d with
  | Struct _ flds => snd <$> flds
  | Slice e | Array e | Ptr e => [e]
  | Map e k => [e; k]
  | Basic _ | OtherKind => []
  end.
Definition part_of (t u : Z) : Prop := exists d, types !! t = Some d /\ u ∈ parts d.

(** The fields of one type that are complained about. *)
Definition complaints (t : Z) : list message :=
  match types !! t with
  | Some (Struct name flds) =>
      (fun f => LowerCase (fst f) name) <$> filter (fun f => capital (fst f) = false) flds
  | _ => []
  end.

(** The table knows the parts of its types. *)
Definition closed_table : Prop := forall t u, part_of t u -> u ∈ dom types.

(** What a check of some types may do to the variables. *)
Record visits (ts : list Z) (g g' : labgob) (seen : list Z) : Prop := {
  vi_checked : forall t, t ∈ checked g' <-> t ∈ checked g \/ t ∈ seen;
  vi_new : NoDup seen /\ forall t, t ∈ seen -> t ∉ checked g;
  vi_all : forall t, t ∈ ts -> t ∈ checked g';
  vi_closed : forall t u, t ∈ seen -> part_of t u -> u ∈ checked g';
  vi_reach : forall u, u ∈ seen -> exists t, t ∈ ts /\ rtc part_of t u;
  vi_count : errorCount g' = errorCount g + lenZ (seen ≫= complaints);
  vi_printed : printed g' ≡ₚ printed g ++ (seen ≫= complaints) }.

Lemma visits_nil g : visits [] g g [].
Proof.
  split; try (by intros ? []%elem_of_nil).
  - intros t. rewrite elem_of_nil. tauto.
  - split; [constructor|]. by intros ? []%elem_of_nil.
  - by intros ? ? []%elem_of_nil.
  - simpl. lia.
  - by rewrite app_nil_r.
Qed.

Lemma visits_app ts us g1 g2 g3 s1 s2 :
  visits ts g1 g2 s1 -> visits us g2 g3 s2 -> visits (ts ++ us) g1 g3 (s1 ++ s2).
Proof.
  intros [A1 [A2 A2'] A3 A4 A5 A6 A7] [B1 [B2 B2'] B3 B4 B5 B6 B7]. split.
  - intros t. rewrite B1, A1, elem_of_app. tauto.
  - split.
    + apply NoDup_app. split; [done|]. split; [|done]. intros t Ht1 Ht2. apply (B2' t Ht2), A1. by right.
    + intros t [Ht|Ht]%elem_of_app; [auto|]. intros Hc. apply (B2' t Ht), A1. by left.
  - intros t [Ht|Ht]%elem_of_app; [|auto]. apply B1. left. auto.
  - intros t u [Ht|Ht]%elem_of_app Hp; [|eauto]. apply B1. left. eauto.
  - intros u [Hu|Hu]%elem_of_app; [destruct (A5 u Hu) as (t & Ht & ?)|destruct (B5 u Hu) as (t & Ht & ?)];
      exists t; rewrite elem_of_app; auto.
  - rewrite B6, A6, bind_app, length_app. lia.
  - by rewrite B7, A7, bind_app, app_assoc.
Qed.

(** Complaints that are already made do not matter. *)
Definition bump (o : list message) (g : labgob) : labgob :=
  mkGob (errorCount g + lenZ o) (checked g) (printed g ++ o).

Lemma visits_bump o ts g g' s : visits ts g g' s -> visits ts (bump o g) (bump o g') s.
Proof.
  intros [A1 A2 A3 A4 A5 A6 A7]. split; try done; simpl.
  - rewrite A6. lia.
  - rewrite A7, <- !app_assoc. f_equiv. apply Permutation_app_comm.
Qed.

Lemma bump_bump o1 o2 g : bump o2 (bump o1 g) = bump (o1 ++ o2) g.
Proof. unfold bump. simpl. rewrite length_app, app_assoc. f_equal. lia. Qed.

Lemma visits_mark t d g g' s :
  t ∉ checked g -> types !! t = Some d -> visits (parts d) (bump (complaints t) (mark t g)) g' s ->
  visits [t] g g' (t :: s).
Proof.
  intros Ht Hd [A1 [A2 A2'] A3 A4 A5 A6 A7]. simpl in *. split.
  - intros u. rewrite A1, elem_of_union, elem_of_singleton, elem_of_cons. tauto.
  - split.
    + apply NoDup_cons. split; [|done]. intros H%A2'. set_solver.
    + intros u [->|H%A2']%elem_of_cons; [done|set_solver].
  - intros u ->%list_elem_of_singleton. apply A1. left. set_solver.
  - intros u v [->|Hu]%elem_of_cons Hp; [|eauto]. destruct Hp as (d' & Hd' & Hv).
    rewrite Hd in Hd'. injection Hd' as <-. auto.
  - intros u [->|Hu]%elem_of_cons; exists t; (split; [by left|]); [done|].
    destruct (A5 u Hu) as (v & Hv & Hvu). eapply rtc_l; [|done]. by exists d.
  - rewrite A6, bind_cons, length_app. lia.
  - by rewrite A7, bind_cons, <- app_assoc.
Qed.

Definition unseen (g : labgob) : nat := size (dom types ∖ checked g).

Lemma unseen_mark t g : t ∈ dom types -> t ∉ checked g -> (unseen (mark t g) < unseen g)%nat.
Proof. intros H1 H2. unfold unseen. apply subset_size. simpl. set_solver. Qed.

Lemma unseen_visits ts g g' s : visits ts g g' s -> (unseen g' <= unseen g)%nat.
Proof.
  intros H. unfold unseen. apply subseteq_size. intros t. rewrite !elem_of_difference, (vi_checked _ _ _ _ H). tauto.
Qed.

Lemma fields_visit (k : Z -> M labgob unit) n name flds :
  (forall t g, t ∈ flds.*2 -> (unseen g < n)%nat -> exists g' s, k t g = Done tt g' /\ visits [t] g g' s) ->
  forall g, (unseen g < n)%nat -> exists g' s,
    for_each flds (fun f =>
      when (negb (capital (fst f))) (modify (add_error (Some (LowerCase (fst f) name))));; k (snd f)) g = Done tt g' /\
    visits flds.*2 (bump ((fun f => LowerCase (fst f) name) <$> filter (fun f => capital (fst f) = false) flds) g) g' s.
Proof.
  induction flds as [|[x t] flds IH]; intros Hk g Hg.
  { exists g, []. split; [done|]. unfold bump. simpl. rewrite Z.add_0_r, app_nil_r. destruct g. apply visits_nil. }
  set (o := if capital x then [] else [LowerCase x name]).
  assert (when (negb (capital x)) (modify (add_error (Some (LowerCase x name)))) g = Done tt (bump o g)) as E1.
  { unfold o. destruct (capital x); [|done]. unfold bump. simpl. rewrite Z.add_0_r, app_nil_r. by destruct g. }
  destruct (Hk t (bump o g)) as (g1 & s1 & E2 & V1); [by left|done|].
  destruct (IH (fun u h Hu => Hk u h (list_elem_of_further _ _ _ Hu)) g1) as (g' & s2 & E3 & V2).
  { pose proof (unseen_visits _ _ _ _ V1) as H. unfold unseen in *. simpl in H. lia. }
  exists g', (s1 ++ s2). split.
  - cbn [for_each fst snd]. erewrite bind_done; [exact E3|]. by rewrite (bind_done _ _ _ _ _ E1).
  - change (((x, t) :: flds).*2) with ([t] ++ flds.*2). eapply visits_app; [|exact V2].
    assert (((fun f => LowerCase (fst f) name) <$> filter (fun f => capital (fst f) = false) ((x, t) :: flds))
      = o ++ ((fun f => LowerCase (fst f) name) <$> filter (fun f => capital (fst f) = false) flds)) as ->.
    { rewrite filter_cons. unfold o. simpl. by destruct (capital x). }
    rewrite <- bump_bump. by apply visits_bump.
Qed.

(** With enough fuel the check returns, having visited what was not checked yet. *)
Lemma checkType_visits fuel t g :
  closed_table -> t ∈ dom types -> (unseen g < fuel)%nat ->
  exists g' s, checkType fuel t g = Done tt g' /\ visits [t] g g' s.
Proof.
  intros Hc. revert t g. induction fuel as [|fuel IH]; intros t g Ht Hg; [lia|].
  simpl. rewrite bind_gets. case_bool_decide as Hin.
  { exists g, []. split; [done|]. destruct (visits_nil g) as [A1 A2 _ A4 _ A6 A7].
    split; try done; [|by intros ? []%elem_of_nil]. by intros u ->%list_elem_of_singleton. }
  apply elem_of_dom in Ht as Hd. destruct Hd as [d Hd]. rewrite Hd.
  assert (unseen (mark t g) < fuel)%nat as Hu by (pose proof (unseen_mark t g Ht Hin); lia).
  assert (forall u, u ∈ parts d -> u ∈ dom types) as Hp.
  { intros u Hu'. apply (Hc t). by exists d. }
  assert (forall m g' s, m (mark t g) = Done tt g' -> visits (parts d) (bump (complaints t) (mark t g)) g' s ->
    exists g' s, (modify (mark t);; m) g = Done tt g' /\ visits [t] g g' s) as Hfin.
  { intros m g' s E V. exists g', (t :: s). split; [done|]. by eapply visits_mark. }
  assert (bump [] (mark t g) = mark t g) as Eb.
  { unfold bump, mark. simpl. by rewrite Z.add_0_r, app_nil_r. }
  destruct d as [name flds|e|e|e|e k|name|]; unfold complaints in Hfin; rewrite Hd in Hfin; rewrite ?Eb in Hfin.
  - destruct (fields_visit (checkType fuel) fuel name flds (fun u h Hu' => IH u h (Hp u Hu')) (mark t g) Hu)
      as (g' & s & E & V). by eapply Hfin.
  - destruct (IH e (mark t g)) as (g' & s & E & V); [apply Hp; by left|done|]. by eapply Hfin.
  - destruct (IH e (mark t g)) as (g' & s & E & V); [apply Hp; by left|done|]. by eapply Hfin.
  - destruct (IH e (mark t g)) as (g' & s & E & V); [apply Hp; by left|done|]. by eapply Hfin.
  - destruct (IH e (mark t g)) as (g1 & s1 & E1 & V1); [apply Hp; by left|done|].
    destruct (IH k g1) as (g' & s & E & V); [apply Hp; right; by left| |].
    { pose proof (unseen_visits _ _ _ _ V1). lia. }
    eapply Hfin; [by rewrite (bind_done _ _ _ _ _ E1)|]. by apply (visits_app [e] [k] _ g1).
  - eapply Hfin; [done|]. apply visits_nil.
  - eapply Hfin; [done|]. apply visits_nil.
Qed.

Definition checks_closed (g : labgob) : Prop := forall t u, t ∈ checked g -> part_of t u -> u ∈ checked g.

Lemma closed_rtc g t u : checks_closed g -> t ∈ checked g -> rtc part_of t u -> u ∈ checked g.
Proof. intros Hc Ht H. induction H as [|t v u Htv _ IH]; [done|]. apply IH. by eapply Hc. Qed.

Lemma visits_closed ts g g' s : checks_closed g -> visits ts g g' s -> checks_closed g'.
Proof.
  intros Hc H t u Ht Hp. apply (vi_checked _ _ _ _ H) in Ht as [Ht|Ht]; [|by eapply vi_closed].
  apply (vi_checked _ _ _ _ H). left. by eapply Hc.
Qed.

(** * The default values a check sees *)

(** The names of the values, up to [n] levels down, that are not zero. *)
Fixpoint nondefault (n : nat) (v : govalue) (name : string) : list string :=
  match n with
  | O => []
  | S n =>
      match v with
      | VStruct flds => flds ≫= fun f => nondefault n (snd f) (dotted name (fst f))
      | VPtr (Some a) => match heap !! a with Some w => nondefault n w name | None => [] end
      | VBasic tname false => [if String.eqb name "" then tname else name]
      | VBasic _ true | VPtr None | VOther => []
      end
  end.

Fixpoint pointers (v : govalue) : list Z :=
  match v with
  | VStruct flds => flds ≫= fun f => pointers (snd f)
  | VPtr (Some a) => [a]
  | VPtr None | VBasic _ _ | VOther => []
  end.

(** No pointer of the value or of the heap dangles. *)
Definition no_dangling (v : govalue) : Prop := forall a, a ∈ pointers v -> is_Some (heap !! a).
Definition heap_ok : Prop := forall a v, heap !! a = Some v -> no_dangling v.

(** Only the first complaint of all is printed. *)
Definition warned (names : list string) (g : labgob) : labgob :=
  mkGob (errorCount g + lenZ names) (checked g)
    (printed g ++ if errorCount g <? 1 then NonDefault <$> take 1 names else []).

Lemma warned_app l1 l2 g : 0 <= errorCount g -> warned l2 (warned l1 g) = warned (l1 ++ l2) g.
Proof.
  intros Hg. unfold warned. simpl. rewrite length_app, <- app_assoc. f_equal; [lia|]. f_equal.
  destruct l1 as [|x l1]; simpl; [rewrite Z.add_0_r; by destruct (errorCount g <? 1)|].
  destruct (Z.ltb_spec (errorCount g + Z.of_nat (S (length l1))) 1); [lia|]. by destruct (errorCount g <? 1); rewrite ?app_nil_r, ?take_0.
Qed.

Lemma warned_nil g : warned [] g = g.
Proof. unfold warned. simpl. rewrite Z.add_0_r. destruct g as [e c pr]. simpl. by case_match; rewrite app_nil_r. Qed.

Lemma checkDefault1_run n v name g :
  heap_ok -> no_dangling v -> 0 <= errorCount g ->
  checkDefault1 (S n) v (4 - Z.of_nat n) name g = Done tt (warned (nondefault n v name) g).
Proof.
  intros Hh. revert v name g. induction n as [|n IH]; intros v name g Hv Hg.
  { simpl. by rewrite warned_nil. }
  cbn [checkDefault1]. destruct (Z.ltb_spec 3 (4 - Z.of_nat (S n))); [lia|].
  replace (4 - Z.of_nat (S n) + 1) with (4 - Z.of_nat n) by lia.
  destruct v as [flds|[a|]|tname [|]|]; cbn [nondefault]; rewrite ?warned_nil; try done.
  - revert g Hg. induction flds as [|[x v] flds IHf]; intros g Hg; [by rewrite warned_nil|].
    cbn [for_each fst snd]. rewrite bind_cons, <- warned_app by done.
    erewrite bind_done; [|apply IH; [|done]].
    + cbn [fst snd]. apply IHf; [|simpl; lia]. intros b Hb. apply Hv. cbn [pointers]. rewrite bind_cons.
      apply elem_of_app. by right.
    + intros b Hb. apply Hv. cbn [pointers]. rewrite bind_cons. apply elem_of_app. by left.
  - destruct (Hv a) as [w Hw]; [by left|]. rewrite Hw. apply IH; [|done]. by eapply Hh.
  - unfold when, negb, mbind, M_bind, gets, modify, add_error, warned. simpl. by destruct (errorCount g <? 1).
Qed.

(** * Theorems *)

(** C36: The wrapper complains about every field that gob would leave out, once: the
    check of a value returns, it marks the value's type and all types that type is
    made of, however they refer to each other, the complaints are those of the types
    that were not checked before, each type's once, and a second check of the same
    type does nothing. *)
Theorem labgob_checks_all_parts t v g :
  closed_table -> t ∈ dom types -> checks_closed g ->
  exists g' seen, checkValue (Some (t, v)) g = Done tt g' /\ checks_closed g' /\
    (forall u, u ∈ checked g' <-> u ∈ checked g \/ rtc part_of t u) /\
    NoDup seen /\ (forall u, u ∈ seen <-> rtc part_of t u /\ u ∉ checked g) /\
    errorCount g' = errorCount g + lenZ (seen ≫= complaints) /\
    printed g' ≡ₚ printed g ++ (seen ≫= complaints) /\
    checkValue (Some (t, v)) g' = Done tt g'.
Proof.
  intros Hc Ht Hg. destruct (checkType_visits type_fuel t g Hc Ht) as (g' & s & E & V).
  { unfold unseen, type_fuel. apply Nat.lt_succ_r, subseteq_size. set_solver. }
  exists g', s. pose proof (visits_closed _ _ _ _ Hg V) as Hg'. destruct V as [V1 [V2 V2'] V3 V4 V5 V6 V7].
  assert (forall u, u ∈ s -> rtc part_of t u) as Hs.
  { intros u Hu. destruct (V5 u Hu) as (t' & ->%list_elem_of_singleton & H). done. }
  assert (t ∈ checked g') as Ht' by (apply V3; by left).
  split; [done|]. split; [done|]. split; [|split; [done|split; [|split; [done|split; [done|]]]]].
  - intros u. rewrite V1. split; [intros [|]; auto|]. intros [|H]; [by left|].
    apply V1. by eapply closed_rtc.
  - intros u. split; [auto|]. intros [H Hu]. pose proof (closed_rtc g' t u Hg' Ht' H) as [|]%V1; done.
  - simpl. unfold type_fuel. simpl. rewrite bind_gets. by rewrite bool_decide_true.
Qed.

(** Before it decodes into a value the wrapper warns of values that are not
    zero: it finds the ones up to three levels down, counting the value itself as
    the first, adds their number to the error count and prints the first one if
    there was no error before. *)
Theorem labgob_warns_nondefault t v g :
  heap_ok -> no_dangling v -> 0 <= errorCount g ->
  checkDefault (Some (t, v)) g = Done tt (warned (nondefault 3 v "") g).
Proof. apply (checkDefault1_run 3 v "" g). Qed.

(** What the check before decoding misses: a value in a struct inside the struct
    that is decoded into by pointer is below the third level, so that it is never
    seen; and a nil interface, which the check of default values lets pass, has
    already crashed the check of types. *)
Theorem labgob_decode_limits {A} (gob : M labgob A) t a x y tname g :
  heap !! a = Some (VStruct [(x, VStruct [(y, VBasic tname false)])]) ->
  checkDefault (Some (t, VPtr (Some a))) g = Done tt g /\ checkDefault None g = Done tt g /\
  Decode gob None g = Panicked NilDereference g.
Proof.
  intros H. unfold checkDefault. split; [|done]. cbn [checkDefault1].
  change (3 <? 1) with false. cbv iota. rewrite H. reflexivity.
Qed.
End labgob.

(** * Examples *)

(** type Node struct { Next *Node; val int } *)
Definition node_types : gmap Z gotype :=
  list_to_map [(1, Struct "Node" [("Next"%string, 2); ("val"%string, 3)]); (2, Ptr 1); (3, Basic "int")].
Definition no_upper (_ : Z) : bool := false.
Definition fresh_gob : labgob := mkGob 0 ∅ [].

Lemma node_closed : closed_table node_types.
Proof.
  assert (forallb (fun x => forallb (fun u => bool_decide (u ∈ dom node_types)) (parts (snd x))) (map_to_list node_types) = true)
    as H by (vm_compute; reflexivity).
  intros t u (d & Hd & Hu). rewrite forallb_forall in H. apply elem_of_map_to_list, list_elem_of_In in Hd.
  apply H in Hd. rewrite forallb_forall in Hd. apply list_elem_of_In, Hd, bool_decide_eq_true in Hu. done.
Qed.

Lemma labgob_checks_all_parts_witness :
  exists g', checkValue no_upper node_types (Some (2, VPtr None)) fresh_gob = Done tt g' /\ 3 ∈ checked g'.
Proof.
  destruct (labgob_checks_all_parts no_upper node_types 2 (VPtr None) fresh_gob node_closed)
    as (g' & s & E & _ & H & _).
  - vm_compute. reflexivity.
  - intros t u Ht. exfalso. unfold fresh_gob in Ht. simpl in Ht. set_solver.
  - exists g'. split; [exact E|]. apply H. right. apply (rtc_l _ 2 1 3); [|apply rtc_once].
    + exists (Ptr 1). split; [vm_compute; reflexivity|by left].
    + exists (Struct "Node" [("Next"%string, 2); ("val"%string, 3)]). split; [vm_compute; reflexivity|right; by left].
Defined.

Definition node_heap : gmap Z govalue :=
  {[ 7 := VStruct [("Next"%string, VPtr (Some 7)); ("val"%string, VBasic "int" false)] ]}.

Lemma labgob_warns_nondefault_witness :
  checkDefault node_heap (Some (2, VPtr (Some 7))) fresh_gob = Done tt (mkGob 1 ∅ [NonDefault "val"]).
Proof.
  rewrite (labgob_warns_nondefault node_heap 2 (VPtr (Some 7)) fresh_gob).
  - vm_compute. reflexivity.
  - intros a v Ha b Hb. unfold node_heap in Ha. apply lookup_singleton_Some in Ha as [<- <-]. cbn in Hb.
    apply list_elem_of_singleton in Hb as ->. by eexists.
  - intros b ->%list_elem_of_singleton. by eexists.
  - done.
Defined.

Definition deep_heap : gmap Z govalue :=
  {[ 7 := VStruct [("Inner"%string, VStruct [("X"%string, VBasic "int" false)])] ]}.

Lemma labgob_decode_limits_witness :
  checkDefault deep_heap (Some (2, VPtr (Some 7))) fresh_gob = Done tt fresh_gob.
Proof.
  exact (proj1 (labgob_decode_limits no_upper node_types deep_heap (mret tt) 2 7 "Inner" "X" "int" fresh_gob eq_refl)).
Defined.
