(* ===== verification/Tester.v ===== *)
(** The checks of the Raft tester (raft/config.go): what it does with the
    messages the servers apply, and its questions about leaders and terms.

    The tester's mutex is taken around each piece below, so each is one step; a
    message that fails a check ends the program.  What the servers answer to
    GetState is a parameter.  Snapshots are encoded with gob, which enters
    through the class [SnapGob]. *)

From S2P Require Import Prelude RaftTypes.

(** What the tester writes into a snapshot decodes to what was written; no
    snapshot is empty. *)
Class SnapGob (Cmd : Type) := {
  snap_encode : Z -> list (option Cmd) -> bytes;
  snap_decode : bytes -> option (Z * list (option Cmd));
  snap_roundtrip : forall i l, snap_decode (snap_encode i l) = Some (i, l);
  snap_nonempty : forall i l, snap_encode i l <> [] }.

(** The state: a copy of each server's committed entries, by index, with the
    last index applied. *)
Record tester (Cmd : Type) := mkTester {
  t_logs : list (gmap Z (option Cmd));
  t_lastApplied : list Z;
  t_maxIndex : Z }.
Arguments mkTester {Cmd}.
Arguments t_logs {Cmd}.
Arguments t_lastApplied {Cmd}.
Arguments t_maxIndex {Cmd}.

Definition SnapShotInterval : Z := 10.

Section tester.
Context {Cmd : Type} `{!EqDecision Cmd, !SnapGob Cmd}.
Implicit Types t : tester Cmd.
Implicit Types m : ApplyMsg Cmd.

Definition fresh_tester (n : nat) : tester Cmd := mkTester (replicate n ∅) (replicate n 0) 0.

Definition set_t_logs l t : tester Cmd := mkTester l (t_lastApplied t) (t_maxIndex t).
Definition set_lastApplied l t : tester Cmd := mkTester (t_logs t) l (t_maxIndex t).
Definition set_maxIndex x t : tester Cmd := mkTester (t_logs t) (t_lastApplied t) x.

(** * Messages *)

(** The loop of checkLogs: the last server with a different command at the
    index. *)
Fixpoint find_conflict (j : Z) (logs : list (gmap Z (option Cmd))) (index : Z) (v : option Cmd)
    (err : option Z) : option Z :=
  match logs with
  | [] => err
  | lg :: logs =>
      let err' := match lg !! index with
                  | Some old => if decide (old = v) then err else Some j
                  | None => err
                  end in
      find_conflict (j + 1) logs index v err'
  end.

(** The answer: the server that disagrees, if any, and whether the entry before
    is there. *)
Definition checkLogs (i : Z) m : M (tester Cmd) (option Z * bool) :=
  t ← gets (fun t => t);
  let index := am_CommandIndex m in
  let err := find_conflict 0 (t_logs t) index (Command m) None in
  lg ← go_index (t_logs t) i;
  let prevok := bool_decide (is_Some (lg !! (index - 1))) in
  logs ← go_update (t_logs t) i (<[index := Command m]> lg);
  modify (set_t_logs logs);;
  when (t_maxIndex t <? index) (modify (set_maxIndex index));;
  mret (err, prevok).

(** One message of applier. *)
Definition applier_msg (i : Z) m : M (tester Cmd) unit :=
  if CommandValid m then
    r ← checkLogs i m;
    if (1 <? am_CommandIndex m) && negb (snd r) then throw LogFatal
    else match fst r with Some _ => throw LogFatal | None => mret tt end
  else mret tt.

(** [true] when the error string is not empty. *)
Definition ingestSnap (i : Z) (snapshot : bytes) (index : Z) : M (tester Cmd) bool :=
  match snapshot with
  | [] => throw LogFatal
  | _ =>
      match snap_decode snapshot with
      | None => throw LogFatal
      | Some (lastIncludedIndex, xlog) =>
          if negb (index =? -1) && negb (index =? lastIncludedIndex) then mret true
          else
            t ← gets (fun t => t);
            logs ← go_update (t_logs t) i
              (list_to_map (imap (fun j x => (Z.of_nat j, x)) xlog));
            modify (set_t_logs logs);;
            la ← go_update (t_lastApplied t) i lastIncludedIndex;
            modify (set_lastApplied la);;
            mret false
      end
  end.

(** One message of applierSnap; the answer is the call of Snapshot it ends
    with. *)
Definition applierSnap_msg (i : Z) m : M (tester Cmd) (option (Z * bytes)) :=
  if SnapshotValid m then
    err ← ingestSnap i (am_Snapshot m) (SnapshotIndex m);
    if (err : bool) then throw LogFatal else mret None
  else if CommandValid m then
    let index := am_CommandIndex m in
    t ← gets (fun t => t);
    la ← go_index (t_lastApplied t) i;
    if negb (index =? la + 1) then throw LogFatal else
    r ← checkLogs i m;
    t ← gets (fun t => t);
    las ← go_update (t_lastApplied t) i index;
    modify (set_lastApplied las);;
    lg ← go_index (t_logs t) i;
    let snap := if Z.rem (index + 1) SnapShotInterval =? 0
                then Some (index, snap_encode index ((fun j => default None (lg !! j)) <$> seqZ 0 (index + 1)))
                else None in
    if (1 <? index) && negb (snd r) then throw LogFatal
    else match fst r with Some _ => throw LogFatal | None => mret snap end
  else mret None.

(** * Questions *)

(** nCommitted: how many servers have the index, and the command. *)
Fixpoint count_committed (logs : list (gmap Z (option Cmd))) (index count : Z) (cmd : option Cmd)
    : M (tester Cmd) (Z * option Cmd) :=
  match logs with
  | [] => mret (count, cmd)
  | lg :: logs =>
      match lg !! index with
      | Some cmd1 =>
          if (0 <? count) && negb (bool_decide (cmd = cmd1)) then throw ExplicitPanic
          else count_committed logs index (count + 1) cmd1
      | None => count_committed logs index count cmd
      end
  end.
Definition nCommitted (index : Z) : M (tester Cmd) (Z * option Cmd) :=
  t ← gets (fun t => t); count_committed (t_logs t) index 0 None.
End tester.

(** ** Leaders and terms *)

(** [st i] is what GetState of server [i] answers, [conn i] whether it is
    connected. *)
Section questions.
Context {S : Type}.
Context (n : Z) (conn : Z -> bool).

(** The map of leaders by term. *)
Definition leaders (st : Z -> Z * bool) : gmap Z (list Z) :=
  foldl (fun (ls : gmap Z (list Z)) i =>
    if conn i && snd (st i) then <[fst (st i) := default [] (ls !! fst (st i)) ++ [i]]> ls else ls)
    ∅ (seqZ 0 n).

(** The range over the map. *)
Fixpoint scan_leaders (ls : list (Z * list Z)) (last : Z) : M S Z :=
  match ls with
  | [] => mret last
  | (term, l) :: ls =>
      if 1 <? lenZ l then throw ExplicitPanic
      else scan_leaders ls (if last <? term then term else last)
  end.

(** One iteration: the leader, if there is one. *)
Definition check_leaders (st : Z -> Z * bool) : M S (option Z) :=
  let ls := leaders st in
  last ← scan_leaders (map_to_list ls) (-1);
  if decide (ls = ∅) then mret None else
  l ← go_index (default [] (ls !! last)) 0;
  mret (Some l).

(** [sts] is what the servers answer in each iteration. *)
Fixpoint check_iterations (sts : list (Z -> Z * bool)) : M S Z :=
  match sts with
  | [] => throw ExplicitPanic
  | st :: sts =>
      r ← check_leaders st;
      match r with Some l => mret l | None => check_iterations sts end
  end.
Definition checkOneLeader (sts : nat -> Z -> Z * bool) : M S Z :=
  check_iterations (sts <$> seq 0 10).

Definition checkTerms (st : Z -> Z * bool) : M S Z :=
  foldl (fun acc i => term ← acc;
    if conn i then
      if term =? -1 then mret (fst (st i))
      else if term =? fst (st i) then mret term else throw ExplicitPanic
    else mret term) (mret (-1)) (seqZ 0 n).

Definition checkNoLeader (st : Z -> Z * bool) : M S unit :=
  for_each (seqZ 0 n) (fun i => when (conn i && snd (st i)) (throw ExplicitPanic)).
End questions.

(** * The oracle *)

Section oracle.
Context {Cmd : Type} `{!EqDecision Cmd}.
Implicit Types t : tester Cmd.
Implicit Types m : ApplyMsg Cmd.
Implicit Types past msgs : list (Z * ApplyMsg Cmd).

Definition applier_run msgs : M (tester Cmd) unit := for_each msgs (fun x => applier_msg (fst x) (snd x)).

(** A message is acceptable after [past] when every message with its index has
    its command, and its own server had the index before. *)
Definition agrees past (x : Z * ApplyMsg Cmd) : Prop :=
  forall y, y ∈ past -> am_CommandIndex (snd y) = am_CommandIndex (snd x) -> Command (snd y) = Command (snd x).
Definition in_order past (x : Z * ApplyMsg Cmd) : Prop :=
  1 < am_CommandIndex (snd x) ->
  exists y, y ∈ past /\ fst y = fst x /\ am_CommandIndex (snd y) = am_CommandIndex (snd x) - 1.

Definition consistent msgs : Prop :=
  forall past x rest, msgs = past ++ x :: rest -> agrees past x /\ in_order past x.

(** The copies hold what was applied. *)
Definition copies (n : nat) past t : Prop :=
  length (t_logs t) = n /\
  forall (i : nat) lg, t_logs t !! i = Some lg -> forall index v,
    lg !! index = Some v <->
    exists y, y ∈ past /\ fst y = Z.of_nat i /\ am_CommandIndex (snd y) = index /\ Command (snd y) = v.

Lemma find_conflict_some j logs index v e : find_conflict (Cmd := Cmd) j logs index v (Some e) <> None.
Proof.
  revert j e. induction logs as [|lg logs IH]; intros j e; [done|]. simpl.
  destruct (lg !! index) as [old|]; [|apply IH]. case_decide; apply IH.
Qed.

Lemma find_conflict_none j logs index (v : option Cmd) :
  find_conflict j logs index v None = None <->
  forall lg old, lg ∈ logs -> lg !! index = Some old -> old = v.
Proof.
  revert j. induction logs as [|lg logs IH]; intros j; simpl.
  { split; [|done]. by intros _ lg old []%elem_of_nil. }
  destruct (lg !! index) as [old|] eqn:E; [case_decide as Hd|].
  - rewrite IH. split.
    + intros H lg' old' [->|Hin]%elem_of_cons; [congruence|by apply H].
    + intros H lg' old' Hin. apply H. by right.
  - split; [intros H; by apply find_conflict_some in H|]. intros H. destruct Hd. by apply (H lg); [left|].
  - rewrite IH. split.
    + intros H lg' old' [->|Hin]%elem_of_cons; [congruence|by apply H].
    + intros H lg' old' Hin. apply H. by right.
Qed.

Lemma conflict_agrees n past t i m :
  copies n past t -> Forall (fun y => 0 <= fst y < Z.of_nat n) past ->
  find_conflict 0 (t_logs t) (am_CommandIndex m) (Command m) None = None <-> agrees past (i, m).
Proof.
  intros [Hn Hc] Hr. rewrite find_conflict_none. unfold agrees. cbn [snd]. split.
  - intros H y Hy Ei. rewrite Forall_forall in Hr. pose proof (Hr y Hy) as Hb.
    destruct (lookup_lt_is_Some_2 (t_logs t) (Z.to_nat (fst y))) as [lg Hlg]; [lia|].
    apply (H lg); [by eapply list_elem_of_lookup_2|]. apply (Hc _ _ Hlg). exists y.
    split; [done|]. split; [lia|done].
  - intros H lg old Hlg Ho. apply list_elem_of_lookup in Hlg as [k Hk].
    apply (Hc _ _ Hk) in Ho as (y & Hy & _ & Ei & <-). by apply H.
Qed.

Lemma elem_of_snoc_iff {A} (x y : A) (l : list A) : y ∈ l ++ [x] <-> y ∈ l \/ y = x.
Proof. by rewrite elem_of_app, list_elem_of_singleton. Qed.

(** Writing a message that agrees. *)
Lemma copies_write n past t t' i m lg :
  copies n past t -> t_logs t !! Z.to_nat i = Some lg -> 0 <= i -> agrees past (i, m) ->
  t_logs t' = <[Z.to_nat i := <[am_CommandIndex m := Command m]> lg]> (t_logs t) ->
  copies n (past ++ [(i, m)]) t'.
Proof.
  intros [Hn Hc] Hlg Hi Ha E. unfold copies. rewrite E, length_insert. split; [done|].
  intros k lg' Hk index v. setoid_rewrite elem_of_snoc_iff.
  destruct (decide (k = Z.to_nat i)) as [->|Hne].
  - rewrite list_lookup_insert_eq in Hk by (by eapply lookup_lt_Some). injection Hk as <-.
    rewrite lookup_insert. case_decide as Ei.
    + subst index. split.
      * intros [= <-]. exists (i, m). split; [by right|]. split; [simpl; lia|done].
      * intros (y & [Hy| ->] & Ey & Ei & <-); [|done]. f_equal. symmetry. by apply Ha.
    + rewrite (Hc _ _ Hlg). split.
      * intros (y & Hy & H). exists y. by auto.
      * intros (y & [Hy| ->] & H); [by exists y|]. simpl in H. by destruct H as (_ & ? & _).
  - rewrite list_lookup_insert_ne in Hk by done. rewrite (Hc _ _ Hk). split.
    + intros (y & Hy & H). exists y. by auto.
    + intros (y & [Hy| ->] & H); [by exists y|]. simpl in H. destruct H as (? & _). lia.
Qed.

Lemma checkLogs_run n past t i m :
  copies n past t -> Forall (fun y => 0 <= fst y < Z.of_nat n) past -> 0 <= i < Z.of_nat n ->
  exists err prevok t', checkLogs i m t = Done (err, prevok) t' /\
    (err = None <-> agrees past (i, m)) /\
    (prevok = true <-> exists y, y ∈ past /\ fst y = i /\ am_CommandIndex (snd y) = am_CommandIndex m - 1) /\
    (agrees past (i, m) -> copies n (past ++ [(i, m)]) t') /\ t_lastApplied t' = t_lastApplied t /\
    exists lg, t_logs t !! Z.to_nat i = Some lg /\
      t_logs t' = <[Z.to_nat i := <[am_CommandIndex m := Command m]> lg]> (t_logs t).
Proof.
  intros Hcp Hr Hi. pose proof Hcp as [Hn Hc].
  destruct (lookup_lt_is_Some_2 (t_logs t) (Z.to_nat i)) as [lg Hlg]; [lia|].
  assert (nthZ (t_logs t) i = Some lg) as Hnth by (by rewrite nthZ_nat by lia).
  set (t1 := set_t_logs (<[Z.to_nat i := <[am_CommandIndex m := Command m]> lg]> (t_logs t)) t).
  set (t2 := if t_maxIndex t <? am_CommandIndex m then set_maxIndex (am_CommandIndex m) t1 else t1).
  assert (t_logs t2 = t_logs t1 /\ t_lastApplied t2 = t_lastApplied t) as [E2 El]
    by (unfold t2; by destruct (_ <? _)).
  exists (find_conflict 0 (t_logs t) (am_CommandIndex m) (Command m) None),
    (bool_decide (is_Some (lg !! (am_CommandIndex m - 1)))), t2.
  split_and!; [| | | |done|by exists lg].
  - unfold checkLogs. rewrite bind_gets. cbv zeta.
    rewrite (bind_done _ _ _ _ _ (go_index_ok _ _ _ _ Hnth)).
    erewrite bind_done; [|apply go_update_ok; lia].
    rewrite bind_modify. unfold t2, t1. by destruct (t_maxIndex t <? am_CommandIndex m).
  - by eapply conflict_agrees.
  - rewrite bool_decide_eq_true. split.
    + intros [v Hv]. apply (Hc _ _ Hlg) in Hv as (y & Hy & Ey & Ei & _). exists y. split; [done|]. split; [lia|done].
    + intros (y & Hy & Ey & Ei). exists (Command (snd y)). apply (Hc _ _ Hlg). exists y.
      split; [done|]. split; [lia|done].
  - intros Ha. eapply copies_write; [done..|lia|done|done].
Qed.

Lemma fresh_copies n : copies n [] (fresh_tester n).
Proof.
  split; [apply length_replicate|]. intros i lg Hi index v. apply lookup_replicate in Hi as [-> _].
  rewrite lookup_empty. split; [done|]. by intros (y & []%elem_of_nil & _).
Qed.

Lemma applier_msg_run n past t i m :
  copies n past t -> Forall (fun y => 0 <= fst y < Z.of_nat n) past -> 0 <= i < Z.of_nat n ->
  CommandValid m = true ->
  (agrees past (i, m) /\ in_order past (i, m) ->
   exists t', applier_msg i m t = Done tt t' /\ copies n (past ++ [(i, m)]) t') /\
  (forall t', applier_msg i m t = Done tt t' -> agrees past (i, m) /\ in_order past (i, m)).
Proof.
  intros Hc Hr Hi Hv.
  destruct (checkLogs_run n past t i m Hc Hr Hi) as (err & prevok & t1 & E & He & Hp & Hw & _).
  unfold applier_msg. rewrite Hv. rewrite (bind_done _ _ _ _ _ E). cbn [fst snd]. split.
  - intros [Ha Ho]. exists t1. split; [|by apply Hw]. apply He in Ha as ->.
    destruct (Z.ltb_spec 1 (am_CommandIndex m)) as [H1|H1]; [|done].
    apply Ho in H1 as Hex. apply Hp in Hex as ->. done.
  - intros t' Ht. destruct (Z.ltb_spec 1 (am_CommandIndex m)) as [H1|H1], prevok; try done; simpl in Ht.
    + destruct err; [done|]. split; [by apply He|]. intros _. by apply Hp.
    + destruct err; [done|]. split; [by apply He|]. intros H. simpl in H. lia.
    + destruct err; [done|]. split; [by apply He|]. intros H. simpl in H. lia.
Qed.

Lemma applier_run_from n past msgs t :
  copies n past t -> Forall (fun y => 0 <= fst y < Z.of_nat n) (past ++ msgs) ->
  Forall (fun y => CommandValid (snd y) = true) msgs ->
  ((forall a x b, msgs = a ++ x :: b -> agrees (past ++ a) x /\ in_order (past ++ a) x) ->
   exists t', applier_run msgs t = Done tt t' /\ copies n (past ++ msgs) t') /\
  (forall t', applier_run msgs t = Done tt t' ->
   forall a x b, msgs = a ++ x :: b -> agrees (past ++ a) x /\ in_order (past ++ a) x).
Proof.
  revert past t. induction msgs as [|[i m] msgs IH]; intros past t Hc Hr Hv.
  { split; [|by intros t' _ []]. intros _. exists t. by rewrite app_nil_r. }
  apply Forall_cons in Hv as [Hv Hvs]. rewrite (cons_middle (i, m)), app_assoc in Hr.
  pose proof Hr as [[Hr0 [Hi _]%Forall_cons]%Forall_app _]%Forall_app.
  destruct (applier_msg_run n past t i m Hc Hr0 Hi Hv) as [H1 H2].
  unfold applier_run. cbn [for_each fst snd]. split.
  - intros H. destruct H1 as (t1 & E1 & Hc1).
    { specialize (H [] (i, m) msgs eq_refl). by rewrite app_nil_r in H. }
    destruct (IH (past ++ [(i, m)]) t1 Hc1 Hr Hvs) as [IH1 _]. destruct IH1 as (t' & E' & Hc').
    { intros a x b Ha. rewrite <- app_assoc. apply (H ((i, m) :: a) x b). by rewrite Ha. }
    exists t'. rewrite (bind_done _ _ _ _ _ E1). split; [exact E'|]. by rewrite <- app_assoc in Hc'.
  - intros t' E. destruct (applier_msg i m t) as [[] t1| |] eqn:E1; [|by unfold mbind, M_bind in E; rewrite E1 in E..].
    rewrite (bind_done _ _ _ _ _ E1) in E. destruct (H2 _ eq_refl) as [Ha Ho].
    destruct (H1 (conj Ha Ho)) as (t1' & E1' & Hc1). injection E1' as <-.
    destruct (IH (past ++ [(i, m)]) t1 Hc1 Hr Hvs) as [_ IH2].
    intros a x b Hab. destruct a as [|y a]; injection Hab as <- Hab; [by rewrite app_nil_r|].
    specialize (IH2 _ E a x b Hab). by rewrite <- app_assoc in IH2.
Qed.

(** ** nCommitted *)

(** Whether server [i] applied the index. *)
Definition applied_by past (index i : Z) : bool :=
  existsb (fun y => (fst y =? i) && (am_CommandIndex (snd y) =? index)) past.

Definition has_index (index : Z) (lg : gmap Z (option Cmd)) : bool := bool_decide (is_Some (lg !! index)).

Lemma count_committed_run logs index v t count cmd :
  (forall lg old, lg ∈ logs -> lg !! index = Some old -> old = v) -> 0 <= count ->
  (0 < count -> cmd = v) ->
  exists cmd', count_committed logs index count cmd t = Done (count + count_if (has_index index) logs, cmd') t /\
    (0 < count + count_if (has_index index) logs -> cmd' = v).
Proof.
  revert count cmd. induction logs as [|lg logs IH]; intros count cmd Hv H0 Hc; simpl.
  { exists cmd. rewrite count_if_nil, Z.add_0_r. done. }
  rewrite count_if_cons. destruct (lg !! index) as [old|] eqn:E.
  - assert (has_index index lg = true) as -> by (unfold has_index; by rewrite E).
    assert (old = v) as -> by (eapply Hv; [by left|done]).
    replace ((0 <? count) && negb (bool_decide (cmd = v))) with false.
    + destruct (IH (count + 1) v) as (cmd' & E' & H').
      { intros lg' old' Hl. apply Hv. by right. }
      { lia. } { done. }
      exists cmd'. rewrite E'. split; [do 2 f_equal; lia|]. intros H. apply H'. lia.
    + symmetry. destruct (Z.ltb_spec 0 count); [|done]. simpl. rewrite bool_decide_eq_true_2; [done|auto].
  - assert (has_index index lg = false) as -> by (unfold has_index; by rewrite E).
    destruct (IH count cmd) as (cmd' & E' & H'); [|done|done|].
    { intros lg' old' Hl. apply Hv. by right. }
    exists cmd'. rewrite E'. split; [do 2 f_equal; lia|]. intros H. apply H'. lia.
Qed.

Lemma applied_by_true past index i :
  applied_by past index i = true <-> exists y, y ∈ past /\ fst y = i /\ am_CommandIndex (snd y) = index.
Proof.
  unfold applied_by. rewrite existsb_exists. split.
  - intros (y & Hy & [E1 E2]%andb_true_iff). exists y. rewrite <- list_elem_of_In in Hy.
    split; [done|]. by rewrite Z.eqb_eq in E1, E2.
  - intros (y & Hy & <- & <-). exists y. rewrite <- list_elem_of_In. split; [done|].
    by rewrite !Z.eqb_refl.
Qed.

Lemma copies_count n past t index :
  copies n past t ->
  count_if (has_index index) (t_logs t) = count_if (applied_by past index) (Z.of_nat <$> seq 0 n).
Proof.
  intros [Hn Hc]. rewrite count_if_fmap.
  rewrite <- (count_if_fmap id (has_index index)), <- (count_if_fmap id (fun k => applied_by past index (Z.of_nat k))).
  f_equal. apply list_eq. intros k. rewrite !list_lookup_fmap.
  destruct (t_logs t !! k) as [lg|] eqn:E.
  - assert (k < n)%nat as Hk by (rewrite <- Hn; by eapply lookup_lt_Some).
    rewrite lookup_seq_lt by done. simpl. f_equal. apply Bool.eq_iff_eq_true. unfold has_index.
    rewrite bool_decide_eq_true, applied_by_true. split.
    + intros [v (y & Hy & Ey & Ei & _)%(Hc _ _ E)]. by exists y.
    + intros (y & Hy & Ey & Ei). exists (Command (snd y)). apply (Hc _ _ E). by exists y.
  - apply lookup_ge_None in E. rewrite lookup_seq_ge by lia. done.
Qed.

Lemma nCommitted_run n past t index :
  copies n past t -> (forall y z, y ∈ past -> z ∈ past ->
    am_CommandIndex (snd y) = am_CommandIndex (snd z) -> Command (snd y) = Command (snd z)) ->
  exists cmd, nCommitted index t = Done (count_if (applied_by past index) (Z.of_nat <$> seq 0 n), cmd) t /\
    forall y, y ∈ past -> am_CommandIndex (snd y) = index -> 0 <= fst y < Z.of_nat n -> cmd = Command (snd y).
Proof.
  intros Hcp Ha. pose proof Hcp as [Hn Hc]. pose proof (copies_count _ _ _ index Hcp) as Hk.
  unfold nCommitted. rewrite bind_gets.
  destruct (decide (Exists (fun y => am_CommandIndex (snd y) = index) past)) as [Hex|Hex].
  - apply Exists_exists in Hex as (y0 & Hy0 & E0).
    destruct (count_committed_run (t_logs t) index (Command (snd y0)) t 0 None) as (cmd & E & Hcmd); [|done|done|].
    { intros lg old Hlg Ho. apply list_elem_of_lookup in Hlg as [k Hlg].
      apply (Hc _ _ Hlg) in Ho as (z & Hz & _ & Ez & <-). apply Ha; [done..|congruence]. }
    exists cmd. rewrite E. split; [by rewrite Z.add_0_l, Hk|]. intros y Hy Ey Hr.
    rewrite (Ha y y0 Hy Hy0) by congruence. apply Hcmd. rewrite Z.add_0_l, Hk.
    assert (applied_by past index (fst y) = true) as Hb by (apply applied_by_true; by exists y).
    assert (fst y ∈ Z.of_nat <$> seq 0 n) as Hin.
    { apply list_elem_of_fmap. exists (Z.to_nat (fst y)). split; [lia|]. apply elem_of_seq. lia. }
    apply list_elem_of_split in Hin as (l1 & l2 & ->). rewrite count_if_app, count_if_cons, Hb.
    pose proof (count_if_bounds (applied_by past index) l1). pose proof (count_if_bounds (applied_by past index) l2).
    lia.
  - destruct (count_committed_run (t_logs t) index None t 0 None) as (cmd & E & Hcmd); [|done|done|].
    { intros lg old Hlg Ho. exfalso. apply Hex. apply list_elem_of_lookup in Hlg as [k Hlg].
      apply (Hc _ _ Hlg) in Ho as (z & Hz & _ & Ez & _). apply Exists_exists. by exists z. }
    exists cmd. rewrite E. split; [by rewrite Z.add_0_l, Hk|]. intros y Hy Ey. exfalso. apply Hex.
    apply Exists_exists. by exists y.
Qed.

(** In an accepted history, an index has one command. *)
Lemma consistent_agree msgs : consistent msgs ->
  forall y z, y ∈ msgs -> z ∈ msgs ->
  am_CommandIndex (snd y) = am_CommandIndex (snd z) -> Command (snd y) = Command (snd z).
Proof.
  intros Hc. assert (forall i j y z, (i <= j)%nat -> msgs !! i = Some y -> msgs !! j = Some z ->
    am_CommandIndex (snd y) = am_CommandIndex (snd z) -> Command (snd y) = Command (snd z)) as H.
  { intros i j y z Hij Hy Hz E. destruct (decide (i = j)) as [->|Hne]; [congruence|].
    destruct (Hc (take j msgs) z (drop (S j) msgs)) as [Ha _]; [by rewrite take_drop_middle|].
    apply Ha; [|done]. apply list_elem_of_lookup. exists i. by rewrite lookup_take_lt by lia. }
  intros y z [i Hi]%list_elem_of_lookup [j Hj]%list_elem_of_lookup E.
  destruct (decide (i <= j)%nat); [by eapply (H i j)|]. symmetry. eapply (H j i); [lia|done..].
Qed.
End oracle.

(** * Snapshots *)

Section snapshots.
Context {Cmd : Type} `{!EqDecision Cmd, !SnapGob Cmd}.
Implicit Types t : tester Cmd.
Implicit Types m : ApplyMsg Cmd.

Definition snap_list (lg : gmap Z (option Cmd)) (index : Z) : list (option Cmd) :=
  (fun j => default None (lg !! j)) <$> seqZ 0 (index + 1).

(** What the message leaves when it asks for a snapshot. *)
Lemma applierSnap_snapshot i m t index b t' :
  applierSnap_msg i m t = Done (Some (index, b)) t' ->
  exists lg, nthZ (t_logs t') i = Some lg /\ b = snap_encode index (snap_list lg index) /\ 0 <= i.
Proof.
  unfold applierSnap_msg. intros E. destruct (SnapshotValid m).
  { apply bind_inv in E as ([] & s & _ & E); done. }
  destruct (CommandValid m); [|done]. cbv zeta in E. rewrite bind_gets in E.
  apply bind_inv in E as (la & t0 & _ & E). destruct (am_CommandIndex m =? la + 1); [|done].
  apply bind_inv in E as (r & t1 & _ & E). rewrite bind_gets in E.
  apply bind_inv in E as (las & t2 & Eu & E). rewrite bind_modify in E.
  unfold go_update in Eu. destruct (nthZ (t_lastApplied t1) i); [|done]. injection Eu as _ <-.
  apply bind_inv in E as (lg & t3 & El & E). unfold go_index in El.
  destruct (nthZ (t_logs t1) i) as [lg'|] eqn:El'; [|done]. injection El as <- <-.
  destruct ((1 <? am_CommandIndex m) && negb (snd r)); [done|]. destruct (fst r); [done|].
  injection E as E <-. destruct (_ =? 0); [|done]. injection E as <- <-.
  exists lg'. split; [exact El'|]. split; [done|]. apply nthZ_Some in El'. lia.
Qed.

Lemma snap_lookup (l : list (option Cmd)) k j :
  (list_to_map (imap (fun j x => (k + Z.of_nat j, x)) l) : gmap Z (option Cmd)) !! j
  = if decide (k <= j) then l !! Z.to_nat (j - k) else None.
Proof.
  revert k. induction l as [|x l IH]; intros k.
  { simpl. rewrite lookup_empty. case_decide; [|done]. by rewrite lookup_nil. }
  rewrite imap_cons. simpl. rewrite lookup_insert.
  assert (imap ((fun (j : nat) (x : option Cmd) => (k + Z.of_nat j, x)) ∘ S) l
    = imap (fun j x => (k + 1 + Z.of_nat j, x)) l) as -> by (apply imap_ext; intros; simpl; f_equal; lia).
  case_decide as E1.
  - rewrite decide_True by lia. by replace (Z.to_nat (j - k)) with 0%nat by lia.
  - rewrite IH. destruct (decide (k + 1 <= j)) as [E2|E2], (decide (k <= j)) as [E3|E3]; try lia; [|done].
    replace (Z.to_nat (j - k)) with (S (Z.to_nat (j - (k + 1)))) by lia. done.
Qed.

Lemma snap_list_lookup lg index j :
  0 <= j <= index -> snap_list lg index !! Z.to_nat j = Some (default None (lg !! j)).
Proof.
  intros H. unfold snap_list. rewrite list_lookup_fmap, lookup_seqZ_lt by lia. simpl.
  by replace (0 + Z.of_nat (Z.to_nat j)) with j by lia.
Qed.
End snapshots.

(** * Leaders *)

Section leaders.
Context (n : Z) (conn : Z -> bool) (st : Z -> Z * bool).

Definition is_leader (i : Z) : bool := conn i && snd (st i).

(** The leaders of a term, in order. *)
Definition leaders_of (l : list Z) (term : Z) : list Z :=
  filter (fun i => is_leader i = true /\ fst (st i) = term) l.

Lemma leaders_lookup term :
  leaders n conn st !! term
  = match leaders_of (seqZ 0 n) term with [] => None | l => Some l end.
Proof.
  unfold leaders, leaders_of. induction (seqZ 0 n) as [|x l IH] using rev_ind; [apply lookup_empty|].
  rewrite foldl_app, filter_app, filter_cons, filter_nil. simpl.
  fold (is_leader x). destruct (is_leader x) eqn:Hx.
  - rewrite lookup_insert. case_decide as Et.
    + subst term. rewrite decide_True by done. rewrite IH. by destruct (filter _ l).
    + rewrite decide_False by tauto. by rewrite IH, app_nil_r.
  - rewrite decide_False by naive_solver. by rewrite IH, app_nil_r.
Qed.

Lemma scan_leaders_run {S} ls last (s : S) :
  Forall (fun p => lenZ (snd p) <= 1) ls ->
  scan_leaders ls last s = Done (foldr Z.max last (fst <$> ls)) s.
Proof.
  intros H. revert last. induction H as [|[term l] ls Hl _ IH]; intros last; [done|].
  rewrite fmap_cons. cbn [scan_leaders foldr fst snd] in *.
  destruct (Z.ltb_spec 1 (lenZ l)); [lia|]. rewrite IH. f_equal.
  generalize (fst <$> ls). clear. intros l'. induction l' as [|x l' IH]; simpl.
  - destruct (Z.ltb_spec last term); lia.
  - rewrite IH. lia.
Qed.

Lemma scan_leaders_inv {S} ls last r (s s' : S) :
  scan_leaders ls last s = Done r s' -> Forall (fun p => lenZ (snd p) <= 1) ls /\ s' = s.
Proof.
  revert last. induction ls as [|[term l] ls IH]; intros last; simpl; [by intros [= _ <-]|].
  destruct (Z.ltb_spec 1 (lenZ l)); [done|]. intros E. destruct (IH _ E) as [Hf ->].
  split; [by constructor|done].
Qed.

(** [l] is the leader with the highest term, and no term has two. *)
Definition one_leader (l : Z) : Prop :=
  0 <= l < n /\ is_leader l = true /\
  (forall i, 0 <= i < n -> is_leader i = true -> i = l \/ fst (st i) < fst (st l)) /\
  forall i j, 0 <= i < n -> 0 <= j < n -> is_leader i = true -> is_leader j = true ->
    fst (st i) = fst (st j) -> i = j.

Definition two_leaders : Prop :=
  exists i j, 0 <= i < n /\ 0 <= j < n /\ i <> j /\ is_leader i = true /\ is_leader j = true /\
    fst (st i) = fst (st j).

Lemma elem_of_leaders term i :
  i ∈ leaders_of (seqZ 0 n) term <-> 0 <= i < n /\ is_leader i = true /\ fst (st i) = term.
Proof. unfold leaders_of. rewrite list_elem_of_filter, elem_of_seqZ. split; intros; split_and!; naive_solver lia. Qed.

Lemma leaders_elem term l : (term, l) ∈ map_to_list (leaders n conn st) ->
  l = leaders_of (seqZ 0 n) term /\ l <> [].
Proof.
  rewrite elem_of_map_to_list, leaders_lookup. destruct (leaders_of _ _) as [|x l'] eqn:E; [done|].
  by intros [= <-].
Qed.

Lemma scan_fails {S} ls last p (s s' : S) :
  scan_leaders ls last s = Panicked p s' -> p = ExplicitPanic /\ Exists (fun q => 1 < lenZ (snd q)) ls.
Proof.
  revert last. induction ls as [|[term l] ls IH]; intros last; simpl; [done|].
  destruct (Z.ltb_spec 1 (lenZ l)); [intros [= <- <-]; split; [done|by left]|].
  intros E. destruct (IH _ E). split; [done|by right].
Qed.

Lemma foldr_max_in d (l : list Z) : foldr Z.max d l = d \/ foldr Z.max d l ∈ l.
Proof.
  induction l as [|x l [IH|IH]]; simpl; [by left| |].
  - destruct (Z.max_spec x (foldr Z.max d l)) as [[_ ->]|[_ ->]]; [by left|right; by left].
  - right. destruct (Z.max_spec x (foldr Z.max d l)) as [[_ ->]|[_ ->]]; [by right|by left].
Qed.
Lemma foldr_max_ge d (l : list Z) x : x ∈ l -> x <= foldr Z.max d l.
Proof. induction 1; simpl; lia. Qed.

(** Two leaders in a list without repetition. *)
Lemma two_of_list term : 1 < lenZ (leaders_of (seqZ 0 n) term) -> two_leaders.
Proof.
  intros H. assert (NoDup (leaders_of (seqZ 0 n) term)) as Hnd by apply NoDup_filter, NoDup_seqZ.
  pose proof (elem_of_leaders term) as He.
  destruct (leaders_of (seqZ 0 n) term) as [|i [|j l]]; simpl in H; [lia|lia|].
  apply NoDup_cons in Hnd as [Hij _]. exists i, j.
  destruct (proj1 (He i)) as (? & ? & ?); [by left|]. destruct (proj1 (He j)) as (? & ? & ?); [right; by left|].
  do 2 (split; [done|]). split; [intros ->; apply Hij; by left|]. do 2 (split; [done|]). congruence.
Qed.

Lemma one_of_list term i j :
  lenZ (leaders_of (seqZ 0 n) term) <= 1 -> i ∈ leaders_of (seqZ 0 n) term ->
  j ∈ leaders_of (seqZ 0 n) term -> i = j.
Proof.
  destruct (leaders_of _ _) as [|x [|y l]]; simpl; [by intros _ []%elem_of_nil| |lia].
  by intros _ ->%list_elem_of_singleton ->%list_elem_of_singleton.
Qed.

Lemma leaders_none : leaders n conn st = ∅ <-> forall i, 0 <= i < n -> is_leader i = false.
Proof.
  split.
  - intros E i Hi. destruct (is_leader i) eqn:Hl; [|done].
    pose proof (leaders_lookup (fst (st i))) as H. rewrite E, lookup_empty in H.
    assert (i ∈ leaders_of (seqZ 0 n) (fst (st i))) as Hin by (by apply elem_of_leaders).
    destruct (leaders_of _ _); [by apply elem_of_nil in Hin|done].
  - intros H. apply map_eq. intros term. rewrite leaders_lookup, lookup_empty.
    destruct (leaders_of _ _) as [|i l] eqn:E; [done|].
    assert (i ∈ leaders_of (seqZ 0 n) term) as Hin by (rewrite E; by left).
    apply elem_of_leaders in Hin as (Hi & Hl & _). pose proof (H i Hi). congruence.
Qed.

Lemma check_leaders_spec {S} (s : S) :
  (forall i, 0 <= fst (st i)) ->
  match check_leaders n conn st s with
  | Done None s' => s' = s /\ forall i, 0 <= i < n -> is_leader i = false
  | Done (Some l) s' => s' = s /\ one_leader l
  | Panicked p s' => p = ExplicitPanic /\ two_leaders
  | Blocked _ => False
  end.
Proof.
  intros Hpos. unfold check_leaders, mbind at 1, M_bind at 1. cbv zeta.
  destruct (scan_leaders (map_to_list (leaders n conn st)) (-1) s) as [last s'|p s'|s'] eqn:E.
  - destruct (scan_leaders_inv _ _ _ _ _ E) as [Hf ->]. rewrite (scan_leaders_run _ _ _ Hf) in E.
    injection E as El. case_decide as Hemp; [split; [done|by apply leaders_none]|].
    assert (forall term, lenZ (leaders_of (seqZ 0 n) term) <= 1) as Hone.
    { intros term. destruct (leaders_of (seqZ 0 n) term) as [|x l] eqn:Et; [simpl; lia|].
      rewrite Forall_forall in Hf. apply (Hf (term, x :: l)).
      apply elem_of_map_to_list. by rewrite leaders_lookup, Et. }
    assert (forall i, 0 <= i < n -> is_leader i = true -> fst (st i) <= last) as Hmax.
    { intros i Hi Hl. rewrite <- El. apply foldr_max_ge.
      assert (i ∈ leaders_of (seqZ 0 n) (fst (st i))) as Hin by (by apply elem_of_leaders).
      apply list_elem_of_fmap. exists (fst (st i), leaders_of (seqZ 0 n) (fst (st i))). split; [done|].
      apply elem_of_map_to_list. rewrite leaders_lookup.
      destruct (leaders_of _ _); [by apply elem_of_nil in Hin|done]. }
    assert (exists l0, (last, l0) ∈ map_to_list (leaders n conn st)) as (l0 & Hl0).
    { destruct (foldr_max_in (-1) (fst <$> map_to_list (leaders n conn st))) as [Hm|Hm]; rewrite El in Hm.
      - exfalso. apply Hemp, leaders_none. intros i Hi. destruct (is_leader i) eqn:Hl; [|done].
        pose proof (Hmax i Hi Hl). pose proof (Hpos i). lia.
      - apply list_elem_of_fmap in Hm as ([k l0] & -> & Hin). by exists l0. }
    destruct (leaders_elem _ _ Hl0) as [E0 Hne]. apply elem_of_map_to_list in Hl0. rewrite Hl0.
    destruct l0 as [|l l1]; [done|]. simpl.
    assert (l ∈ leaders_of (seqZ 0 n) last) as (Hr & Hl & Ht)%elem_of_leaders by (rewrite <- E0; by left).
    split; [done|]. split_and!; [lia|lia|done| |].
    + intros i Hi Hli. destruct (decide (fst (st i) = last)) as [Ei|Ei].
      * left. by apply (one_of_list last); [apply Hone|apply elem_of_leaders..].
      * right. pose proof (Hmax i Hi Hli). lia.
    + intros i j Hi Hj Hli Hlj Eij. by apply (one_of_list (fst (st i))); [apply Hone|apply elem_of_leaders..].
  - destruct (scan_fails _ _ _ _ _ E) as [-> Hex]. split; [done|].
    apply Exists_exists in Hex as ([term l] & Hin & Hl). apply leaders_elem in Hin as [-> _].
    by eapply two_of_list.
  - exfalso. clear -E. revert E. generalize (-1). induction (map_to_list _) as [|[term l] ls IH]; intros k; [done|].
    simpl. case_match; [done|apply IH].
Qed.
End leaders.

(** * The streams of a replicated log *)

(** When every server applies, one after the other from index 1, a part of the
    same commands, the tester has nothing to object to, whatever the order in
    which it sees their messages. *)
Lemma streams_consistent {Cmd} (cs : list (ApplyMsg Cmd)) (msgs : list (Z * ApplyMsg Cmd)) :
  (forall k m, cs !! k = Some m -> am_CommandIndex m = Z.of_nat k + 1) ->
  (forall i, (snd <$> filter (fun y => fst y = i) msgs) `prefix_of` cs) ->
  consistent msgs.
Proof.
  intros Hcs Hp past x rest ->.
  assert (forall y, y ∈ past ++ x :: rest -> exists k, cs !! k = Some (snd y)) as Hin.
  { intros y Hy. destruct (Hp (fst y)) as [tl ->].
    assert (snd y ∈ snd <$> filter (fun z => fst z = fst y) (past ++ x :: rest)) as Hy'
      by (apply list_elem_of_fmap_2, list_elem_of_filter; done).
    apply list_elem_of_lookup in Hy' as [k Hk]. exists k. by apply lookup_app_l_Some. }
  split.
  - intros y Hy E. destruct (Hin y) as [k Hk]; [apply elem_of_app; by left|].
    destruct (Hin x) as [k' Hk']; [apply elem_of_app; right; by left|].
    rewrite (Hcs _ _ Hk), (Hcs _ _ Hk') in E. replace k' with k in Hk' by lia. congruence.
  - intros H1. destruct (Hp (fst x)) as [tl Htl]. set (mine := filter (fun y => fst y = fst x) past).
    rewrite filter_app, filter_cons, decide_True, fmap_app, fmap_cons, <- app_assoc in Htl by done.
    fold mine in Htl. assert (cs !! length mine = Some (snd x)) as Hx.
    { rewrite Htl, lookup_app_r; rewrite length_fmap; [|done]. by rewrite Nat.sub_diag. }
    rewrite (Hcs _ _ Hx) in H1 |- *.
    destruct (lookup_lt_is_Some_2 mine (length mine - 1)) as [y Hy]; [lia|].
    exists y. pose proof (list_elem_of_lookup_2 _ _ _ Hy) as [Ey Hpast]%list_elem_of_filter.
    split; [done|]. split; [done|].
    assert (cs !! (length mine - 1)%nat = Some (snd y)) as Hcy.
    { rewrite Htl. apply lookup_app_l_Some. by rewrite list_lookup_fmap, Hy. }
    rewrite (Hcs _ _ Hcy). lia.
Qed.

(** * Theorems *)

(** The tester accepts exactly the histories a replicated log may produce: it
    lets a sequence of applied messages pass if and only if every message carries
    the command that every earlier message with its index had, on any server, and
    the server had applied the index before it; and then nCommitted answers, for
    every index, how many servers applied it and their common command. *)
Theorem tester_accepts {Cmd} `{!EqDecision Cmd} n (msgs : list (Z * ApplyMsg Cmd)) :
  Forall (fun y => 0 <= fst y < Z.of_nat n) msgs ->
  Forall (fun y => CommandValid (snd y) = true) msgs ->
  ((exists t, applier_run msgs (fresh_tester n) = Done tt t) <-> consistent msgs) /\
  forall t, applier_run msgs (fresh_tester n) = Done tt t ->
    forall index, exists cmd,
      nCommitted index t = Done (count_if (applied_by msgs index) (Z.of_nat <$> seq 0 n), cmd) t /\
      forall y, y ∈ msgs -> am_CommandIndex (snd y) = index -> cmd = Command (snd y).
Proof.
  intros Hr Hv. destruct (applier_run_from n [] msgs (fresh_tester n) (fresh_copies n) Hr Hv) as [H1 H2].
  split.
  - split; [intros [t E]; exact (H2 t E)|]. intros Hc. destruct (H1 Hc) as (t & E & _). by exists t.
  - intros t E index. assert (consistent msgs) as Hc by exact (H2 t E). destruct (H1 Hc) as (t' & E' & Hcp).
    rewrite E in E'. injection E' as <-.
    destruct (nCommitted_run n msgs t index Hcp (consistent_agree msgs Hc)) as (cmd & En & Hcmd).
    exists cmd. split; [exact En|]. intros y Hy Ei. apply Hcmd; [done..|].
    rewrite Forall_forall in Hr. by apply Hr.
Qed.

(** A snapshot that the tester takes of a server restores the server: given back,
    with its index or after a restart, it leaves the server's copy of the log as
    it was up to the index, with nothing after it, the last applied index at the
    snapshot's, and the other servers alone. *)
Theorem tester_snapshot_restores {Cmd} `{!EqDecision Cmd, !SnapGob Cmd} i (m : ApplyMsg Cmd) t t1 index b lg t2 k :
  applierSnap_msg i m t = Done (Some (index, b)) t1 -> nthZ (t_logs t1) i = Some lg ->
  i < lenZ (t_logs t2) -> i < lenZ (t_lastApplied t2) -> k = -1 \/ k = index ->
  exists t3 lg3, ingestSnap i b k t2 = Done false t3 /\
    t_logs t3 = <[Z.to_nat i := lg3]> (t_logs t2) /\
    t_lastApplied t3 = <[Z.to_nat i := index]> (t_lastApplied t2) /\
    (forall j, 0 <= j <= index -> lg3 !! j = Some (default None (lg !! j))) /\
    (forall j, ~ 0 <= j <= index -> lg3 !! j = None).
Proof.
  intros E Hlg Hi Hi' Hk. destruct (applierSnap_snapshot _ _ _ _ _ _ E) as (lg' & Hlg' & -> & H0).
  rewrite Hlg in Hlg'. injection Hlg' as <-.
  set (lg3 := list_to_map (imap (fun j x => (0 + Z.of_nat j, x)) (snap_list lg index)) : gmap Z (option Cmd)).
  exists (set_lastApplied (<[Z.to_nat i := index]> (t_lastApplied t2))
    (set_t_logs (<[Z.to_nat i := lg3]> (t_logs t2)) t2)), lg3.
  split; [|split; [done|split; [done|split]]].
  - unfold ingestSnap. pose proof (snap_nonempty index (snap_list lg index)) as Hne.
    pose proof (snap_roundtrip index (snap_list lg index)) as Hrt.
    destruct (snap_encode index (snap_list lg index)) as [|x l]; [done|]. rewrite Hrt.
    replace (negb (k =? -1) && negb (k =? index)) with false
      by (destruct Hk as [-> | ->]; [done|by rewrite Z.eqb_refl, andb_false_r]).
    rewrite bind_gets. erewrite bind_done; [|apply go_update_ok; lia]. rewrite bind_modify.
    erewrite bind_done; [|apply go_update_ok; lia]. rewrite bind_modify. reflexivity.
  - intros j Hj. unfold lg3. rewrite snap_lookup, decide_True by lia. rewrite Z.sub_0_r.
    by apply snap_list_lookup.
  - intros j Hj. unfold lg3. rewrite snap_lookup. case_decide; [|done]. rewrite Z.sub_0_r.
    apply lookup_ge_None. unfold snap_list. rewrite length_fmap, length_seqZ. lia.
Qed.

(** checkOneLeader is right: with terms that are not negative, the server it
    returns was, in the first round in which a connected server claimed to be
    leader, the claimant with the highest term, and no two claimants shared a
    term; it fails only if two of them did, or if ten rounds found none. *)
Theorem checkOneLeader_right {S} n conn sts (s : S) :
  (forall k i, 0 <= fst (sts k i)) ->
  match checkOneLeader n conn sts s with
  | Done l s' => s' = s /\ exists k, (k < 10)%nat /\ one_leader n conn (sts k) l /\
      forall j i, (j < k)%nat -> 0 <= i < n -> is_leader conn (sts j) i = false
  | Panicked p _ => p = ExplicitPanic /\
      ((exists k, (k < 10)%nat /\ two_leaders n conn (sts k)) \/
       forall k i, (k < 10)%nat -> 0 <= i < n -> is_leader conn (sts k) i = false)
  | Blocked _ => False
  end.
Proof.
  intros Hpos. unfold checkOneLeader.
  assert (forall d a, (a + d = 10)%nat ->
    (forall j i, (j < a)%nat -> 0 <= i < n -> is_leader conn (sts j) i = false) ->
    match check_iterations n conn (sts <$> seq a d) s with
    | Done l s' => s' = s /\ exists k, (k < 10)%nat /\ one_leader n conn (sts k) l /\
        forall j i, (j < k)%nat -> 0 <= i < n -> is_leader conn (sts j) i = false
    | Panicked p _ => p = ExplicitPanic /\
        ((exists k, (k < 10)%nat /\ two_leaders n conn (sts k)) \/
         forall k i, (k < 10)%nat -> 0 <= i < n -> is_leader conn (sts k) i = false)
    | Blocked _ => False
    end) as H; [|apply (H 10%nat 0%nat); [done|lia]].
  induction d as [|d IH]; intros a Ha Hno.
  { simpl. split; [done|]. right. intros k i Hk. apply Hno. lia. }
  cbn [seq]. rewrite fmap_cons. cbn [check_iterations]. unfold mbind at 1, M_bind at 1.
  pose proof (check_leaders_spec n conn (sts a) s (Hpos a)) as Hs.
  destruct (check_leaders n conn (sts a) s) as [[l|] s'|p s'|s']; [| | |done].
  - destruct Hs as [-> Hl]. split; [done|]. exists a. split; [lia|done].
  - destruct Hs as [-> Hl]. apply IH; [lia|]. intros j i Hj Hi.
    destruct (decide (j = a)) as [->|?]; [by apply Hl|apply Hno; [lia|done]].
  - destruct Hs as [-> Hl]. split; [done|]. left. exists a. split; [lia|done].
Qed.

(** ** Instances *)

Definition enc_opt (x : option Z) : list Z := match x with None => [0; 0] | Some z => [1; z] end.
Fixpoint dec_opts (l : list Z) : list (option Z) :=
  match l with
  | a :: z :: l => (if a =? 0 then None else Some z) :: dec_opts l
  | _ => []
  end.

#[export] Instance pair_gob : SnapGob Z.
Proof.
  refine {| snap_encode i l := i :: (l ≫= enc_opt);
            snap_decode b := match b with i :: l => Some (i, dec_opts l) | [] => None end;
            snap_roundtrip := _; snap_nonempty := _ |}.
  - intros i l. do 2 f_equal. induction l as [|[z|] l IH]; [done|..]; rewrite bind_cons; simpl; by rewrite IH.
  - done.
Defined.

Definition cmd_msg (index c : Z) : ApplyMsg Z := mkApplyMsg true (Some c) index false [] 0 0.

Definition two_servers : list (Z * ApplyMsg Z) :=
  [(0, cmd_msg 1 10); (1, cmd_msg 1 10); (1, cmd_msg 2 20); (0, cmd_msg 2 20); (1, cmd_msg 3 30)].

Lemma tester_accepts_witness :
  consistent two_servers /\
  exists t, applier_run two_servers (fresh_tester 2) = Done tt t /\
    exists cmd, nCommitted 2 t = Done (2, cmd) t /\
      forall y, y ∈ two_servers -> am_CommandIndex (snd y) = 2 -> cmd = Command (snd y).
Proof.
  destruct (tester_accepts 2 two_servers) as [H1 H2]; [repeat constructor; simpl; lia|repeat constructor|].
  assert (exists t, applier_run two_servers (fresh_tester 2) = Done tt t) as [t Ht]
    by (eexists; vm_compute; reflexivity).
  split; [apply H1; by exists t|]. exists t. split; [exact Ht|]. exact (H2 t Ht 2).
Defined.

(** Server 0 at the ninth command. *)
Definition before_snapshot : tester Z := mkTester [list_to_map [(7, Some 70); (8, Some 80)]; ∅] [8; 0] 8.
Definition after_snapshot : tester Z :=
  match applierSnap_msg 0 (cmd_msg 9 90) before_snapshot with Done _ t => t | _ => before_snapshot end.
Definition the_snapshot : bytes :=
  match applierSnap_msg 0 (cmd_msg 9 90) before_snapshot with Done (Some (_, b)) _ => b | _ => [] end.

Lemma tester_snapshot_restores_witness :
  exists t3 lg3, ingestSnap 0 the_snapshot (-1) (fresh_tester 2) = Done false t3 /\
    t_logs t3 = <[0%nat := lg3]> (t_logs (fresh_tester 2)) /\
    t_lastApplied t3 = <[0%nat := 9]> (t_lastApplied (fresh_tester (Cmd := Z) 2)) /\
    (forall j, 0 <= j <= 9 -> lg3 !! j = Some (default None (default ∅ (nthZ (t_logs after_snapshot) 0) !! j))) /\
    (forall j, ~ 0 <= j <= 9 -> lg3 !! j = None).
Proof.
  apply (tester_snapshot_restores 0 (cmd_msg 9 90) before_snapshot after_snapshot 9 the_snapshot
    (default ∅ (nthZ (t_logs after_snapshot) 0)) (fresh_tester 2) (-1)).
  - vm_compute. reflexivity.
  - vm_compute. reflexivity.
  - vm_compute. reflexivity.
  - vm_compute. reflexivity.
  - by left.
Defined.

(** Server 2 leads term 5, server 0 still thinks it leads term 3. *)
Definition demo_state (_ : nat) (i : Z) : Z * bool := if i =? 2 then (5, true) else if i =? 0 then (3, true) else (5, false).

Lemma checkOneLeader_right_witness :
  checkOneLeader 3 (fun _ => true) demo_state tt = Done 2 tt /\
  exists k, (k < 10)%nat /\ one_leader 3 (fun _ => true) (demo_state k) 2 /\
    forall j i, (j < k)%nat -> 0 <= i < 3 -> is_leader (fun _ => true) (demo_state j) i = false.
Proof.
  assert (checkOneLeader 3 (fun _ => true) demo_state tt = Done 2 tt) as E by (vm_compute; reflexivity).
  split; [exact E|].
  assert (forall k i, 0 <= fst (demo_state k i)) as Hpos
    by (intros k i; unfold demo_state; destruct (i =? 2), (i =? 0); simpl; lia).
  pose proof (checkOneLeader_right 3 (fun _ => true) demo_state tt Hpos) as H. rewrite E in H. apply H.
Defined.
