(* ===== verification/Agreement.v ===== *)
(** How the Raft tester waits for an agreement (raft/config.go: wait and one).

    The tester looks at a world that changes while it looks: [env k] is what it
    finds at its [k]-th look, with the time in nanoseconds.  [fuel] bounds the
    turns of each loop over time; out of fuel is still looping, and [one_ends] says
    that some fuel is enough once time goes on. *)

From S2P Require Import Prelude RaftTypes Tester.

Definition second : Z := 1000000000.

Section agreement.
Context {Cmd : Type} `{!EqDecision Cmd}.

(** [mo_start i]: what Start of server [i] answers, index and whether it leads, or
    nothing if it is not connected or not running; [mo_terms]: the terms of the
    servers, nothing for a server that is not running. *)
Record moment := mkMoment {
  mo_clock : Z; mo_finished : bool; mo_tester : tester Cmd;
  mo_start : Z -> option (Z * bool); mo_terms : list (option Z) }.

(** The tester: how often it looked, and the Starts that were accepted. *)
Record asker := mkAsker { as_time : nat; as_starts : list (Z * Z) }.

Context (env : nat -> moment) (n : Z).

Definition look : M asker moment :=
  a ← gets (fun a => a);
  modify (fun a => mkAsker (S (as_time a)) (as_starts a));;
  mret (env (as_time a)).

(** cfg.nCommitted(index) at this moment. *)
Definition look_committed (index : Z) : M asker (Z * option Cmd) :=
  m ← look;
  match nCommitted index (mo_tester m) with
  | Done r _ => mret r
  | Panicked p _ => throw p
  | Blocked _ => block
  end.

(** * wait *)

(** -1, or the command. *)
Inductive waited : Type :=
  | SomeoneMovedOn
  | WaitedFor (cmd : option Cmd).

Fixpoint moved_on (startTerm : Z) (terms : list (option Z)) : M asker bool :=
  match terms with
  | [] => mret false
  | None :: _ => throw NilDereference
  | Some t :: terms => if startTerm <? t then mret true else moved_on startTerm terms
  end.

Fixpoint wait_loop (iters : nat) (index k startTerm : Z) : M asker (option waited) :=
  match iters with
  | O => mret None
  | S iters =>
      r ← look_committed index;
      if k <=? fst r then mret None else
      m ← look;
      moved ← (if -1 <? startTerm then moved_on startTerm (mo_terms m) else mret false);
      if (moved : bool) then mret (Some SomeoneMovedOn) else wait_loop iters index k startTerm
  end.

Definition wait (index k startTerm : Z) : M asker waited :=
  o ← wait_loop 30 index k startTerm;
  match o with
  | Some w => mret w
  | None =>
      r ← look_committed index;
      if fst r <? k then throw ExplicitPanic else mret (WaitedFor (snd r))
  end.

(** * one *)

(** Try all the servers: [starts], the index and the server that accepted. *)
Fixpoint try_start (count : nat) (starts : Z) : M asker (Z * Z * Z) :=
  match count with
  | O => mret (starts, -1, -1)
  | S count =>
      let starts := Z.rem (starts + 1) n in
      m ← look;
      match mo_start m starts with
      | Some (index1, true) =>
          modify (fun a => mkAsker (as_time a) (as_starts a ++ [(starts, index1)]));;
          mret (starts, index1, starts)
      | Some (_, false) | None => try_start count starts
      end
  end.

(** The two seconds for an agreement. *)
Fixpoint agree_loop (fuel : nat) (t1 index expected : Z) (cmd : option Cmd) : M asker bool :=
  match fuel with
  | O => block
  | S fuel =>
      m ← look;
      if mo_clock m - t1 <? 2 * second then
        r ← look_committed index;
        if (expected <=? fst r) && bool_decide (snd r = cmd) then mret true
        else agree_loop fuel t1 index expected cmd
      else mret false
  end.

Fixpoint one_loop (fuel afuel : nat) (t0 starts : Z) (cmd : option Cmd) (expected : Z) (retry : bool) : M asker Z :=
  match fuel with
  | O => block
  | S fuel =>
      m ← look;
      if (mo_clock m - t0 <? 10 * second) && negb (mo_finished m) then
        r ← try_start (Z.to_nat n) starts;
        let '(starts, index, _) := r in
        if negb (index =? -1) then
          m1 ← look;
          agreed ← agree_loop afuel (mo_clock m1) index expected cmd;
          if (agreed : bool) then mret index
          else if retry then one_loop fuel afuel t0 starts cmd expected retry else throw ExplicitPanic
        else one_loop fuel afuel t0 starts cmd expected retry
      else
        m ← look;
        if mo_finished m then mret (-1) else throw ExplicitPanic
  end.

(** [len]: the length of a command that is a string; its first ten bytes are
    logged. *)
Definition one (fuel afuel : nat) (len : option Z) (cmd : option Cmd) (expected : Z) (retry : bool) : M asker Z :=
  match len with
  | Some l => when (l <? 10) (throw SliceOutOfRange)
  | None => mret tt
  end;;
  m ← look;
  one_loop fuel afuel (mo_clock m) 0 cmd expected retry.

(** * What nCommitted says *)

Lemma count_committed_inv logs index count cmd (t t' : tester Cmd) nd c :
  0 <= count -> count_committed logs index count cmd t = Done (nd, c) t' ->
  nd = count + count_if (has_index index) logs /\ (0 < count -> c = cmd) /\
  forall lg v, lg ∈ logs -> lg !! index = Some v -> v = c.
Proof.
  revert count cmd. induction logs as [|lg logs IH]; intros count cmd H0 E; simpl in E.
  { injection E as <- <- _. rewrite count_if_nil. split; [lia|]. split; [done|]. by intros ? ? []%elem_of_nil. }
  rewrite count_if_cons. destruct (lg !! index) as [cmd1|] eqn:Hl.
  - assert (has_index index lg = true) as -> by (unfold has_index; by rewrite Hl).
    destruct ((0 <? count) && negb (bool_decide (cmd = cmd1))) eqn:Hb; [done|].
    apply IH in E as (-> & Hc & Hall); [|lia]. specialize (Hc ltac:(lia)). subst c.
    split; [lia|]. split.
    + intros Hp. destruct (Z.ltb_spec 0 count); [|lia]. simpl in Hb. rewrite negb_false_iff in Hb.
      symmetry. by apply bool_decide_eq_true in Hb.
    + intros lg' v [->|Hin]%elem_of_cons Hv; [congruence|by eapply Hall].
  - assert (has_index index lg = false) as -> by (unfold has_index; by rewrite Hl).
    destruct (IH _ _ H0 E) as (-> & Hc & Hall). split; [lia|]. split; [done|].
    intros lg' v [->|Hin]%elem_of_cons Hv; [congruence|by eapply Hall].
Qed.

(** At the moment, so many servers have applied the index, all with the command. *)
Definition applied_at (m : moment) (index nd : Z) (cmd : option Cmd) : Prop :=
  nd = count_if (has_index index) (t_logs (mo_tester m)) /\
  forall lg v, lg ∈ t_logs (mo_tester m) -> lg !! index = Some v -> v = cmd.

Lemma post_look a (Q : moment -> asker -> Prop) :
  Q (env (as_time a)) (mkAsker (S (as_time a)) (as_starts a)) -> post look a Q.
Proof. intros H. by apply post_bind, post_gets, post_bind, post_modify, post_ret. Qed.

Lemma post_look_committed index a (Q : Z * option Cmd -> asker -> Prop) :
  (forall nd cmd, applied_at (env (as_time a)) index nd cmd -> Q (nd, cmd) (mkAsker (S (as_time a)) (as_starts a))) ->
  post (look_committed index) a Q.
Proof.
  intros H. apply post_bind, post_look.
  destruct (nCommitted index (mo_tester (env (as_time a)))) as [[nd cmd] t'|p t'|t'] eqn:E; [|apply post_throw|done].
  apply post_ret, H. unfold nCommitted in E. rewrite bind_gets in E.
  destruct (count_committed_inv _ _ _ _ _ _ _ _ (Z.le_refl 0) E) as (-> & _ & Hall). by split.
Qed.

(** Time only goes on. *)
Definition later (a a' : asker) : Prop := (as_time a <= as_time a')%nat /\ as_starts a' = as_starts a.

Lemma agree_loop_post fuel t1 index expected cmd a :
  post (agree_loop fuel t1 index expected cmd) a (fun b a' => later a a' /\
    (b = true -> exists k nd, (as_time a <= k < as_time a')%nat /\ applied_at (env k) index nd cmd /\ expected <= nd)).
Proof.
  revert a. induction fuel as [|fuel IH]; intros a; [done|]. cbn [agree_loop].
  apply post_bind, post_look. case_match.
  - apply post_bind, post_look_committed. intros nd c Hat. simpl fst. simpl snd. simpl in Hat.
    destruct ((expected <=? nd) && bool_decide (c = cmd)) eqn:Hb.
    + apply post_ret. split; [split; simpl; [lia|done]|]. intros _. apply andb_true_iff in Hb as [Hb1 ->%bool_decide_eq_true].
      exists (S (as_time a)), nd. split; [simpl; lia|]. split; [done|lia].
    + eapply post_mono; [apply IH|]. intros b a' [[H1 H2] H3]. simpl in *. split; [split; [lia|done]|].
      intros Hb'. destruct (H3 Hb') as (k & nd' & Hk & ?). exists k, nd'. split; [lia|done].
  - apply post_ret. split; [split; simpl; [lia|done]|done].
Qed.

(** Either no server accepts, or one does and its Start is in the list. *)
Lemma try_start_post count starts a :
  0 < n -> 0 <= starts ->
  post (try_start count starts) a (fun r a' => let '(starts', index, _) := r in
    0 <= starts' /\ (as_time a <= as_time a')%nat /\
    ((index = -1 /\ as_starts a' = as_starts a) \/
     exists i k, 0 <= i < n /\ (as_time a <= k < as_time a')%nat /\ mo_start (env k) i = Some (index, true) /\
       as_starts a' = as_starts a ++ [(i, index)])).
Proof.
  intros Hn. revert starts a. induction count as [|count IH]; intros starts a Hs; cbn [try_start].
  { apply post_ret. split; [done|]. split; [lia|]. by left. }
  assert (0 <= Z.rem (starts + 1) n < n) as Hr by (rewrite Z.rem_mod_nonneg by lia; apply Z.mod_pos_bound; lia).
  cbv zeta. apply post_bind, post_look.
  destruct (mo_start (env (as_time a)) (Z.rem (starts + 1) n)) as [[index1 [|]]|] eqn:E.
  - apply post_bind, post_modify, post_ret. simpl. split; [lia|]. split; [lia|]. right.
    exists (Z.rem (starts + 1) n), (as_time a). split; [done|]. split; [lia|]. done.
  - eapply post_mono; [apply IH; lia|]. intros [[s' i'] x'] a'. simpl. intros (H1 & H2 & H3). split; [done|].
    split; [lia|]. destruct H3 as [H3|(i & k & ? & ? & ?)]; [by left|right]. exists i, k. split; [done|]. split; [lia|done].
  - eapply post_mono; [apply IH; lia|]. intros [[s' i'] x'] a'. simpl. intros (H1 & H2 & H3). split; [done|].
    split; [lia|]. destruct H3 as [H3|(i & k & ? & ? & ?)]; [by left|right]. exists i, k. split; [done|]. split; [lia|done].
Qed.

(** The answer of [one]: -1 when the test is over, or an index at which a leader put
    the command and which enough servers have applied since, all with the command. *)
Definition answered (a a' : asker) (index expected : Z) (cmd : option Cmd) : Prop :=
  (index = -1 /\ exists k, (as_time a <= k)%nat /\ mo_finished (env k) = true) \/
  (exists i k0 k nd, 0 <= i < n /\ (as_time a <= k0 < k)%nat /\ (k < as_time a')%nat /\
     mo_start (env k0) i = Some (index, true) /\ applied_at (env k) index nd cmd /\ expected <= nd).

Lemma one_loop_post fuel afuel t0 starts cmd expected retry a :
  0 < n -> 0 <= starts ->
  post (one_loop fuel afuel t0 starts cmd expected retry) a (fun index a' => answered a a' index expected cmd).
Proof.
  intros Hn. revert starts a. induction fuel as [|fuel IH]; intros starts a Hs; [done|]. cbn [one_loop].
  apply post_bind, post_look. case_match.
  - apply post_bind. eapply post_mono; [by apply try_start_post|]. intros [[s' index] x] a1 (Hs' & Ht & Hst). simpl in Ht.
    assert (forall a2, (as_time a <= as_time a2)%nat ->
      post (one_loop fuel afuel t0 s' cmd expected retry) a2 (fun index a' => answered a a' index expected cmd)) as Hrec.
    { intros a2 H2. eapply post_mono; [by apply IH|]. intros j a3 [[-> (k & Hk & ?)]|(i & k0 & k & nd & ? & Hk & ?)].
      - left. split; [done|]. exists k. split; [lia|done].
      - right. exists i, k0, k, nd. split; [done|]. split; [lia|done]. }
    destruct (Z.eqb_spec index (-1)) as [->|Hne]; simpl; [apply Hrec; lia|].
    apply post_bind, post_look, post_bind. eapply post_mono; [apply agree_loop_post|].
    intros b a2 [[Hl _] Hb]. simpl in Hl, Hb. destruct b.
    + apply post_ret. destruct Hst as [[-> _]|(i & k0 & Hi & Hk0 & Hm & _)]; [done|].
      destruct (Hb eq_refl) as (k & nd & Hk & Hat). right. exists i, k0, k, nd. split; [done|].
      simpl in Hk0. split; [lia|]. split; [lia|done].
    + destruct retry; [apply Hrec; lia|apply post_throw].
  - apply post_bind, post_look. simpl. destruct (mo_finished (env (S (as_time a)))) eqn:Hf; [|apply post_throw].
    apply post_ret. left. split; [done|]. exists (S (as_time a)). split; [lia|done].
Qed.

(** Without retry one Start is accepted at most. *)
Lemma one_loop_starts fuel afuel t0 starts cmd expected a :
  0 < n -> 0 <= starts -> (forall k i, mo_start (env k) i <> Some (-1, true)) ->
  post (one_loop fuel afuel t0 starts cmd expected false) a (fun _ a' =>
    exists l, as_starts a' = as_starts a ++ l /\ (length l <= 1)%nat).
Proof.
  intros Hn Hs Hno. revert starts a Hs. induction fuel as [|fuel IH]; intros starts a Hs; [done|]. cbn [one_loop].
  apply post_bind, post_look. case_match.
  - apply post_bind. eapply post_mono; [by apply try_start_post|]. intros [[s' index] x] a1 (Hs' & _ & Hst).
    destruct (Z.eqb_spec index (-1)) as [->|Hne]; simpl.
    + destruct Hst as [[_ E]|(i & k & _ & _ & Hm & _)]; [|by apply Hno in Hm].
      eapply post_mono; [by apply IH|]. simpl in E. cbv beta. intros _ a2. by rewrite E.
    + destruct Hst as [[-> _]|(i & k & _ & _ & _ & E)]; [done|]. apply post_bind, post_look, post_bind.
      eapply post_mono; [apply agree_loop_post|]. intros b a2 [[_ El] _]. simpl in El, E.
      destruct b; [|apply post_throw]. apply post_ret. exists [(i, index)]. by rewrite El, E.
  - apply post_bind, post_look. simpl. case_match; [|apply post_throw]. apply post_ret. exists []. simpl.
    rewrite app_nil_r. split; [done|lia].
Qed.

(** * Time goes on *)

Definition ends {S A} (m : M S A) (s : S) : Prop := forall s', m s <> Blocked s'.

Lemma ends_bind {S A B} (m : M S A) (k : A -> M S B) s :
  ends m s -> (forall a s', m s = Done a s' -> ends (k a) s') -> ends (m ≫= k) s.
Proof.
  intros Hm Hk s' E. unfold mbind, M_bind in E. destruct (m s) as [a s1|p s1|s1] eqn:Em; [|done|].
  - by eapply Hk.
  - by apply Hm in Em.
Qed.

Lemma look_ends a : ends look a.
Proof. by intros a'. Qed.

Lemma count_committed_ends logs index count cmd (t : tester Cmd) : ends (count_committed logs index count cmd) t.
Proof.
  revert count cmd. induction logs as [|lg logs IH]; intros count cmd; [by intros t'|]. simpl.
  destruct (lg !! index); [|apply IH]. case_match; [by intros t'|apply IH].
Qed.

Lemma look_committed_ends index a : ends (look_committed index) a.
Proof.
  apply ends_bind; [apply look_ends|]. intros m a1 _. destruct (nCommitted index (mo_tester m)) as [r t|p t|t] eqn:E;
    [by intros a'|by intros a'|]. unfold nCommitted in E. rewrite bind_gets in E. by apply count_committed_ends in E.
Qed.

Lemma try_start_run count starts a :
  exists r a', try_start count starts a = Done r a' /\ (as_time a <= as_time a' <= as_time a + count)%nat.
Proof.
  revert starts a. induction count as [|count IH]; intros starts a; cbn [try_start].
  { eexists _, a. split; [done|lia]. }
  cbv zeta. rewrite (bind_done look _ _ (env (as_time a)) (mkAsker (S (as_time a)) (as_starts a)) eq_refl).
  destruct (mo_start (env (as_time a)) (Z.rem (starts + 1) n)) as [[index1 [|]]|].
  - eexists _, _. split; [reflexivity|]. simpl. lia.
  - destruct (IH (Z.rem (starts + 1) n) (mkAsker (S (as_time a)) (as_starts a))) as (r & a' & E & H).
    exists r, a'. rewrite E. split; [done|]. simpl in H. lia.
  - destruct (IH (Z.rem (starts + 1) n) (mkAsker (S (as_time a)) (as_starts a))) as (r & a' & E & H).
    exists r, a'. rewrite E. split; [done|]. simpl in H. lia.
Qed.

Lemma agree_loop_ends fuel t1 index expected cmd a T :
  (forall k, (T <= k)%nat -> t1 + 2 * second <= mo_clock (env k)) -> (T - as_time a < fuel)%nat ->
  ends (agree_loop fuel t1 index expected cmd) a.
Proof.
  intros HT. revert a. induction fuel as [|fuel IH]; intros a Ha; [lia|]. cbn [agree_loop].
  apply ends_bind; [apply look_ends|]. intros m a1 [= <- <-].
  destruct (Z.ltb_spec (mo_clock (env (as_time a)) - t1) (2 * second)) as [Hlt|]; [|by intros a'].
  assert (as_time a < T)%nat as Hl.
  { destruct (decide (as_time a < T)%nat); [done|]. pose proof (HT (as_time a) ltac:(lia)). lia. }
  apply ends_bind; [apply look_committed_ends|]. intros r a2 E.
  assert (as_time a2 = S (S (as_time a))) as Ht.
  { pose proof (post_look_committed index (mkAsker (S (as_time a)) (as_starts a))
      (fun _ a2 => as_time a2 = S (S (as_time a))) (fun _ _ _ => eq_refl) _ _ E). done. }
  case_match; [by intros a'|]. apply IH. lia.
Qed.

Lemma one_loop_ends fuel afuel t0 starts cmd expected retry a T T1 :
  (forall j k, (j <= k)%nat -> mo_clock (env j) <= mo_clock (env k)) ->
  (forall k, (T <= k)%nat -> t0 + 10 * second <= mo_clock (env k)) ->
  (forall k, (T1 <= k)%nat -> mo_clock (env (T + Z.to_nat n)) + 2 * second <= mo_clock (env k)) ->
  (T - as_time a < fuel)%nat -> (T1 < afuel)%nat ->
  ends (one_loop fuel afuel t0 starts cmd expected retry) a.
Proof.
  intros Hmono HT HT1. revert starts a. induction fuel as [|fuel IH]; intros starts a Ha Haf; [lia|]. cbn [one_loop].
  apply ends_bind; [apply look_ends|]. intros m a1 [= <- <-].
  destruct ((mo_clock (env (as_time a)) - t0 <? 10 * second) && negb (mo_finished (env (as_time a)))) eqn:Hgo.
  - assert (as_time a < T)%nat as Hl.
    { apply andb_true_iff in Hgo as [Hgo _]. destruct (decide (as_time a < T)%nat); [done|].
      pose proof (HT (as_time a) ltac:(lia)). lia. }
    destruct (try_start_run (Z.to_nat n) starts (mkAsker (S (as_time a)) (as_starts a))) as (r & a1 & E & Ht).
    simpl in Ht. intros a'. rewrite (bind_done _ _ _ _ _ E). revert a'. destruct r as [[s' index] x].
    destruct (negb (index =? -1)); [|apply IH; lia].
    apply ends_bind; [apply look_ends|]. intros m a2 [= <- <-]. apply ends_bind.
    + apply (agree_loop_ends _ _ _ _ _ _ T1); [|simpl; lia]. intros k Hk. specialize (HT1 k Hk).
      pose proof (Hmono (as_time a1) (T + Z.to_nat n)%nat ltac:(lia)). lia.
    + intros b a2 E2. pose proof (agree_loop_post _ _ _ _ _ _ _ _ E2) as [[Hl2 _] _]. simpl in Hl2.
      destruct b; [by intros a'|]. destruct retry; [apply IH; lia|by intros a'].
  - apply ends_bind; [apply look_ends|]. intros m a1 _. case_match; by intros a'.
Qed.

(** wait returns a command only when enough servers have applied the index, all of
    them with it. *)
Lemma wait_reports index k startTerm a :
  post (wait index k startTerm) a (fun w _ => match w with
    | SomeoneMovedOn => -1 < startTerm /\ exists j t, Some t ∈ mo_terms (env j) /\ startTerm < t
    | WaitedFor cmd => exists j nd, applied_at (env j) index nd cmd /\ k <= nd
    end).
Proof.
  apply post_bind. apply post_mono with (Q := fun o _ => match o with
    | None => True
    | Some SomeoneMovedOn => -1 < startTerm /\ exists j t, Some t ∈ mo_terms (env j) /\ startTerm < t
    | Some (WaitedFor _) => False
    end).
  - generalize 30%nat as iters. intros iters. revert a. induction iters as [|iters IH]; intros a; [by apply post_ret|].
    cbn [wait_loop]. apply post_bind, post_look_committed. intros nd cmd _. case_match; [by apply post_ret|].
    apply post_bind, post_look, post_bind. simpl.
    apply post_mono with (Q := fun b _ => b = true ->
      -1 < startTerm /\ exists t, Some t ∈ mo_terms (env (S (as_time a))) /\ startTerm < t).
    + destruct (Z.ltb_spec (-1) startTerm) as [Hs|]; [|by apply post_ret].
      induction (mo_terms (env (S (as_time a)))) as [|[t|] terms IHt]; [by apply post_ret| |apply post_throw].
      simpl. destruct (Z.ltb_spec startTerm t) as [Ht|].
      * apply post_ret. intros _. split; [done|]. exists t. split; [by left|done].
      * eapply post_mono; [exact IHt|]. cbv beta. intros b _ Hb E. destruct (Hb E) as (_ & t' & Ht' & ?). split; [done|].
        exists t'. split; [by right|done].
    + intros b a1 Hb. destruct b; [|apply IH]. apply post_ret. destruct (Hb eq_refl) as (? & t & ? & ?).
      split; [done|]. by exists (S (as_time a)), t.
  - intros [[|cmd]|] a1 Hw; [by apply post_ret|done|]. apply post_bind, post_look_committed. intros nd cmd Hat. simpl.
    destruct (Z.ltb_spec nd k); [apply post_throw|]. apply post_ret. by exists (as_time a1), nd.
Qed.
End agreement.

(** * Theorems *)


(** The tester's one ends: when the clock never goes back and passes every
    time, some number of turns is enough, whatever the servers do; and a command
    that is a string of less than ten bytes crashes it. *)
Theorem one_ends {Cmd} `{!EqDecision Cmd} (env : nat -> moment (Cmd := Cmd)) n len cmd expected retry a :
  (forall j k, (j <= k)%nat -> mo_clock (env j) <= mo_clock (env k)) ->
  (forall t, exists k, t <= mo_clock (env k)) ->
  (exists turns, forall fuel afuel, (turns <= fuel)%nat -> (turns <= afuel)%nat ->
     ends (one env n fuel afuel len cmd expected retry) a) /\
  (forall l fuel afuel, l < 10 -> one env n fuel afuel (Some l) cmd expected retry a = Panicked SliceOutOfRange a).
Proof.
  intros Hmono Hun. split.
  - destruct (Hun (mo_clock (env (as_time a)) + 10 * second)) as [T HT].
    destruct (Hun (mo_clock (env (T + Z.to_nat n)%nat) + 2 * second)) as [T1 HT1].
    exists (S (T + T1)). intros fuel afuel Hf Haf. apply ends_bind.
    + destruct len as [l|]; [destruct (l <? 10)|]; by intros a'.
    + intros [] a0 E0. assert (a0 = a) as ->. { destruct len as [l|]; [destruct (l <? 10)|]; by inversion E0. }
      apply ends_bind; [apply look_ends|]. intros m a1 [= <- <-].
      apply (one_loop_ends _ _ _ _ _ _ _ _ _ _ T T1); [done|..].
      * intros k Hk. pose proof (Hmono _ _ Hk). lia.
      * intros k Hk. pose proof (Hmono _ _ Hk). lia.
      * lia.
      * lia.
  - intros l fuel afuel Hl. unfold one. destruct (Z.ltb_spec l 10); [|lia]. done.
Qed.

(** * An agreement of two servers *)

Definition demo_moment (k : nat) : moment (Cmd := Z) :=
  let lg : gmap Z (option Z) := if (k <? 6)%nat then ∅ else {[ 1 := Some 42 ]} in
  mkMoment (Z.of_nat k * 20000000) false (mkTester [lg; lg] [0; 0] 0)
    (fun i => if i =? 1 then Some (1, true) else Some (0, false)) [Some 1; Some 1].


Lemma one_ends_witness :
  exists turns, (0 < turns)%nat /\ ends (one demo_moment 2 turns turns None (Some 42) 2 true) (mkAsker 0 []).
Proof.
  destruct (one_ends demo_moment 2 None (Some 42) 2 true (mkAsker 0 [])) as [[turns H] _].
  - intros j k Hjk. simpl. lia.
  - intros t. exists (Z.to_nat t). simpl. lia.
  - exists (S turns). split; [lia|]. apply H; lia.
Defined.
