(* ===== verification/Links.v ===== *)
(** The wires of a test: the names of the client ends that the servers of a test
    send through, and the network they are ends of.  The configurations of
    raft, kvraft and shardctrler (config.go) switch them on and off.

    [names] is cfg.endnames: the end that server i uses to send to server j, or
    nil for a server that was never started. *)

From S2P Require Import Prelude Network.

Record links := mkLinks { l_net : Network; l_names : list (option (list string)) }.

Definition set_l_net (n : Network) (l : links) : links := mkLinks n (l_names l).
Definition set_l_names (ns : list (option (list string))) (l : links) : links := mkLinks (l_net l) ns.

Definition on_l_net {A} (m : M Network A) : M links A := fun l =>
  match m (l_net l) with
  | Done a n => Done a (set_l_net n l)
  | Panicked p n => Panicked p (set_l_net n l)
  | Blocked n => Blocked (set_l_net n l)
  end.

(** cfg.endnames[i] != nil *)
Definition has_names (i : Z) : M links bool :=
  l ← gets (fun l => l);
  row ← go_index (l_names l) i;
  mret (match row with Some _ => true | None => false end).

(** cfg.endnames[i][j] *)
Definition endname_at (i j : Z) : M links string :=
  l ← gets (fun l => l);
  row ← go_index (l_names l) i;
  go_index (default [] row) j.

(** cfg.net.Enable(cfg.endnames[i][j], b) *)
Definition set_link (b : bool) (i j : Z) : M links unit :=
  name ← endname_at i j;
  on_l_net (Enable name b).

(** * What switching does *)

Definition endname (ns : list (option (list string))) (i j : Z) : option string :=
  match nthZ ns i with Some row => nthZ (default [] row) j | None => None end.

Definition link_on (l : links) (i j : Z) : bool :=
  match endname (l_names l) i j with Some x => is_enabled (l_net l) x | None => false end.

Definition enable (x : string) (b : bool) (l : links) : links :=
  set_l_net (set_tables (ends (l_net l)) (<[x := b]> (enabled (l_net l))) (connections (l_net l)) (l_net l)) l.

Definition put_link (l : links) (s : Z * Z * bool) : links :=
  match endname (l_names l) (fst (fst s)) (snd (fst s)) with Some x => enable x (snd s) l | None => l end.

(** Switching a sequence of wires. *)
Definition put_links (l : links) (tr : list (Z * Z * bool)) : links := foldl put_link l tr.

Lemma put_link_names l s : l_names (put_link l s) = l_names l.
Proof. unfold put_link. by case_match. Qed.
Lemma put_links_names l tr : l_names (put_links l tr) = l_names l.
Proof. revert l. induction tr as [|s tr IH]; intros l; [done|]. simpl. by rewrite IH, put_link_names. Qed.

(** No two wires share an end. *)
Definition distinct (ns : list (option (list string))) : Prop :=
  forall i j i' j' x, endname ns i j = Some x -> endname ns i' j' = Some x -> i = i' /\ j = j'.

Lemma is_enabled_enable x b l y :
  is_enabled (l_net (enable x b l)) y = if decide (x = y) then b else is_enabled (l_net l) y.
Proof. unfold is_enabled. simpl. rewrite lookup_insert. by case_decide. Qed.

Lemma put_link_on l i j b i' j' :
  distinct (l_names l) -> is_Some (endname (l_names l) i j) ->
  link_on (put_link l (i, j, b)) i' j' = if decide (i = i' /\ j = j') then b else link_on l i' j'.
Proof.
  intros Hd [x Hx]. unfold link_on. rewrite put_link_names. unfold put_link. cbn [fst snd]. rewrite Hx.
  destruct (endname (l_names l) i' j') as [y|] eqn:Hy.
  - rewrite is_enabled_enable. destruct (decide (x = y)) as [->|Hne], (decide (i = i' /\ j = j')) as [He|He]; try done.
    + destruct He. by eapply Hd.
    + destruct He as [-> ->]. congruence.
  - destruct (decide _) as [[-> ->]|]; [congruence|done].
Qed.

(** After a sequence, a wire that was only switched one way is that way, and one
    that was not touched is as before. *)
Lemma put_links_on l tr i j b :
  distinct (l_names l) -> Forall (fun s => is_Some (endname (l_names l) (fst (fst s)) (snd (fst s)))) tr ->
  (forall b', (i, j, b') ∈ tr -> b' = b) -> (i, j, b) ∈ tr -> link_on (put_links l tr) i j = b.
Proof.
  intros Hd Hok Hall. induction tr as [|s tr IH] using rev_ind; [by intros []%elem_of_nil|].
  apply Forall_app in Hok as [Hok [Hs _]%Forall_cons]. destruct s as [[i' j'] b'].
  unfold put_links. rewrite foldl_app. cbn [foldl]. fold (put_links l tr). intros Hin.
  rewrite put_link_on by (rewrite put_links_names; done).
  destruct (decide (i' = i /\ j' = j)) as [[-> ->]|Hne].
  - apply Hall, elem_of_app. right. by left.
  - apply IH; [done| |].
    + intros c Hc. apply Hall, elem_of_app. by left.
    + apply elem_of_app in Hin as [Hin|Hin]; [done|]. apply list_elem_of_singleton in Hin. naive_solver.
Qed.

Lemma put_links_off l tr i j :
  distinct (l_names l) -> Forall (fun s => is_Some (endname (l_names l) (fst (fst s)) (snd (fst s)))) tr ->
  (forall b, (i, j, b) ∉ tr) -> link_on (put_links l tr) i j = link_on l i j.
Proof.
  intros Hd Hok Hno. induction tr as [|s tr IH] using rev_ind; [done|].
  apply Forall_app in Hok as [Hok [Hs _]%Forall_cons]. destruct s as [[i' j'] b'].
  unfold put_links. rewrite foldl_app. cbn [foldl]. fold (put_links l tr).
  rewrite put_link_on by (rewrite put_links_names; done).
  destruct (decide (i' = i /\ j' = j)) as [[-> ->]|Hne].
  - exfalso. apply (Hno b'), elem_of_app. right. by left.
  - apply IH; [done|]. intros c Hc. apply (Hno c), elem_of_app. by left.
Qed.

(** * Code that switches wires *)

(** On wires with these names the code switches [tr] and does nothing else. *)
Definition switches (ns : list (option (list string))) (m : M links unit) (tr : list (Z * Z * bool)) : Prop :=
  Forall (fun s => is_Some (endname ns (fst (fst s)) (snd (fst s)))) tr /\
  forall l, l_names l = ns -> m l = Done tt (put_links l tr).

Lemma switches_none ns : switches ns (mret tt) [].
Proof. split; [constructor|done]. Qed.

Lemma switches_seq ns m1 m2 tr1 tr2 :
  switches ns m1 tr1 -> switches ns m2 tr2 -> switches ns (m1;; m2) (tr1 ++ tr2).
Proof.
  intros [H1 E1] [H2 E2]. split; [by apply Forall_app|]. intros l Hl. rewrite (bind_done _ _ _ _ _ (E1 l Hl)).
  rewrite E2 by (by rewrite put_links_names). unfold put_links. by rewrite foldl_app.
Qed.

Lemma switches_for_each {A} ns (xs : list A) f g :
  (forall x, x ∈ xs -> switches ns (f x) (g x)) -> switches ns (for_each xs f) (xs ≫= g).
Proof.
  induction xs as [|x xs IH]; intros H; [apply switches_none|]. cbn [for_each]. rewrite bind_cons.
  apply switches_seq; [apply H; by left|]. apply IH. intros y Hy. apply H. by right.
Qed.

Lemma switches_link ns b i j : is_Some (endname ns i j) -> switches ns (set_link b i j) [(i, j, b)].
Proof.
  intros [x Hx]. split; [by repeat constructor; simpl; rewrite Hx|]. intros l Hl.
  unfold put_links, put_link, set_link, endname_at. cbn [foldl fst snd]. rewrite Hl, Hx.
  unfold endname in Hx. destruct (nthZ ns i) as [row|] eqn:Hr; [|done].
  unfold mbind, M_bind, gets, go_index. rewrite Hl, Hr. unfold mret, M_ret. by rewrite Hx.
Qed.

Lemma switches_if ns (b : bool) m tr : switches ns m tr -> switches ns (when b m) (if b then tr else []).
Proof. intros H. destruct b; [done|apply switches_none]. Qed.

(** The rest of the network stays. *)
Definition wiring (n : Network) := (ends n, servers n, connections n, reliable n, done_closed n).

Lemma put_links_wiring l tr : wiring (l_net (put_links l tr)) = wiring (l_net l).
Proof.
  revert l. induction tr as [|s tr IH]; intros l; [done|]. simpl. rewrite IH. unfold put_link. by case_match.
Qed.

(** * Starting a server: a fresh row of ends *)

(** The loop over MakeEnd and Connect; [on] is whether the ends are enabled at
    once, [dest] the name of the server at the other side. *)
Definition make_end (on : bool) (name server : string) : M Network ClientEnd :=
  e ← MakeEnd name;
  Connect name server;;
  when on (Enable name true);;
  mret e.

Definition make_ends (on : bool) (dest : Z -> string) (names : list string) : M Network unit :=
  for_each (zip (seqZ 0 (lenZ names)) names) (fun jx => make_end on (snd jx) (dest (fst jx));; mret tt).

(** Everything but the tables of ends. *)
Definition rest_of (n : Network) :=
  (reliable n, longDelays n, longReordering n, servers n, done_closed n, count n, bytes n).

Record ends_made (on : bool) (xs : list string) (n n' : Network) : Prop := {
  em_rest : rest_of n' = rest_of n;
  em_ends : forall x, is_Some (ends n' !! x) <-> is_Some (ends n !! x) \/ x ∈ xs;
  em_enabled : forall x, is_enabled n' x = if decide (x ∈ xs) then on else is_enabled n x;
  em_other : forall x, x ∉ xs -> connection_of n' x = connection_of n x }.

Lemma make_end_run on name server n :
  ends n !! name = None ->
  exists n', make_end on name server n = Done (mkEnd name) n' /\ ends_made on [name] n n' /\
    connection_of n' name = Some server.
Proof.
  intros H.
  set (n1 := set_tables (<[name := mkEnd name]> (ends n)) (<[name := false]> (enabled n))
               (<[name := Some server]> (<[name := None]> (connections n))) n).
  exists (if on then set_tables (ends n1) (<[name := true]> (enabled n1)) (connections n1) n1 else n1).
  split; [|split].
  - unfold make_end, MakeEnd, mbind, M_bind, gets. rewrite H. unfold modify, mret, M_ret, Connect, Enable, when.
    by destruct on.
  - split.
    + by destruct on.
    + intros x. rewrite list_elem_of_singleton. assert (ends (if on then set_tables (ends n1) (<[name := true]> (enabled n1))
        (connections n1) n1 else n1) = <[name := mkEnd name]> (ends n)) as -> by (by destruct on).
      rewrite lookup_insert. case_decide as E; [split; [by right|by eexists]|]. naive_solver.
    + intros x. unfold is_enabled. destruct on; simpl; rewrite ?lookup_insert;
        destruct (decide (x ∈ [name])) as [Hx|Hx]; rewrite list_elem_of_singleton in Hx;
        repeat case_decide; try done; congruence.
    + intros x Hx. rewrite list_elem_of_singleton in Hx. unfold connection_of.
      destruct on; simpl; by rewrite !lookup_insert_ne by done.
  - unfold connection_of. destruct on; simpl; by rewrite lookup_insert_eq.
Qed.

Lemma make_end_fails on name server n : is_Some (ends n !! name) -> make_end on name server n = Panicked LogFatal n.
Proof. intros [e H]. unfold make_end, MakeEnd, mbind, M_bind, gets. by rewrite H. Qed.

Lemma ends_made_trans on xs ys n1 n2 n3 :
  ends_made on xs n1 n2 -> ends_made on ys n2 n3 -> ends_made on (xs ++ ys) n1 n3.
Proof.
  intros [A1 A2 A3 A4] [B1 B2 B3 B4]. split.
  - congruence.
  - intros x. rewrite B2, A2, elem_of_app. tauto.
  - intros x. rewrite B3, A3. destruct (decide (x ∈ xs)), (decide (x ∈ ys)), (decide (x ∈ xs ++ ys)) as [H|H];
      rewrite elem_of_app in H; try done; tauto.
  - intros x Hx. rewrite elem_of_app in Hx. rewrite B4, A4; [done|tauto..].
Qed.

Lemma make_ends_from on dest k names n :
  let m := for_each (zip (seqZ k (lenZ names)) names)
    (fun jx => make_end on (snd jx) (dest (fst jx));; mret tt) in
  (NoDup names /\ (forall x, x ∈ names -> ends n !! x = None) ->
   exists n', m n = Done tt n' /\ ends_made on names n n' /\
     forall (j : nat) x, names !! j = Some x -> connection_of n' x = Some (dest (k + Z.of_nat j))) /\
  (forall n', m n = Done tt n' -> NoDup names /\ forall x, x ∈ names -> ends n !! x = None).
Proof.
  revert k n. induction names as [|x names IH]; intros k n; cbv zeta.
  { split; [|by intros; split; [constructor|intros ? []%elem_of_nil]]. intros _. exists n.
    split; [done|]. split; [|done]. split; [done|..]; intros x.
    - rewrite elem_of_nil. tauto.
    - case_decide as H; [by apply elem_of_nil in H|done].
    - done. }
  rewrite seqZ_cons by (simpl; lia). cbn [zip zip_with for_each fst snd].
  replace (Z.pred (lenZ (x :: names))) with (lenZ names) by (simpl; lia). rewrite <- Z.add_1_r.
  destruct (ends n !! x) as [e|] eqn:Hx.
  - assert (is_Some (ends n !! x)) as Hs by (by rewrite Hx).
    split.
    + intros [_ H]. specialize (H x). rewrite Hx in H. discriminate H. by left.
    + intros n' E. unfold mbind, M_bind in E. by rewrite (make_end_fails _ _ _ _ Hs) in E.
  - destruct (make_end_run on x (dest k) n Hx) as (n1 & E1 & Hm & Hc).
    destruct (IH (k + 1) n1) as [IH1 IH2]. cbv zeta in IH1, IH2.
    assert (forall m : M Network unit, ((make_end on x (dest k);; mret tt);; m) n = m n1) as Estep.
    { intros m. erewrite bind_done; [reflexivity|]. by rewrite (bind_done _ _ _ _ _ E1). }
    rewrite Estep. split.
    + intros [[Hnx Hnd]%NoDup_cons Hf]. destruct IH1 as (n' & E' & Hm' & Hc').
      { split; [done|]. intros y Hy. apply eq_None_not_Some. rewrite (em_ends _ _ _ _ Hm), list_elem_of_singleton.
        intros [[? H]| ->]; [|done]. rewrite Hf in H; [done|]. by right. }
      exists n'. split; [done|]. split; [by apply (ends_made_trans on [x] names n n1 n')|].
      intros [|j] y Hy.
      * injection Hy as <-. rewrite (em_other _ _ _ _ Hm') by done. rewrite Hc. do 2 f_equal. lia.
      * simpl in Hy. rewrite (Hc' j y Hy). do 2 f_equal. lia.
    + intros n' E'. destruct (IH2 n' E') as [Hnd Hf]. split.
      * apply NoDup_cons. split; [|done]. intros Hin. apply Hf in Hin as Hn.
        assert (is_Some (ends n1 !! x)) as [? ?] by (apply (em_ends _ _ _ _ Hm); right; by left). congruence.
      * intros y [->|Hy]%elem_of_cons; [done|]. apply eq_None_not_Some. intros Hs.
        apply Hf in Hy. assert (is_Some (ends n1 !! y)) as [? ?] by (apply (em_ends _ _ _ _ Hm); by left). congruence.
Qed.

(** The loop succeeds exactly when the names are new and different. *)
Lemma make_ends_run on dest names n :
  NoDup names -> (forall x, x ∈ names -> ends n !! x = None) ->
  exists n', make_ends on dest names n = Done tt n' /\ ends_made on names n n' /\
    forall (j : nat) x, names !! j = Some x -> connection_of n' x = Some (dest (Z.of_nat j)).
Proof. intros H1 H2. destruct (make_ends_from on dest 0 names n) as [H _]. exact (H (conj H1 H2)). Qed.

Lemma make_ends_inv on dest names n n' :
  make_ends on dest names n = Done tt n' -> NoDup names /\ forall x, x ∈ names -> ends n !! x = None.
Proof. intros E. destruct (make_ends_from on dest 0 names n) as [_ H]. exact (H n' E). Qed.

(** * Reading while switching *)

Lemma switches_index ns {A} (l : list A) j x (k : A -> M links unit) tr :
  nthZ l j = Some x -> switches ns (k x) tr -> switches ns (go_index l j ≫= k) tr.
Proof.
  intros Hx [H1 H2]. split; [done|]. intros lk Hl. unfold go_index, mbind, M_bind. rewrite Hx. by apply H2.
Qed.

Lemma switches_has_names ns j row (k : bool -> M links unit) tr :
  nthZ ns j = Some row -> switches ns (k (match row with Some _ => true | None => false end)) tr ->
  switches ns (has_names j ≫= k) tr.
Proof.
  intros Hr [H1 H2]. split; [done|]. intros lk Hl. unfold has_names, go_index, mbind, M_bind, gets.
  rewrite Hl, Hr. by apply H2.
Qed.

Lemma endname_row ns i j row x :
  nthZ ns i = Some (Some row) -> nthZ row j = Some x -> endname ns i j = Some x.
Proof. intros H1 H2. unfold endname. by rewrite H1. Qed.

Lemma endname_inv ns i j x :
  endname ns i j = Some x -> exists row, nthZ ns i = Some (Some row) /\ nthZ row j = Some x.
Proof.
  unfold endname. destruct (nthZ ns i) as [[row|]|] eqn:E; simpl; [by exists row| |done].
  unfold nthZ. by case_decide; rewrite ?lookup_nil.
Qed.

(** A new row for server [i]. *)
Lemma endname_insert ns i row i' j x :
  0 <= i < lenZ ns ->
  endname (<[Z.to_nat i := Some row]> ns) i' j = Some x <->
  (i' = i /\ nthZ row j = Some x) \/ (i' <> i /\ endname ns i' j = Some x).
Proof.
  intros Hi. unfold endname. destruct (decide (i' = i)) as [->|Hne].
  - rewrite nthZ_nat, list_lookup_insert_eq by lia. simpl. naive_solver.
  - assert (nthZ (<[Z.to_nat i := Some row]> ns) i' = nthZ ns i') as ->.
    { unfold nthZ. case_decide; [|done]. by rewrite list_lookup_insert_ne by lia. }
    naive_solver.
Qed.

Lemma distinct_insert ns i row :
  0 <= i < lenZ ns -> distinct ns -> NoDup row -> (forall i j x, endname ns i j = Some x -> x ∉ row) ->
  distinct (<[Z.to_nat i := Some row]> ns).
Proof.
  intros Hi Hd Hnd Hf a b a' b' x. rewrite !endname_insert by done.
  assert (forall j, nthZ row j = Some x -> x ∈ row) as Hin.
  { intros j Hj. unfold nthZ in Hj. case_decide; [|done]. by eapply list_elem_of_lookup_2. }
  intros [[-> H1]|[Hn H1]] [[-> H2]|[Hn' H2]].
  - split; [done|]. unfold nthZ in H1, H2. repeat case_decide; try done.
    pose proof (NoDup_lookup _ _ _ _ Hnd H1 H2). lia.
  - exfalso. eapply Hf; [exact H2|by eapply Hin].
  - exfalso. eapply Hf; [exact H1|by eapply Hin].
  - by eapply Hd.
Qed.
