(* ===== verification/RaftConfig.v ===== *)
(** The servers of a Raft test (raft/config.go): starting, crashing, connecting
    and disconnecting them.

    A Persister is an address: an instance of Raft keeps the one it was started
    with and goes on writing to it after it was killed.  The tester's part of a
    restart (the copies of the logs) is in the file of its checks.  The names of
    new ends, which the program draws at random, are arguments. *)

From stdpp Require Import pretty.
From S2P Require Import Prelude Network Links RaftTypes Persist.

(** * Persisters and instances *)

(** [d_insts]: the persister of every instance that was ever started. *)
Record disk := mkDisk { d_mem : gmap Z Persister; d_next : Z; d_insts : list Z }.

Definition alloc (p : Persister) : M disk Z :=
  d ← gets (fun d => d);
  modify (fun d => mkDisk (<[d_next d := p]> (d_mem d)) (d_next d + 1) (d_insts d));;
  mret (d_next d).
Definition read (a : Z) : M disk Persister :=
  d ← gets (fun d => d);
  match d_mem d !! a with Some p => mret p | None => throw NilDereference end.
Definition copy_persister (a : Z) : M disk Z := p ← read a; alloc (Copy p).

(** A new instance, numbered from 0. *)
Definition new_instance (a : Z) : M disk Z :=
  d ← gets (fun d => d);
  modify (fun d => mkDisk (d_mem d) (d_next d) (d_insts d ++ [a]));;
  mret (lenZ (d_insts d)).

(** An instance, alive or not, saves its state. *)
Definition instance_saves (k : Z) (state sn : bytes) : M disk unit :=
  d ← gets (fun d => d);
  a ← go_index (d_insts d) k;
  p ← read a;
  modify (fun d => mkDisk (<[a := Save state sn p]> (d_mem d)) (d_next d) (d_insts d)).

(** * The configuration *)

Record config := mkConfig {
  c_links : links; c_n : Z; c_rafts : list (option Z); c_connected : list bool;
  c_saved : list (option Z); c_disk : disk }.

Definition set_links l (c : config) : config :=
  mkConfig l (c_n c) (c_rafts c) (c_connected c) (c_saved c) (c_disk c).
Definition set_rafts r (c : config) : config :=
  mkConfig (c_links c) (c_n c) r (c_connected c) (c_saved c) (c_disk c).
Definition set_connected b (c : config) : config :=
  mkConfig (c_links c) (c_n c) (c_rafts c) b (c_saved c) (c_disk c).
Definition set_saved s (c : config) : config :=
  mkConfig (c_links c) (c_n c) (c_rafts c) (c_connected c) s (c_disk c).
Definition set_disk d (c : config) : config :=
  mkConfig (c_links c) (c_n c) (c_rafts c) (c_connected c) (c_saved c) d.

Definition on_links {A} (m : M links A) : M config A := fun c =>
  match m (c_links c) with
  | Done a l => Done a (set_links l c)
  | Panicked p l => Panicked p (set_links l c)
  | Blocked l => Blocked (set_links l c)
  end.
Definition on_disk {A} (m : M disk A) : M config A := fun c =>
  match m (c_disk c) with
  | Done a d => Done a (set_disk d c)
  | Panicked p d => Panicked p (set_disk d c)
  | Blocked d => Blocked (set_disk d c)
  end.

(** The network calls a server by its number. *)
Definition server_name (i : Z) : string := pretty i.

Definition connect (i : Z) : M config unit :=
  c ← gets (fun c => c);
  conn ← go_update (c_connected c) i true;
  modify (set_connected conn);;
  on_links (for_each (seqZ 0 (c_n c)) (fun j => b ← go_index conn j; when b (set_link true i j)));;
  on_links (for_each (seqZ 0 (c_n c)) (fun j => b ← go_index conn j; when b (set_link true j i))).

Definition disconnect (i : Z) : M config unit :=
  c ← gets (fun c => c);
  conn ← go_update (c_connected c) i false;
  modify (set_connected conn);;
  on_links (for_each (seqZ 0 (c_n c)) (fun j => b ← has_names i; when b (set_link false i j)));;
  on_links (for_each (seqZ 0 (c_n c)) (fun j => b ← has_names j; when b (set_link false j i))).

(** cfg.saved[i] = f(cfg.saved[i]) when it is not nil. *)
Definition renew_saved (i : Z) (renew : Z -> M disk Z) : M config unit :=
  c ← gets (fun c => c);
  o ← go_index (c_saved c) i;
  match o with
  | None => mret tt
  | Some a =>
      a' ← on_disk (renew a);
      sv ← go_update (c_saved c) i (Some a');
      modify (set_saved sv)
  end.

(** The last block of crash1. *)
Definition resave (a : Z) : M disk Z :=
  p ← read a;
  alloc (Save (ReadRaftState p) (ReadSnapshot p) MakePersister).

(** The instance is killed and forgotten. *)
Definition drop_raft (i : Z) : M config unit :=
  c ← gets (fun c => c);
  rf ← go_index (c_rafts c) i;
  match rf with
  | Some _ => rs ← go_update (c_rafts c) i None; modify (set_rafts rs)
  | None => mret tt
  end.

Definition crash1 (i : Z) : M config unit :=
  disconnect i;;
  on_links (on_l_net (DeleteServer (server_name i)));;
  renew_saved i copy_persister;;
  drop_raft i;;
  renew_saved i resave.

(** New ends, with the n random names [names], a new persister with what was
    saved, a new instance, a new server. *)
Definition launch (i : Z) (names : list string) : M config unit :=
  c ← gets (fun c => c);
  ns ← go_update (l_names (c_links c)) i (Some names);
  on_links (modify (set_l_names ns));;
  on_links (on_l_net (make_ends false server_name names));;
  c ← gets (fun c => c);
  o ← go_index (c_saved c) i;
  a ← match o with
      | Some a => on_disk (copy_persister a)
      | None => on_disk (alloc MakePersister)
      end;
  sv ← go_update (c_saved c) i (Some a);
  modify (set_saved sv);;
  k ← on_disk (new_instance a);
  rs ← go_update (c_rafts c) i (Some k);
  modify (set_rafts rs);;
  on_links (on_l_net (AddServer (server_name i) k)).

Definition start1 (i : Z) (names : list string) : M config unit := crash1 i;; launch i names.

(** The largest size of a saved state; a missing persister is a nil pointer. *)
Definition largest (size : Persister -> Z) : M config Z :=
  c ← gets (fun c => c);
  foldl (fun acc i => m ← acc;
    o ← go_index (c_saved c) i;
    match o with
    | None => throw NilDereference
    | Some a => p ← on_disk (read a); mret (if m <? size p then size p else m)
    end) (mret 0) (seqZ 0 (c_n c)).
Definition LogSize : M config Z := largest RaftStateSize.

Definition empty_config (n : Z) : config :=
  let k := Z.to_nat n in
  mkConfig (mkLinks MakeNetwork (replicate k None)) n (replicate k None) (replicate k false)
    (replicate k None) (mkDisk ∅ 0 []).

(** [names i] are the names for server [i]. *)
Definition make_config (n : Z) (unreliable : bool) (names : Z -> list string) : M config unit :=
  on_links (on_l_net (Reliable (negb unreliable)));;
  on_links (on_l_net (LongDelays true));;
  for_each (seqZ 0 n) (fun i => start1 i (names i));;
  for_each (seqZ 0 n) connect.

(** * The wires *)

(** cfg.connected[i] *)
Definition conn (c : config) (i : Z) : bool := default false (nthZ (c_connected c) i).

(** The wire from one server to another is on exactly when both are connected;
    it leads to the other; no two wires share an end; a server without ends is
    not connected. *)
Record wires_ok (c : config) : Prop := {
  wo_names : lenZ (l_names (c_links c)) = c_n c;
  wo_connected : lenZ (c_connected c) = c_n c;
  wo_rows : forall i row, nthZ (l_names (c_links c)) i = Some (Some row) -> lenZ row = c_n c;
  wo_distinct : distinct (l_names (c_links c));
  wo_ends : forall i j x, endname (l_names (c_links c)) i j = Some x ->
    is_Some (ends (l_net (c_links c)) !! x) /\ connection_of (l_net (c_links c)) x = Some (server_name j);
  wo_off : forall i, nthZ (l_names (c_links c)) i = Some None -> conn c i = false;
  wo_links : forall i j, 0 <= i < c_n c -> 0 <= j < c_n c ->
    link_on (c_links c) i j = conn c i && conn c j }.

Definition started (c : config) (i : Z) : Prop := exists row, nthZ (l_names (c_links c)) i = Some (Some row).

Lemma started_link c i j :
  wires_ok c -> started c i -> 0 <= j < c_n c -> is_Some (endname (l_names (c_links c)) i j).
Proof.
  intros Hw [row Hr] Hj. destruct (nthZ_in_range row j) as [x Hx]; [by rewrite (wo_rows _ Hw i row Hr)|].
  exists x. by eapply endname_row.
Qed.

Lemma row_of c i : wires_ok c -> 0 <= i < c_n c -> exists r, nthZ (l_names (c_links c)) i = Some r.
Proof. intros Hw Hi. apply nthZ_in_range. by rewrite (wo_names _ Hw). Qed.

Lemma conn_started c i : wires_ok c -> 0 <= i < c_n c -> conn c i = true -> started c i.
Proof.
  intros Hw Hi Hc. destruct (row_of c i Hw Hi) as [[row|] Hr]; [by exists row|].
  by rewrite (wo_off _ Hw i Hr) in Hc.
Qed.

Lemma conn_update c i b j :
  wires_ok c -> 0 <= i < c_n c ->
  conn (set_connected (<[Z.to_nat i := b]> (c_connected c)) c) j = if decide (i = j) then b else conn c j.
Proof.
  intros Hw Hi. pose proof (wo_connected _ Hw) as Hl. unfold conn. simpl.
  rewrite nthZ_insert by lia. by case_decide.
Qed.

Lemma on_links_switch c m tr :
  switches (l_names (c_links c)) m tr -> on_links m c = Done tt (set_links (put_links (c_links c) tr) c).
Proof. intros [_ H]. unfold on_links. by rewrite H. Qed.

(** What connect and disconnect switch. *)
Definition connect_tr (c : config) (i : Z) : list (Z * Z * bool) :=
  (seqZ 0 (c_n c) ≫= fun j => if conn c j then [(i, j, true)] else []) ++
  (seqZ 0 (c_n c) ≫= fun j => if conn c j then [(j, i, true)] else []).
Definition named (c : config) (i : Z) : bool :=
  match nthZ (l_names (c_links c)) i with Some (Some _) => true | _ => false end.
Definition disconnect_tr (c : config) (i : Z) : list (Z * Z * bool) :=
  (seqZ 0 (c_n c) ≫= fun j => if named c i then [(i, j, false)] else []) ++
  (seqZ 0 (c_n c) ≫= fun j => if named c j then [(j, i, false)] else []).

Lemma connect_tr_in c i a b v :
  (a, b, v) ∈ connect_tr c i <->
  v = true /\ ((a = i /\ 0 <= b < c_n c /\ conn c b = true) \/ (b = i /\ 0 <= a < c_n c /\ conn c a = true)).
Proof.
  unfold connect_tr. rewrite elem_of_app, !list_elem_of_bind. setoid_rewrite elem_of_seqZ. split.
  - intros [(j & Hin & Hj)|(j & Hin & Hj)]; destruct (conn c j) eqn:Hc; try (by apply elem_of_nil in Hin);
      apply list_elem_of_singleton in Hin; injection Hin as -> -> ->; split; [done|left|done|right];
      (split; [done|split; [lia|done]]).
  - intros [-> [(-> & Hb & Hc)|(-> & Ha & Hc)]]; [left; exists b|right; exists a]; rewrite Hc;
      (split; [apply list_elem_of_singleton; done|lia]).
Qed.

Lemma disconnect_tr_in c i a b v :
  (a, b, v) ∈ disconnect_tr c i <->
  v = false /\ named c a = true /\ ((a = i /\ 0 <= b < c_n c) \/ (b = i /\ 0 <= a < c_n c)).
Proof.
  unfold disconnect_tr. rewrite elem_of_app, !list_elem_of_bind. setoid_rewrite elem_of_seqZ. split.
  - intros [(j & Hin & Hj)|(j & Hin & Hj)]; [destruct (named c i) eqn:Hc|destruct (named c j) eqn:Hc];
      try (by apply elem_of_nil in Hin); apply list_elem_of_singleton in Hin; injection Hin as -> -> ->;
      (split; [done|split; [done|]]); [left|right]; (split; [done|lia]).
  - intros [-> [Hn [(-> & Hb)|(-> & Ha)]]]; [left; exists b|right; exists a]; rewrite Hn;
      (split; [apply list_elem_of_singleton; done|lia]).
Qed.

Lemma connect_run c i :
  wires_ok c -> 0 <= i < c_n c -> started c i ->
  let c1 := set_connected (<[Z.to_nat i := true]> (c_connected c)) c in
  Forall (fun s => is_Some (endname (l_names (c_links c)) (fst (fst s)) (snd (fst s)))) (connect_tr c1 i) /\
  connect i c = Done tt (set_links (put_links (c_links c) (connect_tr c1 i)) c1).
Proof.
  intros Hw Hi Hs c1.
  assert (forall j, 0 <= j < c_n c -> nthZ (c_connected c1) j = Some (conn c1 j)) as Hget.
  { intros j Hj. unfold conn. destruct (nthZ_in_range (c_connected c1) j) as [b Hb]; [|by rewrite Hb].
    unfold c1. simpl. rewrite length_insert. by rewrite (wo_connected _ Hw). }
  assert (forall j, 0 <= j < c_n c -> conn c1 j = true -> started c j) as Hst.
  { intros j Hj. unfold c1. rewrite conn_update by done. case_decide; [by subst|by apply conn_started]. }
  assert (switches (l_names (c_links c))
    (for_each (seqZ 0 (c_n c)) (fun j => b ← go_index (c_connected c1) j; when b (set_link true i j)))
    (seqZ 0 (c_n c) ≫= fun j => if conn c1 j then [(i, j, true)] else [])) as S1.
  { apply switches_for_each. intros j Hj%elem_of_seqZ. eapply switches_index; [apply Hget; lia|].
    apply switches_if, switches_link, started_link; [done..|lia]. }
  assert (switches (l_names (c_links c))
    (for_each (seqZ 0 (c_n c)) (fun j => b ← go_index (c_connected c1) j; when b (set_link true j i)))
    (seqZ 0 (c_n c) ≫= fun j => if conn c1 j then [(j, i, true)] else [])) as S2.
  { apply switches_for_each. intros j Hj%elem_of_seqZ. eapply switches_index; [apply Hget; lia|].
    destruct (conn c1 j) eqn:Hc; [|apply switches_none].
    apply switches_link, started_link; [done|apply Hst; [lia|done]|done]. }
  split; [apply Forall_app; split; [apply S1|apply S2]|].
  unfold connect. rewrite bind_gets.
  erewrite bind_done; [|apply go_update_ok; by rewrite (wo_connected _ Hw)]. rewrite bind_modify.
  change (<[Z.to_nat i := true]> (c_connected c)) with (c_connected c1). fold c1.
  change (set_connected (c_connected c1) c) with c1.
  erewrite bind_done; [|by apply on_links_switch; exact S1].
  erewrite on_links_switch; [|simpl; rewrite put_links_names; exact S2].
  simpl. unfold connect_tr, put_links. by rewrite foldl_app.
Qed.

Lemma disconnect_run c i :
  wires_ok c -> 0 <= i < c_n c ->
  let c1 := set_connected (<[Z.to_nat i := false]> (c_connected c)) c in
  Forall (fun s => is_Some (endname (l_names (c_links c)) (fst (fst s)) (snd (fst s)))) (disconnect_tr c1 i) /\
  disconnect i c = Done tt (set_links (put_links (c_links c) (disconnect_tr c1 i)) c1).
Proof.
  intros Hw Hi c1.
  assert (forall j, 0 <= j < c_n c -> exists row, nthZ (l_names (c_links c)) j = Some row /\
    named c1 j = match row with Some _ => true | None => false end /\ (named c1 j = true -> started c j)) as Hget.
  { intros j Hj. destruct (row_of c j Hw Hj) as [row Hr]. exists row. split; [done|]. unfold named, c1. simpl.
    rewrite Hr. split; [by destruct row|]. destruct row as [r|]; [|done]. by exists r. }
  assert (switches (l_names (c_links c))
    (for_each (seqZ 0 (c_n c)) (fun j => b ← has_names i; when b (set_link false i j)))
    (seqZ 0 (c_n c) ≫= fun j => if named c1 i then [(i, j, false)] else [])) as S1.
  { apply switches_for_each. intros j Hj%elem_of_seqZ. destruct (Hget i Hi) as (row & Hr & En & Hs).
    eapply switches_has_names; [exact Hr|]. rewrite <- En.
    destruct (named c1 i); [|apply switches_none]. apply switches_link, started_link; [done|auto|lia]. }
  assert (switches (l_names (c_links c))
    (for_each (seqZ 0 (c_n c)) (fun j => b ← has_names j; when b (set_link false j i)))
    (seqZ 0 (c_n c) ≫= fun j => if named c1 j then [(j, i, false)] else [])) as S2.
  { apply switches_for_each. intros j Hj%elem_of_seqZ. destruct (Hget j) as (row & Hr & En & Hs); [lia|].
    eapply switches_has_names; [exact Hr|]. rewrite <- En.
    destruct (named c1 j); [|apply switches_none]. apply switches_link, started_link; [done|auto|lia]. }
  split; [apply Forall_app; split; [apply S1|apply S2]|].
  unfold disconnect. rewrite bind_gets.
  erewrite bind_done; [|apply go_update_ok; by rewrite (wo_connected _ Hw)]. rewrite bind_modify. fold c1.
  erewrite bind_done; [|by apply on_links_switch; exact S1].
  erewrite on_links_switch; [|simpl; rewrite put_links_names; exact S2].
  simpl. unfold disconnect_tr, put_links. by rewrite foldl_app.
Qed.

(** A change of the wires and of the flag of [i] that leaves the rest alone. *)
Lemma rewire_ok c i b tr :
  wires_ok c -> 0 <= i < c_n c -> (b = true -> started c i) ->
  let c1 := set_connected (<[Z.to_nat i := b]> (c_connected c)) c in
  (forall a j, 0 <= a < c_n c -> 0 <= j < c_n c ->
     link_on (put_links (c_links c) tr) a j = conn c1 a && conn c1 j) ->
  wires_ok (set_links (put_links (c_links c) tr) c1).
Proof.
  intros Hw Hi Hb c1 Hl. pose proof (put_links_wiring (c_links c) tr) as Hwr.
  injection Hwr as He _ Hc _ _. split; simpl; rewrite ?put_links_names.
  - apply (wo_names _ Hw).
  - rewrite length_insert. apply (wo_connected _ Hw).
  - apply (wo_rows _ Hw).
  - apply (wo_distinct _ Hw).
  - intros a j x Hx. rewrite He. unfold connection_of. rewrite Hc. exact (wo_ends _ Hw a j x Hx).
  - intros a Ha. change (conn c1 a = false). unfold c1. rewrite conn_update by done.
    case_decide; [|by apply (wo_off _ Hw)]. subst a. destruct b; [|done].
    destruct (Hb eq_refl) as [row Hr]. congruence.
  - exact Hl.
Qed.

Lemma connect_ok c i :
  wires_ok c -> 0 <= i < c_n c -> started c i ->
  exists c', connect i c = Done tt c' /\ wires_ok c' /\ c_n c' = c_n c /\
    l_names (c_links c') = l_names (c_links c) /\
    (forall j, conn c' j = if decide (i = j) then true else conn c j) /\
    c_rafts c' = c_rafts c /\ c_saved c' = c_saved c /\ c_disk c' = c_disk c.
Proof.
  intros Hw Hi Hs. destruct (connect_run c i Hw Hi Hs) as [Hok E]. eexists. split; [exact E|].
  split; [|split; [done|split; [apply put_links_names|split; [intros j; exact (conn_update c i true j Hw Hi)|done]]]].
  apply rewire_ok; [done..|]. intros a j Ha Hj. set (c1 := set_connected _ c) in *.
  destruct (decide (conn c1 a && conn c1 j = true /\ (a = i \/ j = i))) as [[Hab Hai]|Hno].
  - rewrite Hab. apply andb_true_iff in Hab as [Hca Hcj]. eapply put_links_on; [apply (wo_distinct _ Hw)|done| |].
    + intros b' H. by apply connect_tr_in in H as [-> _].
    + apply connect_tr_in. split; [done|]. destruct Hai as [->| ->]; [by left|by right].
  - rewrite put_links_off; [|apply (wo_distinct _ Hw)|done|].
    + rewrite (wo_links _ Hw) by done. unfold c1 in *. rewrite !conn_update in * by done.
      destruct (decide (i = a)) as [Ea|Ea], (decide (i = j)) as [Ej|Ej]; try done; simpl in *.
      * destruct Hno. by auto.
      * destruct (conn c j); [destruct Hno; by auto|by rewrite andb_false_r].
      * destruct (conn c a); [destruct Hno; by auto|done].
    + intros b' [-> H]%connect_tr_in. apply Hno. assert (conn c1 i = true) as Hci
        by (unfold c1; rewrite conn_update by done; by rewrite decide_True).
      destruct H as [(-> & _ & Hc)|(-> & _ & Hc)]; rewrite Hci, Hc; auto.
Qed.

Lemma disconnect_ok c i :
  wires_ok c -> 0 <= i < c_n c ->
  exists c', disconnect i c = Done tt c' /\ wires_ok c' /\ c_n c' = c_n c /\
    l_names (c_links c') = l_names (c_links c) /\
    (forall j, conn c' j = if decide (i = j) then false else conn c j) /\
    wiring (l_net (c_links c')) = wiring (l_net (c_links c)) /\
    c_rafts c' = c_rafts c /\ c_saved c' = c_saved c /\ c_disk c' = c_disk c.
Proof.
  intros Hw Hi. destruct (disconnect_run c i Hw Hi) as [Hok E]. eexists. split; [exact E|].
  split; [|split; [done|split; [apply put_links_names|split; [intros j; exact (conn_update c i false j Hw Hi)|]]]];
    [|split; [apply put_links_wiring|done]].
  apply rewire_ok; [done..|]. intros a j Ha Hj. set (c1 := set_connected _ c) in *.
  destruct (decide (a = i \/ j = i)) as [Hai|Hno].
  - assert (conn c1 a && conn c1 j = false) as ->.
    { unfold c1. rewrite !conn_update by done. destruct Hai as [->| ->]; rewrite (decide_True (P := i = i)) by done;
        [done|by rewrite andb_false_r]. }
    destruct (named c1 a) eqn:Hn.
    + eapply put_links_on; [apply (wo_distinct _ Hw)|done| |].
      * intros b' H. by apply disconnect_tr_in in H as [-> _].
      * apply disconnect_tr_in. split; [done|]. split; [done|]. destruct Hai as [->| ->]; auto.
    + unfold link_on. rewrite put_links_names. unfold named, c1 in Hn. simpl in Hn.
      destruct (endname (l_names (c_links c)) a j) as [x|] eqn:Ex; [|done].
      apply endname_inv in Ex as (row & Hr & _). by rewrite Hr in Hn.
  - rewrite put_links_off; [|apply (wo_distinct _ Hw)|done|].
    + rewrite (wo_links _ Hw) by done. unfold c1. rewrite !conn_update by done. by rewrite !decide_False by naive_solver.
    + intros b' [_ [_ H]]%disconnect_tr_in. tauto.
Qed.

(** * The persisters *)

(** Every server has its own persister, and only its current instance writes to
    it. *)
Record disk_ok (c : config) : Prop := {
  do_saved : lenZ (c_saved c) = c_n c;
  do_rafts : lenZ (c_rafts c) = c_n c;
  do_mem : forall i a, nthZ (c_saved c) i = Some (Some a) -> is_Some (d_mem (c_disk c) !! a) /\ a < d_next (c_disk c);
  do_insts : forall k a, nthZ (d_insts (c_disk c)) k = Some a ->
    is_Some (d_mem (c_disk c) !! a) /\ a < d_next (c_disk c);
  do_own : forall i j a, nthZ (c_saved c) i = Some (Some a) -> nthZ (c_saved c) j = Some (Some a) -> i = j;
  do_share : forall k a i, nthZ (d_insts (c_disk c)) k = Some a -> nthZ (c_saved c) i = Some (Some a) ->
    nthZ (c_rafts c) i = Some (Some k) }.

(** What server [i] would restart with. *)
Definition content (c : config) (i : Z) : option Persister :=
  match nthZ (c_saved c) i with Some (Some a) => d_mem (c_disk c) !! a | _ => None end.

Definition grow (p : Persister) (d : disk) : disk :=
  mkDisk (<[d_next d := p]> (d_mem d)) (d_next d + 1) (d_insts d).

Lemma on_disk_done {A} (m : M disk A) c a d :
  m (c_disk c) = Done a d -> on_disk m c = Done a (set_disk d c).
Proof. intros E. unfold on_disk. by rewrite E. Qed.

Lemma copy_run a p d : d_mem d !! a = Some p -> copy_persister a d = Done (d_next d) (grow p d).
Proof.
  intros H. unfold copy_persister, read, alloc, mbind, M_bind, gets. rewrite H. unfold Copy. by destruct p.
Qed.

Lemma resave_run a p d : d_mem d !! a = Some p -> resave a d = Done (d_next d) (grow p d).
Proof.
  intros H. unfold resave, read, alloc, mbind, M_bind, gets. rewrite H.
  unfold mret, M_ret, modify, Save, ReadRaftState, ReadSnapshot. rewrite !clone_id. by destruct p.
Qed.

Definition renewed (i : Z) (p : Persister) (c : config) : config :=
  set_saved (<[Z.to_nat i := Some (d_next (c_disk c))]> (c_saved c)) (set_disk (grow p (c_disk c)) c).

Lemma renew_run c i a p f :
  nthZ (c_saved c) i = Some (Some a) -> f a (c_disk c) = Done (d_next (c_disk c)) (grow p (c_disk c)) ->
  renew_saved i f c = Done tt (renewed i p c).
Proof.
  intros Hs Hf. unfold renew_saved. rewrite bind_gets.
  rewrite (bind_done _ _ _ _ _ (go_index_ok _ _ _ _ Hs)).
  erewrite bind_done; [|by apply on_disk_done].
  erewrite bind_done; [|apply go_update_ok; by eapply nthZ_Some]. done.
Qed.

Lemma renew_none c i f : nthZ (c_saved c) i = Some None -> renew_saved i f c = Done tt c.
Proof.
  intros Hs. unfold renew_saved. rewrite bind_gets. by rewrite (bind_done _ _ _ _ _ (go_index_ok _ _ _ _ Hs)).
Qed.

Lemma renewed_content i p c j :
  disk_ok c -> 0 <= i < c_n c -> content c i = Some p -> content (renewed i p c) j = content c j.
Proof.
  intros Hd Hi Hp. unfold content, renewed. simpl. rewrite nthZ_insert by (by rewrite (do_saved _ Hd)).
  case_decide as E.
  - subst j. rewrite lookup_insert_eq. by unfold content in Hp.
  - destruct (nthZ (c_saved c) j) as [[a|]|] eqn:Ej; [|done..].
    destruct (do_mem _ Hd _ _ Ej) as [_ Ha]. by rewrite lookup_insert_ne by lia.
Qed.

(** A server gets a new persister, or none, and no instance. *)
Lemma fresh_disk_ok c c' i o :
  disk_ok c -> 0 <= i < c_n c -> c_n c' = c_n c ->
  c_saved c' = <[Z.to_nat i := o]> (c_saved c) -> c_rafts c' = <[Z.to_nat i := None]> (c_rafts c) ->
  d_insts (c_disk c') = d_insts (c_disk c) ->
  (forall a, is_Some (d_mem (c_disk c) !! a) -> is_Some (d_mem (c_disk c') !! a)) ->
  d_next (c_disk c) <= d_next (c_disk c') ->
  (forall a, o = Some a -> d_next (c_disk c) <= a < d_next (c_disk c') /\ is_Some (d_mem (c_disk c') !! a)) ->
  disk_ok c'.
Proof.
  intros Hd Hi En Es Er Ei Hm Hn Ho. pose proof (do_saved _ Hd) as Hls. pose proof (do_rafts _ Hd) as Hlr.
  assert (forall j a, nthZ (c_saved c') j = Some (Some a) ->
    (j = i /\ o = Some a) \/ (j <> i /\ nthZ (c_saved c) j = Some (Some a))) as Hsv.
  { intros j a. rewrite Es, nthZ_insert by lia. case_decide as E; [|by right].
    intros [= ->]. by left. }
  split; rewrite ?En.
  - by rewrite Es, length_insert.
  - by rewrite Er, length_insert.
  - intros j a [[-> Ha]|[_ Ha]]%Hsv; [destruct (Ho _ Ha); split; [done|lia]|].
    destruct (do_mem _ Hd _ _ Ha). split; [auto|lia].
  - intros k a. rewrite Ei. intros Ha. destruct (do_insts _ Hd _ _ Ha). split; [auto|lia].
  - intros j j' a [[-> Ha]|[Hj Ha]]%Hsv [[-> Ha']|[Hj' Ha']]%Hsv; [done|..].
    + destruct (Ho _ Ha), (do_mem _ Hd _ _ Ha'). lia.
    + destruct (Ho _ Ha'), (do_mem _ Hd _ _ Ha). lia.
    + by eapply (do_own _ Hd).
  - intros k a j. rewrite Ei. intros Hk [[-> Ha]|[Hj Ha]]%Hsv.
    + destruct (do_insts _ Hd _ _ Hk), (Ho _ Ha). lia.
    + rewrite Er, nthZ_insert by lia. rewrite decide_False by done. by eapply (do_share _ Hd).
Qed.

(** * Crashing and starting *)

Definition config_ok (c : config) : Prop := wires_ok c /\ disk_ok c.

(** Changes that the wires do not see. *)
Lemma wires_frame c c' :
  wires_ok c -> c_n c' = c_n c -> c_connected c' = c_connected c ->
  l_names (c_links c') = l_names (c_links c) ->
  ends (l_net (c_links c')) = ends (l_net (c_links c)) ->
  enabled (l_net (c_links c')) = enabled (l_net (c_links c)) ->
  connections (l_net (c_links c')) = connections (l_net (c_links c)) -> wires_ok c'.
Proof.
  intros [W1 W2 W3 W4 W5 W6 W7] En Ec Ens Ee Een Eco.
  assert (forall i, conn c' i = conn c i) as Hc by (intros i; unfold conn; by rewrite Ec).
  split; rewrite ?En, ?Ec, ?Ens; try done.
  - intros i j x Hx. rewrite Ee. unfold connection_of. rewrite Eco. exact (W5 i j x Hx).
  - intros i Hi. rewrite Hc. by apply W6.
  - intros i j Hi Hj. rewrite !Hc, <- W7 by done. unfold link_on, is_enabled. by rewrite Ens, Een.
Qed.

Lemma drop_raft_run c i :
  0 <= i < lenZ (c_rafts c) -> drop_raft i c = Done tt (set_rafts (<[Z.to_nat i := None]> (c_rafts c)) c).
Proof.
  intros Hi. destruct (nthZ_in_range (c_rafts c) i Hi) as [rf Hrf]. unfold drop_raft. rewrite bind_gets.
  erewrite bind_done; [|by apply go_index_ok]. destruct rf as [k|].
  - by erewrite bind_done; [|by apply go_update_ok].
  - rewrite list_insert_id; [by destruct c|]. by rewrite nthZ_nat in Hrf by lia.
Qed.

(** What crash1 does to the persisters: [o] is the server's new one. *)
Record crashed (c : config) (i : Z) (o : option Z) (c' : config) : Prop := {
  cr_disk : disk_ok c';
  cr_links : c_links c' = c_links c;
  cr_n : c_n c' = c_n c;
  cr_connected : c_connected c' = c_connected c;
  cr_saved : c_saved c' = <[Z.to_nat i := o]> (c_saved c);
  cr_rafts : c_rafts c' = <[Z.to_nat i := None]> (c_rafts c);
  cr_insts : d_insts (c_disk c') = d_insts (c_disk c);
  cr_content : forall j, content c' j = content c j }.

(** Two new persisters in a row, with the instance gone. *)
Lemma twice_renewed c i a p :
  disk_ok c -> 0 <= i < c_n c -> nthZ (c_saved c) i = Some (Some a) -> d_mem (c_disk c) !! a = Some p ->
  crashed c i (Some (d_next (c_disk c) + 1))
    (renewed i p (set_rafts (<[Z.to_nat i := None]> (c_rafts c)) (renewed i p c))).
Proof.
  intros Hd Hi Hs Hp. pose proof (do_saved _ Hd) as Hls. split; [|done|done|done| |done|done|].
  - eapply (fresh_disk_ok c _ i (Some (d_next (c_disk c) + 1))); [done..|simpl|simpl|done| |simpl; lia|].
    + by rewrite list_insert_insert_eq.
    + done.
    + intros x Hx. simpl. rewrite !lookup_insert. repeat case_decide; by eauto.
    + intros x [= <-]. simpl. split; [lia|]. rewrite lookup_insert_eq. by eexists.
  - simpl. by rewrite list_insert_insert_eq.
  - intros j. unfold content. simpl. rewrite list_insert_insert_eq, nthZ_insert by lia. case_decide as E.
    + subst j. rewrite lookup_insert_eq. by rewrite Hs.
    + destruct (nthZ (c_saved c) j) as [[x|]|] eqn:Ej; [|done..].
      destruct (do_mem _ Hd _ _ Ej) as [_ Hx]. by rewrite !lookup_insert_ne by lia.
Qed.

Lemma crash_disk c i :
  disk_ok c -> 0 <= i < c_n c ->
  exists c' o, (renew_saved i copy_persister;; drop_raft i;; renew_saved i resave) c = Done tt c' /\
    crashed c i o c'.
Proof.
  intros Hd Hi. pose proof (do_saved _ Hd) as Hls. pose proof (do_rafts _ Hd) as Hlr.
  destruct (nthZ_in_range (c_saved c) i) as [[a|] Hs]; [lia| |].
  - destruct (do_mem _ Hd _ _ Hs) as [[p Hp] Ha].
    eexists _, _. split; [|by apply (twice_renewed c i a p)].
    erewrite bind_done; [|by eapply renew_run; [exact Hs|apply copy_run]].
    erewrite bind_done; [|apply drop_raft_run; simpl; lia].
    eapply renew_run; [simpl; rewrite nthZ_insert by lia; by rewrite decide_True|].
    apply resave_run. simpl. apply lookup_insert_eq.
  - eexists _, None. split.
    { erewrite bind_done; [|by apply renew_none]. erewrite bind_done; [|apply drop_raft_run; lia].
      by apply renew_none. }
    assert (c_saved c = <[Z.to_nat i := None]> (c_saved c)) as Es.
    { symmetry. apply list_insert_id. by rewrite nthZ_nat in Hs by lia. }
    split; try done. eapply (fresh_disk_ok c _ i None); try done; simpl; lia.
Qed.

Lemma crash1_run c i :
  config_ok c -> 0 <= i < c_n c ->
  exists c', crash1 i c = Done tt c' /\ config_ok c' /\ c_n c' = c_n c /\
    l_names (c_links c') = l_names (c_links c) /\ ends (l_net (c_links c')) = ends (l_net (c_links c)) /\
    (forall j, conn c' j = if decide (i = j) then false else conn c j) /\
    server_of (l_net (c_links c')) (server_name i) = None /\
    c_rafts c' = <[Z.to_nat i := None]> (c_rafts c) /\ d_insts (c_disk c') = d_insts (c_disk c) /\
    forall j, content c' j = content c j.
Proof.
  intros [Hw Hd] Hi. destruct (disconnect_ok c i Hw Hi) as (c1 & E1 & W1 & N1 & L1 & C1 & R1 & F1 & F2 & F3).
  injection R1 as Re _ _ _ _.
  set (c2 := set_links (set_l_net (set_servers (<[server_name i := None]> (servers (l_net (c_links c1))))
    (l_net (c_links c1))) (c_links c1)) c1).
  assert (disk_ok c2) as Hd2.
  { destruct Hd. split; simpl; rewrite ?F1, ?F2, ?F3, ?N1; done. }
  destruct (crash_disk c2 i Hd2) as (c3 & o & E3 & [K1 K2 K3 K4 K5 K6 K7 K8]); [simpl; by rewrite N1|].
  exists c3. split.
  { unfold crash1. rewrite (bind_done _ _ _ _ _ E1). erewrite bind_done; [exact E3|]. done. }
  split; [split; [|done]|].
  - eapply (wires_frame c1); [done|by rewrite K3|by rewrite K4|by rewrite K2..].
  - rewrite K3, K2, K6, K7. simpl. split; [done|]. split; [done|]. split; [done|].
    split; [intros j; unfold conn; rewrite K4; apply C1|].
    split; [unfold server_of; simpl; by rewrite lookup_insert_eq|].
    split; [by rewrite F1|]. split; [by rewrite F3|]. intros j. rewrite K8.
    unfold content. simpl. by rewrite F2, F3.
Qed.

Lemma nthZ_elem {A} (l : list A) j x : nthZ l j = Some x -> x ∈ l.
Proof. unfold nthZ. case_decide; [|done]. apply list_elem_of_lookup_2. Qed.

(** New ends for a server that is not connected. *)
Lemma rename_wires c i names net' c' :
  wires_ok c -> 0 <= i < c_n c -> conn c i = false -> lenZ names = c_n c -> NoDup names ->
  (forall x, x ∈ names -> ends (l_net (c_links c)) !! x = None) ->
  ends_made false names (l_net (c_links c)) net' ->
  (forall (j : nat) x, names !! j = Some x -> connection_of net' x = Some (server_name (Z.of_nat j))) ->
  c_links c' = mkLinks net' (<[Z.to_nat i := Some names]> (l_names (c_links c))) ->
  c_n c' = c_n c -> c_connected c' = c_connected c ->
  wires_ok c' /\ started c' i.
Proof.
  intros Hw Hi Hoff Hlen Hnd Hfresh Hm Hconn El En Ec. pose proof (wo_names _ Hw) as Hln.
  assert (forall a j x, endname (l_names (c_links c)) a j = Some x -> x ∉ names) as Hold.
  { intros a j x Hx Hin. destruct (wo_ends _ Hw _ _ _ Hx) as [[e He] _]. by rewrite Hfresh in He. }
  assert (forall a, conn c' a = conn c a) as Hc by (intros a; unfold conn; by rewrite Ec).
  assert (0 <= i < lenZ (l_names (c_links c))) as Hi' by lia.
  split; [split|exists names]; rewrite ?El, ?En, ?Ec; simpl.
  - by rewrite length_insert.
  - apply (wo_connected _ Hw).
  - intros a row. rewrite nthZ_insert by done. case_decide; [intros [= <-]; done|apply (wo_rows _ Hw)].
  - apply distinct_insert; [done|apply (wo_distinct _ Hw)|done|done].
  - intros a j x. rewrite endname_insert by done. rewrite (em_ends _ _ _ _ Hm).
    intros [[-> Hx]|[_ Hx]].
    + split; [right; by eapply nthZ_elem|]. unfold nthZ in Hx. case_decide; [|done].
      rewrite (Hconn _ _ Hx). do 2 f_equal. lia.
    + destruct (wo_ends _ Hw _ _ _ Hx) as [He Hcx]. split; [by left|].
      rewrite (em_other _ _ _ _ Hm); [done|by eapply Hold].
  - intros a. rewrite nthZ_insert by done. rewrite Hc. case_decide; [done|apply (wo_off _ Hw)].
  - intros a j Ha Hj. rewrite !Hc, <- (wo_links _ Hw) by done. unfold link_on. simpl.
    destruct (decide (a = i)) as [->|Hne].
    + destruct (nthZ_in_range names j) as [x Hx]; [lia|].
      assert (endname (<[Z.to_nat i := Some names]> (l_names (c_links c))) i j = Some x) as ->
        by (apply endname_insert; [done|by left]).
      rewrite (em_enabled _ _ _ _ Hm), decide_True by (by eapply nthZ_elem).
      symmetry. fold (link_on (c_links c) i j). rewrite (wo_links _ Hw), Hoff by done. done.
    + assert (endname (<[Z.to_nat i := Some names]> (l_names (c_links c))) a j
        = endname (l_names (c_links c)) a j) as ->.
      { unfold endname. rewrite nthZ_insert by done. by rewrite decide_False by done. }
      destruct (endname (l_names (c_links c)) a j) as [x|] eqn:Ex; [|done].
      rewrite (em_enabled _ _ _ _ Hm), decide_False; [done|by eapply Hold].
  - rewrite nthZ_insert by done. by rewrite decide_True.
Qed.

(** A new instance with a new persister. *)
Lemma instance_disk_ok c c' i p :
  disk_ok c -> 0 <= i < c_n c -> c_n c' = c_n c ->
  c_saved c' = <[Z.to_nat i := Some (d_next (c_disk c))]> (c_saved c) ->
  c_rafts c' = <[Z.to_nat i := Some (lenZ (d_insts (c_disk c)))]> (c_rafts c) ->
  c_disk c' = mkDisk (<[d_next (c_disk c) := p]> (d_mem (c_disk c))) (d_next (c_disk c) + 1)
    (d_insts (c_disk c) ++ [d_next (c_disk c)]) ->
  (forall k, nthZ (c_rafts c) i <> Some (Some k)) -> disk_ok c'.
Proof.
  intros Hd Hi En Es Er Ed Hno. pose proof (do_saved _ Hd) as Hls. pose proof (do_rafts _ Hd) as Hlr.
  set (q := d_next (c_disk c)) in *.
  assert (forall j a, nthZ (c_saved c') j = Some (Some a) ->
    (j = i /\ a = q) \/ (j <> i /\ nthZ (c_saved c) j = Some (Some a) /\ a < q)) as Hsv.
  { intros j a. rewrite Es, nthZ_insert by lia. case_decide as E.
    - intros [= <-]. by left.
    - intros H. right. split; [done|]. split; [done|]. by apply (do_mem _ Hd) in H as [_ ?]. }
  assert (forall k a, nthZ (d_insts (c_disk c')) k = Some a ->
    (k = lenZ (d_insts (c_disk c)) /\ a = q) \/ (nthZ (d_insts (c_disk c)) k = Some a /\ a < q)) as Hin.
  { intros k a. rewrite Ed. simpl. intros H. destruct (decide (k < lenZ (d_insts (c_disk c)))).
    - rewrite nthZ_app_l in H by done. right. split; [done|]. by apply (do_insts _ Hd) in H as [_ ?].
    - pose proof (nthZ_Some _ _ _ H) as Hk. rewrite length_app in Hk. simpl in Hk.
      replace k with (lenZ (d_insts (c_disk c))) in * by lia. rewrite nthZ_last in H. injection H as <-. by left. }
  split; rewrite ?En.
  - by rewrite Es, length_insert.
  - by rewrite Er, length_insert.
  - intros j a [[-> ->]|[_ [Ha Hq]]]%Hsv; rewrite Ed; simpl; (split; [|lia]); [rewrite lookup_insert_eq; by eexists|].
    rewrite lookup_insert_ne by lia. by apply (do_mem _ Hd) in Ha as [? _].
  - intros k a [[-> ->]|[Ha Hq]]%Hin; rewrite Ed; simpl; (split; [|lia]); [rewrite lookup_insert_eq; by eexists|].
    rewrite lookup_insert_ne by lia. by apply (do_insts _ Hd) in Ha as [? _].
  - intros j j' a [[-> ->]|[Hj [Ha Hq]]]%Hsv [[-> E]|[Hj' [Ha' Hq']]]%Hsv; try lia.
    by eapply (do_own _ Hd).
  - intros k a j [[-> ->]|[Hk Hkq]]%Hin [[-> E]|[Hj [Ha Hq]]]%Hsv; try lia;
      rewrite Er, nthZ_insert by lia.
    + by rewrite decide_True.
    + rewrite decide_False by done. by eapply (do_share _ Hd).
Qed.

Lemma on_links_done {A} (m : M links A) c a l :
  m (c_links c) = Done a l -> on_links m c = Done a (set_links l c).
Proof. intros E. unfold on_links. by rewrite E. Qed.

Lemma on_l_net_done {A} (m : M Network A) l a n :
  m (l_net l) = Done a n -> on_l_net m l = Done a (set_l_net n l).
Proof. intros E. unfold on_l_net. by rewrite E. Qed.

Lemma launch_run c i names :
  config_ok c -> 0 <= i < c_n c -> conn c i = false -> nthZ (c_rafts c) i = Some None ->
  lenZ names = c_n c -> NoDup names -> (forall x, x ∈ names -> ends (l_net (c_links c)) !! x = None) ->
  exists c' k, launch i names c = Done tt c' /\
    config_ok c' /\ started c' i /\ c_n c' = c_n c /\ nthZ (c_rafts c') i = Some (Some k) /\
    server_of (l_net (c_links c')) (server_name i) = Some k /\
    content c' i = Some (default MakePersister (content c i)).
Proof.
  intros [Hw Hd] Hi Hoff Hnone Hlen Hnd Hfresh.
  pose proof (wo_names _ Hw) as Hln. pose proof (do_saved _ Hd) as Hls. pose proof (do_rafts _ Hd) as Hlr.
  destruct (make_ends_run false server_name names (l_net (c_links c)) Hnd Hfresh) as (net' & Em & Hm & Hconn).
  destruct (nthZ_in_range (c_saved c) i) as [o Ho]; [lia|].
  set (p := default MakePersister (content c i)). set (q := d_next (c_disk c)).
  set (k := lenZ (d_insts (c_disk c))).
  set (l' := mkLinks net' (<[Z.to_nat i := Some names]> (l_names (c_links c)))).
  set (c1 := set_links l' c).
  assert ((match o with
         | Some a => on_disk (copy_persister a)
         | None => on_disk (alloc MakePersister)
         end) c1 = Done q (set_disk (grow p (c_disk c)) c1)) as Ea.
  { unfold p, content. rewrite Ho. destruct o as [a|]; apply on_disk_done; [|done].
    destruct (do_mem _ Hd _ _ Ho) as [[p' Hp'] _]. rewrite Hp'. by apply copy_run. }
  set (c' := mkConfig (set_l_net (set_servers (<[server_name i := Some k]> (servers net')) net') l')
    (c_n c) (<[Z.to_nat i := Some k]> (c_rafts c)) (c_connected c) (<[Z.to_nat i := Some q]> (c_saved c))
    (mkDisk (<[q := p]> (d_mem (c_disk c))) (q + 1) (d_insts (c_disk c) ++ [q]))).
  exists c', k. split.
  { unfold launch. rewrite bind_gets. erewrite bind_done; [|apply go_update_ok; lia].
    erewrite bind_done; [|by apply on_links_done].
    erewrite bind_done; [|apply on_links_done, on_l_net_done; exact Em].
    rewrite bind_gets. erewrite bind_done; [|apply go_index_ok; exact Ho].
    erewrite bind_done; [|exact Ea]. erewrite bind_done; [|apply go_update_ok; simpl; lia].
    rewrite bind_modify. erewrite bind_done; [|by apply on_disk_done].
    erewrite bind_done; [|apply go_update_ok; simpl; lia]. rewrite bind_modify. reflexivity. }
  destruct (rename_wires c i names net' c1) as [Hw1 Hs1]; try done.
  split; [split|].
  - by eapply (wires_frame c1).
  - eapply (instance_disk_ok c c' i p); try done. intros k'. by rewrite Hnone.
  - split; [exact Hs1|]. split; [done|]. simpl. split; [rewrite nthZ_insert by lia; by rewrite decide_True|].
    split; [unfold server_of; simpl; by rewrite lookup_insert_eq|].
    unfold content at 1. simpl. rewrite nthZ_insert by lia. rewrite decide_True by done. apply lookup_insert_eq.
Qed.

Lemma start1_run c i names :
  config_ok c -> 0 <= i < c_n c -> lenZ names = c_n c -> NoDup names ->
  (forall x, x ∈ names -> ends (l_net (c_links c)) !! x = None) ->
  exists c' k, start1 i names c = Done tt c' /\ config_ok c' /\ started c' i /\ c_n c' = c_n c /\
    nthZ (c_rafts c') i = Some (Some k) /\ server_of (l_net (c_links c')) (server_name i) = Some k /\
    content c' i = Some (default MakePersister (content c i)).
Proof.
  intros Hok Hi Hlen Hnd Hfresh.
  destruct (crash1_run c i Hok Hi) as (c1 & E1 & Hok1 & N1 & L1 & En1 & C1 & S1 & R1 & I1 & K1).
  destruct (launch_run c1 i names Hok1) as (c' & k & E & H1 & H2 & H3 & H4 & H5 & H6).
  - by rewrite N1.
  - rewrite C1. by rewrite decide_True.
  - rewrite R1, nthZ_insert by (rewrite (do_rafts _ (proj2 Hok)); lia). by rewrite decide_True.
  - by rewrite N1.
  - done.
  - rewrite En1. done.
  - exists c', k. split; [|rewrite <- N1, <- (K1 i); done].
    unfold start1. rewrite (bind_done _ _ _ _ _ E1). exact E.
Qed.

(** launch stops the test when a name is taken. *)
Lemma launch_fresh c i names c' :
  launch i names c = Done tt c' ->
  NoDup names /\ forall x, x ∈ names -> ends (l_net (c_links c)) !! x = None.
Proof.
  intros E. unfold launch in E. rewrite bind_gets in E.
  apply bind_inv in E as (ns & c2 & E2 & E). unfold go_update in E2.
  destruct (nthZ (l_names (c_links c)) i); [|done]. injection E2 as <- <-.
  rewrite (bind_done _ _ _ tt (set_links (set_l_names (<[Z.to_nat i := Some names]> (l_names (c_links c)))
    (c_links c)) c)) in E by done.
  apply bind_inv in E as ([] & c3 & E3 & _). unfold on_links, on_l_net in E3. simpl in E3.
  destruct (make_ends false server_name names (l_net (c_links c))) as [[] n'| |] eqn:Em; [|done..].
  by eapply make_ends_inv.
Qed.

Lemma start1_fresh c i names c' :
  config_ok c -> 0 <= i < c_n c -> start1 i names c = Done tt c' ->
  NoDup names /\ forall x, x ∈ names -> ends (l_net (c_links c)) !! x = None.
Proof.
  intros Hok Hi E. destruct (crash1_run c i Hok Hi) as (c1 & E1 & Hok1 & N1 & L1 & En1 & _).
  unfold start1 in E. rewrite (bind_done _ _ _ _ _ E1) in E. rewrite <- En1. by eapply launch_fresh.
Qed.

(** * Runs of a test *)

Inductive config_step : config -> config -> Prop :=
  | st_connect i c c' : 0 <= i < c_n c -> started c i -> connect i c = Done tt c' -> config_step c c'
  | st_disconnect i c c' : 0 <= i < c_n c -> disconnect i c = Done tt c' -> config_step c c'
  | st_crash i c c' : 0 <= i < c_n c -> crash1 i c = Done tt c' -> config_step c c'
  | st_start i names c c' :
      0 <= i < c_n c -> lenZ names = c_n c -> start1 i names c = Done tt c' -> config_step c c'
  | st_save k state sn c c' : on_disk (instance_saves k state sn) c = Done tt c' -> config_step c c'.

Lemma empty_ok n : 0 <= n -> config_ok (empty_config n).
Proof.
  intros Hn. assert (forall A (x : A) i y, nthZ (replicate (Z.to_nat n) x) i = Some y -> y = x) as Hr.
  { intros A x i y. unfold nthZ. case_decide; [|done]. by intros [-> _]%lookup_replicate. }
  assert (forall i j x, endname (replicate (Z.to_nat n) None) i j <> Some x) as He.
  { intros i j x Hx. apply endname_inv in Hx as (row & Hrow & _). by apply Hr in Hrow. }
  split; split; simpl; rewrite ?length_replicate; try lia.
  - intros i row H. by apply Hr in H.
  - intros i j i' j' x H. by apply He in H.
  - intros i j x H. by apply He in H.
  - intros i _. unfold conn. simpl. destruct (nthZ _ i) as [b|] eqn:E; [|done]. by apply Hr in E.
  - intros i j _ _. unfold link_on, conn. simpl.
    destruct (endname _ i j) as [x|] eqn:E; [by apply He in E|].
    destruct (nthZ (replicate (Z.to_nat n) false) i) as [b|] eqn:Eb; [|done]. by apply Hr in Eb as ->.
  - intros i a H. by apply Hr in H.
  - intros k a H. apply nthZ_Some in H. simpl in H. lia.
  - intros i j a H. by apply Hr in H.
  - intros k a i H. apply nthZ_Some in H. simpl in H. lia.
Qed.

Lemma instance_saves_inv k state sn d d' :
  instance_saves k state sn d = Done tt d' ->
  exists a p, nthZ (d_insts d) k = Some a /\ d_mem d !! a = Some p /\
    d' = mkDisk (<[a := Save state sn p]> (d_mem d)) (d_next d) (d_insts d).
Proof.
  unfold instance_saves, read, mbind, M_bind, gets, go_index. intros E.
  destruct (nthZ (d_insts d) k) as [a|] eqn:Ha; [|done]. unfold mret, M_ret in E.
  destruct (d_mem d !! a) as [p|] eqn:Hp; [|done]. injection E as <-. by exists a, p.
Qed.

Lemma save_ok c k state sn d' :
  config_ok c -> instance_saves k state sn (c_disk c) = Done tt d' -> config_ok (set_disk d' c).
Proof.
  intros [Hw Hd] (a & p & Ha & Hp & ->)%instance_saves_inv. split; [by eapply wires_frame|].
  destruct Hd as [D1 D2 D3 D4 D5 D6].
  assert (forall x, is_Some (d_mem (c_disk c) !! x) -> is_Some (<[a := Save state sn p]> (d_mem (c_disk c)) !! x)) as Hg.
  { intros x H. rewrite lookup_insert. by case_decide; eauto. }
  split; simpl; try done.
  - intros i x H. destruct (D3 _ _ H). auto.
  - intros i x H. destruct (D4 _ _ H). auto.
Qed.

Lemma config_step_ok c c' : config_ok c -> config_step c c' -> config_ok c' /\ c_n c' = c_n c.
Proof.
  intros Hok Hst. destruct Hst as [i c c' Hi Hs E|i c c' Hi E|i c c' Hi E|i names c c' Hi Hl E|k state sn c c' E].
  - destruct (connect_ok _ i (proj1 Hok) Hi Hs) as (c1 & E1 & W & N & _ & _ & R & S & D).
    rewrite E in E1. injection E1 as <-. split; [|done]. split; [done|].
    destruct Hok as [_ [D1 D2 D3 D4 D5 D6]]. split; rewrite ?N, ?R, ?S, ?D; done.
  - destruct (disconnect_ok _ i (proj1 Hok) Hi) as (c1 & E1 & W & N & _ & _ & _ & R & S & D).
    rewrite E in E1. injection E1 as <-. split; [|done]. split; [done|].
    destruct Hok as [_ [D1 D2 D3 D4 D5 D6]]. split; rewrite ?N, ?R, ?S, ?D; done.
  - destruct (crash1_run _ i Hok Hi) as (c1 & E1 & Hok1 & N & _). rewrite E in E1. by injection E1 as <-.
  - destruct (start1_fresh _ _ _ _ Hok Hi E) as [Hnd Hf].
    destruct (start1_run _ i names Hok Hi Hl Hnd Hf) as (c1 & k & E1 & Hok1 & _ & N & _).
    rewrite E in E1. by injection E1 as <-.
  - unfold on_disk in E. destruct (instance_saves k state sn (c_disk c)) as [[] d'| |] eqn:Es; [|done..].
    injection E as <-. split; [by eapply save_ok|done].
Qed.

Lemma config_reachable n c :
  0 <= n -> rtc config_step (empty_config n) c -> config_ok c /\ c_n c = n.
Proof.
  intros Hn. revert c. apply (rtc_ind_r (fun c => config_ok c /\ c_n c = n) (empty_config n)).
  - split; [by apply empty_ok|done].
  - intros c c' _ Hs [Hok N]. destruct (config_step_ok _ _ Hok Hs) as [Hok' N']. split; [done|lia].
Qed.

(** * Theorems *)

(** In every test, whatever servers it starts, crashes, connects and disconnects,
    and in whatever order: the wire from one server to another is on exactly when
    both are connected, it leads to that other server, and no two wires share an
    end, so that switching one never touches another. *)
Theorem test_wires n c :
  0 <= n -> rtc config_step (empty_config n) c ->
  (forall i j, 0 <= i < n -> 0 <= j < n -> link_on (c_links c) i j = conn c i && conn c j) /\
  distinct (l_names (c_links c)) /\
  forall i j x, endname (l_names (c_links c)) i j = Some x ->
    connection_of (l_net (c_links c)) x = Some (server_name j).
Proof.
  intros Hn Hr. destruct (config_reachable n c Hn Hr) as [[Hw _] N]. split; [|split].
  - intros i j Hi Hj. apply (wo_links _ Hw); by rewrite N.
  - apply (wo_distinct _ Hw).
  - intros i j x Hx. by apply (wo_ends _ Hw i j x).
Qed.


(** ** Instances *)

Inductive op : Type := OStart (i : Z) (names : list string) | OConnect (i : Z) | ODisconnect (i : Z) | OCrash (i : Z).

Definition op_run (o : op) : M config unit :=
  match o with
  | OStart i names => start1 i names
  | OConnect i => connect i
  | ODisconnect i => disconnect i
  | OCrash i => crash1 i
  end.
Definition op_legal (o : op) (c : config) : bool :=
  match o with
  | OStart i names => bool_decide (0 <= i < c_n c) && (lenZ names =? c_n c)
  | OConnect i => bool_decide (0 <= i < c_n c) && named c i
  | ODisconnect i | OCrash i => bool_decide (0 <= i < c_n c)
  end.
Fixpoint ops_run (l : list op) (c : config) : option config :=
  match l with
  | [] => Some c
  | o :: l => if op_legal o c then match op_run o c with Done _ c' => ops_run l c' | _ => None end else None
  end.

Lemma ops_steps l c c' : ops_run l c = Some c' -> rtc config_step c c'.
Proof.
  revert c. induction l as [|o l IH]; cbn [ops_run]; intros c E; [by injection E as <-|].
  destruct (op_legal o c) eqn:Hl; [|done]. destruct (op_run o c) as [[] c1| |] eqn:E1; try done.
  eapply rtc_l; [|by apply IH]. destruct o; simpl in Hl, E1.
  - apply andb_true_iff in Hl as [Hi%bool_decide_eq_true Hn%Z.eqb_eq]. by eapply st_start.
  - apply andb_true_iff in Hl as [Hi%bool_decide_eq_true Hn]. eapply st_connect; [done| |done].
    unfold named in Hn. destruct (nthZ _ i) as [[row|]|] eqn:Er; try done. by exists row.
  - apply bool_decide_eq_true in Hl. by eapply st_disconnect.
  - apply bool_decide_eq_true in Hl. by eapply st_crash.
Qed.

(** Two servers; the second crashes and restarts. *)
Definition demo_ops : list op :=
  [OStart 0 ["a"; "b"]; OStart 1 ["c"; "d"]; OConnect 0; OConnect 1; OCrash 1; OStart 1 ["e"; "f"]]%string.
Definition demo_config : config := default (empty_config 2) (ops_run demo_ops (empty_config 2)).

Lemma demo_reachable : rtc config_step (empty_config 2) demo_config.
Proof. apply (ops_steps demo_ops). vm_compute. reflexivity. Qed.

Lemma test_wires_witness :
  link_on (c_links demo_config) 0 1 = conn demo_config 0 && conn demo_config 1 /\
  connection_of (l_net (c_links demo_config)) "f" = Some (server_name 1).
Proof.
  destruct (test_wires 2 demo_config) as (H1 & _ & H3); [lia|exact demo_reachable|].
  split; [apply H1; lia|]. apply (H3 1 1). vm_compute. reflexivity.
Defined.

