(* ===== verification/KvConfig.v ===== *)
(** The servers and clerks of a key/value test (kvraft/config.go), and those of
    a shard controller test (shardctrler/config.go), which repeats its text.

    The servers, persisters and wires are those of a Raft test, with the
    instances of the key/value server in the place of the rafts; the flags of
    connected servers are not used here.  Random names and choices are
    arguments.  A clerk is a number. *)

From S2P Require Import Prelude Network Links RaftTypes Persist RaftConfig.

Record kvconfig := mkKC { k_base : config; k_clerks : gmap Z (list string); k_nextClientId : Z }.

Definition set_base b (k : kvconfig) : kvconfig := mkKC b (k_clerks k) (k_nextClientId k).
Definition set_clerks c (k : kvconfig) : kvconfig := mkKC (k_base k) c (k_nextClientId k).
Definition set_nextClientId i (k : kvconfig) : kvconfig := mkKC (k_base k) (k_clerks k) i.

Definition on_base {A} (m : M config A) : M kvconfig A := fun k =>
  match m (k_base k) with
  | Done a b => Done a (set_base b k)
  | Panicked p b => Panicked p (set_base b k)
  | Blocked b => Blocked (set_base b k)
  end.
Definition on_wires {A} (m : M links A) : M kvconfig A := on_base (on_links m).
Definition on_network {A} (m : M Network A) : M kvconfig A := on_wires (on_l_net m).

(** * Wires between servers *)

Definition connectUnlocked (i : Z) (to : list Z) : M links unit :=
  for_each to (fun j => set_link true i j);;
  for_each to (fun j => set_link true j i).

(** The second loop looks at cfg.endnames[j], where j is the position in [from],
    and switches off the wire of server from[j]. *)
Definition disconnectUnlocked (i : Z) (from : list Z) : M links unit :=
  for_each from (fun j => b ← has_names i; when b (set_link false i j));;
  for_each (zip (seqZ 0 (lenZ from)) from) (fun pj =>
    b ← has_names (fst pj); when b (set_link false (snd pj) i)).

Definition All (n : Z) : list Z := seqZ 0 n.

Definition ConnectAll (n : Z) : M links unit := for_each (seqZ 0 n) (fun i => connectUnlocked i (All n)).

Definition partition (p1 p2 : list Z) : M links unit :=
  for_each p1 (fun i => disconnectUnlocked i p2;; connectUnlocked i p1);;
  for_each p2 (fun i => disconnectUnlocked i p1;; connectUnlocked i p2).

(** * Clerks *)

(** [js i] is the random number for position [i]. *)
Definition random_handles {S A} (js : Z -> Z) (kvh : list A) : M S (list A) :=
  foldl (fun acc i => sa ← acc;
    x ← go_index sa i;
    y ← go_index sa (js i);
    sa ← go_update sa i y;
    go_update sa (js i) x) (mret kvh) (seqZ 0 (lenZ kvh)).

Definition set_clerk (b : bool) (ck : Z) (js : list Z) : M kvconfig unit :=
  k ← gets (fun k => k);
  for_each js (fun j =>
    s ← go_index (default [] (k_clerks k !! ck)) j;
    on_network (Enable s b)).
Definition ConnectClientUnlocked : Z -> list Z -> M kvconfig unit := set_clerk true.
Definition DisconnectClientUnlocked : Z -> list Z -> M kvconfig unit := set_clerk false.

(** The handles the clerk gets are the ends in a random order. *)
Definition makeClient (ck : Z) (endnames : list string) (js : Z -> Z) (to : list Z) : M kvconfig (list ClientEnd) :=
  on_network (make_ends false server_name endnames);;
  handles ← random_handles js (mkEnd <$> endnames);
  modify (fun k => set_nextClientId (k_nextClientId k + 1) (set_clerks (<[ck := endnames]> (k_clerks k)) k));;
  ConnectClientUnlocked ck to;;
  mret handles.

(** Files named like the ends are removed, if there are any; the ends stay. *)
Definition deleteClient (ck : Z) : M kvconfig unit :=
  modify (fun k => set_clerks (delete ck (k_clerks k)) k).

(** * Servers *)

Definition ShutdownServer (i : Z) : M config unit :=
  c ← gets (fun c => c);
  on_links (disconnectUnlocked i (All (c_n c)));;
  on_links (on_l_net (DeleteServer (server_name i)));;
  renew_saved i copy_persister;;
  drop_raft i.

(** The same steps as at the end of raft's start1. *)
Definition StartServer (i : Z) (names : list string) : M config unit := launch i names.

(** [leads k] is what GetState of instance [k] answers. *)
Fixpoint find_leader (leads : Z -> bool) (rest : list Z) : M config (bool * Z) :=
  match rest with
  | [] => mret (false, 0)
  | i :: rest =>
      c ← gets (fun c => c);
      kv ← go_index (c_rafts c) i;
      match kv with
      | None => throw NilDereference
      | Some k => if leads k then mret (true, i) else find_leader leads rest
      end
  end.
Definition Leader (leads : Z -> bool) : M config (bool * Z) :=
  c ← gets (fun c => c); find_leader leads (seqZ 0 (c_n c)).

(** The loop of make_partition; [j] counts the servers that are not the leader. *)
Fixpoint split_servers {S} (l : Z) (rest : list Z) (j : Z) (p1 p2 : list Z) : M S (list Z * list Z) :=
  match rest with
  | [] => mret (p1, p2)
  | i :: rest =>
      if i =? l then split_servers l rest j p1 p2
      else if j <? lenZ p1 then p1 ← go_update p1 j i; split_servers l rest (j + 1) p1 p2
      else p2 ← go_update p2 (j - lenZ p1) i; split_servers l rest (j + 1) p1 p2
  end.

(** [l] is the leader found. *)
Definition make_partition {S} (n l : Z) : M S (list Z * list Z) :=
  let p1 := replicate (Z.to_nat (Z.quot n 2 + 1)) 0 in
  let p2 := replicate (Z.to_nat (Z.quot n 2)) 0 in
  ps ← split_servers l (seqZ 0 n) 0 p1 p2;
  p2 ← go_update (snd ps) (lenZ (snd ps) - 1) l;
  mret (fst ps, p2).

Definition kv_LogSize : M config Z := largest RaftStateSize.
Definition kv_SnapshotSize : M config Z := largest SnapshotSize.

Definition make_kvconfig (n : Z) (unreliable : bool) (names : Z -> list string) : M config unit :=
  for_each (seqZ 0 n) (fun i => StartServer i (names i));;
  on_links (ConnectAll n);;
  on_links (on_l_net (Reliable (negb unreliable))).

(** * shardctrler/config.go *)

Definition sc_connectUnlocked : Z -> list Z -> M links unit := connectUnlocked.
Definition sc_disconnectUnlocked : Z -> list Z -> M links unit := disconnectUnlocked.
Definition sc_ConnectAll : Z -> M links unit := ConnectAll.
Definition sc_partition : list Z -> list Z -> M links unit := partition.
Definition sc_makeClient : Z -> list string -> (Z -> Z) -> list Z -> M kvconfig (list ClientEnd) := makeClient.
Definition sc_deleteClient : Z -> M kvconfig unit := deleteClient.
Definition sc_ConnectClientUnlocked : Z -> list Z -> M kvconfig unit := ConnectClientUnlocked.
Definition sc_DisconnectClientUnlocked : Z -> list Z -> M kvconfig unit := DisconnectClientUnlocked.
Definition sc_ShutdownServer : Z -> M config unit := ShutdownServer.
Definition sc_StartServer : Z -> list string -> M config unit := StartServer.
Definition sc_make_partition {S} : Z -> Z -> M S (list Z * list Z) := make_partition.
Definition sc_make_config : Z -> bool -> (Z -> list string) -> M config unit := make_kvconfig.

(** Unlike kvraft's, it skips the servers that are shut down. *)
Fixpoint sc_find_leader (leads : Z -> bool) (rest : list Z) : M config (bool * Z) :=
  match rest with
  | [] => mret (false, 0)
  | i :: rest =>
      c ← gets (fun c => c);
      kv ← go_index (c_rafts c) i;
      match kv with
      | None => sc_find_leader leads rest
      | Some k => if leads k then mret (true, i) else sc_find_leader leads rest
      end
  end.
Definition sc_Leader (leads : Z -> bool) : M config (bool * Z) :=
  c ← gets (fun c => c); sc_find_leader leads (seqZ 0 (c_n c)).

(** * Partitions *)

(** All servers of a test with [n] servers have their ends. *)
Definition all_named (ns : list (option (list string))) (n : Z) : Prop :=
  forall i j, 0 <= i < n -> 0 <= j < n -> is_Some (endname ns i j).

Definition both (b : bool) (i : Z) (js : list Z) : list (Z * Z * bool) :=
  (js ≫= fun j => [(i, j, b)]) ++ (js ≫= fun j => [(j, i, b)]).

Lemma both_in b i js x y v :
  (x, y, v) ∈ both b i js <-> v = b /\ ((x = i /\ y ∈ js) \/ (y = i /\ x ∈ js)).
Proof.
  unfold both. rewrite elem_of_app, !list_elem_of_bind. setoid_rewrite list_elem_of_singleton. split.
  - intros [(j & [= -> -> ->] & Hj)|(j & [= -> -> ->] & Hj)]; auto.
  - intros [-> [[-> Hy]|[-> Hx]]]; [left; by exists y|right; by exists x].
Qed.

Definition in_range (n : Z) (js : list Z) : Prop := Forall (fun j => 0 <= j < n) js.

Lemma connect_switches ns n i to :
  all_named ns n -> 0 <= i < n -> in_range n to -> switches ns (connectUnlocked i to) (both true i to).
Proof.
  intros Hn Hi Ht. unfold in_range in Ht. rewrite Forall_forall in Ht.
  apply switches_seq; apply switches_for_each; intros j Hj; apply switches_link, Hn; auto.
Qed.

Lemma named_row ns n j : all_named ns n -> 0 <= j < n -> exists row, nthZ ns j = Some (Some row).
Proof. intros Hn Hj. destruct (Hn j j Hj Hj) as [x (row & Hr & _)%endname_inv]. by exists row. Qed.

Lemma zip_bind {A B C} (l1 : list A) (l2 : list B) (f : B -> list C) :
  length l1 = length l2 -> (zip l1 l2 ≫= fun p => f (snd p)) = l2 ≫= f.
Proof.
  revert l2. induction l1 as [|a l1 IH]; intros [|b l2] H; try done. cbn [zip_with]. rewrite !bind_cons. cbn [snd].
  f_equal. apply IH. by injection H.
Qed.

(** When every server has ends the wrong index does no harm. *)
Lemma disconnect_switches ns n i from :
  all_named ns n -> 0 <= i < n -> in_range n from -> lenZ from <= n ->
  switches ns (disconnectUnlocked i from) (both false i from).
Proof.
  intros Hn Hi Hf Hlen. unfold in_range in Hf. rewrite Forall_forall in Hf. unfold disconnectUnlocked, both.
  rewrite <- (zip_bind (seqZ 0 (lenZ from)) from (fun j => [(j, i, false)])) by (rewrite length_seqZ; lia).
  apply switches_seq; apply switches_for_each.
  - intros j Hj. destruct (named_row ns n i Hn Hi) as [row Hr]. eapply switches_has_names; [exact Hr|].
    simpl. apply switches_link, Hn; auto.
  - intros [q j] Hq. pose proof (elem_of_zip_l _ _ _ _ Hq) as H1%elem_of_seqZ.
    pose proof (elem_of_zip_r _ _ _ _ Hq) as H2. cbn [fst snd].
    destruct (named_row ns n q Hn) as [row Hr]; [lia|]. eapply switches_has_names; [exact Hr|].
    simpl. apply switches_link, Hn; auto.
Qed.

Definition partition_tr (p1 p2 : list Z) : list (Z * Z * bool) :=
  (p1 ≫= fun i => both false i p2 ++ both true i p1) ++ (p2 ≫= fun i => both false i p1 ++ both true i p2).

Lemma partition_switches ns n p1 p2 :
  all_named ns n -> in_range n p1 -> in_range n p2 -> lenZ p1 <= n -> lenZ p2 <= n ->
  switches ns (partition p1 p2) (partition_tr p1 p2).
Proof.
  intros Hn H1 H2 L1 L2. pose proof H1 as F1. pose proof H2 as F2. unfold in_range in F1, F2.
  rewrite Forall_forall in F1, F2.
  apply switches_seq; apply switches_for_each; intros i Hi; apply switches_seq;
    first [apply (disconnect_switches ns n)|apply (connect_switches ns n)]; auto.
Qed.

Lemma partition_tr_in p1 p2 x y v :
  (x, y, v) ∈ partition_tr p1 p2 <->
  (v = false /\ ((x ∈ p1 /\ y ∈ p2) \/ (x ∈ p2 /\ y ∈ p1))) \/
  (v = true /\ ((x ∈ p1 /\ y ∈ p1) \/ (x ∈ p2 /\ y ∈ p2))).
Proof.
  unfold partition_tr. rewrite elem_of_app, !list_elem_of_bind. split.
  - intros [(i & [Hb|Hb]%elem_of_app & Hi)|(i & [Hb|Hb]%elem_of_app & Hi)];
      apply both_in in Hb as [-> [[-> ?]|[-> ?]]]; tauto.
  - intros [[-> [[Hx Hy]|[Hx Hy]]]|[-> [[Hx Hy]|[Hx Hy]]]]; [left|right|left|right]; exists x;
      (split; [|done]); apply elem_of_app; [left|left|right|right]; apply both_in; auto.
Qed.

(** ** random_handles *)

(** The clerk gets all the ends, whatever the random numbers. *)
Lemma random_handles_perm {S A} js (kvh : list A) (s : S) :
  (forall i, 0 <= i < lenZ kvh -> 0 <= js i < lenZ kvh) ->
  exists sa, random_handles js kvh s = Done sa s /\ sa ≡ₚ kvh.
Proof.
  intros Hjs. unfold random_handles.
  assert (forall l, Forall (fun i => 0 <= i < lenZ kvh) l ->
    exists sa, foldl (fun acc i => sa ← acc; x ← go_index sa i; y ← go_index sa (js i);
      sa ← go_update sa i y; go_update sa (js i) x) (mret kvh) l s = Done sa s /\ sa ≡ₚ kvh) as H.
  { intros l. induction l as [|i l IH] using rev_ind; intros Hl; [by exists kvh|].
    apply Forall_app in Hl as [Hl [Hi _]%Forall_cons]. destruct (IH Hl) as (sa & E & Hp).
    pose proof (Permutation_length Hp) as Hlen.
    destruct (nthZ_in_range sa i) as [x Hx]; [lia|].
    destruct (nthZ_in_range sa (js i)) as [y Hy]; [rewrite Hlen; auto|].
    pose proof (Hjs i Hi) as Hj.
    exists (<[Z.to_nat (js i) := x]> (<[Z.to_nat i := y]> sa)). split.
    - rewrite foldl_app. cbn [foldl]. rewrite (bind_done _ _ _ _ _ E).
      rewrite (bind_done _ _ _ _ _ (go_index_ok _ _ _ _ Hx)), (bind_done _ _ _ _ _ (go_index_ok _ _ _ _ Hy)).
      erewrite bind_done; [|apply go_update_ok; lia]. apply go_update_ok. rewrite length_insert. lia.
    - rewrite <- Hp. rewrite nthZ_nat in Hx, Hy by lia. by apply Permutation_insert_swap. }
  apply H, Forall_forall. intros i Hi%elem_of_seqZ. lia.
Qed.

(** ** make_partition *)

Lemma write_at {A} (q xs : list A) j x :
  (j < length q)%nat ->
  take (S j) (<[j := x]> q) ++ xs ++ drop (S j + length xs) (<[j := x]> q)
  = take j q ++ (x :: xs) ++ drop (j + length (x :: xs)) q.
Proof.
  intros Hj. rewrite (take_S_r _ _ x) by (by apply list_lookup_insert_eq).
  rewrite take_insert_ge, drop_insert_lt by lia. rewrite <- app_assoc. simpl. do 3 f_equal.
  by rewrite Nat.add_succ_r.
Qed.

(** The servers other than [l] are written one after the other, over the two
    lists. *)
Lemma split_servers_run {S} l rest j p1 p2 (s : S) :
  let xs := filter (fun i => i <> l) rest in
  0 <= j -> j + lenZ xs <= lenZ p1 + lenZ p2 ->
  exists p1' p2', split_servers l rest j p1 p2 s = Done (p1', p2') s /\
    length p1' = length p1 /\ length p2' = length p2 /\
    p1' ++ p2' = take (Z.to_nat j) (p1 ++ p2) ++ xs ++ drop (Z.to_nat j + length xs) (p1 ++ p2).
Proof.
  revert j p1 p2. induction rest as [|i rest IH]; intros j p1 p2 xs Hj Hlen.
  { exists p1, p2. split; [done|]. do 2 (split; [done|]). simpl. by rewrite Nat.add_0_r, take_drop. }
  unfold xs in *. clear xs. rewrite filter_cons in *. simpl split_servers.
  destruct (Z.eqb_spec i l) as [->|Hne].
  { rewrite decide_False in * by tauto. by apply IH. }
  rewrite decide_True in * by done. simpl in Hlen.
  destruct (Z.ltb_spec j (lenZ p1)) as [Hlt|Hge].
  - erewrite bind_done; [|apply go_update_ok; lia].
    destruct (IH (j + 1) (<[Z.to_nat j := i]> p1) p2) as (p1' & p2' & E & L1 & L2 & Eq); [lia|rewrite length_insert; lia|].
    exists p1', p2'. rewrite E, L1, length_insert. do 3 (split; [done|]). rewrite Eq.
    rewrite <- insert_app_l by lia. replace (Z.to_nat (j + 1)) with (Datatypes.S (Z.to_nat j)) by lia.
    apply write_at. rewrite length_app. lia.
  - erewrite bind_done; [|apply go_update_ok; lia].
    destruct (IH (j + 1) p1 (<[Z.to_nat (j - lenZ p1) := i]> p2)) as (p1' & p2' & E & L1 & L2 & Eq);
      [lia|rewrite length_insert; lia|].
    exists p1', p2'. rewrite E, L2, length_insert. do 3 (split; [done|]). rewrite Eq.
    replace (Z.to_nat (j - lenZ p1)) with (Z.to_nat j - length p1)%nat by lia.
    rewrite <- insert_app_r_alt by lia. replace (Z.to_nat (j + 1)) with (Datatypes.S (Z.to_nat j)) by lia.
    apply write_at. rewrite length_app. lia.
Qed.

Lemma others_perm n l : 0 <= l < n -> l :: filter (fun i => i <> l) (seqZ 0 n) ≡ₚ seqZ 0 n.
Proof.
  intros Hl. apply NoDup_Permutation.
  - apply NoDup_cons. split; [|apply NoDup_filter, NoDup_seqZ]. by intros [? _]%list_elem_of_filter.
  - apply NoDup_seqZ.
  - intros i. rewrite elem_of_cons, list_elem_of_filter, elem_of_seqZ.
    destruct (decide (i = l)); [subst; split; [lia|by left]|naive_solver].
Qed.

(** ** Shutting a server down *)

(** The tables of ends: a row for each server, nil or with an end for each
    server, no end twice. *)
Record named_ok (c : config) : Prop := {
  no_rows : lenZ (l_names (c_links c)) = c_n c;
  no_row : forall i row, nthZ (l_names (c_links c)) i = Some (Some row) -> lenZ row = c_n c;
  no_distinct : distinct (l_names (c_links c)) }.

Lemma named_link c i j :
  named_ok c -> named c i = true -> 0 <= j < c_n c -> is_Some (endname (l_names (c_links c)) i j).
Proof.
  intros Hn Hi Hj. unfold named in Hi. destruct (nthZ _ i) as [[row|]|] eqn:Hr; try done.
  destruct (nthZ_in_range row j) as [x Hx]; [by rewrite (no_row _ Hn i row Hr)|].
  exists x. by eapply endname_row.
Qed.

Lemma isolate_switches c i :
  named_ok c -> 0 <= i < c_n c ->
  switches (l_names (c_links c)) (disconnectUnlocked i (All (c_n c))) (disconnect_tr c i).
Proof.
  intros Hn Hi. unfold disconnectUnlocked, disconnect_tr, All.
  assert (forall j, 0 <= j < c_n c -> exists row, nthZ (l_names (c_links c)) j = Some row /\
    named c j = match row with Some _ => true | None => false end) as Hrow.
  { intros j Hj. destruct (nthZ_in_range (l_names (c_links c)) j) as [row Hr]; [by rewrite (no_rows _ Hn)|].
    exists row. split; [done|]. unfold named. rewrite Hr. by destruct row. }
  replace (lenZ (seqZ 0 (c_n c))) with (c_n c) by (rewrite length_seqZ; lia).
  rewrite <- (zip_bind (seqZ 0 (c_n c)) (seqZ 0 (c_n c)) (fun j => if named c j then [(j, i, false)] else [])) by done.
  apply switches_seq; apply switches_for_each.
  - intros j Hj%elem_of_seqZ. destruct (Hrow i Hi) as (row & Hr & En). eapply switches_has_names; [exact Hr|].
    rewrite <- En. destruct (named c i) eqn:E; [|apply switches_none].
    apply switches_link, named_link; [done..|lia].
  - intros [q j] Hq. assert (q = j /\ 0 <= j < c_n c) as [-> Hj].
    { apply list_elem_of_lookup in Hq as [k Hk]. apply lookup_zip_with_Some in Hk as (x & y & [= -> ->] & H1 & H2).
      rewrite H1 in H2. injection H2 as ->. split; [done|]. apply list_elem_of_lookup_2, elem_of_seqZ in H1. lia. }
    cbn [fst snd]. destruct (Hrow j Hj) as (row & Hr & En). eapply switches_has_names; [exact Hr|].
    rewrite <- En. destruct (named c j) eqn:E; [|apply switches_none].
    by apply switches_link, named_link.
Qed.

Lemma isolated_links c i a j :
  named_ok c -> 0 <= i < c_n c -> 0 <= a < c_n c -> 0 <= j < c_n c -> a = i \/ j = i ->
  link_on (put_links (c_links c) (disconnect_tr c i)) a j = false.
Proof.
  intros Hn Hi Ha Hj Haj. destruct (isolate_switches c i Hn Hi) as [Hok _].
  destruct (named c a) eqn:E.
  - apply put_links_on; [apply (no_distinct _ Hn)|done| |].
    + by intros b [-> _]%disconnect_tr_in.
    + apply disconnect_tr_in. split; [done|]. split; [done|]. destruct Haj as [-> | ->]; auto.
  - unfold link_on. rewrite put_links_names. destruct (endname (l_names (c_links c)) a j) as [x|] eqn:Ex; [|done].
    apply endname_inv in Ex as (row & Hr & _). unfold named in E. by rewrite Hr in E.
Qed.

Lemma once_renewed c i a p :
  disk_ok c -> 0 <= i < c_n c -> nthZ (c_saved c) i = Some (Some a) -> d_mem (c_disk c) !! a = Some p ->
  crashed c i (Some (d_next (c_disk c))) (set_rafts (<[Z.to_nat i := None]> (c_rafts c)) (renewed i p c)).
Proof.
  intros Hd Hi Hs Hp. split; try done.
  - eapply (fresh_disk_ok c _ i (Some (d_next (c_disk c)))); try done.
    + intros x Hx. simpl. rewrite lookup_insert. case_decide; by eauto.
    + simpl. lia.
    + intros x [= <-]. simpl. split; [lia|]. rewrite lookup_insert_eq. by eexists.
  - intros j. apply renewed_content; [done..|]. unfold content. by rewrite Hs.
Qed.

Lemma shutdown_disk c i :
  disk_ok c -> 0 <= i < c_n c ->
  exists c' o, (renew_saved i copy_persister;; drop_raft i) c = Done tt c' /\ crashed c i o c'.
Proof.
  intros Hd Hi. pose proof (do_saved _ Hd) as Hls. pose proof (do_rafts _ Hd) as Hlr.
  destruct (nthZ_in_range (c_saved c) i) as [[a|] Hs]; [lia| |].
  - destruct (do_mem _ Hd _ _ Hs) as [[p Hp] Ha]. eexists _, _. split; [|by apply (once_renewed c i a p)].
    erewrite bind_done; [|by eapply renew_run; [exact Hs|apply copy_run]].
    refine (drop_raft_run (renewed i p c) i _). simpl. lia.
  - eexists _, None. split.
    { erewrite bind_done; [|by apply renew_none]. apply drop_raft_run. lia. }
    assert (c_saved c = <[Z.to_nat i := None]> (c_saved c)) as Es.
    { symmetry. apply list_insert_id. by rewrite nthZ_nat in Hs by lia. }
    split; try done. eapply (fresh_disk_ok c _ i None); try done; simpl; lia.
Qed.

(** * Theorems *)

(** A partition separates the servers: when all servers of a test have ends, no
    two wires share one and the two lists have no server in common, partition
    succeeds, and after it the wires inside each part are on in both directions,
    the wires from one part to the other are off in both directions, and all
    other wires are as before. *)
Theorem partition_separates n l p1 p2 :
  all_named (l_names l) n -> distinct (l_names l) -> in_range n p1 -> in_range n p2 ->
  lenZ p1 <= n -> lenZ p2 <= n -> (forall i, i ∈ p1 -> ~ i ∈ p2) ->
  exists l', partition p1 p2 l = Done tt l' /\ l_names l' = l_names l /\
    (forall i j, (i ∈ p1 /\ j ∈ p1) \/ (i ∈ p2 /\ j ∈ p2) -> link_on l' i j = true) /\
    (forall i j, (i ∈ p1 /\ j ∈ p2) \/ (i ∈ p2 /\ j ∈ p1) -> link_on l' i j = false) /\
    (forall i j, (~ i ∈ p1 /\ ~ i ∈ p2) \/ (~ j ∈ p1 /\ ~ j ∈ p2) -> link_on l' i j = link_on l i j).
Proof.
  intros Hn Hd H1 H2 L1 L2 Hdis.
  destruct (partition_switches (l_names l) n p1 p2 Hn H1 H2 L1 L2) as [Hok E].
  exists (put_links l (partition_tr p1 p2)). split; [by apply E|]. split; [apply put_links_names|].
  split; [|split]; intros i j Hij.
  - apply put_links_on; [done..| |].
    + intros b [[-> Hb]|[-> _]]%partition_tr_in; [|done]. exfalso.
      pose proof (Hdis i). pose proof (Hdis j). tauto.
    + apply partition_tr_in. auto.
  - apply put_links_on; [done..| |].
    + intros b [[-> _]|[-> Hb]]%partition_tr_in; [done|]. exfalso.
      pose proof (Hdis i). pose proof (Hdis j). tauto.
    + apply partition_tr_in. auto.
  - apply put_links_off; [done..|]. intros b Hb%partition_tr_in. tauto.
Qed.

(** make_partition splits an odd number of servers, three at least, into a
    majority without the leader and a minority that ends with it, every server in
    exactly one of them.  For an even number it does not: with four servers and
    leader 2, server 0 is in both parts; with one server it panics. *)
Theorem make_partition_splits {S} n l (s : S) :
  (3 <= n -> Z.odd n = true -> 0 <= l < n ->
   exists p1 p2, make_partition n l s = Done (p1, p2 ++ [l]) s /\
     lenZ p1 = n / 2 + 1 /\ lenZ (p2 ++ [l]) = n / 2 /\ p1 ++ p2 ++ [l] ≡ₚ seqZ 0 n) /\
  make_partition 4 2 s = Done ([0; 1; 3], [0; 2]) s /\
  make_partition 1 0 s = Panicked IndexOutOfRange s.
Proof.
  split; [|split; reflexivity]. intros Hn Hodd Hl.
  set (xs := filter (fun i => i <> l) (seqZ 0 n)).
  assert (lenZ xs = n - 1) as Hxs.
  { pose proof (Permutation_length (others_perm n l Hl)) as H. rewrite length_seqZ in H. simpl in H.
    fold xs in H. lia. }
  pose proof (Z.div_mod n 2) as Hdm. rewrite Zmod_odd, Hodd in Hdm.
  unfold make_partition. cbv zeta. rewrite (Z.quot_div_nonneg n 2) by lia.
  destruct (split_servers_run l (seqZ 0 n) 0 (replicate (Z.to_nat (n / 2 + 1)) 0)
    (replicate (Z.to_nat (n / 2)) 0) s) as (q1 & q2 & E & L1 & L2 & Eq).
  { lia. } { fold xs. rewrite !length_replicate. lia. }
  rewrite length_replicate in L1, L2. fold xs in Eq. simpl in Eq.
  rewrite (bind_done _ _ _ _ _ E). cbn [fst snd].
  assert (exists p2 z, q2 = p2 ++ [z]) as (p2 & z & ->).
  { destruct q2 as [|z q2 _] using rev_ind; [simpl in L2; lia|]. by exists q2, z. }
  rewrite length_app in L2. simpl in L2.
  assert (q1 ++ p2 = xs) as Hq.
  { assert (length (q1 ++ p2) = length xs) as Hlen by (rewrite length_app; lia).
    rewrite app_assoc in Eq. apply (f_equal (take (length xs))) in Eq.
    rewrite take_app_length in Eq. rewrite <- Hlen in Eq at 1. by rewrite take_app_length in Eq. }
  erewrite bind_done; [|apply go_update_ok; rewrite length_app; simpl; lia].
  exists q1, p2. split; [|split; [lia|split; [rewrite length_app; simpl; lia|]]].
  - unfold mret, M_ret. do 2 f_equal. rewrite length_app. simpl.
    replace (Z.to_nat (Z.of_nat (length p2 + 1) - 1)) with (length p2 + 0)%nat by lia.
    by rewrite insert_app_r.
  - rewrite app_assoc, Hq, <- Permutation_cons_append. by apply others_perm.
Qed.

(** ShutdownServer isolates a key/value server: it succeeds whether the server
    runs or not; all its wires are off and it is off the network before its
    persister is replaced; the state it will restart with is the last one saved,
    in a persister that no running instance has; the other servers' are not
    touched. *)
Theorem shutdown_isolates c i :
  named_ok c -> disk_ok c -> 0 <= i < c_n c ->
  exists c', ShutdownServer i c = Done tt c' /\ disk_ok c' /\
    (forall j, 0 <= j < c_n c -> link_on (c_links c') i j = false /\ link_on (c_links c') j i = false) /\
    server_of (l_net (c_links c')) (server_name i) = None /\
    nthZ (c_rafts c') i = Some None /\ (forall j, content c' j = content c j) /\
    forall k a, nthZ (d_insts (c_disk c')) k = Some a -> nthZ (c_saved c') i <> Some (Some a).
Proof.
  intros Hn Hd Hi. pose proof (isolate_switches c i Hn Hi) as Hsw.
  set (l1 := put_links (c_links c) (disconnect_tr c i)).
  set (c2 := set_links (set_l_net (set_servers (<[server_name i := None]> (servers (l_net l1))) (l_net l1)) l1) c).
  assert (disk_ok c2) as Hd2 by (destruct Hd; by split).
  destruct (shutdown_disk c2 i Hd2 Hi) as (c' & o & E & [K1 K2 K3 K4 K5 K6 K7 K8]).
  assert (nthZ (c_rafts c') i = Some None) as Hr.
  { rewrite K6, nthZ_insert by (simpl; rewrite (do_rafts _ Hd); lia). by rewrite decide_True. }
  exists c'. split.
  { unfold ShutdownServer. rewrite bind_gets. erewrite bind_done; [|by apply on_links_switch].
    by erewrite bind_done; [exact E|]. }
  split; [done|]. split.
  { intros j Hj. rewrite K2. change (link_on (c_links c2) i j) with (link_on l1 i j).
    change (link_on (c_links c2) j i) with (link_on l1 j i). split; apply isolated_links; auto. }
  split; [rewrite K2; unfold server_of; simpl; by rewrite lookup_insert_eq|]. split; [done|].
  split; [intros j; rewrite K8; done|]. intros k a Hk Hs.
  pose proof (do_share _ K1 k a i Hk Hs) as H. congruence.
Qed.

(** disconnectUnlocked tests the wrong server for ends: it looks at the server
    whose number is the position in the list.  When server 0 was never started,
    disconnecting server 1 from server 2 leaves the wire from 2 to 1 on. *)
Theorem disconnect_checks_wrong_server :
  let l := mkLinks (set_tables ∅ {["d" := true; "g" := true]}%string ∅ MakeNetwork)
    [None; Some ["b"; "c"; "d"]; Some ["f"; "g"; "h"]]%string in
  link_on l 1 2 = true /\ link_on l 2 1 = true /\
  exists l', disconnectUnlocked 1 [2] l = Done tt l' /\ link_on l' 1 2 = false /\ link_on l' 2 1 = true.
Proof. split; [|split; [|eexists; split; [|split]]]; vm_compute; reflexivity. Qed.

(** kvraft's Leader asks every server up to the leader for its state, also the
    ones that are shut down, and crashes there; shardctrler's skips them and
    finds the leader. *)
Theorem Leader_crashes_on_shut_server leads c i k :
  nthZ (c_rafts c) i = Some (Some k) -> leads k = true -> 0 < i < c_n c ->
  (forall j, 0 <= j < i -> nthZ (c_rafts c) j = Some None) ->
  Leader leads c = Panicked NilDereference c /\ sc_Leader leads c = Done (true, i) c.
Proof.
  intros Hi Hk Hr Hno. unfold Leader, sc_Leader. rewrite !bind_gets. split.
  - rewrite seqZ_cons by lia. cbn [find_leader]. rewrite bind_gets.
    erewrite bind_done; [|apply go_index_ok; apply Hno; lia]. done.
  - assert (forall a, 0 <= a <= i -> sc_find_leader leads (seqZ a (c_n c - a)) c = Done (true, i) c) as H;
      [|specialize (H 0); rewrite Z.sub_0_r in H; apply H; lia].
    intros a Ha. remember (Z.to_nat (i - a)) as d eqn:Hd. revert a Ha Hd. induction d as [|d IH]; intros a Ha Hd.
    + replace a with i by lia. rewrite seqZ_cons by lia. cbn [sc_find_leader]. rewrite bind_gets.
      rewrite (bind_done _ _ _ _ _ (go_index_ok _ _ _ _ Hi)). cbv beta iota. by rewrite Hk.
    + rewrite seqZ_cons by lia. cbn [sc_find_leader]. rewrite bind_gets.
      erewrite bind_done; [|apply go_index_ok; apply Hno; lia].
      replace (Z.pred (c_n c - a)) with (c_n c - (a + 1)) by lia. rewrite <- Z.add_1_r. apply IH; lia.
Qed.

(** ** Instances *)

(** Three servers, all started. *)
Definition three_ops : list op :=
  [OStart 0 ["a"; "b"; "c"]; OStart 1 ["d"; "e"; "f"]; OStart 2 ["g"; "h"; "i"]]%string.
Definition three : config := default (empty_config 3) (ops_run three_ops (empty_config 3)).

Lemma three_ok : config_ok three.
Proof.
  apply (config_reachable 3); [lia|]. apply (ops_steps three_ops). vm_compute. reflexivity.
Qed.

Lemma three_started i : 0 <= i < 3 -> started three i.
Proof.
  intros H. assert (i = 0 \/ i = 1 \/ i = 2) as [->|[->| ->]] by lia; eexists; vm_compute; reflexivity.
Qed.

Lemma partition_separates_witness :
  exists l', partition [0; 2] [1] (c_links three) = Done tt l' /\ link_on l' 2 0 = true /\ link_on l' 2 1 = false.
Proof.
  destruct three_ok as [Hw _].
  destruct (partition_separates 3 (c_links three) [0; 2] [1]) as (l' & E & _ & H1 & H2 & _).
  - intros i j Hi Hj. apply started_link; [exact Hw|by apply three_started|exact Hj].
  - apply (wo_distinct _ Hw).
  - repeat constructor; lia.
  - repeat constructor; lia.
  - simpl. lia.
  - simpl. lia.
  - intros i [->|[->|[]%elem_of_nil]%elem_of_cons]%elem_of_cons Hin;
      apply list_elem_of_singleton in Hin; discriminate Hin.
  - exists l'. split; [exact E|]. split.
    + apply H1. left. split; [right; left|left].
    + apply H2. left. split; [right; left|left].
Defined.

Lemma make_partition_splits_witness :
  exists p1 p2, make_partition 5 2 tt = Done (p1, p2 ++ [2]) tt /\ lenZ p1 = 5 / 2 + 1 /\
    lenZ (p2 ++ [2]) = 5 / 2 /\ p1 ++ p2 ++ [2] ≡ₚ seqZ 0 5.
Proof. refine (proj1 (make_partition_splits 5 2 tt) _ _ _); [lia|reflexivity|lia]. Defined.

Lemma shutdown_isolates_witness :
  exists c', ShutdownServer 1 three = Done tt c' /\ server_of (l_net (c_links c')) (server_name 1) = None /\
    content c' 1 = content three 1.
Proof.
  destruct three_ok as [Hw Hd].
  destruct (shutdown_isolates three 1) as (c' & E & _ & _ & Hs & _ & Hc & _).
  - split; [apply (wo_names _ Hw)|apply (wo_rows _ Hw)|apply (wo_distinct _ Hw)].
  - exact Hd.
  - split; [lia|reflexivity].
  - exists c'. split; [exact E|]. split; [exact Hs|apply Hc].
Defined.

Definition two_down : config :=
  mkConfig (c_links three) 3 [None; None; Some 2] (c_connected three) (c_saved three) (c_disk three).

Lemma Leader_crashes_on_shut_server_witness :
  Leader (fun k => k =? 2) two_down = Panicked NilDereference two_down /\
  sc_Leader (fun k => k =? 2) two_down = Done (true, 2) two_down.
Proof.
  apply (Leader_crashes_on_shut_server _ two_down 2 2).
  - reflexivity.
  - reflexivity.
  - simpl. lia.
  - intros j Hj. assert (j = 0 \/ j = 1) as [->| ->] by lia; reflexivity.
Defined.
