(* ===== verification/KvSrvConfig.v ===== *)
(** The test set-up of the key/value server (kvsrv/config.go): one server, and clerks
    with an end each.  A clerk is a number, the random names are arguments. *)

From stdpp Require Import pretty.
From S2P Require Import Prelude Network Links.

Definition SERVERID : Z := 0.

Record srvconfig := mkSV {
  v_net : Network; v_server : option Z; v_clerks : gmap Z string; v_nextClientId : Z; v_rpcs0 : Z; v_ops : Z }.

Definition set_v_net n (c : srvconfig) : srvconfig :=
  mkSV n (v_server c) (v_clerks c) (v_nextClientId c) (v_rpcs0 c) (v_ops c).
Definition set_v_clerks x (c : srvconfig) : srvconfig :=
  mkSV (v_net c) (v_server c) x (v_nextClientId c) (v_rpcs0 c) (v_ops c).

Definition on_v_net {A} (m : M Network A) : M srvconfig A := fun c =>
  match m (v_net c) with
  | Done a n => Done a (set_v_net n c)
  | Panicked p n => Panicked p (set_v_net n c)
  | Blocked n => Blocked (set_v_net n c)
  end.

(** cfg.clerks[ck] of an unknown clerk is the empty string. *)
Definition clerk_end (ck : Z) : M srvconfig string := gets (fun c => default ""%string (v_clerks c !! ck)).

Definition srv_ConnectClient (ck : Z) : M srvconfig unit :=
  endname ← clerk_end ck; on_v_net (Enable endname true).

Definition srv_makeClient (ck : Z) (endname : string) : M srvconfig ClientEnd :=
  e ← on_v_net (MakeEnd endname);
  on_v_net (Connect endname (pretty SERVERID));;
  modify (fun c => mkSV (v_net c) (v_server c) (<[ck := endname]> (v_clerks c)) (v_nextClientId c + 1) (v_rpcs0 c) (v_ops c));;
  srv_ConnectClient ck;;
  mret e.

Definition srv_deleteClient (ck : Z) : M srvconfig unit :=
  v ← clerk_end ck;
  on_v_net (DeleteEnd v);;
  modify (fun c => set_v_clerks (delete ck (v_clerks c)) c).

(** [k]: the new server. *)
Definition srv_StartServer (k : Z) : M srvconfig unit :=
  modify (fun c => mkSV (v_net c) (Some k) (v_clerks c) (v_nextClientId c) (v_rpcs0 c) (v_ops c));;
  on_v_net (AddServer (pretty 0) k).

Definition empty_srvconfig : srvconfig := mkSV MakeNetwork None ∅ (SERVERID + 1) 0 0.

Definition srv_make_config (unreliable : bool) (k : Z) : M srvconfig unit :=
  srv_StartServer k;;
  on_v_net (Reliable (negb unreliable)).

Definition srv_rpcTotal : M srvconfig Z := on_v_net GetTotalCount.
Definition srv_begin : M srvconfig unit :=
  rpcs ← srv_rpcTotal;
  modify (fun c => mkSV (v_net c) (v_server c) (v_clerks c) (v_nextClientId c) rpcs 0).

(** An atomic int32. *)
Definition srv_op : M srvconfig unit :=
  modify (fun c => mkSV (v_net c) (v_server c) (v_clerks c) (v_nextClientId c) (v_rpcs0 c) (to_int32 (v_ops c + 1))).

(** The numbers that end prints: RPCs and operations since begin. *)
Definition srv_end : M srvconfig (Z * Z) :=
  rpcs ← srv_rpcTotal;
  c ← gets (fun c => c);
  mret (rpcs - v_rpcs0 c, v_ops c).

(** * Clients come and go *)

(** Each clerk has an end of its own, that leads to the server and is switched on;
    there are no other ends. *)
Record clients_ok (c : srvconfig) : Prop := {
  co_clerk : forall ck x, v_clerks c !! ck = Some x ->
    is_Some (ends (v_net c) !! x) /\ is_enabled (v_net c) x = true /\ connection_of (v_net c) x = Some (pretty SERVERID);
  co_end : forall x, is_Some (ends (v_net c) !! x) -> exists ck, v_clerks c !! ck = Some x;
  co_own : forall ck ck' x, v_clerks c !! ck = Some x -> v_clerks c !! ck' = Some x -> ck = ck' }.

Lemma on_v_net_done {A} (m : M Network A) c a n : m (v_net c) = Done a n -> on_v_net m c = Done a (set_v_net n c).
Proof. intros E. unfold on_v_net. by rewrite E. Qed.

(** The run of makeClient with a new name. *)
Lemma srv_makeClient_run ck x c :
  ends (v_net c) !! x = None ->
  exists n', srv_makeClient ck x c =
      Done (mkEnd x) (mkSV n' (v_server c) (<[ck := x]> (v_clerks c)) (v_nextClientId c + 1) (v_rpcs0 c) (v_ops c)) /\
    ends_made true [x] (v_net c) n' /\ connection_of n' x = Some (pretty SERVERID).
Proof.
  intros Hx. destruct (make_end_run true x (pretty SERVERID) (v_net c) Hx) as (n' & E & Hm & Hc). exists n'.
  split; [|done]. unfold make_end in E. apply bind_inv in E as (e & n1 & E1 & E).
  apply bind_inv in E as ([] & n2 & E2 & E). apply bind_inv in E as ([] & n3 & E3 & E). injection E as <- <-.
  unfold srv_makeClient. rewrite (bind_done _ _ _ _ _ (on_v_net_done _ _ _ _ E1)).
  rewrite (bind_done _ _ _ _ _ (on_v_net_done _ (set_v_net n1 c) _ _ E2)).
  rewrite (bind_done (modify _) _ _ tt _ eq_refl). unfold srv_ConnectClient, clerk_end, mbind, M_bind, gets.
  simpl. rewrite lookup_insert_eq. simpl. unfold on_v_net. simpl. simpl in E3. by injection E3 as <-.
Qed.

Lemma make_ok ck x c n' :
  clients_ok c -> v_clerks c !! ck = None -> ends (v_net c) !! x = None ->
  ends_made true [x] (v_net c) n' -> connection_of n' x = Some (pretty SERVERID) ->
  clients_ok (mkSV n' (v_server c) (<[ck := x]> (v_clerks c)) (v_nextClientId c + 1) (v_rpcs0 c) (v_ops c)).
Proof.
  intros [C1 C2 C3] Hck Hx Hm Hc.
  assert (forall ck' y, v_clerks c !! ck' = Some y -> y <> x) as Hne.
  { intros ck' y Hy ->. destruct (C1 _ _ Hy) as [[e He] _]. congruence. }
  split; simpl.
  - intros ck' y Hy. rewrite lookup_insert in Hy. rewrite (em_ends _ _ _ _ Hm), (em_enabled _ _ _ _ Hm).
    case_decide as E.
    + injection Hy as <-. rewrite decide_True by (by left). split; [right; by left|done].
    + pose proof (Hne _ _ Hy). rewrite decide_False by (by rewrite list_elem_of_singleton).
      rewrite (em_other _ _ _ _ Hm) by (by rewrite list_elem_of_singleton). destruct (C1 _ _ Hy) as (? & ? & ?). auto.
  - intros y Hy. apply (em_ends _ _ _ _ Hm) in Hy as [Hy| ->%list_elem_of_singleton].
    + destruct (C2 _ Hy) as [ck' H']. exists ck'. rewrite lookup_insert_ne by congruence. done.
    + exists ck. by rewrite lookup_insert_eq.
  - intros ck1 ck2 y H1 H2. rewrite lookup_insert_Some in H1, H2.
    destruct H1 as [[<- <-]|[_ H1]], H2 as [[<- E]|[_ H2]]; [done|by apply Hne in H2| |by eapply C3].
    subst y. by apply Hne in H1.
Qed.

Definition without_end (x : string) (n : Network) : Network :=
  set_tables (delete x (ends n)) (delete x (enabled n)) (delete x (connections n)) n.

Lemma delete_ok ck x c :
  clients_ok c -> v_clerks c !! ck = Some x ->
  clients_ok (set_v_clerks (delete ck (v_clerks c)) (set_v_net (without_end x (v_net c)) c)).
Proof.
  intros [C1 C2 C3] Hck. split; simpl.
  - intros ck' y Hy. apply lookup_delete_Some in Hy as [Hne Hy].
    assert (x <> y) as Hxy by (intros <-; by apply Hne, (C3 _ _ x)).
    unfold is_enabled, connection_of. simpl. rewrite !lookup_delete_ne by done. by apply (C1 _ _ Hy).
  - intros y Hy. rewrite lookup_delete_is_Some in Hy. destruct Hy as [Hne Hy]. destruct (C2 _ Hy) as [ck' H'].
    exists ck'. rewrite lookup_delete_ne; [done|]. intros <-. congruence.
  - intros ck1 ck2 y [_ H1]%lookup_delete_Some [_ H2]%lookup_delete_Some. by eapply C3.
Qed.

Lemma deleteClient_run ck x c :
  clients_ok c -> v_clerks c !! ck = Some x ->
  srv_deleteClient ck c = Done tt (set_v_clerks (delete ck (v_clerks c)) (set_v_net (without_end x (v_net c)) c)).
Proof.
  intros [C1 _ _] Hck. destruct (C1 _ _ Hck) as ([e He] & _).
  unfold srv_deleteClient, clerk_end, mbind, M_bind, gets. rewrite Hck. simpl.
  unfold on_v_net, DeleteEnd, mbind, M_bind, gets. rewrite He. done.
Qed.

(** * Theorems *)

(** The clients of a server test: every clerk keeps an end of its own to the
    server while others come and go: makeClient with a new name gives the new clerk
    an enabled end to the server, deleteClient takes the clerk's end out of the
    network, both leave the other clerks' ends alone; deleting a clerk a second
    time ends the program. *)
Theorem srv_clients_stay_wired c :
  clients_ok c ->
  (forall ck x, v_clerks c !! ck = None -> ends (v_net c) !! x = None ->
     exists c', srv_makeClient ck x c = Done (mkEnd x) c' /\ clients_ok c' /\ v_clerks c' = <[ck := x]> (v_clerks c)) /\
  (forall ck x, v_clerks c !! ck = Some x ->
     exists c', srv_deleteClient ck c = Done tt c' /\ clients_ok c' /\ v_clerks c' = delete ck (v_clerks c) /\
       ends (v_net c') !! x = None /\
       (ends (v_net c') !! ""%string = None -> srv_deleteClient ck c' = Panicked LogFatal c')).
Proof.
  intros Hc. split.
  - intros ck x Hck Hx. destruct (srv_makeClient_run ck x c Hx) as (n' & E & Hm & Hco). eexists. split; [exact E|].
    split; [|done]. by apply make_ok.
  - intros ck x Hck. eexists. split; [by apply deleteClient_run|]. split; [by apply delete_ok|]. split; [done|].
    split; [simpl; by rewrite lookup_delete_eq|]. set (c' := set_v_clerks _ _). intros He.
    unfold srv_deleteClient, clerk_end, mbind, M_bind, gets.
    assert (v_clerks c' !! ck = None) as -> by (simpl; by rewrite lookup_delete_eq). simpl.
    unfold on_v_net, DeleteEnd, mbind, M_bind, gets. rewrite He. simpl. done.
Qed.

Lemma empty_clients_ok : clients_ok empty_srvconfig.
Proof.
  split; simpl.
  - intros ck x [=].
  - by intros x [? [=]].
  - by intros ck ck' x [=].
Qed.

Lemma srv_clients_stay_wired_witness :
  exists c, srv_makeClient 5 "end" empty_srvconfig = Done (mkEnd "end") c /\ clients_ok c.
Proof.
  destruct (srv_clients_stay_wired empty_srvconfig empty_clients_ok) as [H _].
  destruct (H 5 "end"%string eq_refl eq_refl) as (c & E & Hc & _). exists c. split; [exact E|exact Hc].
Defined.
