(* ===== verification/ShardConfig.v ===== *)
(** The servers of a sharded key/value test (shardkv/config.go): the replica
    groups, the shard controller and their clerks.

    Random names are arguments; a persister is an address on [disk]; an instance
    of a server is a number.  The Join and Leave of the controller's clerk are
    calls to code that is not there yet: here is what they are given. *)

From stdpp Require Import pretty.
From S2P Require Import Prelude Digits Network Links RaftTypes Persist RaftConfig.

Record ctrler := mkCtrler { ctl_n : Z; ctl_servers : list (option Z); ctl_names : list string }.

Record group := mkGroup {
  g_gid : Z; g_servers : list (option Z); g_saved : list (option Z);
  g_endnames : list (option (list string)); g_mendnames : list (option (list string)) }.

Record sconfig := mkSC {
  s_net : Network; s_ctl : ctrler; s_ngroups : Z; s_n : Z; s_groups : list group;
  s_clerks : gmap Z (list string); s_nextClientId : Z; s_maxraftstate : Z; s_disk : disk }.

Definition set_s_net x (c : sconfig) : sconfig :=
  mkSC x (s_ctl c) (s_ngroups c) (s_n c) (s_groups c) (s_clerks c) (s_nextClientId c) (s_maxraftstate c) (s_disk c).
Definition set_s_ctl x (c : sconfig) : sconfig :=
  mkSC (s_net c) x (s_ngroups c) (s_n c) (s_groups c) (s_clerks c) (s_nextClientId c) (s_maxraftstate c) (s_disk c).
Definition set_s_groups x (c : sconfig) : sconfig :=
  mkSC (s_net c) (s_ctl c) (s_ngroups c) (s_n c) x (s_clerks c) (s_nextClientId c) (s_maxraftstate c) (s_disk c).
Definition set_s_clerks x i (c : sconfig) : sconfig :=
  mkSC (s_net c) (s_ctl c) (s_ngroups c) (s_n c) (s_groups c) x i (s_maxraftstate c) (s_disk c).
Definition set_s_disk x (c : sconfig) : sconfig :=
  mkSC (s_net c) (s_ctl c) (s_ngroups c) (s_n c) (s_groups c) (s_clerks c) (s_nextClientId c) (s_maxraftstate c) x.

Definition on_s_net {A} (m : M Network A) : M sconfig A := fun c =>
  match m (s_net c) with
  | Done a n => Done a (set_s_net n c)
  | Panicked p n => Panicked p (set_s_net n c)
  | Blocked n => Blocked (set_s_net n c)
  end.
Definition on_s_disk {A} (m : M disk A) : M sconfig A := fun c =>
  match m (s_disk c) with
  | Done a n => Done a (set_s_disk n c)
  | Panicked p n => Panicked p (set_s_disk n c)
  | Blocked n => Blocked (set_s_disk n c)
  end.

(** gg := cfg.groups[gi], and a write through it. *)
Definition the_group (gi : Z) : M sconfig group := c ← gets (fun c => c); go_index (s_groups c) gi.
Definition put_group (gi : Z) (g : group) : M sconfig unit :=
  c ← gets (fun c => c);
  gs ← go_update (s_groups c) gi g;
  modify (set_s_groups gs).

(** * Names *)

Definition ctrlername {S} (ctl : ctrler) (i : Z) : M S string := go_index (ctl_names ctl) i.

Definition servername (gid i : Z) : string :=
  ("server-" +:+ pretty gid +:+ "-" +:+ pretty i)%string.

(** * Clerks and the controller *)

(** The loops that make ends to the controller's servers. *)
Definition ctl_ends (ctl : ctrler) (names : list string) : M sconfig unit :=
  for_each (seqZ 0 (ctl_n ctl)) (fun j =>
    name ← go_index names j;
    on_s_net (MakeEnd name);;
    server ← ctrlername ctl j;
    on_s_net (Connect name server);;
    on_s_net (Enable name true)).

(** [endnames] has room for as many names as a group has servers; [names] are
    the random ones. *)
Definition shard_makeClient (ck : Z) (ctl : ctrler) (names : list string) : M sconfig unit :=
  c ← gets (fun c => c);
  endnames ← foldl (fun acc j => endnames ← acc;
      name ← go_index names j;
      endnames ← go_update endnames j name;
      on_s_net (MakeEnd name);;
      server ← ctrlername ctl j;
      on_s_net (Connect name server);;
      on_s_net (Enable name true);;
      mret endnames)
    (mret (replicate (Z.to_nat (s_n c)) ""%string)) (seqZ 0 (ctl_n ctl));
  modify (fun c => set_s_clerks (<[ck := endnames]> (s_clerks c)) (s_nextClientId c + 1) c).

(** The function a clerk or a server makes ends with later. *)
Definition make_end_to (name server : string) : M sconfig ClientEnd := on_s_net (make_end true name server).

Definition shard_deleteClient (ck : Z) : M sconfig unit :=
  modify (fun c => set_s_clerks (delete ck (s_clerks c)) (s_nextClientId c) c).

(** The controller is an object of its own: its operations return it as they leave
    it. *)
Definition StartCtrlerServer (ctl : ctrler) (i : Z) (names : list string) : M sconfig ctrler :=
  ctl_ends ctl names;;
  a ← on_s_disk (alloc MakePersister);
  k ← on_s_disk (new_instance a);
  srvs ← go_update (ctl_servers ctl) i (Some k);
  server ← ctrlername ctl i;
  on_s_net (AddServer server k);;
  mret (mkCtrler (ctl_n ctl) srvs (ctl_names ctl)).

Definition ctrlerclerk (ctl : ctrler) (names : list string) : M sconfig unit := ctl_ends ctl names.

(** [cnames] are the names of the controller's servers, [names i] those of the
    ends of server [i], [knames] those of the clerk's. *)
Definition StartCtrlerService (cnames : list string) (names : Z -> list string) (knames : list string)
    : M sconfig ctrler :=
  ctl ← foldl (fun acc i => ctl ← acc; StartCtrlerServer ctl i (names i))
    (mret (mkCtrler 3 (replicate 3 None) ((fun x => "ctlr-" +:+ x)%string <$> cnames))) (seqZ 0 3);
  ctrlerclerk ctl knames;;
  mret ctl.

(** * Groups *)

Definition set_g_endnames x (g : group) : group :=
  mkGroup (g_gid g) (g_servers g) (g_saved g) x (g_mendnames g).
Definition set_g_mendnames x (g : group) : group :=
  mkGroup (g_gid g) (g_servers g) (g_saved g) (g_endnames g) x.
Definition set_g_saved x (g : group) : group :=
  mkGroup (g_gid g) (g_servers g) x (g_endnames g) (g_mendnames g).
Definition set_g_servers x (g : group) : group :=
  mkGroup (g_gid g) x (g_saved g) (g_endnames g) (g_mendnames g).

Definition shard_ShutdownServer (gi i : Z) : M sconfig unit :=
  gg ← the_group gi;
  row ← go_index (g_endnames gg) i;
  for_each (seqZ 0 (lenZ (g_servers gg))) (fun j =>
    name ← go_index (default [] row) j; on_s_net (Enable name false));;
  mrow ← go_index (g_mendnames gg) i;
  for_each (default [] mrow) (fun name => on_s_net (Enable name false));;
  on_s_net (DeleteServer (servername (g_gid gg) i));;
  o ← go_index (g_saved gg) i;
  gg ← match o with
       | Some a =>
           a' ← on_s_disk (copy_persister a);
           sv ← go_update (g_saved gg) i (Some a');
           put_group gi (set_g_saved sv gg);;
           mret (set_g_saved sv gg)
       | None => mret gg
       end;
  kv ← go_index (g_servers gg) i;
  match kv with
  | Some _ => srvs ← go_update (g_servers gg) i None; put_group gi (set_g_servers srvs gg)
  | None => mret tt
  end.

Definition ShutdownGroup (gi : Z) : M sconfig unit :=
  c ← gets (fun c => c); for_each (seqZ 0 (s_n c)) (fun i => shard_ShutdownServer gi i).

(** [names] and [mnames] are the random names of the ends to the group and to the
    controller. *)
Definition shard_StartServer (gi i : Z) (names mnames : list string) : M sconfig unit :=
  c ← gets (fun c => c);
  gg ← the_group gi;
  ens ← go_update (g_endnames gg) i (Some names);
  let gg := set_g_endnames ens gg in
  put_group gi gg;;
  on_s_net (make_ends true (fun j => servername (g_gid gg) j) names);;
  mens ← go_update (g_mendnames gg) i (Some mnames);
  let gg := set_g_mendnames mens gg in
  put_group gi gg;;
  ctl_ends (s_ctl c) mnames;;
  o ← go_index (g_saved gg) i;
  a ← match o with
      | Some a => on_s_disk (copy_persister a)
      | None => on_s_disk (alloc MakePersister)
      end;
  sv ← go_update (g_saved gg) i (Some a);
  let gg := set_g_saved sv gg in
  k ← on_s_disk (new_instance a);
  srvs ← go_update (g_servers gg) i (Some k);
  put_group gi (set_g_servers srvs gg);;
  on_s_net (AddServer (servername (g_gid gg) i) k).

Definition StartGroup (gi : Z) (names mnames : Z -> list string) : M sconfig unit :=
  c ← gets (fun c => c); for_each (seqZ 0 (s_n c)) (fun i => shard_StartServer gi i (names i) (mnames i)).

(** A group before its servers are started. *)
Definition new_group (n ctln gi : Z) : group :=
  let k := Z.to_nat n in
  mkGroup (100 + gi) (replicate k None) (replicate k None) (replicate k None) (replicate (Z.to_nat ctln) None).

(** The network's random names of a test: for the controller's servers, their ends,
    the controller's clerk, and the ends of server [i] of group [gi] to its group
    and to the controller. *)
Record shard_names := mkNames {
  sn_ctrlers : list string; sn_ends : Z -> list string; sn_clerk : list string;
  sn_group : Z -> Z -> list string; sn_mends : Z -> Z -> list string }.

Definition empty_sconfig (n maxraftstate : Z) : sconfig :=
  mkSC MakeNetwork (mkCtrler 0 [] []) 3 n [] ∅ 0 maxraftstate (mkDisk ∅ 0 []).

Definition shard_make_config (n : Z) (unreliable : bool) (x : shard_names) : M sconfig unit :=
  ctl ← StartCtrlerService (sn_ctrlers x) (sn_ends x) (sn_clerk x);
  modify (set_s_ctl ctl);;
  for_each (seqZ 0 3) (fun gi =>
    modify (fun c => set_s_groups (s_groups c ++ [new_group n (ctl_n ctl) gi]) c);;
    for_each (seqZ 0 n) (fun i => shard_StartServer gi i (sn_group x gi i) (sn_mends x gi i)));;
  modify (set_s_clerks ∅ (n + 1000));;
  on_s_net (Reliable (negb unreliable)).

(** What ctl.ck.Join and ctl.ck.Leave are given. *)
Definition joinm (gis : list Z) : M sconfig (gmap Z (list string)) :=
  c ← gets (fun c => c);
  foldl (fun acc g => m ← acc;
    gg ← the_group g;
    mret (<[g_gid gg := (fun i => servername (g_gid gg) i) <$> seqZ 0 (s_n c)]> m)) (mret ∅) gis.
Definition leavem (gis : list Z) : M sconfig (list Z) :=
  foldl (fun acc g => gids ← acc; gg ← the_group g; mret (gids ++ [g_gid gg])) (mret []) gis.

(** No server's log is too big; without snapshots there are none. *)
Definition checklogs : M sconfig unit :=
  c ← gets (fun c => c);
  for_each (seqZ 0 (s_ngroups c)) (fun gi =>
    gg ← the_group gi;
    for_each (seqZ 0 (s_n c)) (fun i =>
      o ← go_index (g_saved gg) i;
      match o with
      | None => throw NilDereference
      | Some a =>
          p ← on_s_disk (read a);
          when ((0 <=? s_maxraftstate c) && (8 * s_maxraftstate c <? RaftStateSize p)) (throw ExplicitPanic);;
          when ((s_maxraftstate c <? 0) && (0 <? lenZ (ReadSnapshot p))) (throw ExplicitPanic)
      end)).

(** * Names are different *)

Lemma servername_inj gid i gid' i' :
  0 <= gid -> 0 <= gid' -> servername gid i = servername gid' i' -> gid = gid' /\ i = i'.
Proof.
  intros H H' E. unfold servername in E. apply (inj (String.append "server-")) in E.
  apply dash_split in E as [E1%(inj pretty) E2%(inj pretty)]; [done|by apply pretty_no_dash..].
Qed.

(** * What starting and stopping one server does *)

(** Everything but the network. *)
Definition frame (c : sconfig) :=
  (s_ctl c, s_ngroups c, s_n c, s_groups c, s_clerks c, s_nextClientId c, s_maxraftstate c, s_disk c).
Definition view (c : sconfig) := (frame c, servers (s_net c)).

Lemma keeps_on_s_net {A} (m : M Network A) : keeps (same servers) m -> keeps (same view) (on_s_net m).
Proof.
  intros H c a c' E. unfold on_s_net in E. destruct (m (s_net c)) as [b n| |] eqn:En; [|done..].
  injection E as <- <-. unfold same, view. f_equal. exact (H _ _ _ En).
Qed.

Lemma keeps_Enable x b : keeps (same servers) (Enable x b).
Proof. by apply keeps_modify. Qed.
Lemma keeps_Connect x y : keeps (same servers) (Connect x y).
Proof. by apply keeps_modify. Qed.
Lemma keeps_MakeEnd x : keeps (same servers) (MakeEnd x).
Proof. unfold MakeEnd. keeps_auto. by apply keeps_modify. Qed.
#[local] Hint Resolve keeps_on_s_net keeps_Enable keeps_Connect keeps_MakeEnd : keeps.

Lemma keeps_make_ends on dest names : keeps (same servers) (make_ends on dest names).
Proof. unfold make_ends, make_end. keeps_auto. Qed.
Lemma keeps_ctl_ends ctl names : keeps (same view) (ctl_ends ctl names).
Proof. unfold ctl_ends, ctrlername. keeps_auto. Qed.
#[local] Hint Resolve keeps_make_ends keeps_ctl_ends : keeps.

Lemma post_go_index {S A} (l : list A) i (s : S) (Q : A -> S -> Prop) :
  (forall x, nthZ l i = Some x -> Q x s) -> post (go_index l i) s Q.
Proof.
  intros H. unfold go_index. destruct (nthZ l i) as [x|]; [by apply post_ret, H|apply post_throw].
Qed.
Lemma post_go_update {S A} (l : list A) i x (s : S) (Q : list A -> S -> Prop) :
  (0 <= i < lenZ l -> Q (<[Z.to_nat i := x]> l) s) -> post (go_update l i x) s Q.
Proof.
  intros H. unfold go_update. destruct (nthZ l i) as [y|] eqn:E; [|apply post_throw].
  apply post_ret, H. by eapply nthZ_Some.
Qed.
Lemma post_keeps {S A} R (m : M S A) s (Q : A -> S -> Prop) :
  keeps R m -> (forall a s', R s s' -> Q a s') -> post m s Q.
Proof. intros H HQ. eapply post_mono; [apply H|]. auto. Qed.
Lemma post_on_disk {A} (m : M disk A) c (Q : A -> sconfig -> Prop) :
  post m (s_disk c) (fun a d => Q a (set_s_disk d c)) -> post (on_s_disk m) c Q.
Proof.
  intros H a c' E. unfold on_s_disk in E. destruct (m (s_disk c)) as [b d| |] eqn:Ed; [|done..].
  injection E as <- <-. by apply H.
Qed.
Lemma post_copy a d (Q : Z -> disk -> Prop) :
  (forall p, d_mem d !! a = Some p -> Q (d_next d) (grow p d)) -> post (copy_persister a) d Q.
Proof.
  intros H b d' E. destruct (d_mem d !! a) as [p|] eqn:Ep.
  - rewrite (copy_run _ _ _ Ep) in E. injection E as <- <-. by apply H.
  - unfold copy_persister, read, mbind, M_bind, gets in E. by rewrite Ep in E.
Qed.

(** Server [i] of a group was started: a new persister with [p], a new instance. *)
Record started_as (gi i : Z) (c : sconfig) (gg gg' : group) (p : Persister) (c' : sconfig) : Prop := {
  sa_old : nthZ (s_groups c) gi = Some gg;
  sa_groups : s_groups c' = <[Z.to_nat gi := gg']> (s_groups c);
  sa_gid : g_gid gg' = g_gid gg;
  sa_rows : length (g_mendnames gg') = length (g_mendnames gg);
  sa_row : 0 <= i < lenZ (g_mendnames gg);
  sa_len : 0 <= i < lenZ (g_saved gg) /\ 0 <= i < lenZ (g_servers gg);
  sa_saved : g_saved gg' = <[Z.to_nat i := Some (d_next (s_disk c))]> (g_saved gg);
  sa_servers : g_servers gg' = <[Z.to_nat i := Some (lenZ (d_insts (s_disk c)))]> (g_servers gg);
  sa_p : match nthZ (g_saved gg) i with Some (Some a) => d_mem (s_disk c) !! a = Some p | _ => p = MakePersister end;
  sa_disk : s_disk c' = mkDisk (<[d_next (s_disk c) := p]> (d_mem (s_disk c))) (d_next (s_disk c) + 1)
                          (d_insts (s_disk c) ++ [d_next (s_disk c)]);
  sa_net : servers (s_net c') = <[servername (g_gid gg) i := Some (lenZ (d_insts (s_disk c)))]> (servers (s_net c));
  sa_n : s_n c' = s_n c;
  sa_ctl : s_ctl c' = s_ctl c }.

Lemma post_put_group gi g c (Q : unit -> sconfig -> Prop) :
  (0 <= gi < lenZ (s_groups c) -> Q tt (set_s_groups (<[Z.to_nat gi := g]> (s_groups c)) c)) ->
  post (put_group gi g) c Q.
Proof.
  intros H. apply post_bind, post_gets, post_bind, post_go_update. intros Hi. apply post_modify. auto.
Qed.

Lemma post_the_group gi c (Q : group -> sconfig -> Prop) :
  (forall g, nthZ (s_groups c) gi = Some g -> Q g c) -> post (the_group gi) c Q.
Proof. intros H. by apply post_bind, post_gets, post_go_index. Qed.

Lemma shard_StartServer_post gi i names mnames c :
  post (shard_StartServer gi i names mnames) c (fun _ c' => exists gg gg' p, started_as gi i c gg gg' p c').
Proof.
  apply post_bind, post_gets, post_bind, post_the_group. intros gg Hgg.
  apply post_bind, post_go_update. intros _. apply post_bind, post_put_group. intros Hgi.
  apply post_bind. eapply post_keeps; [by apply keeps_on_s_net, keeps_make_ends|]. intros _ c1 H1.
  apply post_bind, post_go_update. intros Hrow. apply post_bind, post_put_group. intros _.
  apply post_bind. eapply post_keeps; [apply keeps_ctl_ends|]. intros _ c2 H2.
  set (gg1 := set_g_mendnames _ _) in *.
  assert (view c2 = view (set_s_groups (<[Z.to_nat gi := gg1]> (s_groups c)) c)) as Hv.
  { unfold same in H1, H2. rewrite H2. unfold view, frame in *. simpl in *. injection H1 as -> -> -> Eg -> -> -> -> ->.
    by rewrite Eg, list_insert_insert_eq. }
  assert (g_gid gg1 = g_gid gg /\ length (g_mendnames gg1) = length (g_mendnames gg) /\
    g_saved gg1 = g_saved gg /\ g_servers gg1 = g_servers gg) as (E1 & E2 & E3 & E4).
  { unfold gg1. simpl. by rewrite length_insert. }
  clearbody gg1. clear H1 H2 c1. unfold view, frame in Hv. simpl in Hv. injection Hv as V1 V2 V3 V4 V5 V6 V7 V8 V9.
  rewrite E3. apply post_bind, post_go_index. intros o Ho.
  apply post_bind. apply post_mono with (Q := fun a c' => exists p,
    a = d_next (s_disk c) /\ c' = set_s_disk (grow p (s_disk c)) c2 /\
    match o with Some a => d_mem (s_disk c) !! a = Some p | None => p = MakePersister end).
  { destruct o as [a|]; apply post_on_disk; rewrite V8.
    - apply post_copy. intros p Hp. by exists p.
    - apply post_bind, post_gets, post_bind, post_modify, post_ret. exists MakePersister. repeat split. }
  intros a c3 (p & -> & -> & Hp). apply post_bind, post_go_update. intros Hs.
  apply post_bind, post_on_disk, post_bind, post_gets, post_bind, post_modify, post_ret. simpl d_insts.
  apply post_bind, post_go_update. simpl g_servers. rewrite E4. intros Hs2.
  apply post_bind, post_put_group. intros _. apply post_modify.
  exists gg, (set_g_servers (<[Z.to_nat i := Some (lenZ (d_insts (s_disk c)))]> (g_servers gg))
    (set_g_saved (<[Z.to_nat i := Some (d_next (s_disk c))]> (g_saved gg)) gg1)), p.
  split; simpl; rewrite ?E1, ?E2, ?E4, ?V4, ?V9; try done.
  - by rewrite list_insert_insert_eq.
  - by rewrite Ho.
Qed.

(** Server [i] of a group was stopped: its persister, if it has one, is a copy. *)
Record stopped_as (gi i : Z) (c : sconfig) (gg gg' : group) (c' : sconfig) : Prop := {
  so_old : nthZ (s_groups c) gi = Some gg;
  so_groups : s_groups c' = <[Z.to_nat gi := gg']> (s_groups c);
  so_gid : g_gid gg' = g_gid gg;
  so_servers : g_servers gg' = <[Z.to_nat i := None]> (g_servers gg);
  so_len : 0 <= i < lenZ (g_saved gg) /\ 0 <= i < lenZ (g_servers gg);
  so_disk : (nthZ (g_saved gg) i = Some None /\ g_saved gg' = g_saved gg /\ s_disk c' = s_disk c) \/
    (exists a p, nthZ (g_saved gg) i = Some (Some a) /\ d_mem (s_disk c) !! a = Some p /\
       g_saved gg' = <[Z.to_nat i := Some (d_next (s_disk c))]> (g_saved gg) /\ s_disk c' = grow p (s_disk c));
  so_net : servers (s_net c') = <[servername (g_gid gg) i := None]> (servers (s_net c));
  so_n : s_n c' = s_n c }.

Lemma shard_ShutdownServer_post gi i c :
  post (shard_ShutdownServer gi i) c (fun _ c' => exists gg gg', stopped_as gi i c gg gg' c').
Proof.
  apply post_bind, post_the_group. intros gg Hgg. apply post_bind, post_go_index. intros row _.
  apply post_bind. eapply post_keeps; [|intros _ c1 H1].
  { apply (keeps_for_each (same view)). intros j. keeps_auto. }
  apply post_bind, post_go_index. intros mrow _. apply post_bind. eapply post_keeps; [|intros _ c2 H2].
  { apply (keeps_for_each (same view)). intros x. auto with keeps. }
  unfold same in H1, H2. rewrite H1 in H2. clear H1 c1. unfold view, frame in H2.
  injection H2 as V1 V2 V3 V4 V5 V6 V7 V8 V9.
  apply post_bind, post_modify, post_bind, post_go_index. intros o Ho. apply post_bind.
  set (c3 := set_s_net _ c2).
  apply post_mono with (Q := fun g c' => exists d, c' = set_s_disk d (set_s_groups (<[Z.to_nat gi := g]> (s_groups c3)) c3) /\
    g_gid g = g_gid gg /\ g_servers g = g_servers gg /\
    ((o = None /\ g_saved g = g_saved gg /\ d = s_disk c) \/
     (exists a p, o = Some a /\ d_mem (s_disk c) !! a = Some p /\
       g_saved g = <[Z.to_nat i := Some (d_next (s_disk c))]> (g_saved gg) /\ d = grow p (s_disk c)))).
  { destruct o as [a|].
    - apply post_bind, post_on_disk. simpl. rewrite V8. apply post_copy. intros p Hp.
      apply post_bind, post_go_update. intros Hi. apply post_bind, post_put_group. intros _. apply post_ret.
      exists (grow p (s_disk c)). split; [done|]. do 2 (split; [done|]). right. by exists a, p.
    - apply post_ret. exists (s_disk c). split; [|by do 2 (split; [done|]); left]. rewrite list_insert_id.
      + destruct c3 eqn:E3. unfold c3, set_s_disk, set_s_groups in *. simpl in *. injection E3. intros. subst. by rewrite V8.
      + simpl. rewrite V4. apply nthZ_Some in Hgg as Hr. by rewrite nthZ_nat in Hgg by lia. }
  intros g c4 (d & -> & G1 & G2 & HD). apply post_bind, post_go_index. intros kv Hkv. rewrite G2 in Hkv.
  apply nthZ_Some in Ho as Hi, Hkv as Hi2.
  assert (forall g' c', s_groups c' = <[Z.to_nat gi := g']> (s_groups c) -> g_gid g' = g_gid gg -> g_saved g' = g_saved g ->
    g_servers g' = <[Z.to_nat i := None]> (g_servers gg) -> s_disk c' = d -> s_net c' = s_net c3 -> s_n c' = s_n c ->
    exists gg gg', stopped_as gi i c gg gg' c') as Hfin.
  { intros g' c' E1 E2 E3 E4 E5 E6 E7. exists gg, g'. split; try done.
    - rewrite E3, E5, Ho. destruct HD as [(-> & -> & ->)|(a & p & -> & ?)]; [by left|right; by exists a, p].
    - rewrite E6. simpl. by rewrite V9. }
  destruct kv as [k|].
  - apply post_bind, post_go_update. intros _. apply post_put_group. intros _.
    eapply (Hfin (set_g_servers _ g)); simpl; rewrite ?V4, ?list_insert_insert_eq, ?G2; done.
  - apply post_ret. apply (Hfin g); simpl; rewrite ?V4; try done. rewrite G2. symmetry. apply list_insert_id.
    by rewrite nthZ_nat in Hkv by lia.
Qed.

(** * A test has three servers per group *)

Lemma for_each_reaches {S A} (R : S -> S -> Prop) `{!PreOrder R} (f : A -> M S unit) l x s s' :
  (forall y, keeps R (f y)) -> for_each l f s = Done tt s' -> x ∈ l ->
  exists s1 s2, R s s1 /\ f x s1 = Done tt s2 /\ R s2 s'.
Proof.
  intros Hf. revert s. induction l as [|y l IH]; intros s E Hx; [by apply elem_of_nil in Hx|].
  cbn [for_each] in E. apply bind_inv in E as ([] & s1 & E1 & E2). apply elem_of_cons in Hx as [->|Hx].
  - exists s, s1. split; [reflexivity|]. split; [done|]. exact (keeps_for_each R l f Hf _ _ _ E2).
  - destruct (IH s1 E2 Hx) as (s2 & s3 & H1 & H2 & H3). exists s2, s3. split; [|done].
    transitivity s1; [|done]. exact (Hf _ _ _ _ E1).
Qed.

(** What no start of a server changes. *)
Definition shape (c : sconfig) := (s_n c, s_ctl c, (fun g => length (g_mendnames g)) <$> s_groups c).

Lemma StartServer_shape gi i names mnames : keeps (same shape) (shard_StartServer gi i names mnames).
Proof.
  intros c. eapply post_mono; [apply shard_StartServer_post|]. intros _ c' (gg & gg' & p & H).
  unfold same, shape. rewrite (sa_n _ _ _ _ _ _ _ H), (sa_ctl _ _ _ _ _ _ _ H), (sa_groups _ _ _ _ _ _ _ H).
  f_equal. rewrite list_fmap_insert, (sa_rows _ _ _ _ _ _ _ H). apply list_insert_id.
  pose proof (sa_old _ _ _ _ _ _ _ H) as Ho. apply nthZ_Some in Ho as Hi. rewrite nthZ_nat in Ho by lia.
  by rewrite list_lookup_fmap, Ho.
Qed.

Lemma StartCtrlerServer_post ctl i names c :
  post (StartCtrlerServer ctl i names) c (fun ctl' c' =>
    ctl_n ctl' = ctl_n ctl /\ s_groups c' = s_groups c /\ s_n c' = s_n c).
Proof.
  apply post_bind. eapply post_keeps; [apply keeps_ctl_ends|]. intros _ c1 H1.
  unfold same, view, frame in H1. injection H1 as _ _ E1 E2 _ _ _ _ _.
  apply post_bind, post_on_disk, post_bind, post_gets, post_bind, post_modify, post_ret.
  apply post_bind, post_on_disk, post_bind, post_gets, post_bind, post_modify, post_ret.
  apply post_bind, post_go_update. intros _. apply post_bind, post_go_index. intros server _.
  apply post_bind, post_modify, post_ret. done.
Qed.

Lemma StartCtrlerService_post cnames names knames c :
  post (StartCtrlerService cnames names knames) c (fun ctl c' =>
    ctl_n ctl = 3 /\ s_groups c' = s_groups c /\ s_n c' = s_n c).
Proof.
  apply post_bind. set (ctl0 := mkCtrler _ _ _). apply post_mono with (Q := fun ctl c' =>
    ctl_n ctl = 3 /\ s_groups c' = s_groups c /\ s_n c' = s_n c).
  - generalize (seqZ 0 3). intros l. induction l as [|i l IH] using rev_ind; [by apply post_ret|].
    rewrite foldl_app. cbn [foldl]. apply post_bind. eapply post_mono; [apply IH|].
    intros ctl c1 (H1 & H2 & H3). eapply post_mono; [apply StartCtrlerServer_post|].
    cbv beta. intros ctl' c2 (-> & -> & ->). done.
  - intros ctl c1 (H1 & H2 & H3). apply post_bind. eapply post_keeps; [apply keeps_ctl_ends|].
    intros _ c2 V. unfold same, view, frame in V. injection V as _ _ E1 E2 _ _ _ _ _.
    apply post_ret. by rewrite E1, E2.
Qed.

Lemma makeClient_room ck ctl names c c' :
  shard_makeClient ck ctl names c = Done tt c' -> forall j, 0 <= j < ctl_n ctl -> j < s_n c.
Proof.
  intros E j Hj. unfold shard_makeClient in E. rewrite bind_gets in E. apply bind_inv in E as (e & c1 & E & _).
  revert E. set (step := fun acc j => _). intros E.
  assert (forall l, post (foldl step (mret (replicate (Z.to_nat (s_n c)) ""%string)) l) c
    (fun e _ => length e = Z.to_nat (s_n c) /\ Forall (fun j => j < s_n c) l)) as H.
  { intros l. induction l as [|i l IH] using rev_ind; [apply post_ret; by rewrite length_replicate|].
    rewrite foldl_app. cbn [foldl]. unfold step at 1. apply post_bind. eapply post_mono; [apply IH|].
    cbv beta. intros e1 c2 [Hl Hf]. apply post_bind, post_go_index. intros x _.
    apply post_bind, post_go_update. intros Hi. repeat (apply post_bind; intros ? ? _). apply post_ret.
    rewrite length_insert. split; [done|]. apply Forall_app. split; [done|]. constructor; [lia|done]. }
  destruct (H _ _ _ E) as [_ Hf]. rewrite Forall_forall in Hf. apply Hf, elem_of_seqZ. lia.
Qed.

(** * A group down and up again *)

(** What server [i] of group [gi] would restart with. *)
Definition s_content (c : sconfig) (gi i : Z) : option Persister :=
  match nthZ (s_groups c) gi with
  | Some gg => match nthZ (g_saved gg) i with Some (Some a) => d_mem (s_disk c) !! a | _ => None end
  | None => None
  end.

(** Persisters in use were allocated. *)
Definition disk_fresh (c : sconfig) : Prop :=
  forall gi gg i a, nthZ (s_groups c) gi = Some gg -> nthZ (g_saved gg) i = Some (Some a) -> a < d_next (s_disk c).

(** Server [i] is registered under its name, as the instance the group holds, which
    runs on the persister the group has saved. *)
Definition running (c : sconfig) (gi gid i : Z) : Prop :=
  exists gg k a, nthZ (s_groups c) gi = Some gg /\ server_of (s_net c) (servername gid i) = Some k /\
    nthZ (g_servers gg) i = Some (Some k) /\ nthZ (g_saved gg) i = Some (Some a) /\
    nthZ (d_insts (s_disk c)) k = Some a.

(** A group got a new row: the old persisters and what is in them stay. *)
Lemma new_persister gi i gg gg' p c c' :
  disk_fresh c -> nthZ (s_groups c) gi = Some gg -> s_groups c' = <[Z.to_nat gi := gg']> (s_groups c) ->
  0 <= i < lenZ (g_saved gg) -> g_saved gg' = <[Z.to_nat i := Some (d_next (s_disk c))]> (g_saved gg) ->
  d_mem (s_disk c') = <[d_next (s_disk c) := p]> (d_mem (s_disk c)) -> d_next (s_disk c') = d_next (s_disk c) + 1 ->
  (forall q, s_content c gi i = Some q -> p = q) ->
  disk_fresh c' /\ forall gj j q, s_content c gj j = Some q -> s_content c' gj j = Some q.
Proof.
  intros Hd Hg Eg Hi Es Em En Hp. apply nthZ_Some in Hg as Hgi. split.
  - intros gj g j a. rewrite Eg, nthZ_insert, En by lia. case_decide as E.
    + intros [= <-]. rewrite Es, nthZ_insert by lia. case_decide; [intros [= <-]; lia|].
      intros Ha. pose proof (Hd _ _ _ _ Hg Ha). lia.
    + intros H1 H2. pose proof (Hd _ _ _ _ H1 H2). lia.
  - intros gj j q Hq. pose proof Hq as Hq'. unfold s_content in Hq |- *. rewrite Eg, nthZ_insert, Em by lia. case_decide as E.
    + subst gj. rewrite Hg in Hq. rewrite Es, nthZ_insert by lia. case_decide as E'.
      * subst j. rewrite lookup_insert_eq. by rewrite (Hp _ Hq').
      * destruct (nthZ (g_saved gg) j) as [[a|]|] eqn:Ea; [|done..].
        pose proof (Hd _ _ _ _ Hg Ea). by rewrite lookup_insert_ne by lia.
    + destruct (nthZ (s_groups c) gj) as [g|] eqn:Egj; [|done].
      destruct (nthZ (g_saved g) j) as [[a|]|] eqn:Ea; [|done..].
      pose proof (Hd _ _ _ _ Egj Ea). by rewrite lookup_insert_ne by lia.
Qed.

(** What holds of all states between [c] and the end. *)
Record keeps_group (gi gid : Z) (js : list Z) (c c' : sconfig) : Prop := {
  kg_n : s_n c' = s_n c;
  kg_gid : exists gg, nthZ (s_groups c') gi = Some gg /\ g_gid gg = gid;
  kg_fresh : disk_fresh c';
  kg_content : forall gj j q, s_content c gj j = Some q -> s_content c' gj j = Some q;
  kg_other : forall name, (forall i, i ∈ js -> name <> servername gid i) ->
    server_of (s_net c') name = server_of (s_net c) name }.

Lemma stopped_keeps gi i gid c gg gg' c' :
  disk_fresh c -> g_gid gg = gid -> stopped_as gi i c gg gg' c' ->
  keeps_group gi gid [i] c c' /\ server_of (s_net c') (servername gid i) = None.
Proof.
  intros Hd <- [S1 S2 S3 S4 [S5 _] S6 S7 S8]. apply nthZ_Some in S1 as Hgi.
  assert (disk_fresh c' /\ forall gj j q, s_content c gj j = Some q -> s_content c' gj j = Some q) as [H1 H2].
  { destruct S6 as [(E1 & E2 & E3)|(a & p & E1 & E2 & E3 & E4)].
    - split.
      + intros gj g j a. rewrite S2, nthZ_insert, E3 by lia. case_decide; [|exact (Hd gj g j a)].
        intros [= <-]. rewrite E2. exact (Hd gi gg j a S1).
      + intros gj j q Hq. unfold s_content in *. rewrite S2, nthZ_insert, E3 by lia. case_decide as E; [|done].
        subst gj. rewrite S1 in Hq. by rewrite E2.
    - eapply (new_persister gi i gg gg' p); try done; try (by rewrite E4).
      intros q. unfold s_content. rewrite S1, E1, E2. congruence. }
  split; [split; [done| |done..|]|].
  - exists gg'. split; [|done]. by rewrite S2, nthZ_insert, decide_True by lia.
  - intros name Hn. unfold server_of. rewrite S7, lookup_insert_ne; [done|].
    intros <-. by apply (Hn i); [left|].
  - unfold server_of. by rewrite S7, lookup_insert_eq.
Qed.

Lemma started_keeps gi i gid c gg gg' p c' :
  disk_fresh c -> g_gid gg = gid -> started_as gi i c gg gg' p c' ->
  keeps_group gi gid [i] c c' /\ running c' gi gid i.
Proof.
  intros Hd <- [S1 S2 S3 _ _ [S4 S5] S6 S7 S8 S9 S10 S11 _]. apply nthZ_Some in S1 as Hgi.
  assert (nthZ (s_groups c') gi = Some gg') as Hg' by (by rewrite S2, nthZ_insert, decide_True by lia).
  destruct (new_persister gi i gg gg' p c c') as [H1 H2]; try done; try (by rewrite S9).
  { intros q. unfold s_content. rewrite S1. destruct (nthZ (g_saved gg) i) as [[a|]|]; [congruence|done..]. }
  split; [split; [done|by exists gg'|done..|]|].
  - intros name Hn. unfold server_of. rewrite S10, lookup_insert_ne; [done|].
    intros <-. by apply (Hn i); [left|].
  - exists gg', (lenZ (d_insts (s_disk c))), (d_next (s_disk c)). split; [done|]. unfold server_of.
    rewrite S10, lookup_insert_eq, S6, S7, S9, !nthZ_insert, decide_True by lia. simpl.
    rewrite decide_True by done. do 3 (split; [done|]). rewrite nthZ_nat by lia. rewrite Nat2Z.id.
    by apply list_lookup_middle.
Qed.

Lemma started_running gi i j gid c gg gg' p c' :
  0 <= gid -> g_gid gg = gid -> started_as gi i c gg gg' p c' -> j <> i -> running c gi gid j -> running c' gi gid j.
Proof.
  intros Hgid <- [S1 S2 S3 _ _ [S4 S5] S6 S7 S8 S9 S10 S11 _] Hj (g & k & a & H1 & H2 & H3 & H4 & H5).
  apply nthZ_Some in S1 as Hgi, H5 as Hk. rewrite S1 in H1. injection H1 as <-. exists gg', k, a.
  unfold server_of in *. rewrite S2, S6, S7, S9, S10, !nthZ_insert, decide_True, !decide_False by lia.
  split; [done|]. rewrite lookup_insert_ne.
  - do 3 (split; [done|]). simpl. rewrite nthZ_nat in * by lia. by apply lookup_app_l_Some.
  - intros [_ E]%servername_inj; [by rewrite E in Hj|done..].
Qed.

Lemma keeps_group_trans gi gid l1 l2 c1 c2 c3 :
  keeps_group gi gid l1 c1 c2 -> keeps_group gi gid l2 c2 c3 -> keeps_group gi gid (l1 ++ l2) c1 c3.
Proof.
  intros [A1 A2 A3 A4 A5] [B1 B2 B3 B4 B5]. split; [congruence|done..|auto|].
  intros name Hn. rewrite B5, A5; [done|..]; intros i Hi; apply Hn, elem_of_app; auto.
Qed.

(** A loop over servers of a group. *)
Lemma group_loop (f : Z -> M sconfig unit) (P : sconfig -> Z -> Prop) gi gid :
  (forall i c gg c', disk_fresh c -> nthZ (s_groups c) gi = Some gg -> g_gid gg = gid -> f i c = Done tt c' ->
     keeps_group gi gid [i] c c' /\ P c' i /\ forall j, j <> i -> P c j -> P c' j) ->
  forall l gg c c', disk_fresh c -> nthZ (s_groups c) gi = Some gg -> g_gid gg = gid -> for_each l f c = Done tt c' ->
    keeps_group gi gid l c c' /\ forall i, i ∈ l \/ P c i -> P c' i.
Proof.
  intros Hf l. induction l as [|i l IH]; intros gg c c' Hd Hg Hgid E.
  - injection E as <-. split; [|by intros i [[]%elem_of_nil|]]. split; [done|by exists gg|done..].
  - cbn [for_each] in E. apply bind_inv in E as ([] & c1 & E1 & E2).
    destruct (Hf _ _ _ _ Hd Hg Hgid E1) as (H1 & H2 & H3). destruct (kg_gid _ _ _ _ _ H1) as (g1 & Hg1 & Hgid1).
    destruct (IH g1 c1 c' (kg_fresh _ _ _ _ _ H1) Hg1 Hgid1 E2) as [H4 H5]. split.
    + exact (keeps_group_trans gi gid [i] l c c1 c' H1 H4).
    + intros j Hj. destruct (decide (j = i)) as [->|Hne]; [auto|]. apply H5.
      destruct Hj as [[|]%elem_of_cons|]; [done|by left|right; auto].
Qed.

Lemma group_shutdown gi gid gg c c' :
  0 <= gid -> disk_fresh c -> nthZ (s_groups c) gi = Some gg -> g_gid gg = gid -> ShutdownGroup gi c = Done tt c' ->
  keeps_group gi gid (seqZ 0 (s_n c)) c c' /\
  forall i, 0 <= i < s_n c -> server_of (s_net c') (servername gid i) = None.
Proof.
  intros H0 Hd Hg Hgid E. unfold ShutdownGroup in E. rewrite bind_gets in E.
  destruct (group_loop (fun i => shard_ShutdownServer gi i)
    (fun c i => server_of (s_net c) (servername gid i) = None) gi gid) with (5 := E) (gg := gg) as [H1 H2]; [|done..|].
  - intros i c1 g c2 Hd1 Hg1 Hgid1 E1. destruct (shard_ShutdownServer_post gi i c1 _ _ E1) as (g0 & g' & Hs).
    assert (g0 = g) as -> by (pose proof (so_old _ _ _ _ _ _ Hs); congruence).
    destruct (stopped_keeps gi i gid _ _ _ _ Hd1 Hgid1 Hs) as [K1 K2]. do 2 (split; [done|]).
    intros j Hj Hp. rewrite (kg_other _ _ _ _ _ K1); [done|].
    intros x ->%list_elem_of_singleton [_ Ex]%servername_inj; done.
  - split; [done|]. intros i Hi. apply H2. left. apply elem_of_seqZ. lia.
Qed.

Lemma group_start gi gid gg names mnames c c' :
  0 <= gid -> disk_fresh c -> nthZ (s_groups c) gi = Some gg -> g_gid gg = gid -> StartGroup gi names mnames c = Done tt c' ->
  keeps_group gi gid (seqZ 0 (s_n c)) c c' /\ forall i, 0 <= i < s_n c -> running c' gi gid i.
Proof.
  intros H0 Hd Hg Hgid E. unfold StartGroup in E. rewrite bind_gets in E.
  destruct (group_loop (fun i => shard_StartServer gi i (names i) (mnames i))
    (fun c i => running c gi gid i) gi gid) with (5 := E) (gg := gg) as [H1 H2]; [|done..|].
  - intros i c1 g c2 Hd1 Hg1 Hgid1 E1. destruct (shard_StartServer_post gi i _ _ c1 _ _ E1) as (g0 & g' & p & Hs).
    assert (g0 = g) as -> by (pose proof (sa_old _ _ _ _ _ _ _ Hs); congruence).
    destruct (started_keeps gi i gid _ _ _ _ _ Hd1 Hgid1 Hs) as [K1 K2]. do 2 (split; [done|]).
    intros j Hj. by apply (started_running gi i j gid _ _ _ _ _ H0 Hgid1 Hs).
  - split; [done|]. intros i Hi. apply H2. left. apply elem_of_seqZ. lia.
Qed.

(** * Theorems *)

(** A sharded test works with three servers per group only: when make_config
    succeeds and then a client can be made of it, n is 3.  With more servers
    make_config runs out of the table of ends to the controller, which has as many
    rows as the controller has servers; with fewer a client runs out of the table
    of its ends to the controller, which has as many places as a group has
    servers. *)
Theorem sharded_test_needs_three n unreliable x maxraftstate c ck names c' :
  shard_make_config n unreliable x (empty_sconfig n maxraftstate) = Done tt c ->
  shard_makeClient ck (s_ctl c) names c = Done tt c' ->
  n = 3.
Proof.
  intros E Ec. unfold shard_make_config in E. apply bind_inv in E as (ctl & c1 & E1 & E).
  apply (StartCtrlerService_post _ _ _ _ _ _) in E1 as (Hctl & Hg & Hn). simpl in Hg, Hn.
  apply bind_inv in E as ([] & c2 & E2 & E). injection E2 as <-.
  apply bind_inv in E as ([] & c3 & E3 & E). apply bind_inv in E as ([] & c4 & E4 & E5).
  injection E4 as <-. injection E5 as <-. simpl in Ec.
  assert (s_n c3 = n /\ s_ctl c3 = ctl) as [Hn3 Hctl3].
  { assert (keeps (same (fun c => (s_n c, s_ctl c))) (for_each (seqZ 0 3) (fun gi =>
      modify (fun c => set_s_groups (s_groups c ++ [new_group n (ctl_n ctl) gi]) c);;
      for_each (seqZ 0 n) (fun i => shard_StartServer gi i (sn_group x gi i) (sn_mends x gi i))))) as K.
    { keeps_auto; [by apply keeps_modify|]. eapply keeps_mono; [|apply StartServer_shape].
      unfold same, shape. congruence. }
    pose proof (K _ _ _ E3) as K3. unfold same in K3. simpl in K3. by injection K3 as -> ->. }
  pose proof (makeClient_room _ _ _ _ _ Ec 2) as H3. simpl in H3. rewrite Hctl3, Hn3 in H3.
  change (seqZ 0 3) with [0; 1; 2] in E3. cbn [for_each] in E3. apply bind_inv in E3 as ([] & c5 & E3 & _).
  apply bind_inv in E3 as ([] & c6 & E6 & E3). injection E6 as <-.
  destruct (decide (3 < n)) as [Hlt|]; [|lia]. exfalso.
  eapply (for_each_reaches (same shape)) with (x := 3) in E3 as (s1 & s2 & R1 & E6 & _).
  - destruct (shard_StartServer_post _ _ _ _ _ _ _ E6) as (gg & gg' & p & Hs). unfold same, shape in R1. simpl in R1.
    injection R1 as _ _ R1. pose proof (sa_old _ _ _ _ _ _ _ Hs) as Ho. pose proof (sa_row _ _ _ _ _ _ _ Hs) as Hr.
    rewrite nthZ_nat in Ho by lia. apply (f_equal (fmap (fun g => length (g_mendnames g)))) in Ho.
    rewrite <- list_lookup_fmap, R1, Hg in Ho. simpl in Ho. rewrite length_replicate, Hctl in Ho.
    injection Ho as Ho. lia.
  - intros i. apply StartServer_shape.
  - apply elem_of_seqZ. lia.
Qed.

(** A group can be shut down and started again: after ShutdownGroup no server of
    the group is registered with the network, after StartGroup each is, under the
    name that join tells the controller, as the instance that the group holds and
    that runs on the group's saved persister; neither touches a server of another
    name, and what was saved for any server of any group is still saved. *)
Theorem group_restarts gi gg c c1 c2 names mnames :
  disk_fresh c -> nthZ (s_groups c) gi = Some gg -> 0 <= g_gid gg ->
  ShutdownGroup gi c = Done tt c1 -> StartGroup gi names mnames c1 = Done tt c2 ->
  (forall i, 0 <= i < s_n c -> server_of (s_net c1) (servername (g_gid gg) i) = None) /\
  (exists m sns, joinm [gi] c2 = Done m c2 /\ m !! g_gid gg = Some sns /\ lenZ sns = Z.max 0 (s_n c) /\
     forall i name, nthZ sns i = Some name ->
       name = servername (g_gid gg) i /\ running c2 gi (g_gid gg) i) /\
  (forall name, (forall i, 0 <= i < s_n c -> name <> servername (g_gid gg) i) ->
     server_of (s_net c1) name = server_of (s_net c) name /\ server_of (s_net c2) name = server_of (s_net c) name) /\
  (forall gj j p, s_content c gj j = Some p -> s_content c1 gj j = Some p /\ s_content c2 gj j = Some p).
Proof.
  intros Hd Hg H0 E1 E2. destruct (group_shutdown gi _ gg c c1 H0 Hd Hg eq_refl E1) as [K1 HN].
  destruct (kg_gid _ _ _ _ _ K1) as (g1 & Hg1 & Hgid1).
  destruct (group_start gi _ g1 names mnames c1 c2 H0 (kg_fresh _ _ _ _ _ K1) Hg1 Hgid1 E2) as [K2 HR].
  destruct (kg_gid _ _ _ _ _ K2) as (g2 & Hg2 & Hgid2).
  pose proof (kg_n _ _ _ _ _ K1) as N1. pose proof (kg_n _ _ _ _ _ K2) as N2. rewrite N1 in *.
  split; [done|]. split; [|split].
  - eexists _, ((fun i => servername (g_gid gg) i) <$> seqZ 0 (s_n c)). split; [|split; [|split]].
    + unfold joinm, the_group. rewrite bind_gets. cbn [foldl]. rewrite bind_ret.
      erewrite bind_done; [|rewrite bind_gets; by apply go_index_ok]. rewrite Hgid2, N2. reflexivity.
    + by rewrite lookup_insert_eq.
    + rewrite length_fmap, length_seqZ. lia.
    + intros i name Hi. apply nthZ_Some in Hi as Hr. rewrite length_fmap, length_seqZ in Hr.
      rewrite nthZ_nat, list_lookup_fmap, lookup_seqZ_lt in Hi by lia. simpl in Hi. injection Hi as <-.
      replace (0 + Z.of_nat (Z.to_nat i)) with i by lia. split; [done|]. apply HR. lia.
  - intros name Hn. assert (forall i, i ∈ seqZ 0 (s_n c) -> name <> servername (g_gid gg) i) as Hn'.
    { intros i Hi%elem_of_seqZ. apply Hn. lia. }
    rewrite (kg_other _ _ _ _ _ K2), (kg_other _ _ _ _ _ K1) by done. done.
  - intros gj j p Hp. pose proof (kg_content _ _ _ _ _ K1 _ _ _ Hp). split; [done|].
    by apply (kg_content _ _ _ _ _ K2).
Qed.

(** * A test with three servers per group *)

Definition row_of_names (pre : string) (i : Z) : list string :=
  (fun j => pre +:+ pretty i +:+ "-" +:+ pretty j)%string <$> seqZ 0 3.
Definition demo_names (pre : string) : shard_names :=
  mkNames ["A"; "B"; "C"]%string (row_of_names (pre +:+ "e"))%string (row_of_names (pre +:+ "k")%string 0)
    (fun gi => row_of_names (pre +:+ "g" +:+ pretty gi +:+ "-")%string)
    (fun gi => row_of_names (pre +:+ "m" +:+ pretty gi +:+ "-")%string).
Definition final {S A} (m : M S A) (s : S) : S := match m s with Done _ s' | Panicked _ s' | Blocked s' => s' end.
Definition is_done {S A} (m : M S A) (s : S) : bool := match m s with Done _ _ => true | _ => false end.
Lemma final_done {S} (m : M S unit) s : is_done m s = true -> m s = Done tt (final m s).
Proof. unfold is_done, final. by destruct (m s) as [[] s'| |]. Qed.

Definition demo_sconfig : sconfig := final (shard_make_config 3 false (demo_names "x")) (empty_sconfig 3 1000).

Definition demo_down : sconfig := final (ShutdownGroup 1) demo_sconfig.
Definition demo_up : sconfig :=
  final (StartGroup 1 (sn_group (demo_names "y") 1) (sn_mends (demo_names "y") 1)) demo_down.

Definition demo_client : M sconfig unit := shard_makeClient 0 (s_ctl demo_sconfig) (row_of_names "c" 0).

Lemma demo_made : shard_make_config 3 false (demo_names "x") (empty_sconfig 3 1000) = Done tt demo_sconfig.
Proof. refine (final_done (shard_make_config 3 false (demo_names "x")) (empty_sconfig 3 1000) _). by vm_compute. Qed.
Lemma demo_client_made : demo_client demo_sconfig = Done tt (final demo_client demo_sconfig).
Proof. refine (final_done demo_client demo_sconfig _). by vm_compute. Qed.
Lemma demo_shut : ShutdownGroup 1 demo_sconfig = Done tt demo_down.
Proof. refine (final_done (ShutdownGroup 1) demo_sconfig _). by vm_compute. Qed.
Lemma demo_restarted :
  StartGroup 1 (sn_group (demo_names "y") 1) (sn_mends (demo_names "y") 1) demo_down = Done tt demo_up.
Proof.
  refine (final_done (StartGroup 1 (sn_group (demo_names "y") 1) (sn_mends (demo_names "y") 1)) demo_down _).
  by vm_compute.
Qed.

Lemma sharded_test_needs_three_witness :
  shard_make_config 3 false (demo_names "x") (empty_sconfig 3 1000) = Done tt demo_sconfig /\
  shard_makeClient 0 (s_ctl demo_sconfig) (row_of_names "c" 0) demo_sconfig = Done tt (final demo_client demo_sconfig) /\
  3 = 3.
Proof.
  split; [exact demo_made|]. split; [exact demo_client_made|].
  exact (sharded_test_needs_three 3 false (demo_names "x") 1000 _ 0 _ _ demo_made demo_client_made).
Defined.

Lemma demo_fresh : disk_fresh demo_sconfig.
Proof.
  assert (forallb (fun gg => forallb (fun o => match o with Some a => a <? d_next (s_disk demo_sconfig) | None => true end)
    (g_saved gg)) (s_groups demo_sconfig) = true) as H by (vm_compute; reflexivity).
  intros gi gg i a Hg Ha. rewrite forallb_forall in H. apply nthZ_Some in Hg as Hgi, Ha as Hi.
  rewrite nthZ_nat in Hg by lia. rewrite nthZ_nat in Ha by lia. apply list_elem_of_lookup_2, list_elem_of_In in Hg, Ha.
  apply H in Hg. rewrite forallb_forall in Hg. apply Hg in Ha. lia.
Qed.

Lemma group_restarts_witness :
  ShutdownGroup 1 demo_sconfig = Done tt demo_down /\ server_of (s_net demo_down) "server-101-2" = None /\
  running demo_up 1 101 2 /\ server_of (s_net demo_up) "server-100-2" = server_of (s_net demo_sconfig) "server-100-2".
Proof.
  destruct (nthZ (s_groups demo_sconfig) 1) as [gg|] eqn:Hg; [|vm_compute in Hg; discriminate].
  assert (g_gid gg = 101) as Hgid by (vm_compute in Hg; by injection Hg as <-).
  assert (s_n demo_sconfig = 3) as Hn by (vm_compute; reflexivity).
  destruct (group_restarts 1 gg _ _ _ _ _ demo_fresh Hg ltac:(lia) demo_shut demo_restarted) as (H1 & (m & sns & _ & _ & Hl & H2) & H3 & _).
  rewrite Hgid, Hn in *. split; [exact demo_shut|]. split; [apply (H1 2); lia|]. split.
  - destruct (nthZ_in_range sns 2) as [name Hname]; [lia|]. by apply (H2 2 name).
  - apply H3. intros i _. assert ("server-100-2" = servername 100 2)%string as -> by (vm_compute; reflexivity).
    intros [E _]%servername_inj; lia.
Defined.
