(* ===== verification/TestRun.v ===== *)
(** The frame of a test, which raft/config.go, kvraft/config.go, kvsrv/config.go,
    shardctrler/config.go and shardkv/config.go repeat: the time limit, the
    statistics that begin and end keep, and the clean-up at the end.

    What a set-up of servers brings is an instance of [TestBed]: its network, its
    number of peers, and the killing of its servers.  The clock is the
    argument [late]: 120 seconds have passed since make_config.  A server that is killed
    is named by its instance. *)

From S2P Require Import Prelude Network Links RaftTypes Persist RaftConfig KvConfig KvSrvConfig ShardConfig.

Class TestBed (C : Type) := {
  bed_net : forall A, M Network A -> M C A;
  bed_n : C -> Z;
  bed_kill : M C (list Z);
  bed_pure : forall A (f : Network -> A) (c : C), exists a, bed_net A (gets f) c = Done a c }.

(** cfg.rafts[i].Kill() of every server that is there. *)
Definition kill_all {C} (servers : C -> list (option Z)) : M C (list Z) := gets (fun c => omap id (servers c)).

#[export] Program Instance raft_bed : TestBed config :=
  {| bed_net A m := on_links (on_l_net m); bed_n := c_n; bed_kill := kill_all c_rafts |}.
Next Obligation. intros A f c. exists (f (l_net (c_links c))). unfold on_links, on_l_net. by destruct c as [[]]. Qed.

#[export] Program Instance kv_bed : TestBed kvconfig :=
  {| bed_net A m := on_network m; bed_n k := c_n (k_base k); bed_kill := kill_all (fun k => c_rafts (k_base k)) |}.
Next Obligation.
  intros A f c. exists (f (l_net (c_links (k_base c)))). unfold on_network, on_wires, on_base, on_links, on_l_net.
  by destruct c as [[[]]].
Qed.

(** There is one server, and it is not killed. *)
#[export] Program Instance srv_bed : TestBed srvconfig :=
  {| bed_net A m := on_v_net m; bed_n _ := 1; bed_kill := mret [] |}.
Next Obligation. intros A f c. exists (f (v_net c)). unfold on_v_net. by destruct c. Qed.

(** The groups are shut down, then the servers of the controller are killed: Kill of a server that
    is not there is a method of nil. *)
Fixpoint kill_ctrlers (servers : list (option Z)) : M sconfig (list Z) :=
  match servers with
  | [] => mret []
  | None :: _ => throw NilDereference
  | Some k :: servers => ks ← kill_ctrlers servers; mret (k :: ks)
  end.
Definition shard_kill : M sconfig (list Z) :=
  c ← gets (fun c => c);
  for_each (seqZ 0 (s_ngroups c)) ShutdownGroup;;
  c ← gets (fun c => c);
  kill_ctrlers (ctl_servers (s_ctl c)).
#[export] Program Instance shard_bed : TestBed sconfig :=
  {| bed_net A m := on_s_net m; bed_n := s_n; bed_kill := shard_kill |}.
Next Obligation. intros A f c. exists (f (s_net c)). unfold on_s_net. by destruct c. Qed.

Section test.
Context {C : Type} `{!TestBed C}.

(** [ts_failed] is t.Failed(); [ts_ops] counts the clerks' operations, [ts_maxIndex] is the largest
    index that was applied. *)
Record test := mkTest {
  ts_cfg : C; ts_failed : bool; ts_finished : Z; ts_rpcs0 : Z; ts_bytes0 : Z; ts_cmds0 : Z; ts_ops : Z;
  ts_maxIndex : Z; ts_maxIndex0 : Z }.

Definition set_ts_cfg c t : test :=
  mkTest c (ts_failed t) (ts_finished t) (ts_rpcs0 t) (ts_bytes0 t) (ts_cmds0 t) (ts_ops t) (ts_maxIndex t) (ts_maxIndex0 t).
Definition set_ts_failed b t : test :=
  mkTest (ts_cfg t) b (ts_finished t) (ts_rpcs0 t) (ts_bytes0 t) (ts_cmds0 t) (ts_ops t) (ts_maxIndex t) (ts_maxIndex0 t).
Definition set_ts_finished z t : test :=
  mkTest (ts_cfg t) (ts_failed t) z (ts_rpcs0 t) (ts_bytes0 t) (ts_cmds0 t) (ts_ops t) (ts_maxIndex t) (ts_maxIndex0 t).
Definition set_ts_start rpcs bytes idx t : test :=
  mkTest (ts_cfg t) (ts_failed t) (ts_finished t) rpcs bytes 0 (ts_ops t) (ts_maxIndex t) idx.
Definition on_cfg {A} (m : M C A) : M test A := fun t =>
  match m (ts_cfg t) with
  | Done a c => Done a (set_ts_cfg c t)
  | Panicked p c => Panicked p (set_ts_cfg c t)
  | Blocked c => Blocked (set_ts_cfg c t)
  end.

(** t.Fatal marks the test and ends its goroutine. *)
Definition fatal : M test unit := modify (set_ts_failed true);; throw ExplicitPanic.

Definition checkTimeout (late : bool) : M test unit :=
  t ← gets (fun t => t); when (negb (ts_failed t) && late) fatal.

Definition rpcTotal : M test Z := on_cfg (bed_net _ GetTotalCount).
Definition bytesTotal : M test Z := on_cfg (bed_net _ GetTotalBytes).
Definition setunreliable (unrel : bool) : M test unit := on_cfg (bed_net _ (Reliable (negb unrel))).
Definition setlongreordering (longrel : bool) : M test unit := on_cfg (bed_net _ (LongReordering longrel)).

Definition checkFinished : M test bool := gets (fun t => negb (ts_finished t =? 0)).

Definition begin_ : M test unit :=
  rpcs ← rpcTotal; bytes ← bytesTotal;
  modify (fun t => set_ts_start rpcs bytes (ts_maxIndex t) t).

(** The numbers a test that passed prints: peers, RPCs, bytes, agreements. *)
Definition end_ (late : bool) : M test (Z * Z * Z * Z) :=
  checkTimeout late;;
  t ← gets (fun t => t);
  if ts_failed t then throw LogFatal else
  rpcs ← rpcTotal; bytes ← bytesTotal;
  mret (bed_n (ts_cfg t), rpcs - ts_rpcs0 t, bytes - ts_bytes0 t, ts_maxIndex t - ts_maxIndex0 t).

(** The tests of the services count operations, and print nothing when they failed. *)
Definition kv_begin : M test unit :=
  rpcs ← rpcTotal;
  modify (fun t => mkTest (ts_cfg t) (ts_failed t) (ts_finished t) rpcs (ts_bytes0 t) (ts_cmds0 t) 0 (ts_maxIndex t) (ts_maxIndex0 t)).
Definition kv_op : M test unit :=
  modify (fun t => mkTest (ts_cfg t) (ts_failed t) (ts_finished t) (ts_rpcs0 t) (ts_bytes0 t) (ts_cmds0 t)
    (to_int32 (ts_ops t + 1)) (ts_maxIndex t) (ts_maxIndex0 t)).
Definition kv_end (late : bool) : M test (option (Z * Z * Z)) :=
  checkTimeout late;;
  t ← gets (fun t => t);
  if ts_failed t then mret None else
  rpcs ← rpcTotal; mret (Some (bed_n (ts_cfg t), rpcs - ts_rpcs0 t, ts_ops t)).

(** The servers are killed, the network is closed. *)
Definition kv_cleanup (late : bool) : M test (list Z) :=
  ks ← on_cfg bed_kill;
  on_cfg (bed_net _ Cleanup);;
  checkTimeout late;;
  mret ks.
Definition cleanup (late : bool) : M test (list Z) := modify (set_ts_finished 1);; kv_cleanup late.

(** A test that does nothing between begin and end reports nothing. *)
Lemma idle_test t : ts_failed t = false ->
  exists t', (begin_;; end_ false) t = Done (bed_n (ts_cfg t), 0, 0, 0) t' /\ ts_cfg t' = ts_cfg t.
Proof.
  intros Hf. destruct (bed_pure _ count (ts_cfg t)) as (a & Ea). destruct (bed_pure _ Network.bytes (ts_cfg t)) as (b & Eb).
  exists (set_ts_start a b (ts_maxIndex t) t). split; [|done]. destruct t as [c fl fi r0 b0 c0 o m m0]. simpl in *. subst fl.
  unfold begin_, end_, checkTimeout, rpcTotal, bytesTotal, GetTotalCount, GetTotalBytes, on_cfg.
  unfold mbind, M_bind, mret, M_ret, gets, modify, when. simpl. unfold gets in Ea, Eb.
  rewrite Ea. simpl. rewrite Eb. simpl. rewrite Ea. simpl. rewrite Eb. simpl. by rewrite !Z.sub_diag.
Qed.
End test.
Arguments test : clear implicits.
