(* ===== verification/ShardKv.v ===== *)
(** The shard controller and the sharded key/value service (shardctrler and
    shardkv: common.go, client.go, server.go).

    The servers are a skeleton: their handlers are empty.  The clerks are
    complete: they look a key's shard up in the controller's configuration and try
    the servers of its group, for ever.

    What a call brings is an argument: [ctl k i] is what the clerk's [k]-th call
    brings when it goes to the controller's server [i], and [kv k name] when it goes
    to the server of that name; [None] is a call that failed.  [fuel] bounds the
    rounds of the clerks' endless loops; a clerk out of fuel is still trying.  A
    clerk's log has the calls it made. *)

From Stdlib Require Import Ascii.
From S2P Require Import Prelude Utf8.

(** * common.go *)

Definition NShards : Z := 10.

Record Config := mkConfig { Num : Z; Shards : list Z; Groups : gmap Z (list string) }.
Definition zero_Config : Config := mkConfig 0 (replicate (Z.to_nat NShards) 0) ∅.

Definition OK : string := "OK".
Definition ErrNoKey : string := "ErrNoKey".
Definition ErrWrongGroup : string := "ErrWrongGroup".
Definition ErrWrongLeader : string := "ErrWrongLeader".

Record JoinArgs := mkJoinArgs { ja_Servers : gmap Z (list string) }.
Record LeaveArgs := mkLeaveArgs { la_GIDs : list Z }.
Record MoveArgs := mkMoveArgs { ma_Shard : Z; ma_GID : Z }.
Record QueryArgs := mkQueryArgs { qa_Num : Z }.

(** JoinReply, LeaveReply and MoveReply. *)
Record CtlReply := mkCtlReply { cr_WrongLeader : bool; cr_Err : string }.
Record QueryReply := mkQueryReply { qr_WrongLeader : bool; qr_Err : string; qr_Config : Config }.

Record ShardPutAppendArgs := mkPA { pa_Key : string; pa_Value : string; pa_Op : string }.
Record ShardPutAppendReply := mkPAR { par_Err : string }.
Record GetArgs := mkGA { ga_Key : string }.
Record GetReply := mkGR { gr_Err : string; gr_Value : string }.

(** * server.go *)

Record ShardCtrler := mkShardCtrler { sc_me : Z; configs : list Config }.

Definition StartShardCtrler (me : Z) : ShardCtrler := mkShardCtrler me [zero_Config].

(** A handler fills in a reply that is zero when it is called; these do not. *)
Definition zero_CtlReply : CtlReply := mkCtlReply false "".
Definition zero_QueryReply : QueryReply := mkQueryReply false "" zero_Config.
Definition ctl_Join (args : JoinArgs) : M ShardCtrler CtlReply := mret zero_CtlReply.
Definition ctl_Leave (args : LeaveArgs) : M ShardCtrler CtlReply := mret zero_CtlReply.
Definition ctl_Move (args : MoveArgs) : M ShardCtrler CtlReply := mret zero_CtlReply.
Definition ctl_Query (args : QueryArgs) : M ShardCtrler QueryReply := mret zero_QueryReply.

Record ShardKV := mkShardKV { skv_me : Z; skv_gid : Z; skv_maxraftstate : Z }.
Definition StartShardKV (me maxraftstate gid : Z) : ShardKV := mkShardKV me gid maxraftstate.
Definition skv_Get (args : GetArgs) : M ShardKV GetReply := mret (mkGR "" "").
Definition skv_PutAppend (args : ShardPutAppendArgs) : M ShardKV ShardPutAppendReply := mret (mkPAR "").

(** * The clerks *)

Inductive called : Type :=
  | ToCtl (server : Z)
  | ToKv (server : string).

Record SClerk := mkSClerk { ck_config : Config; ck_log : list called }.
Definition new_clerk : SClerk := mkSClerk (mkConfig 0 (replicate (Z.to_nat NShards) 0) ∅) [].

(** One call; it is counted. *)
Definition make_call {R} (answer : nat -> option R) (to : called) : M SClerk (option R) :=
  ck ← gets (fun ck => ck);
  modify (fun ck => mkSClerk (ck_config ck) (ck_log ck ++ [to]));;
  mret (answer (length (ck_log ck))).

(** Which server leads, in the controller's replies. *)
Class HasLeader (R : Type) := wrong_leader : R -> bool.
#[export] Instance CtlReply_leader : HasLeader CtlReply := cr_WrongLeader.
#[export] Instance QueryReply_leader : HasLeader QueryReply := qr_WrongLeader.

Section controller_clerk.
Context {R : Type} `{!HasLeader R} (ctl : nat -> Z -> option R).

(** Each known server in turn. *)
Fixpoint ask_servers (servers : list Z) : M SClerk (option R) :=
  match servers with
  | [] => mret None
  | srv :: servers =>
      reply ← make_call (fun k => ctl k srv) (ToCtl srv);
      match reply with
      | Some r => if negb (wrong_leader r) then mret (Some r) else ask_servers servers
      | None => ask_servers servers
      end
  end.

Fixpoint ask (fuel : nat) (n : Z) : M SClerk R :=
  match fuel with
  | O => block
  | S fuel =>
      reply ← ask_servers (seqZ 0 n);
      match reply with Some r => mret r | None => ask fuel n end
  end.
End controller_clerk.

Definition clerk_Query (ctl : nat -> Z -> option QueryReply) (fuel : nat) (n : Z) : M SClerk Config :=
  r ← ask ctl fuel n; mret (qr_Config r).
Definition clerk_Join (ctl : nat -> Z -> option CtlReply) (fuel : nat) (n : Z) : M SClerk unit :=
  ask ctl fuel n;; mret tt.
Definition clerk_Leave (ctl : nat -> Z -> option CtlReply) (fuel : nat) (n : Z) : M SClerk unit :=
  ask ctl fuel n;; mret tt.
Definition clerk_Move (ctl : nat -> Z -> option CtlReply) (fuel : nat) (n : Z) : M SClerk unit :=
  ask ctl fuel n;; mret tt.

Definition key2shard (key : string) : Z :=
  let shard := match key with String c _ => byte_val c | EmptyString => 0 end in
  Z.rem shard NShards.

(** What a clerk does with a reply: return, look at the configuration again, or try
    the next server. *)
Inductive verdict (A : Type) : Type :=
  | Return (a : A)
  | Break
  | Next.
Arguments Return {A} a.
Arguments Break {A}.
Arguments Next {A}.

Definition get_verdict (reply : option GetReply) : verdict string :=
  match reply with
  | Some r =>
      if String.eqb (gr_Err r) OK || String.eqb (gr_Err r) ErrNoKey then Return (gr_Value r)
      else if String.eqb (gr_Err r) ErrWrongGroup then Break else Next
  | None => Next
  end.

Definition put_verdict (reply : option ShardPutAppendReply) : verdict unit :=
  match reply with
  | Some r =>
      if String.eqb (par_Err r) OK then Return tt
      else if String.eqb (par_Err r) ErrWrongGroup then Break else Next
  | None => Next
  end.

Section clerk.
Context {R A : Type} (judge : option R -> verdict A).
Context (ctl : nat -> Z -> option QueryReply) (kv : nat -> string -> option R).
Context (qfuel : nat) (n : Z).

(** Try each server for the shard. *)
Fixpoint try_servers (servers : list string) : M SClerk (option A) :=
  match servers with
  | [] => mret None
  | s :: servers =>
      reply ← make_call (fun k => kv k s) (ToKv s);
      match judge reply with
      | Return a => mret (Some a)
      | Break => mret None
      | Next => try_servers servers
      end
  end.

(** The loop of Get and PutAppend; [qfuel] is for Query. *)
Fixpoint clerk_loop (fuel : nat) (key : string) : M SClerk A :=
  match fuel with
  | O => block
  | S fuel =>
      ck ← gets (fun ck => ck);
      gid ← go_index (Shards (ck_config ck)) (key2shard key);
      r ← match Groups (ck_config ck) !! gid with
          | Some servers => try_servers servers
          | None => mret None
          end;
      match r with
      | Some a => mret a
      | None =>
          cfg ← clerk_Query ctl qfuel n;
          modify (fun ck => mkSClerk cfg (ck_log ck));;
          clerk_loop fuel key
      end
  end.
End clerk.

Definition shard_Get ctl kv qfuel n fuel (key : string) : M SClerk string :=
  clerk_loop get_verdict ctl kv qfuel n fuel key.
Definition shard_PutAppend ctl kv qfuel n fuel (key value op : string) : M SClerk unit :=
  clerk_loop put_verdict ctl (kv (mkPA key value op)) qfuel n fuel key.
Definition shard_Put ctl kv qfuel n fuel (key value : string) : M SClerk unit :=
  shard_PutAppend ctl kv qfuel n fuel key value "Put".
Definition shard_Append ctl kv qfuel n fuel (key value : string) : M SClerk unit :=
  shard_PutAppend ctl kv qfuel n fuel key value "Append".

(** * Shards and routes *)

Lemma key2shard_range key : 0 <= key2shard key < NShards.
Proof.
  unfold key2shard, NShards. destruct key as [|c key]; [done|].
  assert (0 <= byte_val c) by (unfold byte_val; lia). rewrite Z.rem_mod_nonneg by lia. apply Z.mod_pos_bound. lia.
Qed.

(** A configuration says for every shard which group has it. *)
Definition config_ok (cfg : Config) : Prop := lenZ (Shards cfg) = NShards.

Definition shard_gid (cfg : Config) (key : string) : option Z := nthZ (Shards cfg) (key2shard key).
Definition route (cfg : Config) (key : string) : option (list string) :=
  gid ← shard_gid cfg key; Groups cfg !! gid.

Lemma config_gid cfg key : config_ok cfg -> exists gid, shard_gid cfg key = Some gid.
Proof. intros H. apply nthZ_in_range. rewrite H. apply key2shard_range. Qed.

(** * What the loops do *)

(** A clerk after some calls. *)
Definition after (tr : list called) (ck : SClerk) : SClerk := mkSClerk (ck_config ck) (ck_log ck ++ tr).

Lemma after_nil ck : after [] ck = ck.
Proof. unfold after. rewrite app_nil_r. by destruct ck. Qed.
Lemma after_after tr1 tr2 ck : after tr2 (after tr1 ck) = after (tr1 ++ tr2) ck.
Proof. unfold after. simpl. by rewrite app_assoc. Qed.

Lemma make_call_run {R B} (answer : nat -> option R) to (k : option R -> M SClerk B) ck :
  (make_call answer to ≫= k) ck = k (answer (length (ck_log ck))) (after [to] ck).
Proof. done. Qed.

Section ask_facts.
Context {R : Type} `{!HasLeader R} (ctl : nat -> Z -> option R).

Definition ctl_only (tr : list called) : Prop := forall s, ~ ToKv s ∈ tr.
Lemma ctl_only_nil : ctl_only [].
Proof. by intros s []%elem_of_nil. Qed.
Lemma ctl_only_cons i tr : ctl_only tr -> ctl_only (ToCtl i :: tr).
Proof. intros H s [|]%elem_of_cons; [done|by eapply H]. Qed.
Lemma ctl_only_app tr1 tr2 : ctl_only tr1 -> ctl_only tr2 -> ctl_only (tr1 ++ tr2).
Proof. intros H1 H2 s [|]%elem_of_app; [by eapply H1|by eapply H2]. Qed.

(** A round always ends; it has no answer only if no server gave one. *)
Lemma ask_servers_run servers ck :
  exists o tr, ask_servers ctl servers ck = Done o (after tr ck) /\ ctl_only tr /\
    match o with
    | Some r => exists k i, ctl k i = Some r /\ wrong_leader r = false
    | None => forall i, i ∈ servers -> exists k, forall r, ctl k i = Some r -> wrong_leader r = true
    end.
Proof.
  revert ck. induction servers as [|i servers IH]; intros ck.
  { exists None, []. rewrite after_nil. split; [done|]. split; [apply ctl_only_nil|]. by intros i []%elem_of_nil. }
  cbn [ask_servers]. rewrite make_call_run. set (k := length (ck_log ck)).
  destruct (IH (after [ToCtl i] ck)) as (o & tr & E & Htr & Ho). rewrite after_after in E.
  assert (forall r', ctl k i = r' -> (forall r, r' = Some r -> wrong_leader r = true) ->
    exists o tr, ask_servers ctl servers (after [ToCtl i] ck) = Done o (after tr ck) /\ ctl_only tr /\
    match o with
    | Some r => exists k i, ctl k i = Some r /\ wrong_leader r = false
    | None => forall j, j ∈ i :: servers -> exists k, forall r, ctl k j = Some r -> wrong_leader r = true
    end) as Hnext.
  { intros r' Hr' Hw. exists o, ([ToCtl i] ++ tr). split; [done|]. split; [by apply ctl_only_cons|].
    destruct o; [done|]. intros j [->|Hj]%elem_of_cons; [|by apply Ho]. exists k. intros r Hr. apply Hw. congruence. }
  destruct (ctl k i) as [r|] eqn:Hr; [destruct (wrong_leader r) eqn:Hw|].
  - apply (Hnext (Some r)); [done|]. intros ? [= <-]. done.
  - exists (Some r), [ToCtl i]. split; [done|]. split; [apply ctl_only_cons, ctl_only_nil|]. by exists k, i.
  - by apply (Hnext None).
Qed.

Lemma ask_post fuel n ck :
  post (ask ctl fuel n) ck (fun r ck' => exists tr, ck' = after tr ck /\ ctl_only tr /\
    exists k i, ctl k i = Some r /\ wrong_leader r = false).
Proof.
  revert ck. induction fuel as [|fuel IH]; intros ck; [done|]. cbn [ask].
  destruct (ask_servers_run (seqZ 0 n) ck) as (o & tr & E & Htr & Ho). intros r ck' E'.
  rewrite (bind_done _ _ _ _ _ E) in E'. destruct o as [r0|].
  - injection E' as <- <-. by exists tr.
  - destruct (IH _ _ _ E') as (tr' & -> & Htr' & H). exists (tr ++ tr'). rewrite after_after.
    split; [done|]. split; [by apply ctl_only_app|done].
Qed.

(** One server that always answers is enough. *)
Lemma ask_returns fuel n ck i :
  0 <= i < n -> (forall k, exists r, ctl k i = Some r /\ wrong_leader r = false) ->
  exists r ck', ask ctl (S fuel) n ck = Done r ck'.
Proof.
  intros Hi H. cbn [ask]. destruct (ask_servers_run (seqZ 0 n) ck) as (o & tr & E & _ & Ho).
  rewrite (bind_done _ _ _ _ _ E). destruct o as [r|]; [by eexists _, _|].
  destruct (Ho i) as [k Hk]; [apply elem_of_seqZ; lia|]. destruct (H k) as (r & Hr & Hw).
  specialize (Hk r Hr). congruence.
Qed.
End ask_facts.

Section clerk_facts.
Context {R A : Type} (judge : option R -> verdict A).
Context (ctl : nat -> Z -> option QueryReply) (kv : nat -> string -> option R).
Context (qfuel : nat) (n : Z).

(** The controller gave this configuration. *)
Definition given (cfg : Config) : Prop :=
  exists k i r, ctl k i = Some r /\ qr_WrongLeader r = false /\ qr_Config r = cfg.

(** The calls to key/value servers go to servers of the group with the key's shard,
    in a configuration the clerk has. *)
Definition routed (cfg0 : Config) (key : string) (tr : list called) : Prop :=
  forall s, ToKv s ∈ tr -> exists cfg servers, (cfg = cfg0 \/ given cfg) /\ route cfg key = Some servers /\ s ∈ servers.

Lemma try_servers_run servers ck :
  exists o tr, try_servers judge kv servers ck = Done o (after tr ck) /\
    (forall x, x ∈ tr -> exists s, x = ToKv s /\ s ∈ servers) /\
    match o with
    | Some a => exists k s, s ∈ servers /\ ToKv s ∈ tr /\ judge (kv k s) = Return a
    | None => (exists k s, judge (kv k s) = Break) \/ forall s, s ∈ servers -> exists k, judge (kv k s) = Next
    end.
Proof.
  revert ck. induction servers as [|s servers IH]; intros ck.
  { exists None, []. rewrite after_nil. split; [done|]. split; [by intros ? []%elem_of_nil|].
    right. by intros ? []%elem_of_nil. }
  cbn [try_servers]. rewrite make_call_run. set (k := length (ck_log ck)).
  assert (forall x, x ∈ [ToKv s] -> exists s', x = ToKv s' /\ s' ∈ s :: servers) as Hone.
  { intros x ->%list_elem_of_singleton. exists s. split; [done|by left]. }
  destruct (judge (kv k s)) as [a| |] eqn:Hj.
  - exists (Some a), [ToKv s]. split; [done|]. split; [done|]. exists k, s. split; [by left|]. split; [by left|done].
  - exists None, [ToKv s]. split; [done|]. split; [done|]. left. by exists k, s.
  - destruct (IH (after [ToKv s] ck)) as (o & tr & E & Htr & Ho). rewrite after_after in E.
    exists o, ([ToKv s] ++ tr). split; [done|]. split.
    + intros x [Hx|Hx]%elem_of_app; [auto|]. destruct (Htr x Hx) as (s' & -> & ?). exists s'. split; [done|by right].
    + destruct o as [a|].
      * destruct Ho as (k' & s' & ? & ? & ?). exists k', s'. split; [by right|]. split; [apply elem_of_app; by right|done].
      * destruct Ho as [Ho|Ho]; [by left|]. right. intros s' [->|]%elem_of_cons; [by exists k|auto].
Qed.

(** One round: the servers that the clerk's configuration gives. *)
Lemma round_run key ck (K : option A -> M SClerk A) gid :
  shard_gid (ck_config ck) key = Some gid ->
  exists o tr,
    (gid ← go_index (Shards (ck_config ck)) (key2shard key);
     r ← match Groups (ck_config ck) !! gid with Some servers => try_servers judge kv servers | None => mret None end;
     K r) ck = K o (after tr ck) /\ routed (ck_config ck) key tr /\
    (forall s servers, route (ck_config ck) key = Some servers -> s ∈ servers ->
       (forall k, exists a, judge (kv k s) = Return a) -> (forall k s, judge (kv k s) <> Break) -> is_Some o) /\
    (forall a, o = Some a -> exists servers k s, route (ck_config ck) key = Some servers /\ s ∈ servers /\ judge (kv k s) = Return a).
Proof.
  intros Hg. rewrite (bind_done _ _ _ _ _ (go_index_ok _ _ _ _ Hg)). unfold route. rewrite Hg. simpl.
  destruct (Groups (ck_config ck) !! gid) as [servers|] eqn:Hgr.
  - destruct (try_servers_run servers ck) as (o & tr & E & Htr & Ho). exists o, tr.
    rewrite (bind_done _ _ _ _ _ E). split; [done|]. split; [|split].
    + intros s Hs. destruct (Htr _ Hs) as (? & [= <-] & Hin). exists (ck_config ck), servers. split; [by left|].
      split; [|done]. unfold route. by rewrite Hg.
    + intros s ? [= <-] Hs Hok Hnb. destruct o as [a|]; [by eexists|].
      destruct Ho as [(k & s' & Hb)|Ho]; [by apply Hnb in Hb|]. destruct (Ho s Hs) as [k Hk].
      destruct (Hok k) as [a Ha]. congruence.
    + intros a ->. destruct Ho as (k & s & Hs & _ & Hj). by exists servers, k, s.
  - exists None, []. rewrite after_nil. split; [done|]. split; [by intros ? []%elem_of_nil|]. split; [|done].
    by intros s servers [=].
Qed.

Lemma Query_post ck :
  post (clerk_Query ctl qfuel n) ck (fun cfg ck' => exists tr, ck' = after tr ck /\ ctl_only tr /\ given cfg).
Proof.
  apply post_bind. eapply post_mono; [apply ask_post|]. intros r ck' (tr & -> & Htr & k & i & Hr & Hw).
  apply post_ret. exists tr. split; [done|]. split; [done|]. by exists k, i, r.
Qed.

(** What the clerk returns is what a server of the right group said. *)
Lemma clerk_loop_post fuel key ck :
  config_ok (ck_config ck) -> (forall cfg, given cfg -> config_ok cfg) ->
  post (clerk_loop judge ctl kv qfuel n fuel key) ck (fun a ck' =>
    (exists tr, ck_log ck' = ck_log ck ++ tr /\ routed (ck_config ck) key tr) /\
    exists cfg servers k s, (cfg = ck_config ck \/ given cfg) /\ route cfg key = Some servers /\ s ∈ servers /\
      judge (kv k s) = Return a).
Proof.
  intros Hok Hgiven. revert ck Hok. induction fuel as [|fuel IH]; intros ck Hok; [done|]. intros a ck' E.
  cbn [clerk_loop] in E. rewrite bind_gets in E. destruct (config_gid (ck_config ck) key Hok) as [gid Hg].
  edestruct (round_run key ck) as (o & tr & E1 & Htr & _ & Ho); [exact Hg|]. rewrite E1 in E. destruct o as [a0|].
  - injection E as <- <-. split; [by exists tr|]. destruct (Ho a0 eq_refl) as (servers & k & s & ?).
    exists (ck_config ck), servers, k, s. split; [by left|done].
  - apply bind_inv in E as (cfg & ck1 & E2 & E3). destruct (Query_post _ _ _ E2) as (tr1 & -> & Htr1 & Hcfg).
    apply bind_inv in E3 as ([] & ck2 & E4 & E5). injection E4 as <-.
    destruct (IH (mkSClerk cfg (ck_log (after tr1 (after tr ck)))) (Hgiven _ Hcfg) _ _ E5)
      as [(tr2 & Hl & Htr2) (cfg' & servers & k & s & Hc & Hr)].
    assert (forall cfg', cfg' = cfg \/ given cfg' -> cfg' = ck_config ck \/ given cfg') as Hk.
    { intros c [->|]; by right. }
    split.
    + exists (tr ++ tr1 ++ tr2). simpl in Hl. rewrite Hl, <- !app_assoc. split; [done|].
      intros x [Hx|[Hx|Hx]%elem_of_app]%elem_of_app; [by apply Htr|by apply Htr1 in Hx|].
      destruct (Htr2 x Hx) as (c & l & Hc' & ?). exists c, l. split; [by apply Hk|done].
    + exists cfg', servers, k, s. split; [by apply Hk|done].
Qed.

(** The clerk returns when the controller answers and a server of the group does. *)
Lemma clerk_loop_returns fuel key ck i :
  config_ok (ck_config ck) -> (forall cfg, given cfg -> config_ok cfg) ->
  (0 <= i < n)%Z -> (0 < qfuel)%nat -> (forall k, exists r, ctl k i = Some r /\ qr_WrongLeader r = false) ->
  (forall cfg, given cfg -> exists servers s, route cfg key = Some servers /\ s ∈ servers /\
     forall k, exists a, judge (kv k s) = Return a) ->
  (forall k s, judge (kv k s) <> Break) ->
  exists a ck', clerk_loop judge ctl kv qfuel n (S (S fuel)) key ck = Done a ck'.
Proof.
  intros Hok Hgiven Hi Hq Hctl Hkv Hnb. destruct qfuel as [|q] eqn:Eq; [lia|].
  cbn [clerk_loop]. rewrite bind_gets. destruct (config_gid (ck_config ck) key Hok) as [gid Hg].
  edestruct (round_run key ck) as (o & tr & E1 & _ & _ & _); [exact Hg|]. rewrite E1. clear E1.
  destruct o as [a|]; [by eexists _, _|].
  destruct (ask_returns ctl q n (after tr ck) i Hi Hctl) as (r & ck1 & Er).
  assert (clerk_Query ctl (S q) n (after tr ck) = Done (qr_Config r) ck1) as Eq1.
  { unfold clerk_Query. by rewrite (bind_done _ _ _ _ _ Er). }
  rewrite (bind_done _ _ _ _ _ Eq1). assert (given (qr_Config r)) as Hr.
  { destruct (ask_post ctl (S q) n _ _ _ Er) as (_ & _ & _ & k & j & H1 & H2). by exists k, j, r. }
  rewrite (bind_done (modify _) _ _ tt _ eq_refl), bind_gets.
  set (ck2 := mkSClerk _ _). destruct (config_gid (ck_config ck2) key (Hgiven _ Hr)) as [gid2 Hg2].
  destruct (Hkv _ Hr) as (servers & s & Hro & Hs & Ha).
  edestruct (round_run key ck2) as (o & tr2 & E2 & _ & Ho & _); [exact Hg2|]. rewrite E2.
  destruct (Ho s servers Hro Hs Ha Hnb) as [a ->]. by eexists _, _.
Qed.
End clerk_facts.

Lemma get_verdict_Return o v :
  get_verdict o = Return v -> exists e, o = Some (mkGR e v) /\ (e = OK \/ e = ErrNoKey).
Proof.
  destruct o as [[e v']|]; [|done]. simpl. destruct (String.eqb_spec e OK) as [->|]; simpl.
  - intros [= ->]. exists OK. auto.
  - destruct (String.eqb_spec e ErrNoKey) as [->|]; simpl; [intros [= ->]; exists ErrNoKey; auto|].
    by case_match.
Qed.

Lemma put_verdict_Return o : put_verdict o = Return tt -> o = Some (mkPAR OK).
Proof. destruct o as [[e]|]; [|done]. simpl. destruct (String.eqb_spec e OK) as [->|]; [done|]. by case_match. Qed.

(** The skeleton's answers; [lost] says which calls fail. *)
Definition reply_of {S A} (m : M S A) (s : S) : option A := match m s with Done a _ => Some a | _ => None end.
Definition skeleton_ctl (lost : nat -> bool) (k : nat) (i : Z) : option QueryReply :=
  if lost k then None else reply_of (ctl_Query (mkQueryArgs (-1))) (StartShardCtrler i).
Definition skeleton_join (lost : nat -> bool) (args : JoinArgs) (k : nat) (i : Z) : option CtlReply :=
  if lost k then None else reply_of (ctl_Join args) (StartShardCtrler i).

(** A clerk that only gets the empty configuration asks no server and goes on. *)
Lemma empty_config_loops {R A} (judge : option R -> verdict A) lost kv qfuel n fuel key ck a ck' :
  ck_config ck = zero_Config -> clerk_loop judge (skeleton_ctl lost) kv qfuel n fuel key ck <> Done a ck'.
Proof.
  revert ck. induction fuel as [|fuel IH]; intros ck Hck E; [done|]. cbn [clerk_loop] in E.
  rewrite bind_gets, Hck in E. destruct (config_gid zero_Config key eq_refl) as [gid Hg].
  rewrite (bind_done _ _ _ _ _ (go_index_ok _ _ _ _ Hg)) in E. change (Groups zero_Config) with (∅ : gmap Z (list string)) in E.
  rewrite lookup_empty, bind_ret in E. apply bind_inv in E as (cfg & ck1 & E1 & E2).
  destruct (Query_post _ _ _ _ _ _ E1) as (tr & -> & _ & k & i & r & Hr & _ & <-).
  apply bind_inv in E2 as ([] & ck2 & E3 & E4). injection E3 as <-. apply IH in E4; [done|].
  unfold skeleton_ctl in Hr. destruct (lost k); [done|]. by injection Hr as <-.
Qed.

(** * Theorems *)

(** C30: The sharded clerk asks the right servers: every key/value call of Get and
    PutAppend goes to a server of the group that holds the key's shard in a
    configuration the clerk has, its first one or one that a leading server of the
    controller gave it; Get returns what such a server answered with OK or ErrNoKey,
    and PutAppend returns only after such a server answered OK. *)
Theorem sharded_clerk_routes ctl kvg kvp qfuel n fuel key value op ck :
  config_ok (ck_config ck) -> (forall cfg, given ctl cfg -> config_ok cfg) ->
  (forall v ck', shard_Get ctl kvg qfuel n fuel key ck = Done v ck' ->
     (exists tr, ck_log ck' = ck_log ck ++ tr /\ routed ctl (ck_config ck) key tr) /\
     exists cfg servers k s e, (cfg = ck_config ck \/ given ctl cfg) /\ route cfg key = Some servers /\ s ∈ servers /\
       kvg k s = Some (mkGR e v) /\ (e = OK \/ e = ErrNoKey)) /\
  (forall ck', shard_PutAppend ctl kvp qfuel n fuel key value op ck = Done tt ck' ->
     (exists tr, ck_log ck' = ck_log ck ++ tr /\ routed ctl (ck_config ck) key tr) /\
     exists cfg servers k s, (cfg = ck_config ck \/ given ctl cfg) /\ route cfg key = Some servers /\ s ∈ servers /\
       kvp (mkPA key value op) k s = Some (mkPAR OK)).
Proof.
  intros Hok Hg. split.
  - intros v ck' E. destruct (clerk_loop_post _ _ _ _ _ _ _ _ Hok Hg _ _ E) as [H1 (cfg & servers & k & s & H2 & H3 & H4 & H5)].
    split; [done|]. apply get_verdict_Return in H5 as (e & H5 & H6). by exists cfg, servers, k, s, e.
  - intros ck' E. destruct (clerk_loop_post _ _ _ _ _ _ _ _ Hok Hg _ _ E) as [H1 (cfg & servers & k & s & H2 & H3 & H4 & H5)].
    split; [done|]. apply put_verdict_Return in H5. by exists cfg, servers, k, s.
Qed.

(** The sharded clerk's Get returns: when one server of the controller always
    answers as the leader, every configuration given has a group for the key's shard
    with a server that always answers OK or ErrNoKey, and no server says
    ErrWrongGroup, Get returns in its second round at the latest, whatever
    configuration it starts with. *)
Theorem sharded_get_returns ctl kv qfuel n fuel key ck i :
  config_ok (ck_config ck) -> (forall cfg, given ctl cfg -> config_ok cfg) ->
  0 <= i < n -> (0 < qfuel)%nat -> (2 <= fuel)%nat ->
  (forall k, exists r, ctl k i = Some r /\ qr_WrongLeader r = false) ->
  (forall cfg, given ctl cfg -> exists servers s, route cfg key = Some servers /\ s ∈ servers /\
     forall k, exists e v, kv k s = Some (mkGR e v) /\ (e = OK \/ e = ErrNoKey)) ->
  (forall k s v, kv k s <> Some (mkGR ErrWrongGroup v)) ->
  exists v ck', shard_Get ctl kv qfuel n fuel key ck = Done v ck'.
Proof.
  intros Hok Hg Hi Hq Hf Hctl Hkv Hnb. destruct fuel as [|[|fuel]]; [lia..|].
  apply (clerk_loop_returns get_verdict ctl kv qfuel n fuel key ck i); try done.
  - intros cfg Hc. destruct (Hkv cfg Hc) as (servers & s & H1 & H2 & H3). exists servers, s. do 2 (split; [done|]).
    intros k. destruct (H3 k) as (e & v & -> & [->| ->]); by exists v.
  - intros k s Hb. destruct (kv k s) as [[e v]|] eqn:E; [|done]. simpl in Hb.
    destruct (String.eqb_spec e ErrWrongGroup) as [->|]; [by apply (Hnb k s v)|]. by destruct (_ || _).
Qed.

(** The skeleton's service is not there: Join returns as soon as one server of
    the controller is reached, but no handler keeps a configuration, so that a new
    clerk's Get and PutAppend never return, whichever calls are lost and whatever
    the key/value servers would say. *)
Theorem sharded_skeleton_hangs lost kvg kvp args qfuel n fuel key value op :
  0 < n -> lost O = false ->
  (exists ck, clerk_Join (skeleton_join lost args) 1 n new_clerk = Done tt ck) /\
  (forall sc, ctl_Join args sc = Done zero_CtlReply sc) /\
  (forall v ck, shard_Get (skeleton_ctl lost) kvg qfuel n fuel key new_clerk <> Done v ck) /\
  (forall ck, shard_PutAppend (skeleton_ctl lost) kvp qfuel n fuel key value op new_clerk <> Done tt ck).
Proof.
  intros Hn Hlost. split; [|split; [done|split]].
  - exists (after [ToCtl 0] new_clerk). unfold clerk_Join. cbn [ask]. rewrite seqZ_cons by lia.
    cbn [ask_servers]. unfold mbind, M_bind, make_call. simpl. unfold skeleton_join. by rewrite Hlost.
  - intros v ck. by apply empty_config_loops.
  - intros ck. by apply empty_config_loops.
Qed.

(** * Examples *)

(** Group 7 has all shards; its second server leads. *)
Definition one_group : Config := mkConfig 1 (replicate 10 7) {[ 7 := ["a"; "b"]%string ]}.
Definition demo_ctl (k : nat) (i : Z) : option QueryReply :=
  if i =? 1 then Some (mkQueryReply false OK one_group) else Some (mkQueryReply true "" zero_Config).
Definition demo_kv (k : nat) (s : string) : option GetReply :=
  if String.eqb s "b" then Some (mkGR OK "v") else if String.eqb s "a" then Some (mkGR ErrWrongLeader "") else None.
Definition demo_put (args : ShardPutAppendArgs) (k : nat) (s : string) : option ShardPutAppendReply := Some (mkPAR OK).

Lemma demo_given cfg : given demo_ctl cfg -> cfg = one_group.
Proof.
  intros (k & i & r & H & Hw & <-). unfold demo_ctl in H. destruct (i =? 1); injection H as <-; done.
Qed.

Lemma demo_given_ok cfg : given demo_ctl cfg -> config_ok cfg.
Proof. by intros ->%demo_given. Qed.

Lemma sharded_clerk_routes_witness :
  exists ck', shard_Get demo_ctl demo_kv 1 3 2 "x" new_clerk = Done "v"%string ck' /\
    exists tr, ck_log ck' = [] ++ tr /\ routed demo_ctl zero_Config "x" tr.
Proof.
  eexists. split; [vm_compute; reflexivity|].
  apply (sharded_clerk_routes demo_ctl demo_kv demo_put 1 3 2 "x" "" "Put" new_clerk eq_refl demo_given_ok) with (v := "v"%string).
  vm_compute. reflexivity.
Defined.

Lemma sharded_get_returns_witness : exists v ck', shard_Get demo_ctl demo_kv 1 3 2 "x" new_clerk = Done v ck'.
Proof.
  apply (sharded_get_returns demo_ctl demo_kv 1 3 2 "x" new_clerk 1 eq_refl demo_given_ok); try lia.
  - intros k. by eexists.
  - intros cfg ->%demo_given. exists ["a"; "b"]%string, "b"%string. split; [vm_compute; reflexivity|].
    split; [right; by left|]. intros k. exists OK, "v"%string. auto.
  - intros k s v. unfold demo_kv. by repeat case_match.
Defined.

Lemma sharded_skeleton_hangs_witness :
  (exists ck, clerk_Join (skeleton_join (fun _ => false) (mkJoinArgs ∅)) 1 3 new_clerk = Done tt ck) /\
  shard_Get (skeleton_ctl (fun _ => false)) demo_kv 5 3 100 "x" new_clerk <> Done "v"%string new_clerk.
Proof.
  destruct (sharded_skeleton_hangs (fun _ => false) demo_kv demo_put (mkJoinArgs ∅) 5 3 100 "x" "" "Put" eq_refl eq_refl)
    as (H1 & _ & H2 & _).
  split; [exact H1|apply H2].
Defined.
