(* ===== verification/KvNet.v ===== *)
(** The key/value service as the kvsrv tests run it: clerks (kvsrv/client.go) that
    call one server (kvsrv/server.go) over the simulated network (labrpc/labrpc.go),
    and the operations the tests record for the checker (models/kv.go).

    The network is the one of Network, with its calls, drops and delays.  The body
    of a handler runs between A_Run, which calls the method, and A_Return, which
    encodes its reply, in the pieces between which the code synchronizes; a clerk
    repeats its call until one succeeds.  Encoding is a parameter, of which only the
    round trip is used.  [y_now] counts the steps: it is the tests' clock. *)

From stdpp Require Import pretty.
From S2P Require Import Prelude Network KvSrv Checker KvModel.

(** * Encoding *)

(** labgob on the types of the arguments and replies. *)
Class Gob (A : Type) := {
  gob : A -> string;
  ungob : string -> option A;
  ungob_gob : forall a, ungob (gob a) = Some a }.

Record GetArgs := mkGetArgs { ga_Key : string }.
Record GetReply := mkGetReply { gr_Value : string }.

Section system.
Context `{!Gob GetArgs, !Gob GetReply, !Gob PutAppendArgs, !Gob PutAppendReply}.

(** Whether an Append is recorded with the value it returned. *)
Context (valued : bool).

(** * The methods of the server *)

Inductive request : Type :=
  | RGet (args : GetArgs)
  | RUpdate (op : kv_op) (args : PutAppendArgs).

Definition method_name (r : request) : string :=
  match r with RGet _ => "Get" | RUpdate OpPut _ => "Put" | RUpdate OpAppend _ => "Append" end.
Definition svcMeth (r : request) : string := "KVServer." +:+ method_name r.
Definition encoded (r : request) : string :=
  match r with RGet args => gob args | RUpdate _ args => gob args end.

Definition decode_request (meth args : string) : option request :=
  if String.eqb meth "Get" then RGet <$> ungob args
  else if String.eqb meth "Put" then RUpdate OpPut <$> ungob args
  else if String.eqb meth "Append" then RUpdate OpAppend <$> ungob args
  else None.

(** A method under way: at its start; Get after it found the key; Put and Append
    after syncRpcID, and after LoadOrStore found the key; at its end. *)
Inductive method_state : Type :=
  | TCalled (r : request)
  | TGetLoaded (args : GetArgs)
  | TSynced (op : kv_op) (args : PutAppendArgs) (r : PutAppendReply)
  | TLoaded (op : kv_op) (args : PutAppendArgs) (r : PutAppendReply)
  | TReply (reply : string).

(** kv.data.Load: whether the key is there. *)
Definition get_load (key : string) : M KVServer bool :=
  gets (fun kv => bool_decide (is_Some (kv_data kv !! key))).

Definition method_turn (t : method_state) : M KVServer method_state :=
  match t with
  | TCalled (RGet args) =>
      ok ← get_load (ga_Key args);
      mret (if (ok : bool) then TGetLoaded args else TReply (gob (mkGetReply "")))
  | TGetLoaded args =>
      v ← Get (ga_Key args);
      mret (TReply (gob (mkGetReply v)))
  | TCalled (RUpdate op args) =>
      r ← syncRpcID args emptyReply;
      mret (if (fst r : bool) then TSynced op args (snd r) else TReply (gob (snd r)))
  | TSynced op args r =>
      ok ← load_or_store (Key args) (Value args);
      mret (if (ok : bool) then TLoaded op args r else TReply (gob r))
  | TLoaded op args r =>
      r ← locked_update op args r;
      mret (TReply (gob r))
  | TReply _ => block
  end.

(** * Clerks *)

Inductive clerk_op : Type :=
  | CGet (key : string)
  | CPut (key value : string)
  | CAppend (key value : string).

(** What the clerk sends, and the clerk while it does. *)
Definition clerk_request (ck : Clerk) (o : clerk_op) : request * Clerk :=
  let id := to_uint32 (ck_rpcid ck + 1) in
  match o with
  | CGet key => (RGet (mkGetArgs key), ck)
  | CPut key value => (RUpdate OpPut (mkPutAppendArgs key value (ck_id ck) id), mkClerk (ck_id ck) id)
  | CAppend key value => (RUpdate OpAppend (mkPutAppendArgs key value (ck_id ck) id), mkClerk (ck_id ck) id)
  end.

Inductive activity : Type :=
  | Idle
  | InCall (r : request) (started : Z) (id : Z).

Record client := mkClient { cl_end : string; cl_ck : Clerk; cl_act : activity }.

(** * The system *)

Record system := mkSystem {
  y_world : world;
  y_kv : KVServer;
  y_methods : gmap Z method_state;
  y_clients : gmap Z client;
  y_clerkID : Z;
  y_now : Z;
  y_history : list KvOperation }.

Definition set_world w (y : system) : system :=
  mkSystem w (y_kv y) (y_methods y) (y_clients y) (y_clerkID y) (y_now y) (y_history y).
Definition set_kv kv (y : system) : system :=
  mkSystem (y_world y) kv (y_methods y) (y_clients y) (y_clerkID y) (y_now y) (y_history y).
Definition set_methods ms (y : system) : system :=
  mkSystem (y_world y) (y_kv y) ms (y_clients y) (y_clerkID y) (y_now y) (y_history y).
Definition set_clients cs (y : system) : system :=
  mkSystem (y_world y) (y_kv y) (y_methods y) cs (y_clerkID y) (y_now y) (y_history y).
Definition set_clerkID n (y : system) : system :=
  mkSystem (y_world y) (y_kv y) (y_methods y) (y_clients y) n (y_now y) (y_history y).
Definition set_now t (y : system) : system :=
  mkSystem (y_world y) (y_kv y) (y_methods y) (y_clients y) (y_clerkID y) t (y_history y).
Definition record (x : KvOperation) (y : system) : system :=
  mkSystem (y_world y) (y_kv y) (y_methods y) (y_clients y) (y_clerkID y) (y_now y) (y_history y ++ [x]).

Definition on_world {A} (m : M world A) : M system A := fun y =>
  match m (y_world y) with
  | Done a w => Done a (set_world w y)
  | Panicked p w => Panicked p (set_world w y)
  | Blocked w => Blocked (set_world w y)
  end.
Definition on_kv {A} (m : M KVServer A) : M system A := fun y =>
  match m (y_kv y) with
  | Done a kv => Done a (set_kv kv y)
  | Panicked p kv => Panicked p (set_kv kv y)
  | Blocked kv => Blocked (set_kv kv y)
  end.

Definition set_method (id : Z) (t : method_state) : M system unit :=
  modify (fun y => set_methods (<[id := t]> (y_methods y)) y).
Definition set_client (c : Z) (cl : client) : M system unit :=
  modify (fun y => set_clients (<[c := cl]> (y_clients y)) y).
Definition the_client (c : Z) : M system client :=
  y ← gets (fun y => y); match y_clients y !! c with Some cl => mret cl | None => block end.
Definition the_method (id : Z) : M system method_state :=
  y ← gets (fun y => y); match y_methods y !! id with Some t => mret t | None => block end.

(** makeClient, and MakeClerk in it; fewer than 2^32 - 1 clerks. *)
Definition make_client (endname : string) : M system unit :=
  on_world (exec (A_MakeEnd endname));;
  on_world (exec (A_Connect endname (pretty 0)));;
  on_world (exec (A_Enable endname true));;
  n ← gets y_clerkID;
  if n <? 2^32 - 1 then
    let '(ck, n) := MakeClerk n in
    modify (set_clerkID n);;
    set_client (ck_id ck) (mkClient endname ck Idle)
  else block.

(** deleteClient, of a clerk that is not in use. *)
Definition delete_client (c : Z) : M system unit :=
  cl ← the_client c;
  match cl_act cl with
  | Idle =>
      on_world (exec (A_DeleteEnd (cl_end cl)));;
      modify (fun y => set_clients (delete c (y_clients y)) y)
  | InCall _ _ _ => block
  end.

(** Clerk.Get, Put or Append up to its first Call, which is call [id]; fewer than
    2^32 - 2 updates of a clerk. *)
Definition begin_op (c : Z) (o : clerk_op) (id : Z) : M system unit :=
  cl ← the_client c;
  now ← gets y_now;
  match cl_act cl with
  | Idle =>
      if ck_rpcid (cl_ck cl) <? 2^32 - 2 then
        let '(r, ck) := clerk_request (cl_ck cl) o in
        on_world (exec (A_Call id (mkEnd (cl_end cl)) (svcMeth r) (encoded r)));;
        set_client c (mkClient (cl_end cl) ck (InCall r now id))
      else block
  | InCall _ _ _ => block
  end.

(** What the call of the clerk has come back with. *)
Definition call_result (c : Z) : M system (client * request * Z * replyMsg) :=
  cl ← the_client c;
  match cl_act cl with
  | Idle => block
  | InCall r started id =>
      x ← on_world (the_call id);
      match c_phase x with Returned m => mret (cl, r, started, m) | _ => block end
  end.

(** The loop goes on: another Call with the same arguments. *)
Definition retry (c : Z) (id : Z) : M system unit :=
  x ← call_result c;
  let '(cl, r, started, m) := x in
  if rp_ok m then block
  else
    on_world (exec (A_Call id (mkEnd (cl_end cl)) (svcMeth r) (encoded r)));;
    set_client c (mkClient (cl_end cl) (cl_ck cl) (InCall r started id)).

(** What the tests record of an operation; of the result, only what is compared. *)
Definition recorded (op : kv_op) (args : PutAppendArgs) (v : string) : KvInput * KvOutput :=
  match op with
  | OpPut => (mkKvInput 1 (Key args) (Value args), mkKvOutput "")
  | OpAppend =>
      if valued then (mkKvInput 3 (Key args) (Value args), mkKvOutput v)
      else (mkKvInput 2 (Key args) (Value args), mkKvOutput "")
  end.

(** The loop ends: the reply is decoded, and the operation recorded. *)
Definition end_op (c : Z) : M system unit :=
  x ← call_result c;
  let '(cl, r, started, m) := x in
  now ← gets y_now;
  if rp_ok m then
    match r with
    | RGet args =>
        match ungob (rp_reply m) with
        | Some g =>
            modify (record (mkOperation c (mkKvInput 0 (ga_Key args) "") started (mkKvOutput (gr_Value g)) now));;
            set_client c (mkClient (cl_end cl) (cl_ck cl) Idle)
        | None => throw LogFatal
        end
    | RUpdate op args =>
        match ungob (rp_reply m) with
        | Some p =>
            let '(inp, out) := recorded op args (r_Value p) in
            modify (record (mkOperation c inp started out now));;
            set_client c (mkClient (cl_end cl) (mkClerk (ck_id (cl_ck cl)) (r_RpcID p)) Idle)
        | None => throw LogFatal
        end
    end
  else block.

(** Service.dispatch: the method starts with the decoded arguments. *)
Definition start_method (id : Z) : M system unit :=
  x ← on_world (the_call id);
  on_world (exec (A_Run id));;
  p ← split_svcMeth (rq_svcMeth (c_req x));
  match decode_request (snd p) (rq_args (c_req x)) with
  | Some r => set_method id (TCalled r)
  | None => throw LogFatal
  end.

Definition step_method (id : Z) : M system unit :=
  t ← the_method id;
  t ← on_kv (method_turn t);
  set_method id t.

(** The method has returned; its reply is encoded. *)
Definition end_method (id : Z) : M system unit :=
  t ← the_method id;
  match t with
  | TReply b =>
      on_world (exec (A_Return id b));;
      modify (fun y => set_methods (delete id (y_methods y)) y)
  | _ => block
  end.

(** What the network does by itself, and what the tests do to it: with values
    recorded, it stays reliable. *)
Definition internal (a : action) : bool :=
  match a with
  | A_Reliable yes => negb valued || yes
  | A_LongReordering _ | A_LongDelays _ | A_Accept _ | A_Lookup _ | A_Spawn _ _ | A_Receive _ | A_Tick _
  | A_Decide _ _ | A_Deliver _ | A_Drain _ => true
  | _ => false
  end.

Inductive saction : Type :=
  | S_Net (a : action)
  | S_MakeClient (endname : string) | S_DeleteClient (c : Z)
  | S_Begin (c : Z) (o : clerk_op) (id : Z) | S_Retry (c id : Z) | S_End (c : Z)
  | S_Call (id : Z) | S_Method (id : Z) | S_Return (id : Z).

Definition sys_exec (a : saction) : M system unit :=
  modify (fun y => set_now (y_now y + 1) y);;
  match a with
  | S_Net a => if internal a then on_world (exec a) else block
  | S_MakeClient e => make_client e
  | S_DeleteClient c => delete_client c
  | S_Begin c o id => begin_op c o id
  | S_Retry c id => retry c id
  | S_End c => end_op c
  | S_Call id => start_method id
  | S_Method id => step_method id
  | S_Return id => end_method id
  end.

Definition sys_step (y y' : system) : Prop := exists a, sys_exec a y = Done tt y'.

(** make_config: the server, its service and its name. *)
Definition kv_service : Service :=
  MakeService "KVServer" [mkMethod "Append" "" [true; true; true] 0; mkMethod "Get" "" [true; true; true] 0;
    mkMethod "Put" "" [true; true; true] 0].

Definition boot : world :=
  mkWorld (set_servers {[pretty 0 := Some 0]} MakeNetwork) {[0 := AddService kv_service MakeServer]} true ∅ [].

Definition start_system : system := mkSystem boot StartKVServer ∅ ∅ 0 0 [].

Fixpoint sys_run (l : list saction) : M system unit :=
  match l with
  | [] => mret tt
  | a :: l => sys_exec a;; sys_run l
  end.
End system.
