(* ===== verification/KvNetCalls.v ===== *)
(** What the clerks of KvNet rely on in the network: while no end is taken away or
    switched off and the server stays, a call comes back only when its handler never
    started or has finished, and on a network that stays reliable it comes back
    with the handler's answer. *)

From stdpp Require Import pretty.
From S2P Require Import Prelude Network NetworkTheorems KvSrv KvNet.

Section calls.
Context (valued : bool).

(** How far the handler of a call is. *)
Inductive hstat : Type := NotBegun | Running | Replied (b : string).
Definition stat (h : handler) : hstat :=
  match h with
  | HNone | HSpawned _ => NotBegun
  | HRunning _ => Running
  | HDone _ r | HReceived _ r => Replied (rp_reply r)
  end.

Definition target_of (p : phase) : option target :=
  match p with Pending t | Waiting t | Decided t _ => Some t | _ => None end.
Definition answer_of (p : phase) : option replyMsg :=
  match p with Replying m | Returned m => Some m | _ => None end.
Definition returned (p : phase) : option replyMsg :=
  match p with Returned m => Some m | _ => None end.

(** The end leads to the server. *)
Definition end_ok (w : world) (e : string) : Prop :=
  is_enabled (w_net w) e = true /\ connection_of (w_net w) e = Some (pretty 0).

Record call_ok (w : world) (c : call) : Prop := {
  co_drain : c_drain c = false;
  co_end : returned (c_phase c) = None -> end_ok w (rq_endname (c_req c));
  co_target : forall t, target_of (c_phase c) = Some t ->
    t_name t = pretty 0 /\ t_server t = 0 /\ (valued = true -> t_reliable t = true);
  co_answer : forall m, answer_of (c_phase c) = Some m -> valued = true -> rp_ok m = true }.

Record world_ok (w : world) : Prop := {
  wo_run : rtc net_step start_world w;
  wo_open : done_closed (w_net w) = false;
  wo_server : server_of (w_net w) (pretty 0) = Some 0;
  wo_services : srv_services <$> w_heap w !! 0 = Some {["KVServer" := kv_service]};
  wo_reliable : valued = true -> reliable (w_net w) = true;
  wo_calls : forall id c, w_calls w !! id = Some c -> call_ok w c }.

Lemma world_call_inv w id c :
  world_ok w -> w_calls w !! id = Some c -> call_inv start_world w id c.
Proof. intros Hw Hc. by apply (cs_calls _ _ (calls_reachable _ (wo_run _ Hw))). Qed.

(** A call that has come back left no handler behind; an answer is its own. *)
Lemma returned_stat w id c m :
  world_ok w -> w_calls w !! id = Some c -> c_phase c = Returned m ->
  stat (c_handler c) <> Running /\ (rp_ok m = true -> stat (c_handler c) = Replied (rp_reply m)).
Proof.
  intros Hw Hc Hp. destruct (world_call_inv _ _ _ Hw Hc) as [_ H2 H3].
  destruct (wo_calls _ Hw _ _ Hc) as [Hd _ _ _]. unfold phase_ok, can_end, NetworkTheorems.history in *.
  rewrite Hp in *. split.
  - destruct H2 as [-> | [? | (rs & r & ->)]]; [done|congruence|done].
  - intros Hok. by destruct (H3 Hok) as (rs & _ & ->).
Qed.

(** ** Steps of the network itself *)

Lemma internal_calls a w w' :
  internal valued a = true -> exec a w = Done tt w' ->
  w_log w' = w_log w /\ forall i, w_calls w !! i = None -> w_calls w' !! i = None.
Proof.
  intros Hi E.
  assert (forall id c w1, w_calls w !! id = Some c -> w_log w1 = w_log w -> forall x, w_calls w1 = <[id := x]> (w_calls w) ->
    w_log w1 = w_log w /\ forall i, w_calls w !! i = None -> w_calls w1 !! i = None) as Hput.
  { intros id c w1 Hc Hl x Hx. split; [done|]. intros i Hn. rewrite Hx. rewrite lookup_insert_ne; [done|congruence]. }
  destruct a; try done; cbn [exec] in E;
    try (apply on_net_quiet in E as [-> ->]; done);
    unfold accept, abandon, lookup_target, spawn, receive, tick, decide_reply,
      deliver, handler_returns, run_handler, drain in E; enter E.
  - rewrite bind_gets in E. destruct p; try done. destruct (w_loop w); [|done]. injection E as <-. by eapply Hput.
  - destruct p; try done. apply bind_inv in E as (i & w1 & E1 & E).
    apply on_net_done in E1 as (n & [= <- <-] & ->). cbv zeta in E.
    repeat match type of E with context [match ?x with _ => _ end] => destruct x end; injection E as <-; by eapply Hput.
  - destruct p; try done. destruct (_ && _); injection E as <-; by eapply Hput.
  - destruct p; try done. destruct h; try done. injection E as <-. by eapply Hput.
  - destruct p; try done. rewrite (bind_done _ _ _ _ _ (isServerDead_run _ _ _ _)) in E.
    destruct (bool_decide _); injection E as <-; [by eapply Hput|done].
  - destruct p; try done. rewrite (bind_done _ _ _ _ _ (isServerDead_run _ _ _ _)) in E.
    destruct r as [r|]; [|injection E as <-; by eapply Hput].
    destruct (bool_decide _); [injection E as <-; by eapply Hput|].
    destruct (_ && _); injection E as <-; by eapply Hput.
  - destruct p; try done. destruct (rp_ok m); injection E as <-; by eapply Hput.
  - destruct h; try done. destruct d; [|done]. injection E as <-. by eapply Hput.
Qed.

(** What a step of the network keeps of the tables. *)
Record steady (w w' : world) : Prop := {
  st_ends : ends (w_net w') = ends (w_net w);
  st_enabled : enabled (w_net w') = enabled (w_net w);
  st_servers : servers (w_net w') = servers (w_net w);
  st_connections : connections (w_net w') = connections (w_net w);
  st_done : done_closed (w_net w') = done_closed (w_net w);
  st_heap : forall rs, srv_services <$> w_heap w' !! rs = srv_services <$> w_heap w !! rs;
  st_reliable : valued = true -> reliable (w_net w) = true -> reliable (w_net w') = true }.

Lemma frame_steady w w' : frame w w' -> steady w w'.
Proof. intros [H1 H2 H3]. unfold tables in H1. injection H1 as E1 E2 E3 E4 E5 E6 E7. split; try done. by rewrite E1. Qed.

Lemma internal_steady a w w' : internal valued a = true -> exec a w = Done tt w' -> steady w w'.
Proof.
  intros Hi E.
  assert (forall id, own id a = true -> steady w w') as Ho by eauto using frame_steady, own_frame.
  destruct a as [yes|yes|yes| | | | | | | | | | |id|id| |id|id drop|id|id|id drop|id|id|id reply|id]; try done;
    try (apply (Ho id), Z.eqb_refl);
    cbn [exec] in E; apply on_net_done in E as (n & [= <-] & ->); split; try done.
  intros Hv _. unfold internal in Hi. by rewrite Hv in Hi.
Qed.

Lemma steady_end w w' e : steady w w' -> end_ok w e -> end_ok w' e.
Proof. intros [_ H2 _ H4 _ _ _]. unfold end_ok, is_enabled, connection_of. by rewrite H2, H4. Qed.

Lemma steady_call w w' c : steady w w' -> call_ok w c -> call_ok w' c.
Proof. intros Hs [H1 H2 H3 H4]. split; eauto using steady_end. Qed.

Lemma end_bound w e :
  world_ok w -> end_ok w e -> bound w e (mkTarget (pretty 0) 0 (reliable (w_net w)) true).
Proof. intros Hw [H1 H2]. split; [split; [done|apply Hw]|]. done. Qed.

(** How a call moves by the network's own steps. *)
Lemma internal_move w id c0 c :
  world_ok w -> w_calls w !! id = Some c0 -> move w id (Some c0) c [] ->
  call_ok w c /\ c_req c = c_req c0 /\ stat (c_handler c) = stat (c_handler c0) /\
  returned (c_phase c0) = None.
Proof.
  intros Hw Hc Hm. destruct (wo_calls _ Hw _ _ Hc) as [H1 H2 H3 H4].
  destruct (world_call_inv _ _ _ Hw Hc) as [L1 L2 L3].
  assert (forall t, target_of (c_phase c0) = Some t -> end_ok w (rq_endname (c_req c0)) ->
    alive w (rq_endname (c_req c0)) (t_name t) (t_server t)) as Halive.
  { intros t Ht [He _]. destruct (H3 _ Ht) as (-> & -> & _). split; [done|apply Hw]. }
  inversion Hm; subst; cbn [c_phase c_handler c_drain c_req returned target_of answer_of stat rp_ok rp_reply] in *;
    unfold phase_ok, log_ok in *; cbn [c_phase c_handler c_drain c_req] in *.
  - (* accept *) split; [by split|done].
  - (* abandon *) pose proof (wo_open _ Hw). congruence.
  - (* bound *) split; [|done]. split; cbn; try done. intros t' [= <-].
    match goal with Hb : bound _ _ _ |- _ => destruct Hb as ((_ & Hs) & Hn & Hr) end.
    specialize (H2 eq_refl). destruct H2 as [_ H2].
    rewrite H2 in Hn. injection Hn as Hn. rewrite <- Hn in Hs. pose proof (wo_server _ Hw). split; [done|].
    split; [congruence|]. intros Hv. rewrite Hr. by apply Hw.
  - (* unbound *) exfalso. match goal with Hb : forall t, ~ bound _ _ _ |- _ => eapply Hb end.
    eapply end_bound; [done|by apply H2].
  - (* drop *) split; [|done]. split; cbn; try done. intros m [= <-] Hv.
    destruct (H3 _ eq_refl) as (_ & _ & Hr). rewrite Hr in *; done.
  - (* spawn *) split; [by split|]. destruct L2 as [-> _]. done.
  - (* receive *) split; [by split|done].
  - (* dead *) exfalso. match goal with Hb : ~ alive _ _ _ _ |- _ => apply Hb end. by apply Halive; [|apply H2].
  - (* reply *) split; [|done]. split; cbn; try done. intros m [= <-] Hv. subst h.
    by destruct L1 as (? & ? & _ & _ & ?).
  - (* refuse *) split; [|done]. split; cbn; try done. intros m [= <-] Hv. exfalso.
    match goal with Hb : _ \/ _ |- _ => destruct Hb as [-> | [Hd|Hd]] end; [congruence| |].
    + apply Hd. by apply Halive; [|apply H2].
    + destruct (H3 _ eq_refl) as (_ & _ & Hr). rewrite Hr in Hd; done.
  - (* deliver *) split; [|done]. split; cbn; try done.
  - congruence.
Qed.

(** The network's own steps never stop the program. *)
Lemma internal_no_panic a w p w' : internal valued a = true -> exec a w <> Panicked p w'.
Proof.
  intros Hi. destruct a as [yes|yes|yes| | | | | | | | | | |id|id| |id|id drop|id|id|id drop|id|id|id reply|id]; try done;
    cbn [exec]; unfold accept, lookup_target, spawn, receive, tick, decide_reply, deliver, drain;
    (destruct (w_calls w !! id) as [[q ph h d]|] eqn:E;
      [rewrite (the_call_run _ _ _ _ E); cbn [c_phase c_handler c_drain c_req]
      |by unfold the_call, mbind, M_bind, gets; rewrite E]);
    destruct ph; try done.
  - rewrite bind_gets. by destruct (w_loop w).
  - unfold on_net, readEndnameInfo, gets, mbind, M_bind. cbn [i_enabled i_servername i_server].
    by repeat match goal with |- context [match ?x with _ => _ end] => destruct x end.
  - by destruct (_ && _).
  - by destruct h.
  - rewrite (bind_done _ _ _ _ _ (isServerDead_run _ _ _ _)). by destruct (bool_decide _).
  - rewrite (bind_done _ _ _ _ _ (isServerDead_run _ _ _ _)). destruct r; [|done].
    destruct (bool_decide _); [done|]. by destruct (_ && _).
  - by destruct (rp_ok m).
  - by destruct h, d.
  - by destruct h, d.
  - by destruct h, d.
  - by destruct h, d.
  - by destruct h, d.
  - by destruct h, d.
  - by destruct h, d.
Qed.

Record internal_effect (w w' : world) : Prop := {
  ie_ok : world_ok w';
  ie_steady : steady w w';
  ie_new : forall i, w_calls w !! i = None -> w_calls w' !! i = None;
  ie_call : forall i c, w_calls w !! i = Some c -> exists c', w_calls w' !! i = Some c' /\
    c_req c' = c_req c /\ stat (c_handler c') = stat (c_handler c) /\
    (returned (c_phase c) <> None -> c' = c) }.

Lemma steady_world w w' :
  world_ok w -> net_step w w' -> steady w w' -> (forall id c, w_calls w' !! id = Some c -> call_ok w' c) -> world_ok w'.
Proof.
  intros Hw Hs Ht Hc. destruct Hw as [W1 W2 W3 W4 W5 W6]. split; try done.
  - by eapply rtc_r.
  - by rewrite (st_done _ _ Ht).
  - unfold server_of. by rewrite (st_servers _ _ Ht).
  - by rewrite (st_heap _ _ Ht).
  - intros Hv. apply (st_reliable _ _ Ht); auto.
Qed.

(** Ends may come and go as long as those in use stay. *)
Lemma world_tables w w' :
  world_ok w -> rtc net_step w w' -> w_calls w' = w_calls w -> w_heap w' = w_heap w ->
  servers (w_net w') = servers (w_net w) -> done_closed (w_net w') = done_closed (w_net w) ->
  reliable (w_net w') = reliable (w_net w) ->
  (forall id x, w_calls w !! id = Some x -> returned (c_phase x) = None -> end_ok w' (rq_endname (c_req x))) ->
  world_ok w'.
Proof.
  intros [W1 W2 W3 W4 W5 W6] Hr Hc Hh Hs Hd Hrel He. split.
  - by etransitivity.
  - congruence.
  - unfold server_of in *. by rewrite Hs.
  - congruence.
  - rewrite Hrel. done.
  - rewrite Hc. intros id c Hid. destruct (W6 _ _ Hid) as [C1 C2 C3 C4]. split; try done. by apply (He id).
Qed.

Lemma internal_step a w w' :
  world_ok w -> internal valued a = true -> exec a w = Done tt w' -> internal_effect w w'.
Proof.
  intros Hw Hi E. pose proof (internal_steady _ _ _ Hi E) as Hst.
  destruct (internal_calls _ _ _ Hi E) as [Hlog Hnew].
  assert (net_step w w') as Hstep by (by exists a).
  destruct (step_moves _ _ Hstep) as [[Ec _]|(id & c & evs & Hm & Ec & El)].
  { split; try done.
    - eapply steady_world; try done. rewrite Ec. intros id c Hc. eapply steady_call; [done|by eapply wo_calls].
    - intros i c Hc. exists c. by rewrite Ec. }
  assert (evs = []) as ->.
  { rewrite Hlog in El. symmetry in El. apply (f_equal length) in El. rewrite length_app in El.
    destruct evs; [done|simpl in El; lia]. }
  destruct (w_calls w !! id) as [c0|] eqn:Hc0.
  2: { apply Hnew in Hc0. by rewrite Ec, lookup_insert_eq in Hc0. }
  destruct (internal_move _ _ _ _ Hw Hc0 Hm) as (M1 & M2 & M3 & M4). split; try done.
  - eapply steady_world; try done. rewrite Ec. intros i x Hx. eapply steady_call; [done|].
    rewrite lookup_insert in Hx. case_decide; [injection Hx as <-; done|by eapply wo_calls].
  - intros i x Hx. rewrite Ec, lookup_insert. case_decide as Ei; [subst i|by exists x].
    rewrite Hc0 in Hx. injection Hx as <-. exists c. rewrite M4. split_and!; try done.
Qed.

(** ** The other steps of a call *)

Lemma split_svcMeth_KVServer {S} r (s : S) : split_svcMeth (svcMeth r) s = Done ("KVServer"%string, method_name r) s.
Proof. destruct r as [|[] ]; reflexivity. Qed.

Lemma dispatch_KVServer r e args s :
  srv_services s = {["KVServer"%string := kv_service]} ->
  exists s', dispatch (mkReq e (svcMeth r) args) s = Done ("KVServer"%string, method_name r) s' /\
    srv_services s' = srv_services s.
Proof.
  intros Hs. unfold dispatch. rewrite bind_modify. cbn [rq_svcMeth].
  rewrite (bind_done _ _ _ _ _ (split_svcMeth_KVServer r _)), bind_gets. cbn [fst snd srv_services].
  rewrite Hs. rewrite lookup_singleton_eq.
  rewrite bool_decide_eq_true_2; [by eexists|]. destruct r as [|[] ]; by vm_compute.
Qed.

(** A call of the service runs, and its method with it. *)
Lemma run_runs w id c r e args :
  world_ok w -> w_calls w !! id = Some c -> c_req c = mkReq e (svcMeth r) args -> c_handler c = HSpawned 0 ->
  exists w', exec (A_Run id) w = Done tt w' /\ steady w w' /\
    w_calls w' = <[id := with_handler (HRunning 0) c]> (w_calls w).
Proof.
  intros Hw Hc Hq Hh. pose proof (wo_services _ Hw) as Hs. apply fmap_Some in Hs as (s & Hs & Hsv).
  destruct (dispatch_KVServer r e args s (eq_sym Hsv)) as (s' & Ed & Es).
  cbn [exec]. unfold run_handler. rewrite (the_call_run _ _ _ _ Hc). rewrite Hh, Hq.
  unfold on_server at 1. unfold mbind at 1, M_bind at 1. rewrite Hs, Ed. eexists. split; [reflexivity|].
  split; [|done]. split; try done. intros rs. simpl. rewrite lookup_insert.
  case_decide as Er; [subst rs; by rewrite Hs; simpl; rewrite Es|done].
Qed.

Lemma run_inv w w' id :
  exec (A_Run id) w = Done tt w' -> exists c rs, w_calls w !! id = Some c /\ c_handler c = HSpawned rs.
Proof.
  cbn [exec]. unfold run_handler. intros E. enter E. destruct h; try done. by eexists _, _.
Qed.

Lemma return_runs w id c rs b :
  w_calls w !! id = Some c -> c_handler c = HRunning rs ->
  exists w', exec (A_Return id b) w = Done tt w' /\ steady w w' /\
    w_calls w' = <[id := with_handler (HDone rs (mkReply true b)) c]> (w_calls w).
Proof.
  intros Hc Hh. cbn [exec]. unfold handler_returns. rewrite (the_call_run _ _ _ _ Hc), Hh.
  eexists. split; [reflexivity|]. by split; [split|].
Qed.

Lemma Call_inv w w' id e sm args :
  exec (A_Call id (mkEnd e) sm args) w = Done tt w' ->
  w_calls w !! id = None /\ steady w w' /\
  w_calls w' = <[id := mkCall (mkReq e sm args) Sending HNone false]> (w_calls w).
Proof.
  cbn [exec]. unfold Call. rewrite bind_gets. destruct (w_calls w !! id); [done|]. intros [= <-]. by split; [|split; [split|]].
Qed.

(** Adding or changing one call. *)
Lemma world_put w w' id c :
  world_ok w -> net_step w w' -> steady w w' -> w_calls w' = <[id := c]> (w_calls w) -> call_ok w c -> world_ok w'.
Proof.
  intros Hw Hs Ht Ec Hc. eapply steady_world; try done. rewrite Ec. intros i x Hx. eapply steady_call; [done|].
  rewrite lookup_insert in Hx. case_decide; [injection Hx as <-; done|by eapply wo_calls].
Qed.

Lemma with_handler_ok w c h : call_ok w c -> call_ok w (with_handler h c).
Proof. intros [H1 H2 H3 H4]. by split. Qed.

Lemma spawned_server w id c rs :
  world_ok w -> w_calls w !! id = Some c -> c_handler c = HSpawned rs -> rs = 0.
Proof.
  intros Hw Hc Hh. destruct (world_call_inv _ _ _ Hw Hc) as [_ H2 _].
  destruct (wo_calls _ Hw _ _ Hc) as [Hd _ Ht _]. unfold phase_ok, can_end in H2. rewrite Hh in H2.
  destruct (c_phase c) as [| |t|t|t [r|]|m|m] eqn:Ep; try (destruct H2; congruence); try congruence.
  - destruct H2 as (_ & [[= ->] | [|(r & ?)]]); try done. by destruct (Ht t eq_refl) as (_ & ? & _).
  - destruct H2 as [?|[?|(? & ? & ?)]]; congruence.
  - destruct H2 as [?|[?|(? & ? & ?)]]; congruence.
Qed.
End calls.
