(* ===== verification/KvLinear.v ===== *)
(** The key/value service over the network is linearizable.

    The ghost list [lin] has an effect for every read and every update of the
    server's data that stands for an operation, in the order in which they
    happened; an operation is marked finished when its clerk returns.  A Get whose
    reply was lost leaves an effect that no operation claims: it does not change
    the data and is left out in the end. *)

From Stdlib Require Import Sorted.
From stdpp Require Import pretty.
From S2P Require Import Prelude Network NetworkTheorems KvSrv Checker CheckerOps KvModel KvNet KvNetCalls.

(** * Effects *)

Abbreviation kv_store_step := (store_step in_Key kv_Step ""%string).
Abbreviation kv_store := (gmap string string).

Record effect := mkEffect { ef_op : KvOperation; ef_time : Z; ef_fin : bool }.

(** The model goes from [m] to [m'] by these operations. *)
Fixpoint leads (m : kv_store) (seq : list KvOperation) (m' : kv_store) : Prop :=
  match seq with
  | [] => m' = m
  | x :: seq => exists m1, kv_store_step m (op_Input x) (op_Output x) = (true, m1) /\ leads m1 seq m'
  end.

Lemma leads_legal m seq m' : leads m seq m' -> op_legal kv_store_step m seq.
Proof. revert m. induction seq as [|x seq IH]; intros m; [done|]. intros (m1 & H & Hl). exists m1. auto. Qed.

Lemma leads_snoc m seq m1 x m' :
  leads m seq m1 -> kv_store_step m1 (op_Input x) (op_Output x) = (true, m') -> leads m (seq ++ [x]) m'.
Proof.
  revert m. induction seq as [|y seq IH]; intros m; simpl.
  - intros ->. eauto.
  - intros (m2 & H & Hl) Hx. exists m2. eauto.
Qed.

(** Two stores with the same values. *)
Definition same_values (m m' : kv_store) : Prop := forall k, value_of ""%string m k = value_of ""%string m' k.

Definition is_read (x : KvOperation) : Prop := in_Op (op_Input x) = 0.
#[export] Instance is_read_dec x : Decision (is_read x).
Proof. unfold is_read. apply _. Defined.

Lemma step_same_values m1 m2 inp out m1' :
  same_values m1 m2 -> kv_store_step m1 inp out = (true, m1') ->
  exists m2', kv_store_step m2 inp out = (true, m2') /\ same_values m1' m2'.
Proof.
  intros Hs. unfold store_step. rewrite <- Hs.
  destruct (kv_Step (value_of ""%string m1 (in_Key inp)) inp out) as [ok s]. intros [= -> <-].
  eexists. split; [reflexivity|]. intros k. by rewrite !value_insert, Hs.
Qed.

Lemma read_same_values m x m' :
  is_read x -> kv_store_step m (op_Input x) (op_Output x) = (true, m') -> same_values m' m.
Proof.
  unfold is_read, store_step, kv_Step. intros Hr. rewrite Hr, Z.eqb_refl. intros [= _ <-] k.
  rewrite value_insert. by case_decide as E; [subst k|].
Qed.

(** ** The ghost list *)

(** The updates of client [c] that have taken effect and are not finished. *)
Definition unclaimed (c : Z) (e : effect) : bool :=
  negb (ef_fin e) && negb (in_Op (op_Input (ef_op e)) =? 0) && (op_ClientId (ef_op e) =? c).
Definition pending (c : Z) (lin : list effect) : list effect := filter (fun e => unclaimed c e = true) lin.

Definition finished (lin : list effect) : list KvOperation := ef_op <$> filter (fun e => ef_fin e = true) lin.

Definition before_in_time (e1 e2 : effect) : Prop := ef_time e1 < ef_time e2.

Record lin_ok (now : Z) (data : kv_store) (history : list KvOperation) (lin : list effect) : Prop := {
  lo_sorted : StronglySorted before_in_time lin;
  lo_time : forall e, e ∈ lin -> op_Call (ef_op e) <= ef_time e <= now /\
    (ef_fin e = true -> ef_time e <= op_Return (ef_op e));
  lo_leads : exists m, leads ∅ (ef_op <$> lin) m /\ same_values m data;
  lo_history : history ≡ₚ finished lin }.

Lemma pending_app c l1 l2 : pending c (l1 ++ l2) = pending c l1 ++ pending c l2.
Proof. apply filter_app. Qed.

Lemma pending_cons c e l : pending c (e :: l) = (if unclaimed c e then [e] else []) ++ pending c l.
Proof. unfold pending. rewrite filter_cons. by destruct (unclaimed c e). Qed.

Lemma pending_one c lin e :
  pending c lin = [e] -> exists l1 l2, lin = l1 ++ e :: l2 /\ pending c l1 = [] /\ pending c l2 = [] /\ unclaimed c e = true.
Proof.
  intros H. destruct (filter_split (fun e => unclaimed c e = true) lin [] e []) as (l1 & l2 & -> & H1 & H2); [done|].
  exists l1, l2. split_and!; try done. unfold pending in H.
  assert (e ∈ filter (fun e => unclaimed c e = true) (l1 ++ e :: l2)) as He by (rewrite H; by left).
  by apply list_elem_of_filter in He as [? _].
Qed.

(** Finishing an operation. *)
Definition finish (ret : Z) (e : effect) : effect :=
  let x := ef_op e in
  mkEffect (mkOperation (op_ClientId x) (op_Input x) (op_Call x) (op_Output x) ret) (ef_time e) true.

Lemma unclaimed_finish c ret e : unclaimed c (finish ret e) = false.
Proof. done. Qed.

Lemma StronglySorted_mid {A} (R : A -> A -> Prop) l1 x y l2 :
  (forall z, R z x -> R z y) -> (forall z, R x z -> R y z) ->
  StronglySorted R (l1 ++ x :: l2) -> StronglySorted R (l1 ++ y :: l2).
Proof.
  intros H1 H2. induction l1 as [|z l1 IH]; simpl; inversion 1 as [|? ? Hs Hf]; subst; constructor; auto.
  - eapply Forall_impl; [exact Hf|]. auto.
  - rewrite Forall_app, Forall_cons in *. naive_solver.
Qed.

Lemma leads_map m seq seq' m' :
  Forall2 (fun x y => op_Input x = op_Input y /\ op_Output x = op_Output y) seq seq' -> leads m seq m' -> leads m seq' m'.
Proof.
  intros H. revert m. induction H as [|x y seq seq' [H1 H2] _ IH]; intros m; [done|].
  intros (m1 & Hs & Hl). exists m1. rewrite <- H1, <- H2. auto.
Qed.

Lemma lin_finish now data history l1 e l2 :
  lin_ok now data history (l1 ++ e :: l2) -> ef_fin e = false ->
  lin_ok now data (history ++ [ef_op (finish now e)]) (l1 ++ finish now e :: l2).
Proof.
  intros [H1 H2 H3 H4] Hf. split.
  - by eapply StronglySorted_mid; [..|exact H1].
  - intros e' [He| [->|He]%elem_of_cons]%elem_of_app; [apply H2, elem_of_app; by left| |].
    + destruct (H2 e) as [Ht _]; [apply elem_of_app; right; by left|]. simpl. lia.
    + apply H2, elem_of_app. right. by right.
  - destruct H3 as (m & Hm & Hs). exists m. split; [|done]. eapply leads_map; [|exact Hm].
    rewrite !fmap_app, !fmap_cons. apply Forall2_app; [by apply Forall_Forall2_diag, Forall_forall|].
    constructor; [done|]. by apply Forall_Forall2_diag, Forall_forall.
  - unfold finished in *. rewrite filter_app, filter_cons_True by done.
    rewrite filter_app, filter_cons_False in H4 by congruence. rewrite H4, !fmap_app, fmap_cons.
    rewrite <- app_assoc. apply Permutation_app_head. rewrite Permutation_app_comm. done.
Qed.

(** A new effect. *)
Lemma lin_snoc now data history lin x data' :
  lin_ok now data history lin -> op_Call x <= now + 1 ->
  (exists m', kv_store_step data (op_Input x) (op_Output x) = (true, m') /\ same_values m' data') ->
  lin_ok (now + 1) data' history (lin ++ [mkEffect x (now + 1) false]).
Proof.
  intros [H1 H2 H3 H4] Hx (m' & Hm' & Hs'). split.
  - clear -H1 H2. assert (forall e, e ∈ lin -> ef_time e <= now) as Ht by (intros e He; apply H2; done). clear H2.
    induction H1 as [|e l Hs IH Hf]; simpl; [repeat constructor|]. constructor.
    + apply IH. intros e' He'. apply Ht. by right.
    + apply Forall_app. split; [done|]. constructor; [|done]. unfold before_in_time. simpl.
      specialize (Ht e ltac:(by left)). lia.
  - intros e [He|He%list_elem_of_singleton]%elem_of_app; [|subst; simpl; split; [lia|done]].
    destruct (H2 e He). split; [lia|done].
  - destruct H3 as (m & Hm & Hs).
    destruct (step_same_values data m (op_Input x) (op_Output x) m') as (m2 & Hm2 & Hs2); [intros k; symmetry; apply Hs|done|].
    exists m2. split; [|intros k; by rewrite <- Hs2].
    rewrite fmap_app. by eapply leads_snoc.
  - unfold finished. rewrite filter_app, fmap_app, filter_cons_False by done. by rewrite app_nil_r.
Qed.

Lemma lin_later now now' data history lin : now <= now' -> lin_ok now data history lin -> lin_ok now' data history lin.
Proof. intros Hn [H1 H2 H3 H4]. split; try done. intros e He. destruct (H2 e He). split; [lia|done]. Qed.

(** Reads that nobody claims can be left out. *)
Lemma legal_finished m0 m1 lin :
  same_values m0 m1 -> (forall e, e ∈ lin -> ef_fin e <> true -> is_read (ef_op e)) ->
  op_legal kv_store_step m0 (ef_op <$> lin) -> op_legal kv_store_step m1 (finished lin).
Proof.
  revert m0 m1. induction lin as [|e lin IH]; intros m0 m1 Hs Hr; [done|]. intros (m2 & E & Hl).
  assert (forall e, e ∈ lin -> ef_fin e <> true -> is_read (ef_op e)) as Hr' by (intros e' ?; apply Hr; by right).
  unfold finished. rewrite filter_cons. case_decide as Hf.
  - destruct (step_same_values _ _ _ _ _ Hs E) as (m3 & E3 & Hs3). exists m3. split; [done|]. by apply (IH m2).
  - apply (IH m2); try done. intros k. rewrite <- Hs. apply (read_same_values m0 (ef_op e)); [|done].
    apply Hr; [by left|done].
Qed.

(** Effects in the order of their times are in an order the clocks allow. *)
Lemma ordered_finished now lin :
  (forall e, e ∈ lin -> op_Call (ef_op e) <= ef_time e <= now /\ (ef_fin e = true -> ef_time e <= op_Return (ef_op e))) ->
  StronglySorted before_in_time lin -> ordered (finished lin).
Proof.
  induction lin as [|e l IH]; intros Ht Hs; [by intros []|].
  inversion Hs as [|? ? Hs' Hf]; subst. unfold finished. rewrite filter_cons.
  assert (ordered (finished l)) as Hl by (apply IH; [|done]; intros e' ?; apply Ht; by right).
  case_decide as Hfin; [|done]. rewrite fmap_cons. apply (ordered_cons kv_Step ""%string). split; [|done].
  intros y (e' & -> & [Hf' He']%list_elem_of_filter)%list_elem_of_fmap.
  destruct (Ht e) as [? _]; [by left|]. destruct (Ht e') as [_ Hr]; [by right|].
  rewrite Forall_forall in Hf. specialize (Hf e' He'). unfold before_in_time in Hf. specialize (Hr Hf'). lia.
Qed.

(** When every effect that is not finished is a read, the finished operations are
    linearizable. *)
Lemma lin_linearizable now data history lin :
  lin_ok now data history lin -> (forall c, pending c lin = []) ->
  op_linearizable kv_store_step ∅ history.
Proof.
  intros [H1 H2 (m & Hm & _) H4] Hp. exists (finished lin). split; [done|]. split; [|by eapply ordered_finished].
  eapply legal_finished; [done| |by eapply leads_legal].
  intros e He Hf. destruct (decide (is_read (ef_op e))) as [|Hn]; [done|]. exfalso.
  assert (e ∈ pending (op_ClientId (ef_op e)) lin) as Hin.
  { apply list_elem_of_filter. split; [|done]. unfold unclaimed, is_read in *.
    destruct (ef_fin e); [done|]. rewrite Z.eqb_refl. simpl. by rewrite (proj2 (Z.eqb_neq _ _) Hn). }
  rewrite Hp in Hin. by apply elem_of_nil in Hin.
Qed.
