(* ===== verification/KvNetProof.v ===== *)
(** The invariant of the key/value service over the network, and what follows: the
    recorded histories are linearizable, so the checker accepts them, and the
    server never stops the program. *)

From stdpp Require Import pretty.
From S2P Require Import Prelude Network NetworkTheorems KvSrv Checker CheckerOps KvModel KvNet KvNetCalls KvLinear.

Section proof.
Context `{!Gob GetArgs, !Gob GetReply, !Gob PutAppendArgs, !Gob PutAppendReply}.
Context (valued : bool).

(** * The invariant *)

(** The effect of a Get that answers [b]. *)
Definition reads (c : Z) (args : GetArgs) (s : Z) (b : string) (e : effect) : Prop :=
  ef_fin e = false /\ exists v t,
    ef_op e = mkOperation c (mkKvInput 0 (ga_Key args) "") s (mkKvOutput v) t /\ ungob b = Some (mkGetReply v).

(** The effect of an update that answers [v]. *)
Definition updates (c : Z) (op : kv_op) (args : PutAppendArgs) (s : Z) (v : string) (e : effect) : Prop :=
  exists t, ef_op e = mkOperation c (fst (recorded valued op args v)) s (snd (recorded valued op args v)) t.

Definition get_ok (kv : KVServer) (lin : list effect) (c : Z) (args : GetArgs) (s : Z) (st : hstat)
    (mo : option method_state) : Prop :=
  match st, mo with
  | NotBegun, None => True
  | Running, Some (TCalled r) => r = RGet args
  | Running, Some (TGetLoaded a) => a = args /\ is_Some (kv_data kv !! ga_Key args)
  | Running, Some (TReply b) | Replied b, None => exists e, e ∈ lin /\ reads c args s b e
  | _, _ => False
  end.

(** Before an update is accepted, or when it was and is called again. *)
Definition to_sync (kv : KVServer) (lin : list effect) (c : Z) (op : kv_op) (args : PutAppendArgs) (s : Z) : Prop :=
  (expected kv c = RpcID args /\ pending c lin = []) \/
  (valued = false /\ expected kv c = RpcID args + 1 /\ exists e, pending c lin = [e] /\ updates c op args s "" e).

Definition accepted_ok (kv : KVServer) (lin : list effect) (c : Z) (args : PutAppendArgs) (r : PutAppendReply) : Prop :=
  expected kv c = RpcID args + 1 /\ pending c lin = [] /\ r = mkPutAppendReply (RpcID args) "".

Definition update_ok (kv : KVServer) (lin : list effect) (c : Z) (op : kv_op) (args : PutAppendArgs) (s : Z)
    (st : hstat) (mo : option method_state) : Prop :=
  match st, mo with
  | NotBegun, None => to_sync kv lin c op args s
  | Running, Some (TCalled r) => r = RUpdate op args /\ to_sync kv lin c op args s
  | Running, Some (TSynced o a r) => o = op /\ a = args /\ accepted_ok kv lin c args r
  | Running, Some (TLoaded o a r) =>
      o = op /\ a = args /\ accepted_ok kv lin c args r /\ is_Some (kv_data kv !! Key args)
  | Running, Some (TReply b) | Replied b, None =>
      expected kv c = RpcID args + 1 /\ exists e p,
        pending c lin = [e] /\ updates c op args s (r_Value p) e /\ ungob b = Some p /\ r_RpcID p = RpcID args
  | _, _ => False
  end.

Definition request_ok (kv : KVServer) (lin : list effect) (c : Z) (ck : Clerk) (r : request) (s : Z) (st : hstat)
    (mo : option method_state) : Prop :=
  match r with
  | RGet args => expected kv c = ck_rpcid ck + 1 /\ pending c lin = [] /\ get_ok kv lin c args s st mo
  | RUpdate op args =>
      ClientID args = c /\ RpcID args = ck_rpcid ck /\ 0 < RpcID args /\ update_ok kv lin c op args s st mo
  end.

Definition work_ok (y : system) (lin : list effect) (c : Z) (cl : client) : Prop :=
  match cl_act cl with
  | Idle => expected (y_kv y) c = ck_rpcid (cl_ck cl) + 1 /\ pending c lin = []
  | InCall r s id =>
      s <= y_now y /\ exists x, w_calls (y_world y) !! id = Some x /\
        c_req x = mkReq (cl_end cl) (svcMeth r) (encoded r) /\
        request_ok (y_kv y) lin c (cl_ck cl) r s (stat (c_handler x)) (y_methods y !! id)
  end.

Record client_ok (y : system) (lin : list effect) (c : Z) (cl : client) : Prop := {
  cl_id : ck_id (cl_ck cl) = c;
  cl_rpc : 0 <= ck_rpcid (cl_ck cl) < 2^32 - 1;
  cl_known : c <= y_clerkID y;
  cl_linked : end_ok (y_world y) (cl_end cl);
  cl_made : is_Some (ends (w_net (y_world y)) !! cl_end cl);
  cl_work : work_ok y lin c cl }.

(** Call [id] is the one client [c] waits for. *)
Definition belongs (y : system) (c id : Z) : Prop :=
  exists cl r s, y_clients y !! c = Some cl /\ cl_act cl = InCall r s id.

Record sys_inv (y : system) (lin : list effect) : Prop := {
  si_world : world_ok valued (y_world y);
  si_lin : lin_ok (y_now y) (kv_data (y_kv y)) (y_history y) lin;
  si_client : forall c cl, y_clients y !! c = Some cl -> client_ok y lin c cl;
  si_ends : forall c1 c2 cl1 cl2, y_clients y !! c1 = Some cl1 -> y_clients y !! c2 = Some cl2 ->
    cl_end cl1 = cl_end cl2 -> c1 = c2;
  si_other : forall c, y_clients y !! c = None -> pending c lin = [];
  si_new : 0 <= y_clerkID y < 2^32 /\ forall c, y_clerkID y < c -> expected (y_kv y) c = 1;
  si_calls : forall id x, w_calls (y_world y) !! id = Some x -> returned (c_phase x) = None -> exists c, belongs y c id;
  si_methods : forall id, is_Some (y_methods y !! id) -> exists c, belongs y c id }.

(** * Frames *)

Lemma belongs_one y lin c c' id : sys_inv y lin -> belongs y c id -> belongs y c' id -> c = c'.
Proof.
  intros Hi (cl & r & s & Hc & Ha) (cl' & r' & s' & Hc' & Ha').
  pose proof (cl_work _ _ _ _ (si_client _ _ Hi _ _ Hc)) as W. unfold work_ok in W. rewrite Ha in W.
  pose proof (cl_work _ _ _ _ (si_client _ _ Hi _ _ Hc')) as W'. unfold work_ok in W'. rewrite Ha' in W'.
  destruct W as (_ & x & Hx & Hq & _), W' as (_ & x' & Hx' & Hq' & _).
  eapply (si_ends _ _ Hi); [done..|]. rewrite Hx in Hx'. injection Hx' as <-. rewrite Hq in Hq'. by injection Hq'.
Qed.

(** What a client relies on. *)
Record framed (y y' : system) (lin lin' : list effect) (c : Z) : Prop := {
  fd_expected : expected (y_kv y') c = expected (y_kv y) c;
  fd_data : forall k, is_Some (kv_data (y_kv y) !! k) -> is_Some (kv_data (y_kv y') !! k);
  fd_pending : pending c lin' = pending c lin;
  fd_lin : forall e, e ∈ lin -> op_ClientId (ef_op e) = c -> e ∈ lin';
  fd_methods : forall id, belongs y c id -> y_methods y' !! id = y_methods y !! id;
  fd_calls : forall id x, belongs y c id -> w_calls (y_world y) !! id = Some x ->
    exists x', w_calls (y_world y') !! id = Some x' /\ c_req x' = c_req x /\ stat (c_handler x') = stat (c_handler x) }.

Lemma request_framed y y' lin lin' c ck r s st mo :
  framed y y' lin lin' c -> request_ok (y_kv y) lin c ck r s st mo -> request_ok (y_kv y') lin' c ck r s st mo.
Proof.
  intros [F1 F2 F3 F4 _ _].
  assert (forall args b e, e ∈ lin /\ reads c args s b e -> exists e, e ∈ lin' /\ reads c args s b e) as Hr.
  { intros args b e [He Hr]. exists e. split; [|done]. apply F4; [done|]. by destruct Hr as (_ & v & t & -> & _). }
  destruct r as [args|op args]; simpl.
  - rewrite F1, F3. intros (H1 & H2 & H3). split_and!; [done..|]. unfold get_ok in *.
    destruct st, mo as [[]|]; try done; naive_solver.
  - intros (H1 & H2 & H3 & H4). split_and!; [done..|]. unfold update_ok, to_sync, accepted_ok in *.
    rewrite F1, F3. destruct st, mo as [[]|]; try done; naive_solver.
Qed.

Lemma client_framed y y' lin lin' c cl :
  y_clients y !! c = Some cl -> framed y y' lin lin' c -> y_now y <= y_now y' -> y_clerkID y <= y_clerkID y' ->
  end_ok (y_world y') (cl_end cl) -> is_Some (ends (w_net (y_world y')) !! cl_end cl) ->
  client_ok y lin c cl -> client_ok y' lin' c cl.
Proof.
  intros Hc F Hn Hk He Hm [C1 C2 C3 C4 C5 C6]. split; try done; [lia|].
  unfold work_ok in *. destruct (cl_act cl) as [|r s id] eqn:Ha.
  - by rewrite (fd_expected _ _ _ _ _ F), (fd_pending _ _ _ _ _ F).
  - assert (belongs y c id) as Hb by (by exists cl, r, s).
    destruct C6 as (Hs & x & Hx & Hq & Hr). split; [lia|].
    destruct (fd_calls _ _ _ _ _ F id x Hb Hx) as (x' & Hx' & Hq' & Hst). exists x'.
    rewrite Hq', Hst, (fd_methods _ _ _ _ _ F id Hb). split_and!; [done..|]. by eapply request_framed.
Qed.

(** ** Steps of the network *)

Lemma inv_net y lin w' t :
  sys_inv y lin -> internal_effect valued (y_world y) w' -> y_now y <= t -> sys_inv (set_world w' (set_now t y)) lin.
Proof.
  intros Hi [E1 E2 E3 E4] Ht. split; simpl; try apply Hi; [done| | |].
  - eapply lin_later; [done|apply Hi].
  - intros c cl Hc. pose proof (si_client _ _ Hi _ _ Hc) as Hcl. eapply client_framed; try done.
    + split; try done. intros id x _ Hx. destruct (E4 _ _ Hx) as (x' & ? & ? & ? & _). by exists x'.
    + eapply steady_end; [done|apply Hcl].
    + simpl. rewrite (st_ends _ _ _ E2). apply Hcl.
  - intros id x' Hx' Hr. destruct (w_calls (y_world y) !! id) as [x|] eqn:Hx; [|by rewrite (E3 _ Hx) in Hx'].
    destruct (E4 _ _ Hx) as (x2 & Hx2 & _ & _ & Hret). rewrite Hx' in Hx2. injection Hx2 as <-.
    eapply (si_calls _ _ Hi); [done|]. destruct (returned (c_phase x)) eqn:E; [|done].
    rewrite Hret in Hr by congruence. congruence.
Qed.

(** ** Steps of one client and of its call *)

Record touches (y y' : system) (lin lin' : list effect) (c : Z) : Prop := {
  to_steady : steady valued (y_world y) (y_world y');
  to_clerkID : y_clerkID y' = y_clerkID y;
  to_now : y_now y <= y_now y';
  to_clients : forall c', c' <> c -> y_clients y' !! c' = y_clients y !! c';
  to_expected : forall c', c' <> c -> expected (y_kv y') c' = expected (y_kv y) c';
  to_data : forall k, is_Some (kv_data (y_kv y) !! k) -> is_Some (kv_data (y_kv y') !! k);
  to_pending : forall c', c' <> c -> pending c' lin' = pending c' lin;
  to_lin : forall e, e ∈ lin -> op_ClientId (ef_op e) <> c -> e ∈ lin';
  to_methods : forall id, ~ belongs y c id -> ~ belongs y' c id -> y_methods y' !! id = y_methods y !! id;
  to_calls : forall id, ~ belongs y c id -> ~ belongs y' c id ->
    w_calls (y_world y') !! id = w_calls (y_world y) !! id;
  to_left : forall id, belongs y c id -> ~ belongs y' c id ->
    y_methods y' !! id = None /\ forall x, w_calls (y_world y') !! id = Some x -> returned (c_phase x) <> None;
  to_fresh : forall id, belongs y' c id -> belongs y c id \/ w_calls (y_world y) !! id = None }.

#[local] Instance belongs_dec y c id : Decision (belongs y c id).
Proof.
  destruct (y_clients y !! c) as [cl|] eqn:E; [|right; by intros (? & ? & ? & ? & _); congruence].
  destruct (cl_act cl) as [|r s i] eqn:Ea.
  - right. intros (? & ? & ? & ? & ?). congruence.
  - destruct (decide (i = id)) as [->|]; [left; by exists cl, r, s|right]. intros (? & ? & ? & ? & ?). congruence.
Defined.

Lemma inv_touch y y' lin lin' c cl cl' :
  sys_inv y lin -> touches y y' lin lin' c ->
  world_ok valued (y_world y') -> lin_ok (y_now y') (kv_data (y_kv y')) (y_history y') lin' ->
  y_clients y !! c = Some cl -> y_clients y' !! c = Some cl' -> cl_end cl' = cl_end cl ->
  ck_id (cl_ck cl') = c -> 0 <= ck_rpcid (cl_ck cl') < 2^32 - 1 -> work_ok y' lin' c cl' ->
  sys_inv y' lin'.
Proof.
  intros Hi T Hw Hl Hc Hc' He Hid Hrpc Hwork. pose proof (si_client _ _ Hi _ _ Hc) as Hcl.
  assert (forall c' id, c' <> c -> belongs y c' id -> ~ belongs y c id /\ ~ belongs y' c id) as Hother.
  { intros c' id Hne Hb. split; [intros Hb'; by eapply Hne, belongs_one|]. intros Hb'.
    destruct (to_fresh _ _ _ _ _ T _ Hb') as [Hb2|Hnone]; [by eapply Hne, belongs_one|].
    destruct Hb as (clb & r & s & Hb & Ha). pose proof (cl_work _ _ _ _ (si_client _ _ Hi _ _ Hb)) as W.
    unfold work_ok in W. rewrite Ha in W. destruct W as (_ & x & Hx & _). congruence. }
  assert (forall c' id, c' <> c -> belongs y c' id -> belongs y' c' id) as Hkeep.
  { intros c' id Hne (clb & r & s & Hb & Ha). exists clb, r, s. by rewrite (to_clients _ _ _ _ _ T). }
  split; try done.
  - intros c2 cl2 H2. destruct (decide (c2 = c)) as [->|Hne].
    + rewrite Hc' in H2. injection H2 as <-. destruct Hcl as [C1 C2 C3 C4 C5 C6]. split; try done.
      * rewrite (to_clerkID _ _ _ _ _ T). done.
      * rewrite He. eapply steady_end; [apply T|done].
      * rewrite He, (st_ends _ _ _ (to_steady _ _ _ _ _ T)). done.
    + rewrite (to_clients _ _ _ _ _ T) in H2 by done. pose proof (si_client _ _ Hi _ _ H2) as Hcl2.
      eapply client_framed; try done.
      * split; try (by apply T).
        -- intros e Hin Hcid. apply T; [done|congruence].
        -- intros id Hb. destruct (Hother _ _ Hne Hb). by apply T.
        -- intros id x Hb Hx. destruct (Hother _ _ Hne Hb). exists x.
           by rewrite (to_calls _ _ _ _ _ T).
      * apply T.
      * by rewrite (to_clerkID _ _ _ _ _ T).
      * eapply steady_end; [apply T|apply Hcl2].
      * rewrite (st_ends _ _ _ (to_steady _ _ _ _ _ T)). apply Hcl2.
  - intros c1 c2 cl1 cl2 H1 H2 Hee.
    assert (forall c3 cl3, y_clients y' !! c3 = Some cl3 -> exists cl0, y_clients y !! c3 = Some cl0 /\ cl_end cl0 = cl_end cl3) as Hold.
    { intros c3 cl3 H3. destruct (decide (c3 = c)) as [->|Hne]; [exists cl; split; congruence|].
      rewrite (to_clients _ _ _ _ _ T) in H3 by done. by exists cl3. }
    destruct (Hold _ _ H1) as (a & Ha & Hae), (Hold _ _ H2) as (b & Hb & Hbe).
    eapply (si_ends _ _ Hi); [done..|congruence].
  - intros c2 H2. destruct (decide (c2 = c)) as [->|Hne]; [congruence|].
    rewrite (to_pending _ _ _ _ _ T) by done. apply (si_other _ _ Hi). by rewrite <- (to_clients _ _ _ _ _ T).
  - rewrite (to_clerkID _ _ _ _ _ T). split; [apply Hi|]. intros c2 H2. rewrite (to_expected _ _ _ _ _ T).
    + by apply Hi.
    + intros ->. pose proof (cl_known _ _ _ _ Hcl). lia.
  - intros id x Hx Hr. destruct (decide (belongs y' c id)) as [Hb|Hb]; [by exists c|].
    destruct (decide (belongs y c id)) as [Hb0|Hb0].
    + by destruct (to_left _ _ _ _ _ T _ Hb0 Hb) as [_ ?%(fun f => f x Hx)].
    + rewrite (to_calls _ _ _ _ _ T) in Hx by done. destruct (si_calls _ _ Hi _ _ Hx Hr) as [c2 Hb2].
      exists c2. apply Hkeep; [|done]. by intros ->.
  - intros id Hm. destruct (decide (belongs y' c id)) as [Hb|Hb]; [by exists c|].
    destruct (decide (belongs y c id)) as [Hb0|Hb0].
    + destruct (to_left _ _ _ _ _ T _ Hb0 Hb) as [Hn _]. rewrite Hn in Hm. by destruct Hm.
    + rewrite (to_methods _ _ _ _ _ T) in Hm by done. destruct (si_methods _ _ Hi _ Hm) as [c2 Hb2].
      exists c2. apply Hkeep; [|done]. by intros ->.
Qed.
(** ** The methods *)

(** What a piece of a method of client [c] does to the server and the effects. *)
Record advances (now : Z) (history : list KvOperation) (kv kv' : KVServer) (lin lin' : list effect) (c : Z) : Prop := {
  ad_lin : lin_ok (now + 1) (kv_data kv') history lin';
  ad_expected : forall c', c' <> c -> expected kv' c' = expected kv c';
  ad_data : forall k, is_Some (kv_data kv !! k) -> is_Some (kv_data kv' !! k);
  ad_pending : forall c', c' <> c -> pending c' lin' = pending c' lin;
  ad_more : forall e, e ∈ lin -> e ∈ lin' }.

Lemma advances_sync now history kv lin c i :
  lin_ok now (kv_data kv) history lin -> advances now history kv (set_sync c i kv) lin lin c.
Proof.
  intros Hl. split; try done; [eapply lin_later; [|done]; lia|].
  intros c' Hne. rewrite expected_set_sync. by rewrite decide_False.
Qed.

Lemma advances_same now history kv lin c :
  lin_ok now (kv_data kv) history lin -> advances now history kv kv lin lin c.
Proof. intros Hl. split; try done. eapply lin_later; [|done]; lia. Qed.

(** The effect at the end of [lin]. *)
Lemma pending_snoc_other c c' lin x t :
  op_ClientId x = c -> c' <> c -> pending c' (lin ++ [mkEffect x t false]) = pending c' lin.
Proof.
  intros <- Hne. rewrite pending_app, pending_cons. unfold unclaimed at 1. simpl.
  rewrite (proj2 (Z.eqb_neq (op_ClientId x) c')), !andb_false_r by congruence. simpl. by rewrite app_nil_r.
Qed.

Lemma advances_effect now history kv kv' lin x :
  lin_ok now (kv_data kv) history lin -> op_Call x <= now ->
  (exists m', kv_store_step (kv_data kv) (op_Input x) (op_Output x) = (true, m') /\ same_values m' (kv_data kv')) ->
  (forall c', c' <> op_ClientId x -> expected kv' c' = expected kv c') ->
  (forall k, is_Some (kv_data kv !! k) -> is_Some (kv_data kv' !! k)) ->
  advances now history kv kv' lin (lin ++ [mkEffect x (now + 1) false]) (op_ClientId x).
Proof.
  intros Hl Hx Hm He Hd. split; try done.
  - by eapply lin_snoc; [|lia|].
  - intros c' Hne. by eapply pending_snoc_other.
  - intros e Hin. apply elem_of_app. by left.
Qed.

Lemma get_effect now history kv lin c args s :
  lin_ok now (kv_data kv) history lin -> s <= now ->
  let v := default ""%string (kv_data kv !! ga_Key args) in
  exists lin', advances now history kv kv lin lin' c /\ pending c lin' = pending c lin /\
    exists e, e ∈ lin' /\ reads c args s (gob (mkGetReply v)) e.
Proof.
  intros Hl Hs v. set (x := mkOperation c (mkKvInput 0 (ga_Key args) "") s (mkKvOutput v) 0 : KvOperation).
  exists (lin ++ [mkEffect x (now + 1) false]). split_and!.
  - apply (advances_effect now history kv kv lin x); try done. simpl. unfold store_step, kv_Step. simpl.
    rewrite bool_decide_eq_true_2 by done. eexists. split; [reflexivity|]. intros k. rewrite value_insert.
    by case_decide as E; [subst k|].
  - rewrite pending_app, pending_cons. by rewrite !app_nil_r.
  - eexists. split; [apply elem_of_app; right; by left|]. split; [done|]. eexists _, _. split; [done|].
    apply ungob_gob.
Qed.

Lemma update_store op args m :
  let r := recorded valued op args (value_of ""%string m (Key args)) in
  kv_store_step m (fst r) (snd r) = (true, apply_op op (Key args) (Value args) m).
Proof.
  unfold recorded, store_step, kv_Step, apply_op. destruct op; simpl; [done|].
  destruct valued; simpl; [by rewrite bool_decide_eq_true_2|done].
Qed.

Lemma apply_op_keeps op k v (m : gmap string string) k' : is_Some (m !! k') -> is_Some (apply_op op k v m !! k').
Proof. intros H. destruct op; simpl; rewrite lookup_insert; case_decide; eauto. Qed.

Lemma update_effect now history kv kv' lin c op args s :
  lin_ok now (kv_data kv) history lin -> s <= now -> ClientID args = c ->
  kv_data kv' = apply_op op (Key args) (Value args) (kv_data kv) ->
  (forall c', expected kv' c' = expected kv c') -> pending c lin = [] ->
  exists lin' e, advances now history kv kv' lin lin' c /\ pending c lin' = [e] /\
    updates c op args s (value_of ""%string (kv_data kv) (Key args)) e.
Proof.
  intros Hl Hs Hc Hd He Hp. set (r := recorded valued op args (value_of ""%string (kv_data kv) (Key args))).
  set (x := mkOperation c (fst r) s (snd r) 0 : KvOperation).
  exists (lin ++ [mkEffect x (now + 1) false]), (mkEffect x (now + 1) false). split_and!.
  - apply (advances_effect now history kv kv' lin x); try done.
    + simpl. unfold r. rewrite update_store. eexists. split; [reflexivity|]. by rewrite Hd.
    + intros k Hk. rewrite Hd. by apply apply_op_keeps.
  - rewrite pending_app, pending_cons, Hp. unfold unclaimed. simpl. rewrite Z.eqb_refl.
    unfold r, recorded. by destruct op, valued.
  - by exists 0.
Qed.

Lemma method_get now history kv lin c ck args s t :
  lin_ok now (kv_data kv) history lin -> s <= now ->
  request_ok kv lin c ck (RGet args) s Running (Some t) -> (forall b, t <> TReply b) ->
  exists t' kv' lin', method_turn t kv = Done t' kv' /\ advances now history kv kv' lin lin' c /\
    request_ok kv' lin' c ck (RGet args) s Running (Some t').
Proof.
  intros Hl Hs (H1 & H2 & H3) Ht. destruct (get_effect now history kv lin c args s Hl Hs) as (lin' & Ha & Hp & Hr).
  destruct t as [r|a|op a r|op a r|b]; simpl in H3; try done; [subst r|destruct H3 as [-> H3]|by destruct (Ht b)].
  - cbn [method_turn]. unfold get_load. rewrite bind_gets. case_bool_decide as Hk.
    + exists (TGetLoaded args), kv, lin. split; [done|]. split; [by apply advances_same|done].
    + exists (TReply (gob (mkGetReply ""))), kv, lin'. split; [done|]. split; [done|]. simpl.
      rewrite Hp. split_and!; [done..|]. destruct (kv_data kv !! ga_Key args); [by destruct Hk; eexists|done].
  - cbn [method_turn]. unfold Get. eexists _, kv, lin'. split; [reflexivity|]. split; [done|]. simpl.
    rewrite Hp. done.
Qed.

Lemma method_sync now history kv lin c op args s :
  lin_ok now (kv_data kv) history lin -> ClientID args = c -> 0 < RpcID args < 2^32 - 1 ->
  to_sync kv lin c op args s ->
  exists t' kv', method_turn (TCalled (RUpdate op args)) kv = Done t' kv' /\ advances now history kv kv' lin lin c /\
    update_ok kv' lin c op args s Running (Some t').
Proof.
  intros Hl Hc Hb Ht. cbn [method_turn]. unfold mbind, M_bind at 1. rewrite syncRpcID_run, Hc.
  destruct Ht as [(He & Hp)|(Hv & He & e & Hp & Hu)]; rewrite He.
  - rewrite Z.gtb_ltb, Z.ltb_irrefl, Z.eqb_refl. eexists _, _. split; [reflexivity|]. split; [by apply advances_sync|].
    simpl. split_and!; try done. unfold accepted_ok. rewrite expected_set_sync, decide_True by done. simpl.
    by rewrite to_uint32_small by lia.
  - rewrite Z.gtb_ltb, (proj2 (Z.ltb_lt _ _)) by lia. eexists _, _. split; [reflexivity|]. split; [by apply advances_sync|].
    simpl. rewrite expected_set_sync, decide_True by done. split; [done|]. eexists e, _. split; [done|].
    split; [|split; [apply ungob_gob|simpl; rewrite to_uint32_small; lia]].
    destruct Hu as [t Hu]. exists t. rewrite Hu. unfold recorded. by destruct op; rewrite ?Hv.
Qed.

Lemma method_store now history kv lin c op args s r :
  lin_ok now (kv_data kv) history lin -> s <= now -> ClientID args = c -> accepted_ok kv lin c args r ->
  exists t' kv' lin', method_turn (TSynced op args r) kv = Done t' kv' /\ advances now history kv kv' lin lin' c /\
    update_ok kv' lin' c op args s Running (Some t').
Proof.
  intros Hl Hs Hc (He & Hp & ->). cbn [method_turn]. unfold load_or_store, mbind, M_bind, gets.
  destruct (kv_data kv !! Key args) as [v|] eqn:Hk.
  - eexists _, kv, lin. split; [reflexivity|]. split; [by apply advances_same|]. done.
  - destruct (update_effect now history kv (set_value (Key args) (Value args) kv) lin c op args s)
      as (lin' & e & Ha & Hp' & Hu); try done.
    { unfold apply_op. rewrite Hk. by destruct op. }
    eexists _, _, lin'. split; [reflexivity|]. split; [done|]. simpl. split; [done|]. eexists e, _. split; [done|].
    split; [|split; [apply ungob_gob|done]]. unfold value_of in Hu. by rewrite Hk in Hu.
Qed.

Lemma method_locked now history kv lin c op args s r :
  lin_ok now (kv_data kv) history lin -> s <= now -> ClientID args = c -> 0 < RpcID args -> accepted_ok kv lin c args r ->
  exists t' kv' lin', method_turn (TLoaded op args r) kv = Done t' kv' /\ advances now history kv kv' lin lin' c /\
    update_ok kv' lin' c op args s Running (Some t').
Proof.
  intros Hl Hs Hc H0 (He & Hp & ->). cbn [method_turn]. unfold locked_update, mbind, M_bind, gets.
  assert (forall kv' v, kv_data kv' = apply_op op (Key args) (Value args) (kv_data kv) ->
    (forall c', expected kv' c' = expected kv c') ->
    (op = OpAppend -> v = default ""%string (kv_data kv !! Key args)) ->
    exists t' lin', TReply (gob (mkPutAppendReply (RpcID args) v)) = t' /\ advances now history kv kv' lin lin' c /\
      update_ok kv' lin' c op args s Running (Some t')) as Hdone.
  { intros kv' v Hd He' Hv. destruct (update_effect now history kv kv' lin c op args s) as (lin' & e & Ha & Hp' & Hu); try done.
    eexists _, lin'. split; [reflexivity|]. split; [done|]. simpl. rewrite He'. split; [done|]. eexists e, _. split; [done|].
    split; [|split; [apply ungob_gob|done]]. destruct Hu as [t Hu]. exists t. rewrite Hu. unfold recorded, value_of.
    destruct op; [done|]. simpl. by rewrite <- Hv. }
  destruct op.
  - destruct (Hdone (set_value (Key args) (Value args) kv) ""%string) as (t' & lin' & <- & H); try done.
    by eexists _, _, lin'.
  - assert (exists i, clientsSync kv !! ClientID args = Some i /\ s_RpcID i = expected kv c) as (i & Hi & Hie).
    { unfold expected in *. rewrite Hc. destruct (clientsSync kv !! c) as [i|]; [by exists i|lia]. }
    rewrite Hi. edestruct Hdone as (t' & lin' & <- & H); [| | |eexists _, _, lin'; split; [reflexivity|exact H]].
    + done.
    + intros c'. change (expected (set_sync (ClientID args) (mkSyncInfo (s_RpcID i)
        (default ""%string (kv_data kv !! Key args))) kv) c' = expected kv c').
      rewrite expected_set_sync. case_decide; [subst c'; simpl; by rewrite Hc|done].
    + done.
Qed.

(** A method always goes on, until its reply. *)
Lemma method_advances now history kv lin c ck r s t :
  lin_ok now (kv_data kv) history lin -> s <= now -> ck_rpcid ck < 2^32 - 1 ->
  request_ok kv lin c ck r s Running (Some t) -> (forall b, t <> TReply b) ->
  exists t' kv' lin', method_turn t kv = Done t' kv' /\ advances now history kv kv' lin lin' c /\
    request_ok kv' lin' c ck r s Running (Some t').
Proof.
  intros Hl Hs Hb Hr Ht. destruct r as [args|op args]; [by eapply method_get|].
  destruct Hr as (H1 & H2 & H3 & H4).
  enough (exists t' kv' lin', method_turn t kv = Done t' kv' /\ advances now history kv kv' lin lin' c /\
    update_ok kv' lin' c op args s Running (Some t')) as (t' & kv' & lin' & ? & ? & ?).
  { exists t', kv', lin'. done. }
  destruct t as [r|a|o a r|o a r|b]; simpl in H4; try done.
  - destruct H4 as [-> H4]. destruct (method_sync now history kv lin c op args s) as (t' & kv' & ?); try done; [lia|].
    by exists t', kv', lin.
  - destruct H4 as (-> & -> & H4). by apply method_store.
  - destruct H4 as (-> & -> & H4 & _). by apply method_locked.
  - by destruct (Ht b).
Qed.
End proof.
