(* ===== verification/KvNetTheorems.v ===== *)
(** Every step of the key/value service over the network keeps the invariant of
    KvNetProof; the theorems about its histories. *)

From Stdlib Require Import Ascii.
From stdpp Require Import pretty.
From S2P Require Import Prelude Network NetworkTheorems KvSrv Checker CheckerOps KvModel CheckerTheorems.
From S2P Require Import KvNet KvNetCalls KvLinear KvNetProof.

Section steps.
Context `{!Gob GetArgs, !Gob GetReply, !Gob PutAppendArgs, !Gob PutAppendReply}.
Context (valued : bool).

Lemma on_world_run {A B} (m : M world A) (k : A -> M system B) y a w :
  m (y_world y) = Done a w -> (on_world m ≫= k) y = k a (set_world w y).
Proof. intros E. unfold on_world, mbind, M_bind. by rewrite E. Qed.
Lemma on_kv_run {A B} (m : M KVServer A) (k : A -> M system B) y a kv :
  m (y_kv y) = Done a kv -> (on_kv m ≫= k) y = k a (set_kv kv y).
Proof. intros E. unfold on_kv, mbind, M_bind. by rewrite E. Qed.
Lemma the_client_run {B} c (k : client -> M system B) y cl :
  y_clients y !! c = Some cl -> (the_client c ≫= k) y = k cl y.
Proof. intros E. unfold the_client, mbind, M_bind, gets. by rewrite E. Qed.
Lemma the_method_run {B} id (k : method_state -> M system B) y t :
  y_methods y !! id = Some t -> (the_method id ≫= k) y = k t y.
Proof. intros E. unfold the_method, mbind, M_bind, gets. by rewrite E. Qed.
Lemma on_world_inv {A} (m : M world A) y a y' :
  on_world m y = Done a y' -> exists w, m (y_world y) = Done a w /\ y' = set_world w y.
Proof. unfold on_world. destruct (m (y_world y)); intros [= <- <-]. by eexists. Qed.
Lemma the_client_inv c y cl y' : the_client c y = Done cl y' -> y' = y /\ y_clients y !! c = Some cl.
Proof. unfold the_client. rewrite bind_gets. destruct (y_clients y !! c); [|done]. by intros [= <- <-]. Qed.
Lemma the_method_inv id y t y' : the_method id y = Done t y' -> y' = y /\ y_methods y !! id = Some t.
Proof. unfold the_method. rewrite bind_gets. destruct (y_methods y !! id); [|done]. by intros [= <- <-]. Qed.

Lemma the_call_done id w x : w_calls w !! id = Some x -> the_call id w = Done x w.
Proof. intros E. unfold the_call, mbind, M_bind, gets. by rewrite E. Qed.

(** The client a call belongs to, and its request. *)
Lemma owner y lin c id :
  sys_inv valued y lin -> belongs y c id ->
  exists cl r s x, y_clients y !! c = Some cl /\ cl_act cl = InCall r s id /\ client_ok valued y lin c cl /\
    s <= y_now y /\ w_calls (y_world y) !! id = Some x /\ c_req x = mkReq (cl_end cl) (svcMeth r) (encoded r) /\
    request_ok valued (y_kv y) lin c (cl_ck cl) r s (stat (c_handler x)) (y_methods y !! id).
Proof.
  intros Hi (cl & r & s & Hc & Ha). pose proof (si_client _ _ _ Hi _ _ Hc) as Hcl.
  pose proof (cl_work _ _ _ _ _ Hcl) as W. unfold work_ok in W. rewrite Ha in W. destruct W as (Hs & x & Hx & Hq & Hr).
  by exists cl, r, s, x.
Qed.

Lemma request_running kv lin c ck r s st t : request_ok valued kv lin c ck r s st (Some t) -> st = Running.
Proof. destruct r; simpl; [intros (_ & _ & H)|intros (_ & _ & _ & H)]; by destruct st. Qed.

Lemma request_not_begun kv lin c ck r s mo :
  request_ok valued kv lin c ck r s NotBegun mo ->
  mo = None /\ request_ok valued kv lin c ck r s Running (Some (TCalled r)).
Proof.
  destruct r; simpl; [intros (? & ? & H)|intros (? & ? & ? & H)]; destruct mo; try done; by split_and!.
Qed.

Lemma request_reply kv lin c ck r s b :
  request_ok valued kv lin c ck r s Running (Some (TReply b)) <-> request_ok valued kv lin c ck r s (Replied b) None.
Proof. by destruct r. Qed.

(** ** Steps of a handler *)

Lemma touch_call y lin c id w' kv' ms' lin' :
  let y' := mkSystem w' kv' ms' (y_clients y) (y_clerkID y) (y_now y + 1) (y_history y) in
  belongs y c id -> steady valued (y_world y) w' -> advances (y_now y) (y_history y) (y_kv y) kv' lin lin' c ->
  (forall i, i <> id -> w_calls w' !! i = w_calls (y_world y) !! i) ->
  (forall i, i <> id -> ms' !! i = y_methods y !! i) ->
  touches valued y y' lin lin' c.
Proof.
  intros y' Hb Hst [A1 A2 A3 A4 A5] Hcalls Hms. split; simpl; try done; try lia.
  - eauto.
  - intros i Hn _. apply Hms. by intros ->.
  - intros i Hn _. apply Hcalls. by intros ->.
  - intros i Hn. by left.
Qed.

Lemma inv_call y lin c id w' kv' ms' lin' cl r s x :
  let y' := mkSystem w' kv' ms' (y_clients y) (y_clerkID y) (y_now y + 1) (y_history y) in
  sys_inv valued y lin -> y_clients y !! c = Some cl -> cl_act cl = InCall r s id ->
  world_ok valued w' -> steady valued (y_world y) w' ->
  advances (y_now y) (y_history y) (y_kv y) kv' lin lin' c ->
  (forall i, i <> id -> w_calls w' !! i = w_calls (y_world y) !! i) ->
  (forall i, i <> id -> ms' !! i = y_methods y !! i) ->
  w_calls w' !! id = Some x -> c_req x = mkReq (cl_end cl) (svcMeth r) (encoded r) ->
  request_ok valued kv' lin' c (cl_ck cl) r s (stat (c_handler x)) (ms' !! id) ->
  sys_inv valued y' lin'.
Proof.
  intros y' Hi Hc Ha Hw Hst Had Hcalls Hms Hx Hq Hr. pose proof (si_client _ _ _ Hi _ _ Hc) as Hcl.
  assert (belongs y c id) as Hb by (by exists cl, r, s).
  eapply (inv_touch valued y y' lin lin' c cl cl); try done; try apply Hcl.
  - by apply (touch_call y lin c id w' kv' ms' lin').
  - apply Had.
  - unfold work_ok. rewrite Ha. simpl. split; [|by exists x].
    pose proof (cl_work _ _ _ _ _ Hcl) as W. unfold work_ok in W. rewrite Ha in W. lia.
Qed.

Lemma method_case y lin id t :
  sys_inv valued y lin -> y_methods y !! id = Some t ->
  (exists b, t = TReply b) \/ exists y' lin', sys_exec valued (S_Method id) y = Done tt y' /\ sys_inv valued y' lin'.
Proof.
  intros Hi Ht. destruct (si_methods _ _ _ Hi id) as [c Hb]; [by exists t|].
  destruct (owner _ _ _ _ Hi Hb) as (cl & r & s & x & Hc & Ha & Hcl & Hs & Hx & Hq & Hr). rewrite Ht in Hr.
  pose proof (request_running _ _ _ _ _ _ _ _ Hr) as Hst. rewrite Hst in Hr.
  assert ((exists b, t = TReply b) \/ forall b, t <> TReply b) as [|Hn] by (destruct t; naive_solver); [by left|right].
  destruct (method_advances valued (y_now y) (y_history y) (y_kv y) lin c (cl_ck cl) r s t)
    as (t' & kv' & lin' & E & Had & Hr'); try done; [apply Hi|apply Hcl|].
  exists (mkSystem (y_world y) kv' (<[id := t']> (y_methods y)) (y_clients y) (y_clerkID y) (y_now y + 1) (y_history y)), lin'.
  split.
  - unfold sys_exec. rewrite bind_modify. unfold step_method. by erewrite the_method_run, on_kv_run.
  - eapply (inv_call y lin c id); try done; [apply Hi| |by rewrite lookup_insert_eq, Hst].
    intros i Hne. by rewrite lookup_insert_ne.
Qed.

Lemma decode_encoded r : decode_request (method_name r) (encoded r) = Some r.
Proof. destruct r as [args|[] args]; simpl; unfold decode_request; simpl; by rewrite ungob_gob. Qed.

Lemma call_case y lin id x rs :
  sys_inv valued y lin -> w_calls (y_world y) !! id = Some x -> c_handler x = HSpawned rs ->
  exists y', sys_exec valued (S_Call id) y = Done tt y' /\ sys_inv valued y' lin.
Proof.
  intros Hi Hx Hh. pose proof (si_world _ _ _ Hi) as Hw.
  assert (returned (c_phase x) = None) as Hret.
  { destruct (c_phase x) eqn:Ep; try done. destruct (world_call_inv _ _ _ _ Hw Hx) as [_ H2 _].
    pose proof (co_drain _ _ _ (wo_calls _ _ Hw _ _ Hx)). unfold phase_ok, can_end in H2. rewrite Ep, Hh in H2.
    destruct H2 as [?|[?|(? & ? & ?)]]; congruence. }
  destruct (si_calls _ _ _ Hi _ _ Hx Hret) as [c Hb].
  destruct (owner _ _ _ _ Hi Hb) as (cl & r & s & x' & Hc & Ha & Hcl & Hs & Hx' & Hq & Hr).
  rewrite Hx in Hx'. injection Hx' as <-. rewrite Hh in Hr. apply request_not_begun in Hr as [Hm Hr].
  pose proof (spawned_server _ _ _ _ _ Hw Hx Hh) as ->.
  destruct (run_runs valued _ _ _ _ _ _ Hw Hx Hq Hh) as (w' & E & Hst & Hcalls).
  exists (mkSystem w' (y_kv y) (<[id := TCalled r]> (y_methods y)) (y_clients y) (y_clerkID y) (y_now y + 1) (y_history y)).
  split.
  - unfold sys_exec. rewrite bind_modify. unfold start_method. erewrite on_world_run by (by apply the_call_done).
    erewrite on_world_run by exact E. rewrite Hq. cbn [rq_svcMeth rq_args].
    rewrite (bind_done _ _ _ _ _ (split_svcMeth_KVServer r _)). cbn [snd]. rewrite decode_encoded. reflexivity.
  - eapply (inv_call y lin c id _ _ _ _ cl r s (with_handler (HRunning 0) x)); try done.
    + eapply world_put; try done; [by exists (A_Run id)|]. by apply with_handler_ok, (wo_calls _ _ Hw id).
    + apply advances_same, Hi.
    + intros i Hne. by rewrite Hcalls, lookup_insert_ne.
    + intros i Hne. by rewrite lookup_insert_ne.
    + by rewrite Hcalls, lookup_insert_eq.
    + simpl. by rewrite lookup_insert_eq.
Qed.

Lemma return_case y lin id b :
  sys_inv valued y lin -> y_methods y !! id = Some (TReply b) ->
  exists y', sys_exec valued (S_Return id) y = Done tt y' /\ sys_inv valued y' lin.
Proof.
  intros Hi Ht. pose proof (si_world _ _ _ Hi) as Hw. destruct (si_methods _ _ _ Hi id) as [c Hb]; [by eexists|].
  destruct (owner _ _ _ _ Hi Hb) as (cl & r & s & x & Hc & Ha & Hcl & Hs & Hx & Hq & Hr). rewrite Ht in Hr.
  pose proof (request_running _ _ _ _ _ _ _ _ Hr) as Hst. rewrite Hst in Hr.
  destruct (c_handler x) as [|rs|rs|rs q|rs q] eqn:Hh; try done.
  destruct (return_runs valued _ _ _ _ b Hx Hh) as (w' & E & Hsd & Hcalls).
  exists (mkSystem w' (y_kv y) (delete id (y_methods y)) (y_clients y) (y_clerkID y) (y_now y + 1) (y_history y)).
  split.
  - unfold sys_exec. rewrite bind_modify. unfold end_method. erewrite the_method_run by exact Ht.
    cbv beta iota. erewrite on_world_run by exact E. reflexivity.
  - eapply (inv_call y lin c id _ _ _ _ cl r s (with_handler (HDone rs (mkReply true b)) x)); try done.
    + eapply world_put; try done; [by eexists|]. by apply with_handler_ok, (wo_calls _ _ Hw id).
    + apply advances_same, Hi.
    + intros i Hne. by rewrite Hcalls, lookup_insert_ne.
    + intros i Hne. simpl. by rewrite lookup_delete_ne.
    + by rewrite Hcalls, lookup_insert_eq.
    + simpl. rewrite lookup_delete_eq. by apply request_reply.
Qed.
(** ** Steps of a clerk *)

(** The call of client [c] is back. *)
Definition call_back (y : system) (i : Z) : Prop :=
  y_methods y !! i = None /\ exists x, w_calls (y_world y) !! i = Some x /\ returned (c_phase x) <> None.

Lemma inv_client y lin c cl cl' w' lin' history' :
  let y' := mkSystem w' (y_kv y) (y_methods y) (<[c := cl']> (y_clients y)) (y_clerkID y) (y_now y + 1) history' in
  sys_inv valued y lin -> y_clients y !! c = Some cl ->
  cl_end cl' = cl_end cl -> ck_id (cl_ck cl') = c -> 0 <= ck_rpcid (cl_ck cl') < 2^32 - 1 ->
  world_ok valued w' -> steady valued (y_world y) w' ->
  (forall i, belongs y c i -> call_back y i) ->
  (forall i, belongs y' c i -> w_calls (y_world y) !! i = None) ->
  (forall i, ~ belongs y' c i -> w_calls w' !! i = w_calls (y_world y) !! i) ->
  lin_ok (y_now y + 1) (kv_data (y_kv y)) history' lin' ->
  (forall c', c' <> c -> pending c' lin' = pending c' lin) ->
  (forall e, e ∈ lin -> op_ClientId (ef_op e) <> c -> e ∈ lin') ->
  work_ok valued y' lin' c cl' -> sys_inv valued y' lin'.
Proof.
  intros y' Hi Hc He Hid Hrpc Hw Hst Hback Hnew Hcalls Hlin Hpend Hkept Hwork.
  eapply (inv_touch valued y y' lin lin' c cl cl'); try done; [|apply lookup_insert_eq].
  split; simpl; try done; try lia.
  - intros c' Hne. by rewrite lookup_insert_ne.
  - intros i _ Hn. by apply Hcalls.
  - intros i Hb Hn. destruct (Hback i Hb) as (Hm & x & Hx & Hr). split; [done|].
    intros x'. rewrite (Hcalls i Hn), Hx. by intros [= <-].
  - intros i Hb. right. by apply Hnew.
Qed.

Lemma fresh_method y lin id :
  sys_inv valued y lin -> w_calls (y_world y) !! id = None -> y_methods y !! id = None.
Proof.
  intros Hi Hn. destruct (y_methods y !! id) eqn:E; [|done].
  destruct (si_methods _ _ _ Hi id) as [c Hb]; [by eexists|].
  destruct (owner _ _ _ _ Hi Hb) as (cl & r & s & x & _ & _ & _ & _ & Hx & _). congruence.
Qed.

(** A clerk sends request [r] as call [id], its first or a further one. *)
Lemma inv_send y lin c cl ck r s id w' :
  sys_inv valued y lin -> y_clients y !! c = Some cl -> ck_id ck = c -> 0 <= ck_rpcid ck < 2^32 - 1 -> s <= y_now y + 1 ->
  exec (A_Call id (mkEnd (cl_end cl)) (svcMeth r) (encoded r)) (y_world y) = Done tt w' ->
  (forall i, belongs y c i -> call_back y i) ->
  request_ok valued (y_kv y) lin c ck r s NotBegun None ->
  sys_inv valued (mkSystem w' (y_kv y) (y_methods y) (<[c := mkClient (cl_end cl) ck (InCall r s id)]> (y_clients y))
    (y_clerkID y) (y_now y + 1) (y_history y)) lin.
Proof.
  intros Hi Hc Hid Hrpc Hs E Hback Hr. destruct (Call_inv valued _ _ _ _ _ _ E) as (Hn & Hst & Hcalls).
  pose proof (si_client _ _ _ Hi _ _ Hc) as Hcl.
  set (y' := mkSystem _ _ _ _ _ _ _). assert (forall i, belongs y' c i <-> i = id) as Hbel.
  { intros i. split.
    - intros (clb & rb & sb & Hb & Hab). subst y'. simpl in Hb. rewrite lookup_insert_eq in Hb. injection Hb as <-.
      by injection Hab.
    - intros ->. eexists _, r, s. split; [apply lookup_insert_eq|done]. }
  eapply (inv_client y lin c cl); try done.
  - eapply world_put; try done; [apply Hi|by eexists|]. split; try done. intros _. apply Hcl.
  - intros i ->%Hbel. done.
  - intros i Hne. rewrite Hcalls, lookup_insert_ne; [done|]. intros <-. by apply Hne, Hbel.
  - eapply lin_later; [|apply Hi]. lia.
  - unfold work_ok. simpl. split; [done|]. eexists. rewrite Hcalls, lookup_insert_eq. split; [done|].
    split; [done|]. simpl. by rewrite (fresh_method _ _ _ Hi Hn).
Qed.

Lemma begin_case y lin c o id y' :
  sys_inv valued y lin -> sys_exec valued (S_Begin c o id) y = Done tt y' -> sys_inv valued y' lin.
Proof.
  intros Hi E. unfold sys_exec in E. rewrite bind_modify in E. unfold begin_op in E.
  apply bind_inv in E as (cl & y1 & [-> Hc]%the_client_inv & E). simpl in Hc. rewrite bind_gets in E. simpl in E.
  destruct (cl_act cl) eqn:Ha; [|done]. destruct (Z.ltb_spec (ck_rpcid (cl_ck cl)) (2^32 - 2)) as [Hb|]; [|done].
  destruct (clerk_request (cl_ck cl) o) as [r ck] eqn:Er. apply bind_inv in E as ([] & y1 & E1 & E).
  apply on_world_inv in E1 as (w' & E1 & ->). injection E as <-. simpl in E1.
  pose proof (si_client _ _ _ Hi _ _ Hc) as [C1 C2 C3 C4 C5 C6]. unfold work_ok in C6. rewrite Ha in C6.
  destruct C6 as [He Hp]. assert (to_uint32 (ck_rpcid (cl_ck cl) + 1) = ck_rpcid (cl_ck cl) + 1) as Hu
    by (apply to_uint32_small; lia).
  apply (inv_send y lin c cl ck r (y_now y + 1) id w'); try done.
  - by destruct o; injection Er as <- <-.
  - destruct o; injection Er as <- <-; simpl; lia.
  - intros i (clb & rb & sb & Hb' & Hab). congruence.
  - destruct o; injection Er as <- <-; simpl; try done; (split_and!; [done..|lia|]; left; simpl; split; [lia|done]).
Qed.

Lemma call_result_inv c y cl r s m y' :
  call_result c y = Done (cl, r, s, m) y' ->
  y' = y /\ exists id x, y_clients y !! c = Some cl /\ cl_act cl = InCall r s id /\
    w_calls (y_world y) !! id = Some x /\ c_phase x = Returned m.
Proof.
  unfold call_result. intros E. apply bind_inv in E as (cl1 & y1 & [-> Hc]%the_client_inv & E).
  destruct (cl_act cl1) as [|r1 s1 id] eqn:Ha; [done|]. apply bind_inv in E as (x & y1 & E1 & E).
  apply on_world_inv in E1 as (w & [-> Hx]%the_call_inv & ->).
  destruct (c_phase x) eqn:Ep; try done. injection E as <- <- <- <- <-. split; [by destruct y|]. by exists id, x.
Qed.

(** The clerk's call is back; how far its handler went. *)
Lemma back_request y lin c cl r s id x m :
  sys_inv valued y lin -> y_clients y !! c = Some cl -> cl_act cl = InCall r s id ->
  w_calls (y_world y) !! id = Some x -> c_phase x = Returned m ->
  (forall i, belongs y c i -> call_back y i) /\
  exists st, st <> Running /\ (rp_ok m = true -> st = Replied (rp_reply m)) /\ (rp_ok m = false -> valued = false) /\
    request_ok valued (y_kv y) lin c (cl_ck cl) r s st None.
Proof.
  intros Hi Hc Ha Hx Hp. pose proof (si_world _ _ _ Hi) as Hw.
  destruct (owner y lin c id Hi) as (cl' & r' & s' & x' & Hc' & Ha' & _ & Hs & Hx' & Hq & Hr); [by exists cl, r, s|].
  rewrite Hc in Hc'. injection Hc' as <-. rewrite Ha in Ha'. injection Ha' as <- <-. rewrite Hx in Hx'. injection Hx' as <-.
  destruct (returned_stat valued _ _ _ _ Hw Hx Hp) as [Hn Hok].
  assert (y_methods y !! id = None) as Hm.
  { destruct (y_methods y !! id) eqn:Hm; [|done]. by apply request_running in Hr. }
  rewrite Hm in Hr. split.
  - intros i (clb & rb & sb & Hb & Hab). rewrite Hc in Hb. injection Hb as <-. rewrite Ha in Hab. injection Hab as _ _ <-.
    split; [done|]. exists x. by rewrite Hp.
  - exists (stat (c_handler x)). split_and!; try done. intros Hf. destruct valued eqn:Hv; [|done].
    pose proof (co_answer _ _ _ (wo_calls _ _ Hw _ _ Hx) m) as Hans. rewrite Hp in Hans. rewrite Hans in Hf; done.
Qed.

Lemma request_again kv lin c ck r s st :
  request_ok valued kv lin c ck r s st None -> st <> Running -> valued = false ->
  request_ok valued kv lin c ck r s NotBegun None.
Proof.
  intros Hr Hn Hv. destruct st as [| |b]; [done..|]. destruct r as [args|op args].
  - by destruct Hr as (? & ? & _).
  - destruct Hr as (H1 & H2 & H3 & H4 & e & p & Hp & [t Hu] & _). simpl. split_and!; try done. right.
    split; [done|]. split; [done|]. exists e. split; [done|]. exists t. rewrite Hu. unfold recorded. rewrite Hv. by destruct op.
Qed.

Lemma retry_case y lin c id y' :
  sys_inv valued y lin -> sys_exec valued (S_Retry c id) y = Done tt y' -> sys_inv valued y' lin.
Proof.
  intros Hi E. unfold sys_exec in E. rewrite bind_modify in E. unfold retry in E.
  apply bind_inv in E as ([[[cl r] s] m] & y1 & Er & E). apply call_result_inv in Er as (-> & id0 & x & Hc & Ha & Hx & Hp).
  simpl in Hc, Hx. destruct (rp_ok m) eqn:Hm; [done|]. apply bind_inv in E as ([] & y1 & E1 & E).
  apply on_world_inv in E1 as (w' & E1 & ->). injection E as <-. simpl in E1.
  pose proof (si_client _ _ _ Hi _ _ Hc) as [C1 C2 C3 C4 C5 C6]. unfold work_ok in C6. rewrite Ha in C6.
  destruct (back_request _ _ _ _ _ _ _ _ _ Hi Hc Ha Hx Hp) as (Hback & st & Hst & _ & Hv & Hr).
  apply (inv_send y lin c cl (cl_ck cl) r s id w'); try done; [lia|].
  eapply request_again; [done..|]. by apply Hv.
Qed.

(** The clerk returns: the effect [e] is the operation's. *)
Lemma inv_finish y lin c cl ck l1 e l2 :
  sys_inv valued y lin -> y_clients y !! c = Some cl -> ck_id ck = c -> 0 <= ck_rpcid ck < 2^32 - 1 ->
  (forall i, belongs y c i -> call_back y i) -> expected (y_kv y) c = ck_rpcid ck + 1 ->
  lin = l1 ++ e :: l2 -> ef_fin e = false -> op_ClientId (ef_op e) = c -> pending c (l1 ++ l2) = [] ->
  sys_inv valued (mkSystem (y_world y) (y_kv y) (y_methods y) (<[c := mkClient (cl_end cl) ck Idle]> (y_clients y))
    (y_clerkID y) (y_now y + 1) (y_history y ++ [ef_op (finish (y_now y + 1) e)])) (l1 ++ finish (y_now y + 1) e :: l2).
Proof.
  intros Hi Hc Hid Hrpc Hback He -> Hf Hec Hp. set (y' := mkSystem _ _ _ _ _ _ _).
  assert (forall i, ~ belongs y' c i) as Hnb.
  { intros i (clb & rb & sb & Hb & Hab). subst y'. simpl in Hb. rewrite lookup_insert_eq in Hb. injection Hb as <-. done. }
  eapply (inv_client y (l1 ++ e :: l2) c cl); try done.
  - apply Hi.
  - intros i Hb. by apply Hnb in Hb.
  - apply lin_finish; [|done]. eapply lin_later; [|apply Hi]. lia.
  - intros c' Hne. rewrite !pending_app, !pending_cons. unfold unclaimed. simpl. rewrite Hec.
    by rewrite (proj2 (Z.eqb_neq c c')), !andb_false_r by congruence.
  - intros e' [?|[->|?]%elem_of_cons]%elem_of_app Hne; [|done|].
    + apply elem_of_app. by left.
    + apply elem_of_app. right. by right.
  - unfold work_ok. simpl. split; [done|]. rewrite pending_app, pending_cons. rewrite pending_app in Hp. done.
Qed.

Lemma end_case y lin c cl r s id x m :
  sys_inv valued y lin -> y_clients y !! c = Some cl -> cl_act cl = InCall r s id ->
  w_calls (y_world y) !! id = Some x -> c_phase x = Returned m -> rp_ok m = true ->
  exists y' lin', sys_exec valued (S_End c) y = Done tt y' /\ sys_inv valued y' lin'.
Proof.
  intros Hi Hc Ha Hx Hp Hok. pose proof (si_client _ _ _ Hi _ _ Hc) as [C1 C2 C3 C4 C5 C6].
  destruct (back_request _ _ _ _ _ _ _ _ _ Hi Hc Ha Hx Hp) as (Hback & st & _ & Hst & _ & Hr). rewrite (Hst Hok) in Hr.
  unfold sys_exec. rewrite bind_modify. unfold end_op.
  erewrite bind_done by (unfold call_result; erewrite the_client_run by exact Hc; rewrite Ha;
    erewrite on_world_run by (by apply the_call_done); rewrite Hp; reflexivity).
  cbv beta iota. rewrite bind_gets, Hok. destruct r as [args|op args].
  - destruct Hr as (He & Hpend & e & Hin & Hf & v & t & Heo & Hb). rewrite Hb.
    apply list_elem_of_split in Hin as (l1 & l2 & ->). eexists _, _. split; [reflexivity|].
    pose proof (inv_finish y _ c cl (cl_ck cl) l1 e l2 Hi Hc C1 C2 Hback He eq_refl Hf) as Hinv.
    rewrite Heo in Hinv. unfold finish in Hinv. rewrite Heo in Hinv. apply Hinv; [done|].
    rewrite pending_app, pending_cons in Hpend. unfold unclaimed in Hpend. rewrite Heo in Hpend. simpl in Hpend.
    rewrite andb_false_r in Hpend. by rewrite pending_app.
  - destruct Hr as (H1 & H2 & H3 & H4 & e & p & Hpend & [t Hu] & Hb & Hn). rewrite Hb.
    apply pending_one in Hpend as (l1 & l2 & -> & Hp1 & Hp2 & Hue).
    assert (ef_fin e = false) as Hf by (unfold unclaimed in Hue; by destruct (ef_fin e)).
    destruct (recorded valued op args (r_Value p)) as [inp out] eqn:Erec. eexists _, _. split; [reflexivity|].
    pose proof (inv_finish y _ c cl (mkClerk (ck_id (cl_ck cl)) (r_RpcID p)) l1 e l2 Hi Hc) as Hinv.
    unfold finish in Hinv. rewrite Hu in Hinv. rewrite Hn, H2 in *. apply Hinv; try done.
    by rewrite pending_app, Hp1, Hp2.
Qed.
(** ** Clients come and go *)

(** The clients other than the one that comes or goes. *)
Lemma inv_table y lin y' :
  sys_inv valued y lin -> y_kv y' = y_kv y -> y_methods y' = y_methods y -> y_history y' = y_history y ->
  y_now y <= y_now y' -> y_clerkID y <= y_clerkID y' -> rtc net_step (y_world y) (y_world y') ->
  w_calls (y_world y') = w_calls (y_world y) -> w_heap (y_world y') = w_heap (y_world y) ->
  servers (w_net (y_world y')) = servers (w_net (y_world y)) ->
  done_closed (w_net (y_world y')) = done_closed (w_net (y_world y)) ->
  reliable (w_net (y_world y')) = reliable (w_net (y_world y)) ->
  (forall c cl, y_clients y !! c = Some cl -> y_clients y' !! c = Some cl \/ cl_act cl = Idle) ->
  (forall c cl, y_clients y !! c = Some cl -> y_clients y' !! c = Some cl ->
    end_ok (y_world y') (cl_end cl) /\ is_Some (ends (w_net (y_world y')) !! cl_end cl)) ->
  world_ok valued (y_world y') /\ lin_ok (y_now y') (kv_data (y_kv y')) (y_history y') lin /\
  (forall c cl, y_clients y !! c = Some cl -> y_clients y' !! c = Some cl -> client_ok valued y' lin c cl) /\
  (forall c id, belongs y c id -> belongs y' c id).
Proof.
  intros Hi Ek Em Eh Hn Hk Hr Hc Hh Hs Hd Hrel Hcls Hends.
  assert (forall c id, belongs y c id -> belongs y' c id) as Hb.
  { intros c id (cl & r & s & Hcl & Ha). exists cl, r, s. destruct (Hcls _ _ Hcl); [done|congruence]. }
  split_and!; [| | |done].
  - eapply world_tables; try done; [apply Hi|]. intros id x Hx Hret.
    destruct (si_calls _ _ _ Hi _ _ Hx Hret) as [c Hbc].
    destruct (owner _ _ _ _ Hi Hbc) as (cl & r & s & x' & Hcl & Ha & _ & _ & Hx' & Hq & _).
    rewrite Hx in Hx'. injection Hx' as <-. rewrite Hq. simpl. apply (Hends c); [done|].
    destruct (Hcls _ _ Hcl); [done|congruence].
  - rewrite Ek, Eh. eapply lin_later; [done|apply Hi].
  - intros c cl H1 H2. destruct (Hends _ _ H1 H2). pose proof (si_client _ _ _ Hi _ _ H1).
    eapply (client_framed valued y y' lin lin); try done. split; try done; try (by rewrite ?Ek, ?Em).
    intros id x _ Hx. exists x. by rewrite Hc.
Qed.

Lemma make_case y lin e y' :
  sys_inv valued y lin -> sys_exec valued (S_MakeClient e) y = Done tt y' -> sys_inv valued y' lin.
Proof.
  intros Hi E. unfold sys_exec in E. rewrite bind_modify in E. unfold make_client in E.
  apply bind_inv in E as ([] & y1 & E1 & E). apply on_world_inv in E1 as (w1 & E1 & ->).
  apply bind_inv in E as ([] & y1 & E2 & E). apply on_world_inv in E2 as (w2 & E2 & ->).
  apply bind_inv in E as ([] & y1 & E3 & E). apply on_world_inv in E3 as (w3 & E3 & ->).
  rewrite bind_gets in E. simpl in *. destruct (Z.ltb_spec (y_clerkID y) (2^32 - 1)) as [Hb|]; [|done].
  pose proof (si_new _ _ _ Hi) as [Hk0 Hfresh]. rewrite to_uint32_small in E by lia. injection E as <-.
  assert (rtc net_step (y_world y) w3) as Hrun.
  { eapply rtc_l; [by exists (A_MakeEnd e)|]. eapply rtc_l; [by exists (A_Connect e (pretty 0))|].
    apply rtc_once. by exists (A_Enable e true). }
  apply bind_inv in E1 as (en & w1' & E1 & [= <-]). apply on_net_done in E1 as (n & E1 & ->).
  unfold MakeEnd in E1. rewrite bind_gets in E1. destruct (ends (w_net (y_world y)) !! e) eqn:He; [done|].
  rewrite bind_modify in E1. injection E1 as <- <-. injection E2 as <-. injection E3 as <-.
  set (y' := set_clients _ _).
  assert (forall c cl, y_clients y !! c = Some cl -> c <> y_clerkID y + 1 /\ cl_end cl <> e) as Hold.
  { intros c cl Hc. pose proof (si_client _ _ _ Hi _ _ Hc) as [_ _ C3 _ [x C5] _]. split; [lia|congruence]. }
  destruct (inv_table y lin y') as (Hw & Hl & Hcl & Hbel); try done; subst y'; simpl; try lia.
  - intros c cl Hc. left. destruct (Hold _ _ Hc). by rewrite lookup_insert_ne.
  - intros c cl Hc _. destruct (Hold _ _ Hc) as [_ Hne]. destruct (si_client _ _ _ Hi _ _ Hc) as [_ _ _ C4 C5 _].
    unfold end_ok, is_enabled, connection_of in *. simpl. rewrite !lookup_insert_ne by done. done.
  - split; try done.
    + intros c cl Hc. simpl in Hc. rewrite lookup_insert in Hc. case_decide as Ec.
      * injection Hc as <-. subst c. split; simpl; try done; try lia.
        -- unfold end_ok, is_enabled, connection_of. simpl. by rewrite !lookup_insert_eq.
        -- rewrite lookup_insert_eq. by eexists.
        -- unfold work_ok. simpl. split; [apply Hfresh; lia|]. apply (si_other _ _ _ Hi).
           destruct (y_clients y !! (y_clerkID y + 1)) as [cl|] eqn:Hc; [|done]. by destruct (Hold _ _ Hc).
      * apply Hcl; [done|]. simpl. by rewrite lookup_insert_ne.
    + intros c1 c2 cl1 cl2. simpl. rewrite !lookup_insert_Some.
      intros [[<- <-]|[_ H1]] [[<- <-]|[_ H2]] Hee; simpl in Hee; [done| | |by eapply (si_ends _ _ _ Hi)].
      * by destruct (Hold _ _ H2).
      * by destruct (Hold _ _ H1).
    + intros c. simpl. rewrite lookup_insert_None. intros [Hn _]. by apply (si_other _ _ _ Hi).
    + simpl. split; [lia|]. intros c Hc. apply Hfresh. lia.
    + intros id x Hx Hret. destruct (si_calls _ _ _ Hi _ _ Hx Hret) as [c Hc]. eauto.
    + intros id Hm. destruct (si_methods _ _ _ Hi _ Hm) as [c Hc]. eauto.
Qed.

Lemma delete_case y lin c y' :
  sys_inv valued y lin -> sys_exec valued (S_DeleteClient c) y = Done tt y' -> sys_inv valued y' lin.
Proof.
  intros Hi E. unfold sys_exec in E. rewrite bind_modify in E. unfold delete_client in E.
  apply bind_inv in E as (cl & y1 & [-> Hc]%the_client_inv & E). simpl in Hc. destruct (cl_act cl) eqn:Ha; [|done].
  apply bind_inv in E as ([] & y1 & E1 & E). apply on_world_inv in E1 as (w1 & E1 & ->). injection E as <-. simpl in *.
  assert (net_step (y_world y) w1) as Hrun by (by exists (A_DeleteEnd (cl_end cl))).
  apply on_net_done in E1 as (n & E1 & ->). unfold DeleteEnd in E1. rewrite bind_gets in E1.
  destruct (ends (w_net (y_world y)) !! cl_end cl) eqn:He; [|done]. injection E1 as <-.
  set (y' := set_clients _ _).
  assert (forall c' cl', y_clients y' !! c' = Some cl' -> y_clients y !! c' = Some cl' /\ c' <> c /\ cl_end cl' <> cl_end cl) as Hold.
  { intros c' cl'. subst y'. simpl. rewrite lookup_delete_Some. intros [Hne Hc']. split_and!; try done.
    intros Hee. by apply Hne, (si_ends _ _ _ Hi c c' cl cl'). }
  destruct (inv_table y lin y') as (Hw & Hl & Hcl & Hbel); try done; subst y'; simpl in *; try lia; [by apply rtc_once| | |].
  - intros c' cl' Hc'. destruct (decide (c' = c)) as [->|]; [right; congruence|left]. by rewrite lookup_delete_ne.
  - intros c' cl' Hc' Hc2. destruct (Hold _ _ Hc2) as (_ & _ & Hne).
    destruct (si_client _ _ _ Hi _ _ Hc') as [_ _ _ C4 C5 _].
    unfold end_ok, is_enabled, connection_of in *. simpl. rewrite !lookup_delete_ne by done. done.
  - split; try done; simpl.
    + intros c' cl' Hc'. apply Hcl; [by apply Hold|done].
    + intros c1 c2 cl1 cl2 H1 H2. by apply (si_ends _ _ _ Hi); apply Hold.
    + intros c'. rewrite lookup_delete_None. intros [<-|Hn]; [|by apply (si_other _ _ _ Hi)].
      pose proof (cl_work _ _ _ _ _ (si_client _ _ _ Hi _ _ Hc)) as W. unfold work_ok in W. rewrite Ha in W. apply W.
    + apply Hi.
    + intros id x Hx Hret. destruct (si_calls _ _ _ Hi _ _ Hx Hret) as [c' Hc']. eauto.
    + intros id Hm. destruct (si_methods _ _ _ Hi _ Hm) as [c' Hc']. eauto.
Qed.

(** * Every step keeps the invariant *)

Lemma net_case y lin a y' :
  sys_inv valued y lin -> sys_exec valued (S_Net a) y = Done tt y' -> sys_inv valued y' lin.
Proof.
  intros Hi E. unfold sys_exec in E. rewrite bind_modify in E. destruct (internal valued a) eqn:Ha; [|done].
  apply on_world_inv in E as (w' & E & ->). apply inv_net; [done| |lia]. by eapply internal_step; [apply Hi|..].
Qed.

Lemma sys_step_inv y lin y' : sys_inv valued y lin -> sys_step valued y y' -> exists lin', sys_inv valued y' lin'.
Proof.
  intros Hi [a E]. destruct a as [a|e|c|c o id|c id|c|id|id|id].
  - exists lin. by eapply net_case.
  - exists lin. by eapply make_case.
  - exists lin. by eapply delete_case.
  - exists lin. by eapply begin_case.
  - exists lin. by eapply retry_case.
  - pose proof E as E0. unfold sys_exec in E0. rewrite bind_modify in E0. unfold end_op in E0.
    apply bind_inv in E0 as ([[[cl r] s] m] & y1 & Er & E0).
    apply call_result_inv in Er as (-> & id & x & Hc & Ha & Hx & Hp). rewrite bind_gets in E0.
    destruct (rp_ok m) eqn:Hm; [|done].
    destruct (end_case y lin c cl r s id x m) as (y2 & lin' & E2 & H2); try done. rewrite E in E2. injection E2 as <-. eauto.
  - pose proof E as E0. unfold sys_exec in E0. rewrite bind_modify in E0. unfold start_method in E0.
    apply bind_inv in E0 as (x & y1 & Ex & E0). apply on_world_inv in Ex as (w & [-> Hx]%the_call_inv & ->).
    apply bind_inv in E0 as ([] & y1 & Er & _). apply on_world_inv in Er as (w' & Er & ->).
    apply run_inv in Er as (x' & rs & Hx' & Hh).
    destruct (call_case y lin id x' rs) as (y2 & E2 & H2); try done. rewrite E in E2. injection E2 as <-. eauto.
  - pose proof E as E0. unfold sys_exec in E0. rewrite bind_modify in E0. unfold step_method in E0.
    apply bind_inv in E0 as (t & y1 & [-> Ht]%the_method_inv & E0).
    destruct (method_case y lin id t) as [[b ->]|(y2 & lin' & E2 & H2)]; try done. rewrite E in E2. injection E2 as <-. eauto.
  - pose proof E as E0. unfold sys_exec in E0. rewrite bind_modify in E0. unfold end_method in E0.
    apply bind_inv in E0 as (t & y1 & [-> Ht]%the_method_inv & E0). destruct t as [| | | |b]; try done.
    destruct (return_case y lin id b) as (y2 & E2 & H2); try done. rewrite E in E2. injection E2 as <-. eauto.
Qed.

Lemma calm_on_world {A} (m : M world A) y : calm m (y_world y) -> calm (on_world m) y.
Proof. intros H p y'. unfold on_world. destruct (m (y_world y)) eqn:E; try done. by destruct (H p0 s). Qed.

Lemma calm_the_client c y : calm (the_client c) y.
Proof. apply calm_bind; [done|]. intros ? y' [= <- <-]. by destruct (y_clients y !! c). Qed.

Lemma calm_the_method id y : calm (the_method id) y.
Proof. apply calm_bind; [done|]. intros ? y' [= <- <-]. by destruct (y_methods y !! id). Qed.

Lemma calm_the_call id w : calm (the_call id) w.
Proof. apply calm_bind; [done|]. intros ? w' [= <- <-]. by destruct (w_calls w !! id). Qed.

Lemma calm_Call id e m args w : calm (exec (A_Call id e m args)) w.
Proof. apply calm_bind; [done|]. intros ? w' [= <- <-]. by destruct (w_calls w !! id). Qed.

#[local] Hint Resolve calm_on_world calm_the_client calm_the_method calm_the_call calm_Call : core.

Lemma calm_call_result c y : calm (call_result c) y.
Proof.
  apply calm_bind; [done|]. intros cl y' _. destruct (cl_act cl) as [|r s id]; [done|].
  apply calm_bind; [auto|]. intros x y2 _. by destruct (c_phase x).
Qed.

(** A handler that does not wait to be called makes S_Call wait. *)
Lemma calm_run id w x : w_calls w !! id = Some x -> (forall rs, c_handler x <> HSpawned rs) -> exists w', exec (A_Run id) w = Blocked w'.
Proof.
  intros Hx Hh. cbn [exec]. unfold run_handler. rewrite (the_call_run _ _ _ _ Hx).
  destruct (c_handler x) as [|rs|rs|rs q|rs q]; try by eexists. by destruct (Hh rs).
Qed.

(** No step panics, but for an end whose name is taken. *)
Lemma no_panic y lin a :
  sys_inv valued y lin -> (forall e, a <> S_MakeClient e) -> calm (sys_exec valued a) y.
Proof.
  intros Hi Hm. apply calm_bind; [done|]. intros [] y' [= <-]. destruct a as [a|e|c|c o id|c id|c|id|id|id].
  - destruct (internal valued a) eqn:Hin; [|done]. apply calm_on_world. intros p w'. by apply (internal_no_panic valued).
  - by destruct (Hm e).
  - apply calm_bind; [done|]. intros cl y' [-> Hc]%the_client_inv. destruct (cl_act cl); [|done].
    destruct (cl_made _ _ _ _ _ (si_client _ _ _ Hi _ _ Hc)) as [en He].
    apply calm_bind; [|done]. apply calm_on_world. intros p w'. cbn [exec]. unfold on_net, DeleteEnd, mbind, M_bind, gets.
    simpl. by rewrite He.
  - apply calm_bind; [done|]. intros cl y' _. apply calm_bind; [done|]. intros now y2 _. destruct (cl_act cl); [|done].
    destruct (_ <? _); [|done]. destruct (clerk_request _ _). by apply calm_bind; [auto|].
  - apply calm_bind; [apply calm_call_result|]. intros [[[cl r] s] m] y' _. destruct (rp_ok m); [done|].
    by apply calm_bind; [auto|].
  - intros p y' E. assert (E0 := E). unfold end_op in E0.
    revert E0. apply calm_bind; [apply calm_call_result|]. intros [[[cl r] s] m] y1 Er.
    apply call_result_inv in Er as (-> & id & x & Hc & Ha & Hx & Hp). apply calm_bind; [done|]. intros now y1 [= <- <-].
    destruct (rp_ok m) eqn:Hok; [|done].
    destruct (end_case y lin c cl r s id x m) as (y2 & lin' & E2 & _); try done.
    unfold sys_exec in E2. rewrite bind_modify in E2. congruence.
  - intros p y' E. assert (E0 := E). unfold start_method in E0.
    revert E0. apply calm_bind; [auto|]. intros x y1 Ex. apply on_world_inv in Ex as (w & [-> Hx]%the_call_inv & ->).
    assert ((exists rs, c_handler x = HSpawned rs) \/ forall rs, c_handler x <> HSpawned rs) as [[rs Hh]|Hh]
      by (destruct (c_handler x); naive_solver).
    + destruct (call_case y lin id x rs) as (y2 & E2 & _); try done.
      unfold sys_exec in E2. rewrite bind_modify in E2. congruence.
    + destruct (calm_run _ _ _ Hx Hh) as [w' Ew]. intros ? ?.
      erewrite bind_blocked by (unfold on_world; cbn [y_world set_world set_now] in *; rewrite Ew; reflexivity). done.
  - intros p y' E. assert (E0 := E). unfold step_method in E0. revert E0. apply calm_bind; [done|].
    intros t y1 [-> Ht]%the_method_inv. destruct (method_case y lin id t Hi Ht) as [[b ->]|(y2 & lin' & E2 & _)]; [done|].
    unfold sys_exec in E2. rewrite bind_modify in E2. congruence.
  - intros p y' E. assert (E0 := E). unfold end_method in E0. revert E0. apply calm_bind; [done|].
    intros t y1 [-> Ht]%the_method_inv. destruct t as [| | | |b]; try done.
    destruct (return_case y lin id b Hi Ht) as (y2 & E2 & _). unfold sys_exec in E2. rewrite bind_modify in E2. congruence.
Qed.

Lemma boot_ok : world_ok valued boot.
Proof.
  split; try done; simpl.
  - eapply rtc_l; [by exists (A_MakeServer 0)|]. eapply rtc_l; [by exists (A_AddService 0 kv_service)|].
    apply rtc_once. exists (A_AddServer (pretty 0) 0). vm_compute. reflexivity.
Qed.

Lemma start_inv : sys_inv valued start_system [].
Proof.
  split; simpl; try done; try (intros *; by rewrite lookup_empty).
  - exact boot_ok.
  - split; try done; [constructor|by intros e ?%elem_of_nil|]. by exists ∅.
Qed.

Lemma sys_reachable y : rtc (sys_step valued) start_system y -> exists lin, sys_inv valued y lin.
Proof.
  revert y. apply (rtc_ind_r (fun y => exists lin, sys_inv valued y lin) start_system); [exists []; exact start_inv|].
  intros y y' _ Hs [lin Hi]. by eapply sys_step_inv.
Qed.
End steps.

(** * Theorems *)

(** The handlers under way that have not answered yet, by client. *)
Definition method_client (t : method_state) : option Z :=
  match t with
  | TCalled (RUpdate _ args) | TSynced _ args _ | TLoaded _ args _ => Some (ClientID args)
  | _ => None
  end.

Section theorems.
Context `{!Gob GetArgs, !Gob GetReply, !Gob PutAppendArgs, !Gob PutAppendReply}.

Lemma request_client valued kv lin c ck r s st t c' :
  request_ok valued kv lin c ck r s st (Some t) -> method_client t = Some c' -> c' = c.
Proof.
  intros Hr Hc. pose proof (request_running _ _ _ _ _ _ _ _ _ Hr) as ->.
  destruct r as [args|op args]; [destruct Hr as (_ & _ & Hr)|destruct Hr as (<- & _ & _ & Hr)];
    destruct t as [[]| | | |]; simpl in *; naive_solver.
Qed.

Lemma history_calls valued y lin :
  sys_inv valued y lin -> Forall (fun x => op_Call x <= op_Return x) (y_history y).
Proof.
  intros Hi. destruct (si_lin _ _ _ Hi) as [_ H2 _ H4]. apply Forall_forall. intros x. rewrite H4. unfold finished.
  intros (e & -> & [Hf He]%list_elem_of_filter)%list_elem_of_fmap. destruct (H2 e He) as [? Hr]. specialize (Hr Hf). lia.
Qed.

Lemma idle_linearizable valued y lin :
  sys_inv valued y lin -> (forall c cl, y_clients y !! c = Some cl -> cl_act cl = Idle) ->
  op_linearizable (store_step in_Key kv_Step "") ∅ (y_history y).
Proof.
  intros Hi Hidle. eapply lin_linearizable; [apply Hi|]. intros c. destruct (y_clients y !! c) as [cl|] eqn:Hc.
  - pose proof (cl_work _ _ _ _ _ (si_client _ _ _ Hi _ _ Hc)) as W. unfold work_ok in W.
    rewrite (Hidle _ _ Hc) in W. apply W.
  - by apply (si_other _ _ _ Hi).
Qed.

(** C8: Linearizability of the key/value service, end to end.  Any number of clerks
    come, work and go; requests and replies are delayed, reordered and dropped and
    calls repeated; the handlers interleave.  Whenever no clerk is in the middle of
    an operation, the history the tests have recorded is linearizable, and the
    checker says so.  With [valued] an Append is recorded with the value it
    returned, as the tests do, and the network stays reliable: on an unreliable
    one that value may be wrong. *)
Theorem kvsrv_linearizable valued y :
  rtc (sys_step valued) start_system y -> (forall c cl, y_clients y !! c = Some cl -> cl_act cl = Idle) ->
  op_linearizable (store_step in_Key kv_Step "") ∅ (y_history y) /\
  forall sort verbose timeout sched fuel,
    sorts sort -> y_history y <> [] ->
    Forall (fun p => CheckerProof.cost (2 * length p) (2 * length p) <= fuel)%nat (kv_Partition (y_history y)) ->
    NoDup sched -> Expired ∉ sched ->
    (forall i, Recv i ∈ sched <-> (i < length (kv_Partition (y_history y)))%nat) ->
    checkOperations sort KvModel (y_history y) verbose timeout sched fuel = Some Ok.
Proof.
  intros Hr Hidle. destruct (sys_reachable valued y Hr) as [lin Hi].
  pose proof (idle_linearizable _ _ _ Hi Hidle) as Hlin. split; [done|].
  intros sort verbose timeout sched fuel H1 H2 H3 H4 H5 H6.
  destruct (kv_history_run sort (y_history y) verbose timeout sched fuel) as (r & -> & _ & Hok); try done.
  { by eapply history_calls. }
  by rewrite (proj2 Hok Hlin).
Qed.

(** The server and its clerks never stop the program, and the handlers of one
    client never overlap: whatever the network does, no step of a handler, of a
    clerk or of a call panics (in particular syncRpcID never sees an identifier
    from the future and a reply can always be decoded), and there is at most one
    handler under way for the updates of a client, which is why syncRpcID needs no
    lock. *)
Theorem kvsrv_never_panics valued y a :
  rtc (sys_step valued) start_system y -> (forall e, a <> S_MakeClient e) ->
  calm (sys_exec valued a) y /\
  forall i j t u c, y_methods y !! i = Some t -> y_methods y !! j = Some u ->
    method_client t = Some c -> method_client u = Some c -> i = j.
Proof.
  intros Hr Ha. destruct (sys_reachable valued y Hr) as [lin Hi]. split.
  - by apply (no_panic valued y lin).
  - intros i j t u c Ht Hu Hct Hcu.
    assert (forall k t, y_methods y !! k = Some t -> method_client t = Some c -> belongs y c k) as Hb.
    { intros k t' Hk Hkc. destruct (si_methods _ _ _ Hi k) as [c' Hb]; [by eexists|].
      destruct (owner _ _ _ _ _ Hi Hb) as (cl & r & s & x & _ & _ & _ & _ & _ & _ & Hq). rewrite Hk in Hq.
      by rewrite (request_client _ _ _ _ _ _ _ _ _ _ Hq Hkc). }
    destruct (Hb _ _ Ht Hct) as (cl & r & s & Hc & Ha1), (Hb _ _ Hu Hcu) as (cl' & r' & s' & Hc' & Ha2). congruence.
Qed.
End theorems.

(** ** Instances *)

(** An encoding: the bits of the number stdpp gives a value of a countable type. *)
Fixpoint pos_bits (p : positive) : string :=
  match p with xH => "" | xO p => String "0"%char (pos_bits p) | xI p => String "1"%char (pos_bits p) end.
Fixpoint bits_pos (s : string) : option positive :=
  match s with
  | EmptyString => Some xH
  | String a s => (if Ascii.eqb a "0"%char then xO else xI) <$> bits_pos s
  end.
Lemma bits_pos_bits p : bits_pos (pos_bits p) = Some p.
Proof. induction p as [p IH|p IH|]; simpl; by rewrite ?IH. Qed.

Lemma countable_round_trip `{Countable A} (a : A) : bits_pos (pos_bits (encode a)) ≫= decode = Some a.
Proof. rewrite bits_pos_bits. simpl. apply decode_encode. Qed.

#[local] Instance countable_gob (A : Type) `{Countable A} : Gob A :=
  Build_Gob A (fun a => pos_bits (encode a)) (fun s => bits_pos s ≫= decode) countable_round_trip.

#[local] Instance GetArgs_eq_dec : EqDecision GetArgs.
Proof. solve_decision. Defined.
#[local] Instance GetReply_eq_dec : EqDecision GetReply.
Proof. solve_decision. Defined.
#[local] Instance PutAppendReply_eq_dec : EqDecision PutAppendReply.
Proof. solve_decision. Defined.
#[local] Instance GetArgs_countable : Countable GetArgs.
Proof. by apply (inj_countable' ga_Key mkGetArgs); intros []. Defined.
#[local] Instance GetReply_countable : Countable GetReply.
Proof. by apply (inj_countable' gr_Value mkGetReply); intros []. Defined.
#[local] Instance PutAppendArgs_countable : Countable PutAppendArgs.
Proof.
  by apply (inj_countable' (fun a => (Key a, Value a, ClientID a, RpcID a))
    (fun '(k, v, c, r) => mkPutAppendArgs k v c r)); intros [].
Defined.
#[local] Instance PutAppendReply_countable : Countable PutAppendReply.
Proof. by apply (inj_countable' (fun a => (r_RpcID a, r_Value a)) (fun '(r, v) => mkPutAppendReply r v)); intros []. Defined.

(** A call that gets through, with [k] pieces of its method; [lost]: its reply is
    dropped. *)
Definition through (id : Z) (k : nat) (lost : bool) : list saction :=
  [S_Net (A_Accept id); S_Net (A_Lookup id); S_Net (A_Spawn id false); S_Call id] ++ replicate k (S_Method id) ++
  [S_Return id; S_Net (A_Receive id); S_Net (A_Decide id lost); S_Net (A_Deliver id)].

(** An unreliable network: clerk 1 appends, and its reply is lost; clerk 2 appends
    to the same key meanwhile; clerk 1 asks again, and clerk 2 reads. *)
Definition two_clerks : list saction :=
  [S_Net (A_Reliable false); S_MakeClient "a"; S_MakeClient "b"; S_Begin 1 (CAppend "k" "x") 10] ++ through 10 2 true ++
  [S_Begin 2 (CAppend "k" "y") 20] ++ through 20 3 false ++ [S_Retry 1 11] ++ through 11 1 false ++
  [S_End 2; S_End 1; S_Begin 2 (CGet "k") 21] ++ through 21 2 false ++ [S_End 2].

Definition final (l : list saction) : system :=
  match sys_run false l start_system with Done _ y => y | _ => start_system end.

Lemma sys_run_reachable valued (l : list saction) y y' : sys_run valued l y = Done tt y' -> rtc (sys_step valued) y y'.
Proof.
  revert y. induction l as [|a l IH]; intros y; simpl; [by intros [= <-]|].
  intros E. apply bind_inv in E as ([] & y1 & E1 & E). eapply rtc_l; [by exists a|eauto].
Qed.

Lemma two_clerks_reach : rtc (sys_step false) start_system (final two_clerks).
Proof. apply (sys_run_reachable false two_clerks). vm_compute. reflexivity. Qed.

Lemma two_clerks_history :
  (fun x => (op_ClientId x, in_Value (op_Input x), out_Value (op_Output x))) <$> y_history (final two_clerks)
  = [(2, "y", ""); (1, "x", ""); (2, "", "xy")]%string.
Proof. vm_compute. reflexivity. Qed.

Definition is_idle (cl : client) : bool := match cl_act cl with Idle => true | InCall _ _ _ => false end.

Lemma idle_clients (cs : gmap Z client) :
  forallb (fun p => is_idle (snd p)) (map_to_list cs) = true -> forall c cl, cs !! c = Some cl -> cl_act cl = Idle.
Proof.
  intros H c cl Hc%elem_of_map_to_list. rewrite forallb_forall in H. specialize (H (c, cl)).
  rewrite <- list_elem_of_In in H. specialize (H Hc). unfold is_idle in H. simpl in H. by destruct (cl_act cl).
Qed.

Lemma kvsrv_linearizable_witness :
  y_history (final two_clerks) <> [] /\
  op_linearizable (store_step in_Key kv_Step "") ∅ (y_history (final two_clerks)).
Proof.
  split; [by vm_compute|]. apply (kvsrv_linearizable false (final two_clerks)); [exact two_clerks_reach|].
  apply idle_clients. vm_compute. reflexivity.
Defined.

(** Clerk 1 is in its second attempt, before its handler looks at the identifier. *)
Definition in_retry : list saction :=
  [S_Net (A_Reliable false); S_MakeClient "a"; S_Begin 1 (CAppend "k" "x") 10] ++ through 10 2 true ++
  [S_Retry 1 11; S_Net (A_Accept 11); S_Net (A_Lookup 11); S_Net (A_Spawn 11 false); S_Call 11].

Lemma in_retry_reach : rtc (sys_step false) start_system (final in_retry).
Proof. apply (sys_run_reachable false in_retry). vm_compute. reflexivity. Qed.

Lemma kvsrv_never_panics_witness :
  calm (sys_exec false (S_Method 11)) (final in_retry) /\
  forall i j t u c, y_methods (final in_retry) !! i = Some t -> y_methods (final in_retry) !! j = Some u ->
    method_client t = Some c -> method_client u = Some c -> i = j.
Proof. apply (kvsrv_never_panics false (final in_retry) (S_Method 11)); [exact in_retry_reach|done]. Defined.
