(* ===== verification/Ticker.v ===== *)
(** time.Ticker, as the two repeat timers use it.

    A ticker keeps at most one tick in its channel, and Stop keeps a tick that is already
    there.  A timer is the goroutine of its owner and the goroutine that runs its callback,
    interleaved at their accesses to the ticker and to the flags they share. *)

From S2P Require Import Prelude.

Record ticker := mkTicker { active : bool; pending : bool }.

Definition NewTicker : ticker := mkTicker true false.
Definition Stop (k : ticker) : ticker := mkTicker false (pending k).
Definition Reset (k : ticker) : ticker := mkTicker true (pending k).
(** The runtime sends a tick, and drops it when the channel is full. *)
Definition tick (k : ticker) : option ticker := if active k then Some (mkTicker true true) else None.
(** [<- ticker.C] *)
Definition await (k : ticker) : option ticker := if pending k then Some (mkTicker (active k) false) else None.
