(* ===== verification/RaftTimer.v ===== *)
(** The repeat timer of raft/timer.go: its owner, which calls [kill] and [reset], and
    the runner that makes the calls.  The callback is one step, and is counted. *)

From S2P Require Import Prelude Ticker.

(** Where the owner is: between two statements of [kill] or [reset]. *)
Inductive owner_pc : Type := OIdle | OKilled | OUnkilled | OTicking | OSeenStopped | OUnstopped.
#[export] Instance owner_pc_eq_dec : EqDecision owner_pc.
Proof. solve_decision. Defined.

(** Where a runner is: before the test of killed, the callback, the receive and
    the store to stopped. *)
Inductive runner_pc : Type := RTest | RCall | RWait | RStop.
#[export] Instance runner_pc_eq_dec : EqDecision runner_pc.
Proof. solve_decision. Defined.

Record RepeatTimer := mkTimer {
  clock : ticker; killed : bool; stopped : bool;
  owner : owner_pc; runners : list runner_pc; calls : nat }.

Definition newRepeatTimer : RepeatTimer := mkTimer NewTicker false false OIdle [RTest] 0.

(** The next statement of [kill] or [reset] the owner is in. *)
Definition owner_turn (t : RepeatTimer) : option RepeatTimer :=
  let '(mkTimer k kd sd o rs n) := t in
  match o with
  | OIdle => None
  | OKilled => Some (mkTimer (Stop k) kd sd OIdle rs n)
  | OUnkilled => Some (mkTimer (Reset k) kd sd OTicking rs n)
  | OTicking => Some (mkTimer k kd sd (if sd then OSeenStopped else OIdle) rs n)
  | OSeenStopped => Some (mkTimer k kd false OUnstopped rs n)
  | OUnstopped => Some (mkTimer k kd sd OIdle (rs ++ [RTest]) n)
  end.

Definition kill (t : RepeatTimer) : option RepeatTimer :=
  let '(mkTimer k kd sd o rs n) := t in
  match o with OIdle => Some (mkTimer k true sd OKilled rs n) | _ => None end.

Definition reset (t : RepeatTimer) : option RepeatTimer :=
  let '(mkTimer k kd sd o rs n) := t in
  match o with OIdle => Some (mkTimer k false sd OUnkilled rs n) | _ => None end.

(** The next statement of runner [i]. *)
Definition runner (i : nat) (t : RepeatTimer) : option RepeatTimer :=
  let '(mkTimer k kd sd o rs n) := t in
  match rs !! i with
  | None => None
  | Some RTest => Some (mkTimer k kd sd o (<[i := if kd then RStop else RCall]> rs) n)
  | Some RCall => Some (mkTimer k kd sd o (<[i := RWait]> rs) (S n))
  | Some RWait => k ← await k; Some (mkTimer k kd sd o (<[i := RTest]> rs) n)
  | Some RStop => Some (mkTimer k kd true o (delete i rs) n)
  end.

Inductive action : Type := AKill | AReset | AOwner | ARunner (i : nat) | ATick.

Definition exec (a : action) (t : RepeatTimer) : option RepeatTimer :=
  match a with
  | AKill => kill t
  | AReset => reset t
  | AOwner => owner_turn t
  | ARunner i => runner i t
  | ATick => k ← tick (clock t); Some (mkTimer k (killed t) (stopped t) (owner t) (runners t) (calls t))
  end.

Definition step (t t' : RepeatTimer) : Prop := exists a, exec a t = Some t'.

Fixpoint run (l : list action) (t : RepeatTimer) : option RepeatTimer :=
  match l with [] => Some t | a :: l => t ← exec a t; run l t end.

(** The goroutines that are not the owner's: the runner and the runtime. *)
Definition others (a : action) : bool := match a with ARunner _ | ATick => true | _ => false end.
Definition is_runner (a : action) : bool := match a with ARunner _ => true | _ => false end.

(** ** The runner is one *)

(** The right to run the callback is at one place: a runner has it, or left it in
    the flag, or a reset has taken it from there. *)
Definition rights (t : RepeatTimer) : nat :=
  length (runners t) + (if stopped t then 1 else 0) + (if decide (owner t = OUnstopped) then 1 else 0).

Definition wf (t : RepeatTimer) : Prop :=
  rights t = 1%nat /\ (owner t = OSeenStopped -> stopped t = true).

Lemma delete_lookup_length {A} (l : list A) i x : l !! i = Some x -> length l = S (length (delete i l)).
Proof. intros H. rewrite length_delete by eauto. apply lookup_lt_Some in H. lia. Qed.

Lemma exec_wf a t t' : wf t -> exec a t = Some t' -> wf t'.
Proof.
  unfold wf, rights, exec, kill, reset, owner_turn, runner. destruct t as [k kd sd o rs n].
  intros [Hr Hs] E. simpl in *.
  destruct a as [| | |i|]; simpl in E.
  1-3: destruct o, sd; simplify_eq/=; rewrite ?length_app in *; simpl in *; split; (lia || naive_solver).
  - destruct (rs !! i) as [[]|] eqn:Hi; simplify_eq/=.
    1-2: by rewrite length_insert.
    + apply bind_Some in E as (k' & _ & E). simplify_eq/=. by rewrite length_insert.
    + rewrite (delete_lookup_length rs i RStop Hi) in Hr. destruct sd, (decide (o = OUnstopped)); split; done || lia.
  - apply bind_Some in E as (k' & _ & E). by simplify_eq/=.
Qed.

Lemma run_wf l t t' : wf t -> run l t = Some t' -> wf t'.
Proof.
  revert t. induction l as [|a l IH]; intros t Ht E; simplify_eq/=; [done|].
  apply bind_Some in E as (t1 & Ea & E). eauto using exec_wf.
Qed.

(** ** After kill *)

(** The calls made, and the one the runner is committed to. *)
Definition committed (t : RepeatTimer) : nat :=
  calls t + (if decide (RCall ∈ runners t) then 1 else 0).

Definition dead (t : RepeatTimer) : Prop :=
  owner t = OIdle /\ killed t = true /\ (length (runners t) <= 1)%nat.

(** A runner and where it is; the others are none. *)
Lemma only_runner (rs : list runner_pc) i r : (length rs <= 1)%nat -> rs !! i = Some r -> rs = [r] /\ i = 0%nat.
Proof. destruct rs as [|x [|y rs]]; simpl; intros Hl Hi; [done| |lia]. destruct i; by simplify_eq/=. Qed.

Lemma exec_dead a t t' :
  dead t -> others a = true -> exec a t = Some t' -> dead t' /\ (committed t' <= committed t)%nat.
Proof.
  unfold dead, committed. destruct t as [k kd sd o rs n]. intros (Ho & Hk & Hl) Ha E. simplify_eq/=.
  destruct a as [| | |i|]; simplify_eq/=.
  - destruct (rs !! i) as [r|] eqn:Hi; [|done]. destruct (only_runner _ _ _ Hl Hi) as [-> ->]. simpl in *.
    destruct r; [| |apply bind_Some in E as (k' & _ & E)|]; simplify_eq/=;
      repeat case_decide; set_unfold; naive_solver lia.
  - apply bind_Some in E as (k' & _ & E). by simplify_eq/=.
Qed.

Lemma run_dead l t t' :
  dead t -> forallb others l = true -> run l t = Some t' -> (committed t' <= committed t)%nat.
Proof.
  revert t. induction l as [|a l IH]; intros t Ht Hl E; simplify_eq/=; [done|].
  apply andb_prop in Hl as [Ha Hl]. apply bind_Some in E as (t1 & Ea & E).
  destruct (exec_dead _ _ _ Ht Ha Ea) as [H1 H2]. specialize (IH _ H1 Hl E). lia.
Qed.

(** ** While it runs *)

Definition ticking (t : RepeatTimer) : Prop :=
  owner t = OIdle /\ killed t = false /\ active (clock t) = true /\
  exists r, runners t = [r] /\ r <> RStop.

(** The statements of the runner until it has made the next call. *)
Definition until_call (t : RepeatTimer) : nat :=
  match runners t with [RTest] => 2 | [RCall] => 1 | _ => 3 end.

Definition runner_turns (l : list action) : nat := length (filter (fun a => is_runner a = true) l).

Lemma exec_ticking a t t' :
  ticking t -> others a = true -> exec a t = Some t' ->
  ticking t' /\ (runner_turns [a] + until_call t' + 3 * calls t = until_call t + 3 * calls t')%nat.
Proof.
  unfold ticking, until_call, runner_turns. destruct t as [k kd sd o rs n].
  intros (Ho & Hk & Hc & r & Hrs & Hr) Ha E. simplify_eq/=.
  destruct a as [| | |i|]; simplify_eq/=.
  - destruct i as [|i]; simplify_eq/=.
    destruct r; [| |apply bind_Some in E as (k' & Hw & E)|]; simplify_eq/=; [split; eauto 10; lia..|].
    unfold await in Hw. destruct (pending k); simplify_eq/=. split; eauto 10; lia.
  - unfold tick in E. rewrite Hc in E. simplify_eq/=. split; eauto 10; lia.
Qed.

Lemma run_ticking l t t' :
  ticking t -> forallb others l = true -> run l t = Some t' ->
  ticking t' /\ (runner_turns l + until_call t' + 3 * calls t = until_call t + 3 * calls t')%nat.
Proof.
  revert t. induction l as [|a l IH]; intros t Ht Hl E; simplify_eq/=; [split; [done|lia]|].
  apply andb_prop in Hl as [Ha Hl]. apply bind_Some in E as (t1 & Ea & E).
  destruct (exec_ticking _ _ _ Ht Ha Ea) as [H1 H2]. destruct (IH _ H1 Hl E) as [H3 H4].
  split; [done|]. revert H2 H4. unfold runner_turns. rewrite !filter_cons, filter_nil. repeat case_decide; simpl; lia.
Qed.

Lemma until_call_pos t : (1 <= until_call t <= 3)%nat.
Proof. unfold until_call. destruct (runners t) as [|[] []]; lia. Qed.

(** From where it is, the runner comes to its next call, with a tick when it waits for one. *)
Definition to_call (t : RepeatTimer) : list action :=
  match runners t with
  | [RTest] => [ARunner 0; ARunner 0]
  | [RCall] => [ARunner 0]
  | _ => [ATick; ARunner 0; ARunner 0; ARunner 0]
  end.

Lemma to_call_calls t :
  ticking t -> forallb others (to_call t) = true /\
  exists t', run (to_call t) t = Some t' /\ calls t' = S (calls t).
Proof.
  unfold ticking, to_call. destruct t as [[ac pd] kd sd o rs n].
  intros (Ho & Hk & Hc & r & Hrs & Hr). simplify_eq/=.
  destruct r; (split; [done|]); [..|done]; eexists; by split.
Qed.

(** Without a runner, no call is made until the owner makes one. *)
Lemma run_none l t t' :
  runners t = [] -> forallb others l = true -> run l t = Some t' -> calls t' = calls t.
Proof.
  revert t. induction l as [|a l IH]; intros t Ht Hl E; simplify_eq/=; [done|].
  apply andb_prop in Hl as [Ha Hl]. apply bind_Some in E as (t1 & Ea & E).
  destruct t as [k kd sd o rs n], a as [| | |i|]; simplify_eq/=.
  apply bind_Some in Ea as (k' & _ & Ea). simplify_eq/=. by apply IH in E.
Qed.

(** ** The theorems *)

(** the timer of raft/timer.go: whatever the owner calls and however the
    goroutines interleave, at most one runner exists; once a call of [kill] has returned,
    and until the owner calls again, the callback is called at most once more; while
    the timer runs (no call under way, not killed, and its runner not leaving), it
    goes on running and makes a call every three statements of the runner, and four
    steps are enough to come to the next call. *)
Theorem raft_timer_runs l t :
  run l newRepeatTimer = Some t ->
  (length (runners t) <= 1)%nat /\
  (owner t = OIdle -> killed t = true ->
   forall l' t', forallb others l' = true -> run l' t = Some t' -> (calls t' <= S (calls t))%nat) /\
  (ticking t ->
   (forall l' t', forallb others l' = true -> run l' t = Some t' ->
      ticking t' /\ (runner_turns l' <= 2 + 3 * (calls t' - calls t))%nat) /\
   exists l' t', (length l' <= 4)%nat /\ forallb others l' = true /\ run l' t = Some t' /\ calls t' = S (calls t)).
Proof.
  intros E. assert (wf t) as [Hr _] by (eapply run_wf; [|done]; done).
  assert (length (runners t) <= 1)%nat as Hl by (unfold rights in Hr; lia).
  split_and!; [done| |intros Ht; split].
  - intros Ho Hk l' t' Hl' E'. assert (committed t' <= committed t)%nat as H by by eapply run_dead.
    unfold committed in H. repeat case_decide; lia.
  - intros l' t' Hl' E'. destruct (run_ticking _ _ _ Ht Hl' E') as [H1 H2]. split; [done|].
    pose proof (until_call_pos t). pose proof (until_call_pos t'). lia.
  - destruct (to_call_calls t Ht) as (H1 & t' & H2 & H3). exists (to_call t), t'. split_and!; [|done..].
    unfold to_call. destruct (runners t) as [|[] []]; simpl; lia.
Qed.

Lemma raft_timer_runs_witness :
  exists t, run [ARunner 0; ARunner 0; ATick; ARunner 0] newRepeatTimer = Some t /\ calls t = 1%nat /\ ticking t /\
    exists l' t', (length l' <= 4)%nat /\ forallb others l' = true /\ run l' t = Some t' /\ calls t' = S (calls t).
Proof.
  eexists. split; [reflexivity|]. split; [done|].
  assert (ticking (mkTimer (mkTicker true false) false false OIdle [RTest] 1)) as Ht.
  { unfold ticking. simpl. eauto 10. }
  split; [exact Ht|].
  apply (raft_timer_runs [ARunner 0; ARunner 0; ATick; ARunner 0] _ eq_refl); exact Ht.
Defined.

(** The runner has seen killed when the owner resets the timer. *)
Definition racing_reset : list action :=
  [ARunner 0; ARunner 0; ATick; ARunner 0; AKill; ARunner 0; AOwner; AReset; AOwner; AOwner; ARunner 0].

(** a [reset] can be lost: when the runner has read killed before [reset]
    clears it and stores stopped after [reset] has tested it, both calls have
    returned, the timer is not killed and its ticker runs, and yet no runner is left, and
    the callback is not called again until the owner calls [reset] once more. *)
Theorem raft_timer_reset_lost :
  exists t, run racing_reset newRepeatTimer = Some t /\
  owner t = OIdle /\ killed t = false /\ active (clock t) = true /\ stopped t = true /\
  forall l' t', forallb others l' = true -> run l' t = Some t' -> calls t' = calls t.
Proof.
  eexists. split; [reflexivity|]. split_and!; [done..|]. intros l' t' Hl' E'. by eapply run_none.
Qed.
