(* ===== verification/HeartBeatTimer.v ===== *)
(** The repeat timer of mr/worker.go, which sends the heartbeats of a worker: the
    worker, which makes it or resets it each time it starts, and the goroutine
    that makes the calls.  The callback is one step, and is counted. *)

From S2P Require Import Prelude Ticker.

(** The owner is between the two statements of [stop] or [reset]. *)
Inductive owner_pc : Type := OIdle | OStopping | OResetting.

(** The goroutine is before the test of stopped, the receive or the callback, or has left. *)
Inductive goroutine : Type := GTest | GWait | GCall | GLeft.

Record RepeatTimer := mkTimer { clock : ticker; stopped : bool; owner : owner_pc; loop : goroutine; calls : nat }.

Definition newRepeatTimer : RepeatTimer := mkTimer NewTicker false OIdle GTest 0.

Definition stop (t : RepeatTimer) : option RepeatTimer :=
  let '(mkTimer k sd o g n) := t in
  match o with OIdle => Some (mkTimer (Stop k) sd OStopping g n) | _ => None end.

Definition reset (t : RepeatTimer) : option RepeatTimer :=
  let '(mkTimer k sd o g n) := t in
  match o with OIdle => Some (mkTimer (Reset k) sd OResetting g n) | _ => None end.

Definition owner_turn (t : RepeatTimer) : option RepeatTimer :=
  let '(mkTimer k sd o g n) := t in
  match o with
  | OIdle => None
  | OStopping => Some (mkTimer k true OIdle g n)
  | OResetting => Some (mkTimer k false OIdle g n)
  end.

Definition loop_turn (t : RepeatTimer) : option RepeatTimer :=
  let '(mkTimer k sd o g n) := t in
  match g with
  | GTest => Some (mkTimer k sd o (if sd then GLeft else GWait) n)
  | GWait => k ← await k; Some (mkTimer k sd o GCall n)
  | GCall => Some (mkTimer k sd o GTest (S n))
  | GLeft => None
  end.

(** What start does with the worker's timer. *)
Definition start_heartbeat (hearBeatTimer : option RepeatTimer) : option RepeatTimer :=
  match hearBeatTimer with None => Some newRepeatTimer | Some t => reset t end.

Inductive action : Type := AStart | AStop | AOwner | ALoop | ATick.

Definition exec (a : action) (t : option RepeatTimer) : option RepeatTimer :=
  match a with
  | AStart => start_heartbeat t
  | AStop => t ≫= stop
  | AOwner => t ≫= owner_turn
  | ALoop => t ≫= loop_turn
  | ATick => t ← t; k ← tick (clock t); Some (mkTimer k (stopped t) (owner t) (loop t) (calls t))
  end.

Fixpoint run (l : list action) (t : option RepeatTimer) : option RepeatTimer :=
  match l with [] => t | a :: l => t ← exec a t; run l (Some t) end.

Definition uses (a : action) : bool := match a with AStop => false | _ => true end.
Definition is_loop (a : action) : bool := match a with ALoop => true | _ => false end.
Definition loop_turns (l : list action) : nat := length (filter (fun a => is_loop a = true) l).

(** The timer as the worker keeps it: it never calls [stop]. *)
Definition alive (t : RepeatTimer) : Prop :=
  stopped t = false /\ active (clock t) = true /\ loop t <> GLeft /\ owner t <> OStopping.

(** The statements of the goroutine until it has made the next call. *)
Definition until_call (t : RepeatTimer) : nat :=
  match loop t with GTest => 3 | GWait => 2 | GCall => 1 | GLeft => 0 end.

Lemma exec_alive a t t' :
  alive t -> uses a = true -> exec a (Some t) = Some t' ->
  alive t' /\ (loop_turns [a] + until_call t' + 3 * calls t = until_call t + 3 * calls t')%nat.
Proof.
  unfold alive, until_call, loop_turns. destruct t as [[ac pd] sd o g n].
  intros (Hs & Hc & Hg & Ho) Ha E. simplify_eq/=.
  destruct a; simplify_eq/=.
  - destruct o; simplify_eq/=. split_and!; done || lia.
  - destruct o; simplify_eq/=. split_and!; done || lia.
  - destruct g, pd; simplify_eq/=; split_and!; done || lia.
  - split_and!; done || lia.
Qed.

Lemma run_alive l t t' :
  alive t -> forallb uses l = true -> run l (Some t) = Some t' ->
  alive t' /\ (loop_turns l + until_call t' + 3 * calls t = until_call t + 3 * calls t')%nat.
Proof.
  revert t. induction l as [|a l IH]; intros t Ht Hl E; [simplify_eq/=; split; [done|lia]|].
  cbn [run forallb] in *. apply andb_prop in Hl as [Ha Hl]. apply bind_Some in E as (t1 & Ea & E).
  destruct (exec_alive _ _ _ Ht Ha Ea) as [H1 H2]. destruct (IH _ H1 Hl E) as [H3 H4].
  split; [done|]. revert H2 H4. unfold loop_turns. rewrite !filter_cons, filter_nil. repeat case_decide; simpl; lia.
Qed.

Lemma next_call t :
  alive t -> exists l t', (length l <= 4)%nat /\ forallb uses l = true /\ run l (Some t) = Some t' /\ calls t' = S (calls t).
Proof.
  unfold alive. destruct t as [[ac pd] sd o g n]. intros (Hs & Hc & Hg & Ho). simplify_eq/=.
  exists (match g with GTest => [ATick; ALoop; ALoop; ALoop] | GWait => [ATick; ALoop; ALoop] | _ => [ALoop] end).
  destruct g; [..|done]; eexists; (split; [simpl; lia|]); by split_and!.
Qed.

Lemma left_for_ever l t t' : loop t = GLeft -> run l (Some t) = Some t' -> loop t' = GLeft /\ calls t' = calls t.
Proof.
  revert t. induction l as [|a l IH]; intros t Hg E; [by simplify_eq/=|].
  cbn [run] in E. apply bind_Some in E as (t1 & Ea & E).
  assert (loop t1 = GLeft /\ calls t1 = calls t) as [H1 <-]; [|by apply IH in E].
  destruct t as [[ac pd] sd o g n]. simplify_eq/=.
  by destruct a, o; simplify_eq/=; destruct ac; simplify_eq/=.
Qed.

(** C32: the heartbeats of a MapReduce worker: through all the times the worker
    starts over and resets the timer, its goroutine stays, makes a call every three of
    its statements, and is at most four steps from the next one.  It is so because the worker
    never calls [stop]: once [stop] has made the goroutine leave, no [reset]
    and nothing else brings a heartbeat any more. *)
Theorem heartbeats_go_on l t :
  run l None = Some t ->
  (forallb uses l = true ->
   (loop_turns l <= 3 * calls t + 2)%nat /\
   exists l' t', (length l' <= 4)%nat /\ forallb uses l' = true /\ run l' (Some t) = Some t' /\ calls t' = S (calls t)) /\
  (loop t = GLeft -> forall l' t', run l' (Some t) = Some t' -> calls t' = calls t).
Proof.
  intros E. split.
  - intros Hl. destruct l as [|a l]; [done|]. cbn [run forallb] in *. apply andb_prop in Hl as [Ha Hl].
    apply bind_Some in E as (t1 & Ea & E). destruct a; simplify_eq/=.
    assert (alive newRepeatTimer) as H0 by done. destruct (run_alive _ _ _ H0 Hl E) as [H1 H2].
    split; [|by apply next_call]. change (loop_turns (AStart :: l)) with (loop_turns l).
    assert (1 <= until_call t)%nat; [|unfold until_call at 2 in H2; simpl in H2; lia].
    destruct H1 as (_ & _ & Hg & _). unfold until_call. destruct (loop t); [lia..|done].
  - intros Hg l' t' E'. by apply left_for_ever in E' as [_ ?].
Qed.

Lemma heartbeats_go_on_witness :
  (exists t, run [AStart; ATick; ALoop; ALoop; ALoop; AStart; AOwner] None = Some t /\ calls t = 1%nat /\
   exists l' t', (length l' <= 4)%nat /\ forallb uses l' = true /\ run l' (Some t) = Some t' /\ calls t' = S (calls t)) /\
  exists t, run [AStart; AStop; AOwner; ALoop; AStart; AOwner] None = Some t /\
    stopped t = false /\ active (clock t) = true /\
    forall l' t', run l' (Some t) = Some t' -> calls t' = calls t.
Proof.
  split.
  - eexists. split; [reflexivity|]. split; [done|].
    by apply (heartbeats_go_on [AStart; ATick; ALoop; ALoop; ALoop; AStart; AOwner] _ eq_refl).
  - eexists. split; [reflexivity|]. split_and!; [done..|].
    by apply (heartbeats_go_on [AStart; AStop; AOwner; ALoop; AStart; AOwner] _ eq_refl).
Defined.
